(* ===== verification/_CoqProject ===== *)
-Q . S2P
Prelude.v
BTree.v
Utf8.v
Slice.v
Ports.v
Errors.v
DockerTar.v
Http.v
HttpDecode.v
LogStream.v
Exchange.v
LogLine.v
LogWait.v
Json.v
Env.v
Mounts.v
Healthcheck.v
RegistryAuth.v
Effect.v
Rollback.v
Wait.v
HttpProbe.v
Request.v
Builder.v
DockerApi.v
CreateBody.v
Wire.v
DockerClient.v
LogSession.v
LogReaders.v
Copy.v
WaitState.v
Container.v
Runner.v
DebugFmt.v
ImageConfig.v
Watchdog.v
JsonFormat.v
Xpc.v
XpcObject.v
Bridge.v
XpcClient.v
Pipes.v
ContainerCfg.v
FdReader.v
MacContainer.v
MacRunner.v
Sync.v
Lifetime.v
Requests.v
