(* ===== verification/Prelude.v ===== *)
(** * shiguredo_container: a verification development

    The crate starts containers for tests and removes them afterwards.  A user
    describes an image and lays settings over it ([src/src/core/image.rs],
    [src/src/core/containers/request.rs]); the runner
    ([src/src/runners/async_runner.rs]) turns the request into calls of a client,
    waits until the container is ready and returns a handle
    ([src/src/core/containers/async_container.rs]); the handle executes
    commands, reads logs, restarts and at the end removes the container.  On
    Linux the client ([src/src/core/client/docker_client.rs]) speaks the Docker
    Engine API over a Unix socket; on macOS another client
    ([src/src/core/client/xpc_client.rs]) sends XPC messages to Apple's container
    services.  Both halves are modelled, from the bytes of a response or the keys
    of a message to the life cycle of a container.

    ** How the parts correspond to the code

    Shared ground: this file (byte strings, [result], list and string
    operations with Rust's meaning), [BTree] ([BTreeMap]), [Utf8] and [Slice]
    (the standard library's text and slice operations), [Errors] (error.rs, with
    the texts, the conversions and the chains of causes), [Effect] (programs and the outside world), [Rollback] (what a
    start owes once its container exists).

    Bytes and formats: [HttpDecode] is client/http_decode.rs over the class of
    third-party decoders of [Http]; [LogStream] is
    client/docker_log_stream.rs, its buffers, demultiplexer, sessions, readers
    and their interleaving, [LogSession] the start and the end of its thread and the
    one-shot reader, [LogReaders] the readers the handle gives out and the collection
    of a whole log; [Exchange] is the loop that reads one HTTP response, which
    docker_client.rs and http_strategy.rs share; [LogLine] is logs.rs with line.rs and
    logging_consumer.rs; [LogWait] is wait/log_strategy.rs; [DockerTar] is
    client/docker_tar.rs; [Json] is the JSON writing of docker_client.rs and
    [JsonFormat] that of the macOS client; [RegistryAuth] is
    client/registry_auth.rs; [ImageConfig] is client/image_config.rs.

    Data: [Ports] (ports.rs), [Env] (env.rs), [Mounts] (mounts.rs),
    [Healthcheck] (healthcheck.rs), [Wait] (wait/: the conditions and the request
    of an HTTP wait), [HttpProbe] (the sending of that request to a peer), [Request] (request.rs, image.rs, image/exec.rs, host.rs,
    copy.rs), [Builder] (image_ext.rs, generic.rs), [DebugFmt] (the [Debug] impls that
    hide secrets, with those they go through).

    Linux: [DockerApi] and [CreateBody] are the pure half of
    docker_client.rs, [DockerClient] its requests and the choice of the client
    (client.rs), [Wire] what a well-formed request is and [Requests] the encoders of
    requests; [Copy] is
    [copy_to_sources_linux] of the runner; [WaitState] is the state shared with
    the waiter threads; [Container] is the handle with its wait loops, exec,
    restart, removal and [Drop]; [Runner] is [AsyncRunner::start].

    macOS: [Watchdog] is watchdog.rs and util.rs; [Xpc] is xpc/conn.rs above its
    C functions; below them, over any libxpc, [XpcObject] is how xpc_bridge.c reads a reply and
    [Bridge] how it sends a message, with the context its caller shares with the reply, and
    the connection messages go over;
    [XpcClient] is client/xpc_client.rs, and [Pipes] who owns the pipes of
    its exec; [ContainerCfg] is
    client/container_cfg.rs, from a request to the configuration the service
    reads; [FdReader] is the log readers over descriptors and the delivery task;
    [MacContainer] and [MacRunner] are the [cfg(target_os = "macos")] halves of
    the handle and of the runner, and use [Container] for what both share.

    Without an async runtime: [Sync] is sync_container.rs and sync_runner.rs.

    Together: [Lifetime] is a whole use of the crate, from the start over any calls to
    the end of the handle, on each of the systems.

    ** How state and effects are modelled

    Pure code is a function; a struct is a record; a method that mutates returns
    the new record; [Result] is [result]; a panic is [None].  Code shared between
    threads is a step relation over the shared state: readers and the session
    thread in [LogStream], waiter threads and restarts in [WaitState], the shared
    runtime and its holders in [Sync].  Code that
    talks to the outside is a program of the monad [Effect.M]: it appends what
    it does to a trace and asks a [Host] for the answer, and a [Host] is any
    function of the trace, so that a theorem over all hosts covers a daemon that
    fails or changes at any request.  Who awaits a program may drop it, after a
    [tokio::time::timeout] or for any reason of its own: a [Scope] says at which traces it
    would, and the host whether an event was still in flight then.  An await is cut off
    before its event or while that is in flight, when it happens all the same and only its
    answer is lost ([Effect.perform]); what is ready is taken, however late.  The thread of a
    [spawn_blocking] runs on and its result is lost, code that blocks is cut off nowhere,
    and what the dropped future owns is dropped ([Effect.dropping]).  What a program may do is a class, [Effect.Emits P], whose instances
    follow the structure of the program: that it spares every container
    ([Effect.Spares]), that it sends only known messages ([Xpc.Serves]) or well-formed
    requests ([Wire.Orderly]) is found by instance search.

    Third-party code and the system appear as classes: [Http.ResponseDecoder],
    [Json.JsonLib], [JsonFormat.JsonFormatter], [ImageConfig.JsonText],
    [ImageConfig.ContentStore], [RegistryAuth.Base64], [Wait.HttpEncoder],
    [Copy.FileSystem], [ContainerCfg.FreePorts], [XpcClient.ExecPipes],
    [XpcObject.LibXpc], [LogSession.SessionSystem], [Watchdog.Reapers], [FdReader.LogFile] and the records
    [MacRunner.Platform] and [HttpProbe.Peer];
    their laws, where a theorem needs them, are separate classes that state
    documented behaviour, and each has a concrete instance on which the examples
    run.  Classes are also the interfaces between the parts: [Exchange.ExchangeErrors]
    is what the reading of a response asks of the code that reads it, and
    [Lifetime.LifeLaws] what a handle owes to its user, which both systems implement.

    ** What the theorems show

    - Life cycle on Linux: a start leaks no container whatever fails, and a
      successful one did its steps in order ([Runner.start_no_leak],
      [Runner.start_order]);
      however a started container is used and however its handle ends, it is removed
      exactly once ([Lifetime.linux_container_removed], which names the exceptions); dropping and removing
      ([Container.removal_contract]); a wait that ends has
      seen its conditions hold, and times out only when the time is out
      ([Container.ready_within_spec]); every request, the waiters' included, is a call of
      the API and reads back to what was put into it, so that no name, path, credential or
      answer breaks out of its place, and the encoder refuses none
      ([Requests.requests_encodable]); restart ([Container.restart_spec]); no
      stale exit code ([WaitState.exit_code_fresh]); one request per operation and
      the meaning of its status ([DockerClient.lifecycle_requests]); exec
      ([DockerClient.exec_spec]).
    - Life cycle on macOS: the same for the other half
      ([MacRunner.mac_start_no_leak], [MacRunner.create_refused_removes],
      [Lifetime.mac_container_removed]); nothing
      reaches the service before the request is checked
      ([MacRunner.start_checks_first]); temporary files of a copy go, but
      for one that is being created when the start is dropped
      ([MacRunner.copy_files_removed]); descriptors are closed, but for those a restart was
      being given when it was dropped, and an exit code
      belongs to the current run ([MacContainer.descriptors_closed],
      [MacContainer.exit_code_current]).
    - The pipes of an exec have one owner per end ([Pipes.exec_pipes_owned]); so have
      the objects of a message and the context of its reply ([Bridge.send_refines],
      [Bridge.reply_context]), and the connection they go over ([Bridge.call_released]).
    - Logs: a session that ends, however it ends, ends its streams and tells its
      caller once ([LogSession.log_session_spec]); a log is collected whole
      ([LogReaders.to_vec_spec]); whatever the slicing and the interleaving, readers see the stream in
      order, demultiplexed and bounded, sessions end, wake-ups are not lost, and
      lines reach consumers whole ([LogStream], [LogLine]); the log wait counts
      occurrences across reads ([LogWait]); a follower of a file gives what the
      file holds and its delivery task ends when it may, having delivered the whole
      file, and then does ([FdReader]).
    - The exchange of a request and a response ends, and a response is whole and limited
      ([Exchange.exchange_spec], [HttpProbe.send_request_spec],
      [DockerClient.socket_send_ends]).
    - Formats: archives parse back and are confined to their target ([DockerTar],
      [Copy]); the create body, the health check, the registry header and the
      percent encoding read back as the data they encode ([CreateBody],
      [Healthcheck], [RegistryAuth], [DockerApi]); the reserved headers of an HTTP wait
      ([Wait.build_request_reserved]); debug output hides exactly the secrets
      ([DebugFmt.debug_redacts]); an error's text holds the text of its causes
      ([Errors.causes_told]).
    - Data: ports of a request ([Request], [CreateBody], [Runner],
      [ContainerCfg]), environment
      lists ([Env]), sizes ([Mounts]), port texts ([Ports]), settings laid over an
      image ([Builder]).

    ** Fuel and bounds

    Machine integers are [Z] with their ranges and wrap-around written out.
    Loops over data run on fuel that their theorems prove enough
    ([HttpDecode.feed_ends], [Exchange.exchange_spec], [LogStream.fetch_logs_oneshot_spec],
    [Copy.copy_archive_returns] for a directory of bounded depth,
    [FdReader.follow_reads] once the reader was told to stop,
    [FdReader.deliver_task_ends] once a look at the end of the file ends the task).  The waits of
    [Container] poll for as long as the daemon makes them: they run on fuel, the
    outcome [OutOfFuel] is kept apart from every result, and
    [Container.ready_within_spec] shows that under a time limit it needs as many
    events within the limit as there is fuel.

    ** Not modelled

    The build script; the creation of threads; tracing, which no other code reads, beyond
    the texts of [LogLine]; the [Debug] impls derived for types that no impl of [DebugFmt] shows.
    Where the state of another thread decides, the model leaves it to the environment.  The
    thread of a [spawn_blocking] whose caller was dropped runs on beside what its dropper does
    next; on the trace what it does comes first.  The normalisation of dot segments, which a
    server may do to a target, is not part of [Wire]. *)

From Stdlib Require Export ZArith Lia Bool.
From Stdlib Require Export Strings.Byte.
From Stdlib Require Strings.String.
From stdpp Require Export base tactics numbers option list sets relations.

Export Strings.String.StringSyntax.
#[global] Open Scope Z_scope.
#[global] Set Default Goal Selector "!".

(** ** Bytes

    A Rust [u8] is [byte]; arithmetic on it goes through its value in [Z]. *)

Definition u8 (b : byte) : Z := Z.of_N (Byte.to_N b).

(** The truncating cast [z as u8]. *)
Definition as_u8 (z : Z) : byte :=
  match Byte.of_N (Z.to_N (z mod 256)) with
  | Some b => b
  | None => x00
  end.

Lemma u8_range (b : byte) : 0 <= u8 b < 256.
Proof.
  unfold u8. pose proof (Byte.to_N_bounded b). lia.
Qed.

Lemma u8_inj (a b : byte) : u8 a = u8 b -> a = b.
Proof.
  unfold u8. intros H. apply N2Z.inj in H.
  pose proof (Byte.of_to_N a) as Ha. pose proof (Byte.of_to_N b) as Hb.
  rewrite H in Ha. congruence.
Qed.

Lemma u8_as_u8 (z : Z) : u8 (as_u8 z) = z mod 256.
Proof.
  unfold as_u8, u8.
  pose proof (Z.mod_pos_bound z 256 eq_refl) as Hz.
  destruct (Byte.of_N (Z.to_N (z mod 256))) as [b|] eqn:E.
  - apply Byte.to_of_N in E. rewrite E. lia.
  - apply Byte.of_N_None_iff in E. lia.
Qed.

Lemma as_u8_u8 (b : byte) : as_u8 (u8 b) = b.
Proof.
  apply u8_inj. rewrite u8_as_u8. pose proof (u8_range b).
  apply Z.mod_small. lia.
Qed.

Lemma u8_as_u8_small (z : Z) : 0 <= z < 256 -> u8 (as_u8 z) = z.
Proof. intros. rewrite u8_as_u8. apply Z.mod_small. lia. Qed.

#[export] Instance byte_eq_dec : EqDecision byte.
Proof. intros a b. destruct (Byte.byte_eq_dec a b); [by left | by right]. Defined.

#[export] Instance byte_inhabited : Inhabited byte := populate x00.

(** A property of all bytes, by enumeration. *)
Definition all_bytes : list byte := (fun n => as_u8 (Z.of_nat n)) <$> seq 0 256.
Lemma all_bytes_complete b : b ∈ all_bytes.
Proof.
  apply list_elem_of_fmap. exists (Z.to_nat (u8 b)). pose proof (u8_range b).
  rewrite Z2Nat.id by lia. split; [by rewrite as_u8_u8 | apply elem_of_seq; lia].
Qed.
Lemma byte_forall (f : byte -> bool) : forallb f all_bytes = true -> forall b, f b = true.
Proof. intros H b. rewrite List.forallb_forall in H. apply H, list_elem_of_In, all_bytes_complete. Qed.

(** ** Rust strings

    A [String] / [&str] is its UTF-8 byte sequence: every operation of the
    modelled code (length, splitting at an ASCII character, prefix tests)
    works on the bytes. *)

Abbreviation str := (list byte).

(** The byte string of an ASCII literal, Rust's [b"..."] and ["..."]. *)
Definition lit (s : Strings.String.string) : str := Strings.String.list_byte_of_string s.
Arguments lit s%_string_scope.

(** ** Lengths and slices *)

(** [v.len()] as an integer. *)
Definition len {A} (l : list A) : Z := Z.of_nat (length l).

(** [&v[..n]] and [&v[n..]]; the code's bounds are proved where it slices. *)
Definition ztake {A} (n : Z) (l : list A) : list A := take (Z.to_nat n) l.
Definition zdrop {A} (n : Z) (l : list A) : list A := drop (Z.to_nat n) l.

Create Rewrite HintDb len.

Section Len.
Context {A : Type}.
Implicit Types l k : list A.

Lemma len_nil : len (@nil A) = 0.
Proof. reflexivity. Qed.
Lemma len_cons x l : len (x :: l) = 1 + len l.
Proof. unfold len. cbn [length]. lia. Qed.
Lemma len_app l k : len (l ++ k) = len l + len k.
Proof. unfold len. rewrite length_app. lia. Qed.
Lemma len_nonneg l : 0 <= len l.
Proof. unfold len. lia. Qed.
Lemma len_ztake n l : len (ztake n l) = Z.max 0 (Z.min n (len l)).
Proof. unfold len, ztake. rewrite length_take. lia. Qed.
Lemma len_zdrop n l : len (zdrop n l) = Z.max 0 (len l - Z.max 0 n).
Proof. unfold len, zdrop. rewrite length_drop. lia. Qed.
Lemma len_replicate n (x : A) : len (replicate n x) = Z.of_nat n.
Proof. unfold len. by rewrite length_replicate. Qed.

Lemma len_0_nil l : len l = 0 -> l = [].
Proof. destruct l; [done|]. rewrite len_cons. pose proof (len_nonneg l). lia. Qed.

Lemma ztake_zdrop n l : ztake n l ++ zdrop n l = l.
Proof. apply take_drop. Qed.
Lemma ztake_ge n l : len l <= n -> ztake n l = l.
Proof. unfold len, ztake. intros. apply take_ge. lia. Qed.
Lemma zdrop_ge n l : len l <= n -> zdrop n l = [].
Proof. unfold len, zdrop. intros. apply drop_ge. lia. Qed.
Lemma ztake_le n l : n <= 0 -> ztake n l = [].
Proof. unfold ztake. intros. replace (Z.to_nat n) with 0%nat by lia. done. Qed.
Lemma zdrop_le n l : n <= 0 -> zdrop n l = l.
Proof. unfold zdrop. intros. replace (Z.to_nat n) with 0%nat by lia. done. Qed.
Lemma ztake_app_le n l k : n <= len l -> ztake n (l ++ k) = ztake n l.
Proof. unfold len, ztake. intros. apply take_app_le. lia. Qed.
Lemma zdrop_app_le n l k : n <= len l -> zdrop n (l ++ k) = zdrop n l ++ k.
Proof. unfold len, zdrop. intros. apply drop_app_le. lia. Qed.
Lemma ztake_app_ge n l k : len l <= n -> ztake n (l ++ k) = l ++ ztake (n - len l) k.
Proof.
  unfold len, ztake. intros. rewrite take_app_ge by lia.
  by replace (Z.to_nat (n - Z.of_nat (length l))) with (Z.to_nat n - length l)%nat by lia.
Qed.
Lemma zdrop_app_ge n l k : len l <= n -> zdrop n (l ++ k) = zdrop (n - len l) k.
Proof.
  unfold len, zdrop. intros. rewrite drop_app_ge by lia.
  by replace (Z.to_nat (n - Z.of_nat (length l))) with (Z.to_nat n - length l)%nat by lia.
Qed.
Lemma zdrop_zdrop n m l : 0 <= n -> 0 <= m -> zdrop n (zdrop m l) = zdrop (m + n) l.
Proof. unfold zdrop. intros. rewrite drop_drop. f_equal. lia. Qed.
Lemma ztake_add n m l : 0 <= n -> 0 <= m -> ztake (n + m) l = ztake n l ++ ztake m (zdrop n l).
Proof.
  intros. rewrite <- (ztake_zdrop n l) at 1. destruct (Z.leb_spec n (len l)) as [Hle|Hgt].
  - assert (len (ztake n l) = n) as E by (rewrite len_ztake; lia).
    rewrite ztake_app_ge by lia. do 2 f_equal. lia.
  - rewrite zdrop_ge, app_nil_r by lia. rewrite (ztake_ge m []) by (rewrite len_nil; lia).
    rewrite app_nil_r. apply ztake_ge. rewrite len_ztake. lia.
Qed.
End Len.

#[export] Hint Rewrite @len_nil @len_cons @len_app @len_ztake @len_zdrop @len_replicate : len.

(** Linear arithmetic about lengths. *)
Ltac len_pos :=
  repeat match goal with
  | |- context [len ?l] => lazymatch goal with
      | H : 0 <= len l |- _ => fail
      | _ => pose proof (len_nonneg l) end
  | H0 : context [len ?l] |- _ => lazymatch goal with
      | H : 0 <= len l |- _ => fail
      | _ => pose proof (len_nonneg l) end
  end.
Ltac llia := autorewrite with len in *; len_pos; lia.

(** ** Fallible code

    Rust's [Result<A, E>], in stdpp's monad notation [x ← e; k]. *)

Inductive result (E A : Type) : Type :=
| Ok (a : A)
| Err (e : E).
Arguments Ok {E A} a.
Arguments Err {E A} e.

#[export] Instance result_ret E : MRet (result E) := fun A => Ok.
#[export] Instance result_bind E : MBind (result E) := fun A B f r =>
  match r with Ok a => f a | Err e => Err e end.
#[export] Instance result_fmap E : FMap (result E) := fun A B f r =>
  match r with Ok a => Ok (f a) | Err e => Err e end.

#[export] Instance Ok_inj E A : Inj eq eq (@Ok E A).
Proof. intros a b E0. congruence. Qed.

(** [.ok_or_else(|| e)]. *)
Definition ok_or {E A} (o : option A) (e : E) : result E A :=
  match o with Some a => Ok a | None => Err e end.

(** [.map_err(f)] and [.ok()]. *)
Definition map_err {E F A} (f : E -> F) (r : result E A) : result F A :=
  match r with Ok a => Ok a | Err e => Err (f e) end.
Definition to_ok {E A} (r : result E A) : option A :=
  match r with Ok a => Some a | Err _ => None end.

Definition is_ok {E A} (r : result E A) : bool :=
  match r with Ok _ => true | Err _ => false end.

Lemma bind_Ok {E A B} (r : result E A) (f : A -> result E B) b :
  r ≫= f = Ok b <-> exists a, r = Ok a /\ f a = Ok b.
Proof.
  destruct r as [a|e]; cbn; split.
  - eauto.
  - intros (a' & [= ->] & H). exact H.
  - discriminate.
  - intros (a' & [=] & _).
Qed.

Lemma ok_or_Ok {E A} (o : option A) (e : E) a : ok_or o e = Ok a <-> o = Some a.
Proof. destruct o; cbn; split; congruence. Qed.

(** Decompose the successful runs of a sequence of binds in a hypothesis. *)
Ltac inv_ok H :=
  repeat first
    [ apply bind_Ok in H as (? & ? & H)
    | match type of H with
      | (if ?b then Err _ else _) = Ok _ => destruct b eqn:?; [discriminate H|]
      | (if ?b then _ else Err _) = Ok _ => destruct b eqn:?; [|discriminate H]
      end ].

(** ** Machine integers

    An integer of a Rust type is the [Z] it denotes; an operation that can
    leave the range says what the code does there: [checked_*] gives [None],
    a wrapping operation reduces. *)

Definition U16_MAX : Z := 2 ^ 16 - 1.
Definition U32_MAX : Z := 2 ^ 32 - 1.
Definition U64_MAX : Z := 2 ^ 64 - 1.
Definition I64_MAX : Z := 2 ^ 63 - 1.
Definition I64_MIN : Z := - 2 ^ 63.

(** [usize] on the 64-bit targets the crate supports. *)
Definition USIZE_MAX : Z := U64_MAX.

Definition in_range (lo hi z : Z) : bool := (lo <=? z) && (z <=? hi).

Definition checked (lo hi z : Z) : option Z :=
  if in_range lo hi z then Some z else None.

Lemma in_range_true lo hi z : in_range lo hi z = true <-> lo <= z <= hi.
Proof. unfold in_range. lia. Qed.

Lemma checked_Some lo hi z r : checked lo hi z = Some r <-> r = z /\ lo <= z <= hi.
Proof.
  unfold checked. destruct (in_range lo hi z) eqn:E.
  - apply in_range_true in E. split; [intros [= ->]; lia | intros [-> _]; done].
  - split; [done|]. intros [_ H]. apply in_range_true in H. congruence.
Qed.

Lemma checked_ok lo hi z : lo <= z <= hi -> checked lo hi z = Some z.
Proof. intros. by apply checked_Some. Qed.

Lemma checked_None lo hi z : checked lo hi z = None <-> ~ (lo <= z <= hi).
Proof.
  unfold checked. destruct (in_range lo hi z) eqn:E.
  - apply in_range_true in E. split; [done|]. lia.
  - split; [|done]. intros _ H. apply in_range_true in H. congruence.
Qed.

(** ** Decimal integers

    [Display] and [FromStr] of Rust's integers. *)

Definition digit_byte (d : Z) : byte := as_u8 (48 + d).

Fixpoint show_digits (fuel : nat) (n : Z) (acc : str) : str :=
  match fuel with
  | O => acc
  | S f => let acc' := digit_byte (n mod 10) :: acc in
           if n / 10 =? 0 then acc' else show_digits f (n / 10) acc'
  end.

(** One decimal digit takes more than one bit, so the bit length is enough fuel. *)
Definition show_nat (n : Z) : str := show_digits (S (Z.to_nat (Z.log2 n))) n [].

Definition show_Z (n : Z) : str :=
  if n <? 0 then "-"%byte :: show_nat (- n) else show_nat n.

Definition is_digit (b : byte) : bool := in_range 48 57 (u8 b).

Inductive ParseIntError := IntEmpty | InvalidDigit | PosOverflow | NegOverflow.

Definition show_ParseIntError (e : ParseIntError) : str :=
  match e with
  | IntEmpty => lit "cannot parse integer from empty string"
  | InvalidDigit => lit "invalid digit found in string"
  | PosOverflow => lit "number too large to fit in target type"
  | NegOverflow => lit "number too small to fit in target type"
  end.

(** The digit loop: multiply and add (or subtract, for a negative number)
    with overflow checks, left to right. *)
Fixpoint parse_digits (lo hi sgn : Z) (s : str) (acc : Z) : result ParseIntError Z :=
  match s with
  | [] => Ok acc
  | b :: s' =>
      if is_digit b then
        let over := if sgn <? 0 then NegOverflow else PosOverflow in
        match checked lo hi (acc * 10) with
        | None => Err over
        | Some m =>
            match checked lo hi (m + sgn * (u8 b - 48)) with
            | None => Err over
            | Some a => parse_digits lo hi sgn s' a
            end
        end
      else Err InvalidDigit
  end.

(** [str::parse::<T>()] for the integer type with range [lo..=hi]: an optional
    [+], an optional [-] for the signed types, then at least one digit. *)
Definition parse_int (lo hi : Z) (s : str) : result ParseIntError Z :=
  match s with
  | [] => Err IntEmpty
  | [b] => if (u8 b =? 43) || (u8 b =? 45) then Err InvalidDigit
           else parse_digits lo hi 1 s 0
  | b :: s' =>
      if u8 b =? 43 then parse_digits lo hi 1 s' 0
      else if (u8 b =? 45) && (lo <? 0) then parse_digits lo hi (-1) s' 0
      else parse_digits lo hi 1 s 0
  end.

Definition parse_u16 : str -> result ParseIntError Z := parse_int 0 U16_MAX.
Definition parse_u32 : str -> result ParseIntError Z := parse_int 0 U32_MAX.
Definition parse_u64 : str -> result ParseIntError Z := parse_int 0 U64_MAX.
Definition parse_i64 : str -> result ParseIntError Z := parse_int I64_MIN I64_MAX.

Section Decimal.
(** The value of a digit string continuing from [acc]. *)
Definition dval (acc : Z) (s : str) : Z :=
  fold_left (fun a b => a * 10 + (u8 b - 48)) s acc.

Lemma u8_digit_byte d : 0 <= d < 10 -> u8 (digit_byte d) = 48 + d.
Proof. intros. apply u8_as_u8_small. lia. Qed.

Lemma is_digit_digit_byte d : 0 <= d < 10 -> is_digit (digit_byte d) = true.
Proof. intros. unfold is_digit. apply in_range_true. rewrite u8_digit_byte; lia. Qed.

Lemma dval_app acc s t : dval acc (s ++ t) = dval (dval acc s) t.
Proof. apply fold_left_app. Qed.

Lemma dval_mono s acc :
  Forall (fun b => is_digit b = true) s -> 0 <= acc -> acc <= dval acc s.
Proof.
  intros Hs. revert acc. induction Hs as [|b s Hb _ IH]; cbn; intros acc Ha; [lia|].
  apply in_range_true in Hb.
  specialize (IH (acc * 10 + (u8 b - 48))). unfold dval in IH. lia.
Qed.

Lemma parse_digits_dval lo hi s acc :
  Forall (fun b => is_digit b = true) s -> lo <= 0 -> 0 <= acc ->
  dval acc s <= hi -> parse_digits lo hi 1 s acc = Ok (dval acc s).
Proof.
  intros Hs Hlo. revert acc. induction Hs as [|b s Hb Hs IH]; cbn -[Z.mul]; intros acc Ha Hd; [done|].
  rewrite Hb. apply in_range_true in Hb.
  pose proof (dval_mono s (acc * 10 + (u8 b - 48)) Hs ltac:(lia)) as Hm.
  unfold dval in *. rewrite !checked_ok by lia.
  replace (acc * 10 + 1 * (u8 b - 48)) with (acc * 10 + (u8 b - 48)) by lia.
  apply IH; lia.
Qed.

Lemma show_digits_spec f n acc :
  0 <= n < 2 ^ Z.of_nat f -> (0 < f)%nat ->
  exists ds, show_digits f n acc = ds ++ acc /\ ds <> [] /\
    Forall (fun b => is_digit b = true) ds /\ dval 0 ds = n.
Proof.
  revert n acc. induction f as [|f IH]; intros n acc Hn Hf; [lia|].
  cbn [show_digits].
  pose proof (Z.mod_pos_bound n 10 eq_refl) as Hm.
  pose proof (Z_div_mod_eq_full n 10) as Hd.
  destruct (Z.eqb_spec (n / 10) 0) as [E|E].
  - exists [digit_byte (n mod 10)]. repeat split; [done| |].
    + constructor; [by apply is_digit_digit_byte | constructor].
    + cbn. rewrite u8_digit_byte by lia. lia.
  - assert (0 <= n / 10) by (apply Z.div_pos; lia).
    assert (f <> 0)%nat by (intros ->; cbn in Hn; lia).
    destruct (IH (n / 10) (digit_byte (n mod 10) :: acc)) as (ds & -> & Hne & Hds & Hv);
      [rewrite Nat2Z.inj_succ, Z.pow_succ_r in Hn by lia; lia | lia |].
    exists (ds ++ [digit_byte (n mod 10)]). repeat split.
    + by rewrite <- app_assoc.
    + by destruct ds.
    + apply Forall_app_2; [done|]. constructor; [by apply is_digit_digit_byte | constructor].
    + rewrite dval_app, Hv. cbn. rewrite u8_digit_byte by lia. lia.
Qed.

Lemma show_nat_spec n :
  0 <= n -> show_nat n <> [] /\
    Forall (fun b => is_digit b = true) (show_nat n) /\ dval 0 (show_nat n) = n.
Proof.
  intros Hn. unfold show_nat.
  assert (n < 2 ^ Z.of_nat (S (Z.to_nat (Z.log2 n)))).
  { destruct (Z.eq_dec n 0) as [->|]; [done|].
    pose proof (Z.log2_spec n ltac:(lia)). pose proof (Z.log2_nonneg n).
    rewrite Nat2Z.inj_succ, Z2Nat.id by lia. lia. }
  destruct (show_digits_spec (S (Z.to_nat (Z.log2 n))) n []) as (ds & E & ?); [lia|lia|].
  by rewrite E, app_nil_r.
Qed.

(** Printing an unsigned integer and parsing it back is the identity. *)
Lemma parse_int_show_nat lo hi n :
  lo <= 0 -> 0 <= n <= hi -> parse_int lo hi (show_nat n) = Ok n.
Proof.
  intros Hlo Hn. destruct (show_nat_spec n) as (Hne & Hd & Hv); [lia|].
  pose proof (parse_digits_dval lo hi (show_nat n) 0 Hd Hlo ltac:(lia) ltac:(lia)) as Hp.
  rewrite Hv in Hp. destruct (show_nat n) as [|b s]; [done|].
  apply Forall_cons in Hd as [Hb _]. apply in_range_true in Hb.
  cbn -[parse_digits]. destruct s.
  - destruct (Z.eqb_spec (u8 b) 43), (Z.eqb_spec (u8 b) 45); try lia. exact Hp.
  - destruct (Z.eqb_spec (u8 b) 43), (Z.eqb_spec (u8 b) 45); try lia. exact Hp.
Qed.

Lemma parse_digits_range lo hi sgn s acc n :
  lo <= acc <= hi -> parse_digits lo hi sgn s acc = Ok n -> lo <= n <= hi.
Proof.
  revert acc. induction s as [|b s IH]; cbn; intros acc Ha H; [congruence|].
  destruct (is_digit b); [|done].
  destruct (checked lo hi (acc * 10)) as [m|]; [|done].
  destruct (checked lo hi (m + sgn * (u8 b - 48))) as [a|] eqn:E; [|done].
  apply checked_Some in E as [-> E]. apply IH in H; lia.
Qed.

Lemma parse_int_range lo hi s n : lo <= 0 <= hi -> parse_int lo hi s = Ok n -> lo <= n <= hi.
Proof.
  intros Hz. unfold parse_int. destruct s as [|b [|c s]]; [done| |];
    intros H; repeat case_match; try done; by apply parse_digits_range in H.
Qed.
End Decimal.

(** Membership in concrete list shapes. *)
Ltac mem :=
  rewrite ?not_elem_of_cons, ?not_elem_of_app, ?elem_of_cons, ?elem_of_app in *;
  intuition (congruence || eauto).

(** ** String operations *)

(** [s.split_once(c)], [s.rsplit_once(c)] and [s.split(c)] for a one-byte
    separator. *)
Fixpoint split_once (c : byte) (s : str) : option (str * str) :=
  match s with
  | [] => None
  | x :: s' => if decide (x = c) then Some ([], s')
               else '(l, r) ← split_once c s'; Some (x :: l, r)
  end.

Fixpoint rsplit_once (c : byte) (s : str) : option (str * str) :=
  match s with
  | [] => None
  | x :: s' => match rsplit_once c s' with
               | Some (l, r) => Some (x :: l, r)
               | None => if decide (x = c) then Some ([], s') else None
               end
  end.

Fixpoint split (c : byte) (s : str) : list str :=
  match s with
  | [] => [[]]
  | x :: s' => if decide (x = c) then [] :: split c s'
               else match split c s' with
                    | [] => [[x]]
                    | p :: ps => (x :: p) :: ps
                    end
  end.

(** [sep.join(parts)] *)
Fixpoint join (sep : str) (parts : list str) : str :=
  match parts with
  | [] => []
  | [p] => p
  | p :: ps => p ++ sep ++ join sep ps
  end.

Definition starts_with (p s : str) : bool := bool_decide (take (length p) s = p).
Definition ends_with (p s : str) : bool := starts_with (rev p) (rev s).
Definition strip_prefix (p s : str) : option str :=
  if starts_with p s then Some (drop (length p) s) else None.
Definition contains (c : byte) (s : str) : bool := bool_decide (c ∈ s).

(** [haystack.contains(needle)] for a non-empty needle. *)
Fixpoint contains_str (needle s : str) : bool :=
  starts_with needle s || match s with [] => false | _ :: s' => contains_str needle s' end.

(** [s.trim_start_matches(c)] *)
Fixpoint trim_start_byte (c : byte) (s : str) : str :=
  match s with
  | x :: s' => if decide (x = c) then trim_start_byte c s' else s
  | [] => []
  end.

Definition lower_byte (b : byte) : byte :=
  if in_range 65 90 (u8 b) then as_u8 (u8 b + 32) else b.
Definition to_ascii_lowercase (s : str) : str := lower_byte <$> s.
(** [a.eq_ignore_ascii_case(b)] *)
Definition eq_ignore_ascii_case (a b : str) : bool :=
  bool_decide (to_ascii_lowercase a = to_ascii_lowercase b).

Definition is_ascii_alphanumeric (b : byte) : bool :=
  in_range 48 57 (u8 b) || in_range 65 90 (u8 b) || in_range 97 122 (u8 b).

(** [Path::join] of a relative path. *)
Definition path_join (dir file : str) : str :=
  if bool_decide (dir = []) then file
  else if ends_with (lit "/") dir then dir ++ file
  else dir ++ lit "/" ++ file.

Section StringLemmas.
Implicit Types s l r : str.

Lemma split_once_Some c s l r :
  split_once c s = Some (l, r) <-> s = l ++ c :: r /\ c ∉ l.
Proof.
  revert l r. induction s as [|x s IH]; intros l r; cbn.
  - split; [done|]. intros [H _]. by destruct l.
  - case_decide as E.
    + subst. split.
      * intros [= <- <-]. split; [done | apply not_elem_of_nil].
      * intros [H Hn]. destruct l as [|y l]; [by injection H as <-|].
        injection H as <- _. mem.
    + destruct (split_once c s) as [[l' r']|] eqn:Es; cbn.
      * split.
        -- intros [= <- <-]. destruct (IH l' r') as [[-> Hn] _]; [done|].
           split; [done|]. mem.
        -- intros [H Hn]. destruct l as [|y l]; [by injection H|].
           injection H as <- ->.
           assert (Some (l', r') = Some (l, r)) as [= -> ->]; [|done].
           apply IH. split; [done|]. mem.
      * split; [done|]. intros [H Hn]. destruct l as [|y l]; [by injection H|].
        injection H as <- ->.
        assert (None = Some (l, r)) as [=]. apply IH. split; [done|]. mem.
Qed.

Lemma split_once_None c s : split_once c s = None <-> c ∉ s.
Proof.
  induction s as [|x s IH]; cbn.
  - split; [intros _; apply not_elem_of_nil | done].
  - case_decide as E; subst.
    + split; [done|]. mem.
    + destruct (split_once c s) as [[l r]|]; cbn.
      * split; [done|]. intros H. destruct IH as [_ IH].
        assert (Some (l, r) = None) as [=]. apply IH. mem.
      * split; [|done]. intros _. destruct IH as [IH _]. specialize (IH eq_refl). mem.
Qed.

Lemma rsplit_once_None c s : rsplit_once c s = None <-> c ∉ s.
Proof.
  induction s as [|x s IH]; cbn.
  - split; [intros _; apply not_elem_of_nil | done].
  - destruct (rsplit_once c s) as [[l r]|].
    + split; [done|]. intros H. destruct IH as [_ IH].
      assert (Some (l, r) = None) as [=]. apply IH. mem.
    + destruct IH as [IH _]. specialize (IH eq_refl).
      case_decide; subst; mem.
Qed.

Lemma rsplit_once_Some c s l r :
  rsplit_once c s = Some (l, r) <-> s = l ++ c :: r /\ c ∉ r.
Proof.
  revert l r. induction s as [|x s IH]; intros l r; cbn.
  - split; [done|]. intros [H _]. by destruct l.
  - destruct (rsplit_once c s) as [[l' r']|] eqn:Es.
    + split.
      * intros [= <- <-]. destruct (IH l' r') as [[-> Hn] _]; done.
      * intros [H Hn]. destruct l as [|y l].
        -- injection H as _ ->. apply rsplit_once_None in Hn. congruence.
        -- injection H as <- ->.
           assert (Some (l', r') = Some (l, r)) as [= -> ->]; [by apply IH | done].
    + apply rsplit_once_None in Es. case_decide as E.
      * subst. split; [by intros [= <- <-]|]. intros [H Hn].
        destruct l as [|y l]; [by injection H as <-|]. injection H as <- ->. mem.
      * split; [done|]. intros [H Hn]. destruct l as [|y l]; injection H as ? ?; [done|].
        subst. mem.
Qed.

Lemma split_nonempty c s : split c s <> [].
Proof. destruct s; cbn; [done|]. case_decide; [done|]. by case_match. Qed.

(** Splitting and joining with the same separator. *)
Lemma join_split c s : join [c] (split c s) = s.
Proof.
  induction s as [|x s IH]; cbn; [done|].
  pose proof (split_nonempty c s). destruct (split c s) as [|p ps] eqn:E; [done|].
  case_decide as Hx; [subst x|].
  - cbn [join]. cbn in IH. destruct ps; cbn in *; by rewrite IH.
  - destruct ps; cbn in *; by rewrite IH.
Qed.

Lemma split_no_sep c s : Forall (fun p => c ∉ p) (split c s).
Proof.
  induction s as [|x s IH]; cbn.
  - constructor; [apply not_elem_of_nil | constructor].
  - case_decide; subst.
    + constructor; [apply not_elem_of_nil | done].
    + destruct (split c s) as [|p ps].
      * constructor; [|constructor]. apply not_elem_of_cons. split; [done|apply not_elem_of_nil].
      * apply Forall_cons in IH as [Hp Hps]. constructor; [|done].
        apply not_elem_of_cons. by split.
Qed.

Lemma starts_with_iff p s : starts_with p s = true <-> exists k, s = p ++ k.
Proof.
  unfold starts_with. rewrite bool_decide_eq_true. split.
  - intros H. exists (drop (length p) s). by rewrite <- H at 1; rewrite take_drop.
  - intros [k ->]. apply take_app_length.
Qed.

Lemma ends_with_iff p s : ends_with p s = true <-> exists k, s = k ++ p.
Proof.
  unfold ends_with. rewrite starts_with_iff. split; intros [k H].
  - exists (rev k). apply (f_equal (@rev byte)) in H.
    by rewrite rev_involutive, rev_app_distr, rev_involutive in H.
  - exists (rev k). by rewrite H, rev_app_distr.
Qed.

Lemma contains_str_iff n s : contains_str n s = true <-> exists l r, s = l ++ n ++ r.
Proof.
  induction s as [|x s IH]; cbn; rewrite orb_true_iff, starts_with_iff.
  - split.
    + intros [[k H]|[=]]. exists [], k. done.
    + intros (l & r & H). left. exists r.
      destruct l; [done | discriminate].
  - rewrite IH. split.
    + intros [[k H]|(l & r & ->)]; [by exists [], k | by exists (x :: l), r].
    + intros (l & r & H). destruct l as [|y l].
      * left. by exists r.
      * right. injection H as _ ->. by exists l, r.
Qed.

Lemma contains_true c s : contains c s = true <-> c ∈ s.
Proof. apply bool_decide_eq_true. Qed.
Lemma contains_false c s : contains c s = false <-> c ∉ s.
Proof. apply bool_decide_eq_false. Qed.

Lemma trim_start_byte_spec c s :
  exists n, s = replicate n c ++ trim_start_byte c s /\
    (forall k, trim_start_byte c s <> c :: k).
Proof.
  induction s as [|x s (n & Hs & Hn)]; cbn.
  - by exists 0%nat.
  - case_decide as E; subst.
    + exists (S n). cbn. split; [by f_equal | done].
    + exists 0%nat. split; [done|]. by intros k [= ->].
Qed.

Lemma split_app c p s : split c (p ++ c :: s) = split c p ++ split c s.
Proof.
  induction p as [|x p IH]; cbn.
  - by rewrite decide_True by done.
  - rewrite IH. case_decide; [done|]. pose proof (split_nonempty c p).
    by destruct (split c p).
Qed.

Lemma split_solid c s : c ∉ s -> split c s = [s].
Proof.
  induction s as [|x s IH]; cbn; [done|]. rewrite not_elem_of_cons. intros [Hx Hs].
  by rewrite decide_False, (IH Hs) by congruence.
Qed.

Lemma join_pieces sep (l r : list str) : l <> [] -> r <> [] -> join sep (l ++ r) = join sep l ++ sep ++ join sep r.
Proof.
  intros Hl Hr. induction l as [|x l IH]; [done|].
  destruct l as [|y l]; cbn in *; [by destruct r|]. rewrite IH by done. by rewrite !app_assoc.
Qed.

(** Splitting what was joined, when no piece has the separator. *)
Lemma split_join c (l : list str) : l <> [] -> Forall (fun p => c ∉ p) l -> split c (join [c] l) = l.
Proof.
  intros Hl H. induction H as [|x l Hx H IH]; [done|]. destruct l as [|y l].
  - by apply split_solid.
  - change (join [c] (x :: y :: l)) with (x ++ c :: join [c] (y :: l)).
    by rewrite split_app, IH, split_solid by done.
Qed.

(** An empty piece comes from a separator at an end, or from two in a row. *)
Lemma split_nil_piece c s :
  [] ∈ split c s -> s = [] \/ starts_with [c] s = true \/ ends_with [c] s = true \/
    contains_str [c; c] s = true.
Proof.
  intros (l & r & E)%list_elem_of_split. pose proof (join_split c s) as Hs. rewrite E in Hs.
  destruct (decide (l = [])) as [->|Hl], (decide (r = [])) as [->|Hr].
  - by left.
  - right. left. apply starts_with_iff. exists (join [c] r). rewrite <- Hs.
    by destruct r.
  - right. right. left. apply ends_with_iff. exists (join [c] l).
    rewrite <- Hs, join_pieces by done. done.
  - right. right. right. apply contains_str_iff. exists (join [c] l), (join [c] r).
    rewrite <- Hs, join_pieces by done. by destruct r.
Qed.
End StringLemmas.
