(* ===== verification/BTree.v ===== *)
(** * [BTreeMap] as a sorted association list

    The code iterates its [BTreeMap]s in key order ([fold_env], the JSON
    objects, [Ports::first_container_port]), so a map is the list of its
    entries sorted by key.  The order of a key type is the interface
    [KeyOrder]; the map operations and their laws are proved against it. *)

From S2P Require Import Prelude.

Class KeyOrder (K : Type) := {
  key_cmp : K -> K -> comparison;
  key_cmp_eq a b : key_cmp a b = Eq <-> a = b;
  key_cmp_flip a b : key_cmp b a = CompOpp (key_cmp a b);
  key_cmp_trans a b c : key_cmp a b = Lt -> key_cmp b c = Lt -> key_cmp a c = Lt;
}.

(** Rust's [Ord] on [u16] and the like, and on [String] (bytewise). *)
#[export] Program Instance Z_key : KeyOrder Z := {| key_cmp := Z.compare |}.
Next Obligation. apply Z.compare_eq_iff. Qed.
Next Obligation. apply Z.compare_antisym. Qed.
Next Obligation. intros a b c. rewrite !Z.compare_lt_iff. lia. Qed.

Fixpoint str_cmp (a b : str) : comparison :=
  match a, b with
  | [], [] => Eq
  | [], _ :: _ => Lt
  | _ :: _, [] => Gt
  | x :: a', y :: b' =>
      match u8 x ?= u8 y with Eq => str_cmp a' b' | c => c end
  end.

#[export] Program Instance str_key : KeyOrder str := {| key_cmp := str_cmp |}.
Next Obligation.
  intros a. induction a as [|x a IH]; intros [|y b]; cbn; try (split; congruence).
  destruct (Z.compare_spec (u8 x) (u8 y)) as [E|E|E].
  - apply u8_inj in E. subst. rewrite IH. split; congruence.
  - split; [done|]. intros [= <- _]. lia.
  - split; [done|]. intros [= <- _]. lia.
Qed.
Next Obligation.
  intros a. induction a as [|x a IH]; intros [|y b]; cbn; try done.
  rewrite (Z.compare_antisym (u8 x) (u8 y)).
  destruct (u8 x ?= u8 y); cbn; auto.
Qed.
Next Obligation.
  intros a. induction a as [|x a IH]; intros [|y b] [|z c]; cbn; try done.
  destruct (Z.compare_spec (u8 x) (u8 y)), (Z.compare_spec (u8 y) (u8 z));
    try done; intros;
    destruct (Z.compare_spec (u8 x) (u8 z)); try lia; eauto.
Qed.

Section BTreeMap.
Context {K V : Type} `{KeyOrder K}.
Implicit Types m : list (K * V).

(** [map.get(&k)] *)
Fixpoint bt_get (k : K) (m : list (K * V)) : option V :=
  match m with
  | [] => None
  | (k', v) :: m' => match key_cmp k k' with
                     | Eq => Some v
                     | _ => bt_get k m'
                     end
  end.

(** [map.insert(k, v)]; the previous value, [insert]'s result, is [bt_get]. *)
Fixpoint bt_insert (k : K) (v : V) (m : list (K * V)) : list (K * V) :=
  match m with
  | [] => [(k, v)]
  | (k', v') :: m' => match key_cmp k k' with
                      | Lt => (k, v) :: m
                      | Eq => (k, v) :: m'
                      | Gt => (k', v') :: bt_insert k v m'
                      end
  end.

(** [entries.into_iter().collect()] and [map.extend(entries)]: later entries win. *)
Definition bt_extend (m : list (K * V)) (es : list (K * V)) : list (K * V) :=
  fold_left (fun m e => bt_insert e.1 e.2 m) es m.
Definition bt_collect (es : list (K * V)) : list (K * V) := bt_extend [] es.

(** The representation invariant: keys strictly increasing. *)
Inductive bt_sorted : list (K * V) -> Prop :=
| bt_sorted_nil : bt_sorted []
| bt_sorted_cons k v m :
    Forall (fun e => key_cmp k e.1 = Lt) m -> bt_sorted m -> bt_sorted ((k, v) :: m).

(** Whether a list of entries binds a key, the last binding winning. *)
Fixpoint last_binding (k : K) (es : list (K * V)) : option V :=
  match es with
  | [] => None
  | (k', v) :: es' =>
      match last_binding k es' with
      | Some v' => Some v'
      | None => match key_cmp k k' with Eq => Some v | _ => None end
      end
  end.

Lemma key_cmp_refl k : key_cmp k k = Eq.
Proof. by apply key_cmp_eq. Qed.

Lemma key_cmp_gt a b : key_cmp a b = Gt -> key_cmp b a = Lt.
Proof. intros E. by rewrite key_cmp_flip, E. Qed.

Lemma bt_insert_Forall (P : K * V -> Prop) k v m :
  P (k, v) -> Forall P m -> Forall P (bt_insert k v m).
Proof.
  intros Hk. induction m as [|[k' v'] m IH]; cbn; intros Hm.
  - by constructor.
  - apply Forall_cons in Hm as [? Hm].
    destruct (key_cmp k k'); repeat constructor; auto.
Qed.

Lemma bt_insert_sorted k v m : bt_sorted m -> bt_sorted (bt_insert k v m).
Proof.
  induction 1 as [|k' v' m Hf Hs IH]; cbn.
  - repeat constructor.
  - destruct (key_cmp k k') eqn:E.
    + apply key_cmp_eq in E. subst. by constructor.
    + constructor; [|by constructor]. constructor; [done|].
      eapply Forall_impl; [exact Hf|]. intros e He. by eapply key_cmp_trans.
    + constructor; [|done]. apply bt_insert_Forall; [|done]. by apply key_cmp_gt.
Qed.

Lemma bt_extend_sorted es m : bt_sorted m -> bt_sorted (bt_extend m es).
Proof.
  revert m. induction es as [|[k v] es IH]; cbn; intros m Hm; [done|].
  apply IH. by apply bt_insert_sorted.
Qed.

Lemma bt_collect_sorted es : bt_sorted (bt_collect es).
Proof. apply bt_extend_sorted. constructor. Qed.

Lemma bt_get_insert_eq k v m : bt_get k (bt_insert k v m) = Some v.
Proof.
  induction m as [|[k' v'] m IH]; cbn.
  - by rewrite key_cmp_refl.
  - destruct (key_cmp k k') eqn:E; cbn; rewrite ?key_cmp_refl, ?E; done.
Qed.

Lemma bt_get_insert_ne k k' v m : k' <> k -> bt_get k' (bt_insert k v m) = bt_get k' m.
Proof.
  intros Hne. induction m as [|[k1 v1] m IH]; cbn.
  - destruct (key_cmp k' k) eqn:E; try done. by apply key_cmp_eq in E.
  - destruct (key_cmp k k1) eqn:E; cbn.
    + apply key_cmp_eq in E. subst.
      destruct (key_cmp k' k1) eqn:E'; try done. by apply key_cmp_eq in E'.
    + destruct (key_cmp k' k) eqn:E'; try done. by apply key_cmp_eq in E'.
    + by rewrite IH.
Qed.

Lemma bt_get_extend k es m :
  bt_get k (bt_extend m es) =
    match last_binding k es with Some v => Some v | None => bt_get k m end.
Proof.
  revert m. induction es as [|[k' v] es IH]; cbn; intros m; [done|].
  fold (bt_extend (bt_insert k' v m) es). rewrite IH.
  destruct (last_binding k es); [done|].
  destruct (key_cmp k k') eqn:E.
  - apply key_cmp_eq in E. subst. apply bt_get_insert_eq.
  - apply bt_get_insert_ne. intros ->. by rewrite key_cmp_refl in E.
  - apply bt_get_insert_ne. intros ->. by rewrite key_cmp_refl in E.
Qed.

Lemma bt_get_collect k es : bt_get k (bt_collect es) = last_binding k es.
Proof. unfold bt_collect. rewrite bt_get_extend. by destruct (last_binding k es). Qed.

Lemma bt_sorted_keys_NoDup m : bt_sorted m -> NoDup m.*1.
Proof.
  induction 1 as [|k v m Hf Hs IH]; cbn; constructor; [|done].
  intros (e & -> & He)%list_elem_of_fmap.
  rewrite Forall_forall in Hf. specialize (Hf e He). by rewrite key_cmp_refl in Hf.
Qed.

Lemma bt_get_elem k v m : bt_sorted m -> bt_get k m = Some v <-> (k, v) ∈ m.
Proof.
  induction 1 as [|k' v' m Hf Hs IH]; cbn.
  - split; [done|]. intros Hk. by apply elem_of_nil in Hk.
  - rewrite elem_of_cons, <- IH. destruct (key_cmp k k') eqn:E.
    + apply key_cmp_eq in E. subst. split; [intros [= ->]; by left|].
      intros [[= ->]|Hk]; [done|]. apply IH in Hk.
      rewrite Forall_forall in Hf. specialize (Hf _ Hk). cbn in Hf.
      by rewrite key_cmp_refl in Hf.
    + split; [by right|]. intros [[= -> ->]|]; [by rewrite key_cmp_refl in E | done].
    + split; [by right|]. intros [[= -> ->]|]; [by rewrite key_cmp_refl in E | done].
Qed.

Lemma bt_get_None k m : bt_get k m = None <-> k ∉ m.*1.
Proof.
  induction m as [|[k' v] m IH]; cbn.
  - split; [intros _; apply not_elem_of_nil | done].
  - rewrite not_elem_of_cons. destruct (key_cmp k k') eqn:E.
    + apply key_cmp_eq in E. split; [done|]. by intros [].
    + rewrite IH. split; [intros ?; split; [|done] | by intros []].
      intros ->. by rewrite key_cmp_refl in E.
    + rewrite IH. split; [intros ?; split; [|done] | by intros []].
      intros ->. by rewrite key_cmp_refl in E.
Qed.

Lemma bt_get_in k v m : bt_get k m = Some v -> (k, v) ∈ m.
Proof.
  induction m as [|[k' v'] m IH]; cbn; [done|]. destruct (key_cmp k k') eqn:E; [|by right; apply IH..].
  intros [= ->]. apply key_cmp_eq in E as ->. by left.
Qed.
Lemma bt_get_key k m : k ∈ m.*1 -> exists v, bt_get k m = Some v.
Proof.
  induction m as [|[k' v'] m IH]; cbn; [by intros ?%elem_of_nil|].
  intros [->|Hk]%elem_of_cons; [rewrite key_cmp_refl; eauto|]. destruct (key_cmp k k'); eauto.
Qed.

Lemma last_binding_elem k v es : last_binding k es = Some v -> (k, v) ∈ es.
Proof.
  induction es as [|[k' v'] es IH]; cbn; [done|]. destruct (last_binding k es) as [w|].
  - intros [= ->]. right. auto.
  - destruct (key_cmp k k') eqn:E; try done. apply key_cmp_eq in E. intros [= ->]. subst. by left.
Qed.

Lemma last_binding_None k es : last_binding k es = None <-> k ∉ es.*1.
Proof.
  induction es as [|[k' v'] es IH]; cbn.
  - split; [intros _; apply not_elem_of_nil | done].
  - rewrite not_elem_of_cons. destruct (last_binding k es) as [w|] eqn:El.
    + split; [done|]. intros [_ H0]. apply IH in H0. done.
    + destruct (key_cmp k k') eqn:E.
      * apply key_cmp_eq in E. split; [done|]. by intros [].
      * split; [|done]. intros _. split; [|by apply IH].
        intros ->. by rewrite key_cmp_refl in E.
      * split; [|done]. intros _. split; [|by apply IH].
        intros ->. by rewrite key_cmp_refl in E.
Qed.

(** Entries with distinct keys are all kept. *)
Lemma last_binding_NoDup k v es :
  NoDup es.*1 -> last_binding k es = Some v <-> (k, v) ∈ es.
Proof.
  intros Hn. split; [apply last_binding_elem|].
  induction es as [|[k' v'] es IH]; cbn in *; [by intros Hk%elem_of_nil|].
  apply NoDup_cons in Hn as [Hni Hn]. rewrite elem_of_cons. intros [[= -> ->]|Hk].
  - apply last_binding_None in Hni. rewrite Hni. by rewrite key_cmp_refl.
  - by rewrite (IH Hn Hk).
Qed.

(** The first entry has the least key. *)
Lemma bt_sorted_first k v m k' :
  bt_sorted ((k, v) :: m) -> k' ∈ ((k, v) :: m).*1 -> key_cmp k k' <> Gt.
Proof.
  inversion 1 as [|? ? ? Hf Hs]; subst. cbn. rewrite elem_of_cons.
  intros [->|(e & -> & He)%list_elem_of_fmap].
  - by rewrite key_cmp_refl.
  - rewrite Forall_forall in Hf. by rewrite (Hf e He).
Qed.
End BTreeMap.

Create HintDb btree.
#[export] Hint Constructors bt_sorted : btree.
#[export] Hint Resolve bt_insert_sorted bt_extend_sorted bt_collect_sorted bt_sorted_keys_NoDup : btree.
