(* ===== verification/Utf8.v ===== *)
(** * UTF-8

    [str::from_utf8] and [String::from_utf8_lossy], over byte sequences, with
    the decoding steps of the Rust standard library: a malformed sequence is
    consumed up to the first byte that cannot continue it. *)

From S2P Require Import Prelude.

Definition is_cont (b : option byte) : bool :=
  match b with Some b => in_range 128 191 (u8 b) | None => false end.
Definition second_in (lo hi : Z) (b : option byte) : bool :=
  match b with Some b => in_range lo hi (u8 b) | None => false end.

(** One step at a lead byte: how many bytes, and whether they are a character. *)
Definition utf8_step (b : byte) (s : list byte) : bool * nat :=
  let x := u8 b in
  let lead3 lo hi :=
    if second_in lo hi (s !! 0%nat) then
      if is_cont (s !! 1%nat) then (true, 3%nat) else (false, 2%nat)
    else (false, 1%nat) in
  let lead4 lo hi :=
    if second_in lo hi (s !! 0%nat) then
      if is_cont (s !! 1%nat) then
        if is_cont (s !! 2%nat) then (true, 4%nat) else (false, 3%nat)
      else (false, 2%nat)
    else (false, 1%nat) in
  if x <? 128 then (true, 1%nat)
  else if in_range 194 223 x then
    if is_cont (s !! 0%nat) then (true, 2%nat) else (false, 1%nat)
  else if x =? 224 then lead3 160 191
  else if in_range 225 236 x || in_range 238 239 x then lead3 128 191
  else if x =? 237 then lead3 128 159
  else if x =? 240 then lead4 144 191
  else if in_range 241 243 x then lead4 128 191
  else if x =? 244 then lead4 128 143
  else (false, 1%nat).

(** The chunks of a byte sequence, in order: a character, or a malformed run. *)
Fixpoint utf8_chunks (fuel : nat) (s : list byte) : list (bool * list byte) :=
  match fuel, s with
  | S f, b :: s' =>
      let '(ok, n) := utf8_step b s' in
      (ok, take n s) :: utf8_chunks f (drop n s)
  | _, _ => []
  end.

(** Every chunk consumes at least one byte, so the length is enough fuel. *)
Definition chunks (s : list byte) : list (bool * list byte) := utf8_chunks (length s) s.

(** [str::from_utf8(s).ok()]: the bytes themselves when they are UTF-8. *)
Definition from_utf8 (s : list byte) : option str :=
  if forallb fst (chunks s) then Some s else None.

Definition REPLACEMENT : str := [xef; xbf; xbd].

(** [String::from_utf8_lossy(s)] *)
Definition from_utf8_lossy (s : list byte) : str :=
  mjoin ((fun c : bool * list byte => if c.1 then c.2 else REPLACEMENT) <$> chunks s).

Lemma utf8_step_pos b s : (0 < (utf8_step b s).2)%nat.
Proof. unfold utf8_step. repeat case_match; cbn; lia. Qed.

Lemma utf8_chunks_concat f s : (length s <= f)%nat -> mjoin (utf8_chunks f s).*2 = s.
Proof.
  revert s. induction f as [|f IH]; intros s Hf.
  - destruct s; [done | cbn in Hf; lia].
  - destruct s as [|b s]; [done|]. cbn [utf8_chunks].
    pose proof (utf8_step_pos b s) as Hp. destruct (utf8_step b s) as [ok n]. cbn [snd] in Hp.
    cbn [fmap list_fmap mjoin list_join snd].
    change (take n (b :: s) ++ mjoin (utf8_chunks f (drop n (b :: s))).*2 = b :: s).
    rewrite IH; [apply take_drop|]. rewrite length_drop. cbn [length] in *. lia.
Qed.

(** The chunks partition the input, and a valid input is not changed. *)
Lemma chunks_concat s : mjoin (chunks s).*2 = s.
Proof. by apply utf8_chunks_concat. Qed.

Lemma from_utf8_Some s t : from_utf8 s = Some t -> t = s.
Proof. unfold from_utf8. case_match; congruence. Qed.

Lemma from_utf8_lossy_valid s : is_Some (from_utf8 s) -> from_utf8_lossy s = s.
Proof.
  unfold from_utf8, from_utf8_lossy. intros [t H].
  destruct (forallb fst (chunks s)) eqn:E; [|done]. clear H t.
  rewrite List.forallb_forall in E.
  rewrite <- (chunks_concat s) at 2. f_equal. apply list_fmap_ext.
  intros i [ok c] Hi. cbn. assert (ok = true) as ->; [|done].
  apply (E (ok, c)). apply list_elem_of_In. by eapply list_elem_of_lookup_2.
Qed.

(** ASCII is UTF-8. *)
Lemma from_utf8_ascii s : Forall (fun b => u8 b < 128) s -> from_utf8 s = Some s.
Proof.
  intros Hs. unfold from_utf8, chunks.
  assert (forall f, forallb fst (utf8_chunks f s) = true) as ->; [|done].
  intros f. revert s Hs. induction f as [|f IH]; intros s Hs; [done|].
  destruct Hs as [|b s Hb Hs]; [done|]. cbn [utf8_chunks].
  unfold utf8_step. rewrite (proj2 (Z.ltb_lt _ _) Hb). cbn. by apply IH.
Qed.

(** A character is one ASCII byte, or consists of non-ASCII bytes and starts
    with a byte that does not continue another. *)
Lemma utf8_step_true b s n :
  utf8_step b s = (true, n) ->
  (u8 b < 128 /\ n = 1%nat) \/
  (192 <= u8 b /\ forall i, (i < n)%nat -> exists x, (b :: s) !! i = Some x /\ 128 <= u8 x).
Proof.
  intros H. destruct (Z.ltb_spec (u8 b) 128) as [Hb|Hb].
  { left. split; [done|]. unfold utf8_step in H.
    rewrite (proj2 (Z.ltb_lt _ _) Hb) in H. congruence. }
  right. unfold utf8_step in H. rewrite (proj2 (Z.ltb_ge _ _) Hb) in H.
  unfold is_cont, second_in in H.
  destruct s as [|x [|y [|z s]]]; cbn [lookup list_lookup] in H;
    repeat (case_match; simplify_eq/=);
    repeat match goal with
    | E : in_range _ _ _ = true |- _ => apply in_range_true in E
    | E : (_ || _) = true |- _ => rewrite orb_true_iff, !in_range_true in E
    | E : (_ =? _) = true |- _ => apply Z.eqb_eq in E
    end; (split; [lia|]); intros [|[|[|[|i]]]] Hi; try lia; cbn; eexists; (split; [reflexivity | lia]).
Qed.

(** In UTF-8 text no continuation byte follows an ASCII byte. *)
Lemma utf8_no_cont_after_ascii l a c r :
  u8 a < 128 -> 128 <= u8 c < 192 -> from_utf8 (l ++ a :: c :: r) = None.
Proof.
  intros Ha Hc. unfold from_utf8, chunks.
  enough (forall f l, (length (l ++ a :: c :: r) <= f)%nat ->
    forallb fst (utf8_chunks f (l ++ a :: c :: r)) = false) as -> by done.
  clear l. intros f. induction f as [|f IH]; intros l Hf; [destruct l; cbn in Hf; lia|].
  destruct (l ++ a :: c :: r) as [|b s] eqn:E; [by destruct l|].
  cbn [utf8_chunks]. pose proof (utf8_step_pos b s) as Hp.
  destruct (utf8_step b s) as [[] n] eqn:Es; [|done]. cbn [snd] in Hp. cbn [forallb fst andb].
  destruct (decide (n <= length l)%nat) as [Hn|Hn].
  { rewrite <- E, drop_app_le by lia. apply IH. rewrite length_app, length_drop.
    apply (f_equal length) in E. rewrite length_app in E. cbn in *. lia. }
  apply utf8_step_true in Es as [[Hb ->]|[Hb Hi]].
  - destruct l; cbn in Hn, E; [|lia]. injection E as <- <-. cbn.
    destruct f as [|f]; [cbn in Hf; lia|]. cbn [utf8_chunks].
    destruct (utf8_step c r) as [[] m] eqn:Es; [|done].
    apply utf8_step_true in Es as [[? _]|[? _]]; lia.
  - destruct (Hi (length l)) as (x & Hx & ?); [lia|].
    rewrite <- E, list_lookup_middle in Hx by done. injection Hx as <-. lia.
Qed.

(** ** White space

    [char::is_whitespace]: the UTF-8 sequences of the characters with the
    Unicode property White_Space, and [str::trim], which removes them at both
    ends. *)
Definition whitespace : list str :=
  [[x09]; [x0a]; [x0b]; [x0c]; [x0d]; [x20]; [xc2; x85]; [xc2; xa0]; [xe1; x9a; x80];
   [xe2; x80; x80]; [xe2; x80; x81]; [xe2; x80; x82]; [xe2; x80; x83]; [xe2; x80; x84];
   [xe2; x80; x85]; [xe2; x80; x86]; [xe2; x80; x87]; [xe2; x80; x88]; [xe2; x80; x89];
   [xe2; x80; x8a]; [xe2; x80; xa8]; [xe2; x80; xa9]; [xe2; x80; xaf]; [xe2; x81; x9f];
   [xe3; x80; x80]].

(** Remove the prefixes among [ws], as long as there are any. *)
Fixpoint strip_all (ws : list str) (fuel : nat) (s : str) : str :=
  match fuel with
  | O => s
  | S f => match List.find (fun w => starts_with w s) ws with
           | Some w => strip_all ws f (drop (length w) s)
           | None => s
           end
  end.

(** Every round removes a byte, so the length is enough fuel. *)
Definition trim_start (s : str) : str := strip_all whitespace (length s) s.
Definition trim_end (s : str) : str := rev (strip_all (@rev byte <$> whitespace) (length s) (rev s)).
Definition trim (s : str) : str := trim_end (trim_start s).

Example trim_ex : trim (lit "  a b " ++ [xe3; x80; x80]) = lit "a b".
Proof. reflexivity. Qed.

(** Trimming a text with an ASCII letter or digit at both ends does nothing. *)
Definition ws_head (b : byte) (ws : list str) : bool :=
  existsb (fun w => match w with c :: _ => bool_decide (b = c) | [] => true end) ws.

Lemma strip_all_none ws f b s : ws_head b ws = false -> strip_all ws f (b :: s) = b :: s.
Proof.
  intros H. destruct f as [|f]; [done|]. cbn [strip_all].
  assert (List.find (fun w => starts_with w (b :: s)) ws = None) as ->; [|done].
  induction ws as [|w ws IH]; [done|]. cbn in H. apply orb_false_iff in H as [Hw H].
  specialize (IH H). cbn [List.find]. destruct w as [|c w]; [done|].
  apply bool_decide_eq_false in Hw.
  assert (starts_with (c :: w) (b :: s) = false) as ->; [|done].
  apply not_true_is_false. intros [k [= E _]]%starts_with_iff. done.
Qed.

Definition solid (b : byte) : bool :=
  negb (ws_head b whitespace) && negb (ws_head b (@rev byte <$> whitespace)).

Lemma trim_solid a s b :
  solid a = true -> solid b = true -> trim (a :: s ++ [b]) = a :: s ++ [b].
Proof.
  unfold solid. rewrite !andb_true_iff, !negb_true_iff. intros [Ha _] [_ Hb].
  unfold trim, trim_start, trim_end. rewrite strip_all_none by done.
  replace (rev (a :: s ++ [b])) with (b :: rev s ++ [a])
    by (cbn; by rewrite rev_app_distr).
  rewrite strip_all_none by done. cbn. by rewrite rev_app_distr, rev_involutive.
Qed.

Lemma trim_solid_one a : solid a = true -> trim [a] = [a].
Proof.
  unfold solid. rewrite !andb_true_iff, !negb_true_iff. intros [Ha Hb].
  unfold trim, trim_start, trim_end. rewrite strip_all_none by done.
  cbn [rev app]. by rewrite strip_all_none.
Qed.

(** [Utf8Error]'s [Display]: where the first ill-formed sequence starts, and
    its length unless the input ends inside a sequence. *)
Fixpoint utf8_error_at (index : Z) (cs : list (bool * list byte)) : str :=
  match cs with
  | [] => []
  | (true, c) :: cs => utf8_error_at (index + len c) cs
  | (false, c) :: cs =>
      let incomplete := bool_decide (cs = []) &&
        match c with b :: _ => in_range 194 244 (u8 b) | [] => false end in
      if incomplete then lit "incomplete utf-8 byte sequence from index " ++ show_nat index
      else lit "invalid utf-8 sequence of " ++ show_nat (len c) ++ lit " bytes from index "
           ++ show_nat index
  end.
Definition show_Utf8Error (s : list byte) : str := utf8_error_at 0 (chunks s).

(** [std::str::from_utf8(s).map_err(|e| e.to_string())] *)
Definition str_from_utf8 (s : list byte) : result str str := ok_or (from_utf8 s) (show_Utf8Error s).

Example show_Utf8Error_ex : show_Utf8Error (lit "ab" ++ [xff] ++ lit "c") =
  lit "invalid utf-8 sequence of 1 bytes from index 2".
Proof. vm_compute. reflexivity. Qed.
Example show_Utf8Error_end : show_Utf8Error (lit "a" ++ [xe2; x82]) =
  lit "incomplete utf-8 byte sequence from index 1".
Proof. vm_compute. reflexivity. Qed.
