(* ===== verification/Slice.v ===== *)
(** * Slices updated in place

    A mutable byte array is a list; writing a sub-slice replaces it. *)

From S2P Require Import Prelude.

(** [h[off..off + bs.len()].copy_from_slice(bs)]; in range wherever it is used. *)
Definition splice (off : nat) (bs h : list byte) : list byte :=
  take off h ++ bs ++ drop (off + length bs) h.

(** [&h[off..off + n]] *)
Definition field (off n : nat) (h : list byte) : list byte := take n (drop off h).

(** A call [f(&mut h[off..off + n])] of a field writer. *)
Definition on_field (off n : nat) (f : list byte -> list byte) (h : list byte) : list byte :=
  splice off (f (field off n h)) h.


(** ** Slices of a fixed-size block *)

Section Splice.
Implicit Types h bs : list byte.

Lemma lookup_splice off bs h i :
  (off + length bs <= length h)%nat ->
  splice off bs h !! i =
    if decide (off <= i < off + length bs)%nat then bs !! (i - off)%nat else h !! i.
Proof.
  intros Hfit. unfold splice. case_decide as Hi.
  - rewrite lookup_app_r; rewrite length_take_le by lia; [|lia].
    rewrite lookup_app_l by lia. done.
  - destruct (decide (i < off)%nat).
    + rewrite lookup_app_l by (rewrite length_take_le; lia). by rewrite lookup_take_lt by lia.
    + rewrite !lookup_app_r; rewrite ?length_take_le by lia; [|lia|lia].
      rewrite lookup_drop. f_equal. lia.
Qed.

Lemma length_splice off bs h :
  (off + length bs <= length h)%nat -> length (splice off bs h) = length h.
Proof.
  intros. unfold splice. rewrite !length_app, length_take, length_drop. lia.
Qed.

Lemma lookup_field off n h i :
  field off n h !! i = if decide (i < n)%nat then h !! (off + i)%nat else None.
Proof.
  unfold field. case_decide.
  - by rewrite lookup_take_lt, lookup_drop by lia.
  - by rewrite lookup_take_ge by lia.
Qed.

Lemma length_field off n h : (off + n <= length h)%nat -> length (field off n h) = n.
Proof. intros. unfold field. rewrite length_take, length_drop. lia. Qed.

Lemma field_splice_same off bs h :
  (off + length bs <= length h)%nat -> field off (length bs) (splice off bs h) = bs.
Proof.
  intros. apply list_eq. intros i. rewrite lookup_field. case_decide.
  - rewrite lookup_splice, decide_True by lia. f_equal. lia.
  - by rewrite lookup_ge_None_2 by lia.
Qed.

Lemma field_splice_disj off n off' bs h :
  (off' + length bs <= length h)%nat ->
  (off + n <= off' \/ off' + length bs <= off)%nat ->
  field off n (splice off' bs h) = field off n h.
Proof.
  intros. apply list_eq. intros i. rewrite !lookup_field. case_decide; [|done].
  by rewrite lookup_splice, decide_False by lia.
Qed.

(** Overwriting a slice twice keeps the second write; rewriting a slice with
    its own content changes nothing. *)
Lemma splice_splice off bs bs' h :
  length bs = length bs' -> (off + length bs <= length h)%nat ->
  splice off bs (splice off bs' h) = splice off bs h.
Proof.
  intros E Hfit. apply list_eq. intros i.
  rewrite !lookup_splice; rewrite ?length_splice by lia; [|lia..].
  repeat case_decide; try done; lia.
Qed.

Lemma splice_field off n h :
  (off + n <= length h)%nat -> splice off (field off n h) h = h.
Proof.
  intros Hfit. apply list_eq. intros i.
  rewrite lookup_splice; rewrite length_field by lia; [|lia].
  case_decide; [|done]. rewrite lookup_field, decide_True by lia. f_equal. lia.
Qed.

Lemma insert_splice i x h : (i < length h)%nat -> <[i := x]> h = splice i [x] h.
Proof.
  intros Hi. apply list_eq. intros j. rewrite lookup_splice by (cbn; lia). cbn [length].
  case_decide as Hj.
  - replace j with i by lia. rewrite list_lookup_insert_eq by done.
    by replace (i - i)%nat with 0%nat by lia.
  - by rewrite list_lookup_insert_ne by lia.
Qed.

Lemma length_on_field off n f h :
  (off + n <= length h)%nat -> (forall g, length g = n -> length (f g) = n) ->
  length (on_field off n f h) = length h.
Proof.
  intros Hfit Hf. unfold on_field. apply length_splice.
  rewrite Hf; [done|]. by apply length_field.
Qed.

Lemma field_on_field_same off n f h :
  (off + n <= length h)%nat -> (forall g, length g = n -> length (f g) = n) ->
  field off n (on_field off n f h) = f (field off n h).
Proof.
  intros Hfit Hf. unfold on_field.
  assert (length (f (field off n h)) = n) as Hl by (apply Hf; by apply length_field).
  rewrite <- Hl at 1. apply field_splice_same. lia.
Qed.

Lemma field_on_field_disj off n off' n' f h :
  (off' + n' <= length h)%nat -> (forall g, length g = n' -> length (f g) = n') ->
  (off + n <= off' \/ off' + n' <= off)%nat ->
  field off n (on_field off' n' f h) = field off n h.
Proof.
  intros Hfit Hf Hd. unfold on_field.
  assert (length (f (field off' n' h)) = n') as Hl by (apply Hf; by apply length_field).
  apply field_splice_disj; lia.
Qed.
End Splice.
