(* ===== verification/Ports.v ===== *)
(** * Ports ([src/src/core/ports.rs])

    [ContainerPort] with its [Display] and [FromStr], and [Ports], the two
    [BTreeMap]s from a container port to a host port. *)

From S2P Require Import Prelude BTree.

(** The [u16] argument is the port number. *)
Inductive ContainerPort := Tcp (p : Z) | Udp (p : Z) | Sctp (p : Z).

#[export] Instance ContainerPort_eq_dec : EqDecision ContainerPort.
Proof. solve_decision. Defined.

Definition as_u16 (c : ContainerPort) : Z :=
  match c with Tcp p | Udp p | Sctp p => p end.

Definition as_str (c : ContainerPort) : str :=
  match c with
  | Tcp _ => lit "tcp"
  | Udp _ => lit "udp"
  | Sctp _ => lit "sctp"
  end.

(** [impl Display for ContainerPort] *)
Definition show_ContainerPort (c : ContainerPort) : str :=
  match c with
  | Tcp p => show_nat p ++ lit "/tcp"
  | Udp p => show_nat p ++ lit "/udp"
  | Sctp p => show_nat p ++ lit "/sctp"
  end.

(** [impl FromStr for ContainerPort] *)
Definition from_str (s : str) : result str ContainerPort :=
  let '(port, proto) :=
    match rsplit_once "/" s with
    | Some (p, proto) => (p, proto)
    | None => (s, lit "tcp")
    end in
  if bool_decide (port = []) || negb (forallb is_digit port) then
    Err (lit "invalid port: " ++ port)
  else
    port ← map_err show_ParseIntError (parse_u16 port);
    if bool_decide (proto = lit "tcp") then Ok (Tcp port)
    else if bool_decide (proto = lit "udp") then Ok (Udp port)
    else if bool_decide (proto = lit "sctp") then Ok (Sctp port)
    else Err (lit "unknown protocol: " ++ proto).

(** The derived [Ord]: the variants in order, then the number. *)
Definition port_rank (c : ContainerPort) : Z :=
  match c with Tcp _ => 0 | Udp _ => 1 | Sctp _ => 2 end.
Definition port_cmp (a b : ContainerPort) : comparison :=
  match port_rank a ?= port_rank b with
  | Eq => as_u16 a ?= as_u16 b
  | c => c
  end.

#[export] Program Instance port_key : KeyOrder ContainerPort := {| key_cmp := port_cmp |}.
Next Obligation.
  intros [a|a|a] [b|b|b]; cbn; try (split; congruence);
    rewrite Z.compare_eq_iff; split; congruence.
Qed.
Next Obligation.
  intros [a|a|a] [b|b|b]; cbn; try done; apply Z.compare_antisym.
Qed.
Next Obligation.
  intros [a|a|a] [b|b|b] [c|c|c]; cbn; try done; rewrite !Z.compare_lt_iff; lia.
Qed.

Record Ports := mkPorts {
  ipv4_mapping : list (ContainerPort * Z);
  ipv6_mapping : list (ContainerPort * Z);
}.

(** [Ports::default()] *)
Definition Ports_default : Ports := mkPorts [] [].

Definition map_to_host_port_ipv4 (ps : Ports) (c : ContainerPort) : option Z :=
  bt_get c ps.(ipv4_mapping).
Definition map_to_host_port_ipv6 (ps : Ports) (c : ContainerPort) : option Z :=
  bt_get c ps.(ipv6_mapping).

Definition first_container_port (ps : Ports) : option ContainerPort :=
  match ps.(ipv4_mapping) with
  | (c, _) :: _ => Some c
  | [] => match ps.(ipv6_mapping) with
          | (c, _) :: _ => Some c
          | [] => None
          end
  end.

Definition add_mapping (ps : Ports) (c : ContainerPort) (host_port : Z) : Ports :=
  mkPorts (bt_insert c host_port ps.(ipv4_mapping)) ps.(ipv6_mapping).
Definition add_ipv6_mapping (ps : Ports) (c : ContainerPort) (host_port : Z) : Ports :=
  mkPorts ps.(ipv4_mapping) (bt_insert c host_port ps.(ipv6_mapping)).

(** Both maps are well formed. *)
Definition ports_wf (ps : Ports) : Prop :=
  bt_sorted ps.(ipv4_mapping) /\ bt_sorted ps.(ipv6_mapping).

Lemma ports_wf_default : ports_wf Ports_default.
Proof. split; constructor. Qed.
Lemma ports_wf_add ps c h : ports_wf ps -> ports_wf (add_mapping ps c h).
Proof. intros []. split; cbn; auto with btree. Qed.
Lemma ports_wf_add6 ps c h : ports_wf ps -> ports_wf (add_ipv6_mapping ps c h).
Proof. intros []. split; cbn; auto with btree. Qed.
#[export] Hint Resolve ports_wf_default ports_wf_add ports_wf_add6 : btree.

(** A port number is a [u16]. *)
Definition port_in_range (c : ContainerPort) : Prop := 0 <= as_u16 c <= U16_MAX.

Lemma forallb_Forall {A} (f : A -> bool) l : forallb f l = true <-> Forall (fun x => f x = true) l.
Proof. rewrite List.forallb_forall, List.Forall_forall. done. Qed.

Lemma show_ContainerPort_eq c : show_ContainerPort c = show_nat (as_u16 c) ++ "/"%byte :: as_str c.
Proof. by destruct c. Qed.

Lemma parse_show_port (c : ContainerPort) :
  port_in_range c -> from_str (show_ContainerPort c) = Ok c.
Proof.
  intros Hc. unfold from_str.
  assert (rsplit_once "/" (show_ContainerPort c) = Some (show_nat (as_u16 c), as_str c)) as ->.
  { apply rsplit_once_Some. rewrite show_ContainerPort_eq. split; [done|].
    destruct c; by apply (bool_decide_unpack _). }
  unfold port_in_range in Hc. destruct (show_nat_spec (as_u16 c)) as (Hne & Hd & _); [lia|].
  rewrite bool_decide_eq_false_2 by done.
  apply forallb_Forall in Hd. rewrite Hd. cbn [negb orb].
  unfold parse_u16. rewrite parse_int_show_nat by lia. by destruct c.
Qed.

(** [FromStr] reads back what [Display] prints, for every port whose number
    is a [u16]; and it accepts nothing but decimal digits, alone (then it is a
    TCP port) or followed by a protocol, with a number that fits. *)
Theorem from_str_show :
  (forall c, port_in_range c -> from_str (show_ContainerPort c) = Ok c) /\
  (forall s c, from_str s = Ok c -> port_in_range c /\
     exists digits, digits <> [] /\ Forall (fun b => is_digit b = true) digits /\
       parse_u16 digits = Ok (as_u16 c) /\
       (s = digits ++ "/"%byte :: as_str c \/ (s = digits /\ exists p, c = Tcp p))).
Proof.
  split; [exact parse_show_port|]. intros s c. unfold from_str.
  destruct (rsplit_once "/" s) as [[d proto]|] eqn:Es.
  - apply rsplit_once_Some in Es as [-> _]. case_bool_decide as Hd; [done|].
    destruct (forallb is_digit d) eqn:Ef; [|done]. cbn [negb orb]. intros E. inv_ok E.
    destruct (parse_u16 d) as [n|] eqn:Ep; [|done].
    match goal with Hx : map_err _ _ = Ok ?x |- _ => cbn in Hx; injection Hx as <- end.
    pose proof (parse_int_range 0 U16_MAX _ _ ltac:(done) Ep) as Hr. apply forallb_Forall in Ef.
    repeat case_bool_decide; try discriminate E; apply (inj Ok) in E as <-; subst proto;
      (split; [exact Hr|]; exists d; split_and!; [done|done|done|by left]).
  - case_bool_decide as Hd; [done|].
    destruct (forallb is_digit s) eqn:Ef; [|done]. cbn [negb orb]. intros E. inv_ok E.
    destruct (parse_u16 s) as [n|] eqn:Ep; [|done].
    match goal with Hx : map_err _ _ = Ok ?x |- _ => cbn in Hx; injection Hx as <- end.
    pose proof (parse_int_range 0 U16_MAX _ _ ltac:(done) Ep) as Hr. apply forallb_Forall in Ef.
    repeat case_bool_decide; try discriminate E; try done. apply (inj Ok) in E as <-.
    split; [exact Hr|]. exists s. split_and!; [done|done|done|right; eauto].
Qed.
