(* ===== verification/Errors.v ===== *)
(** * Errors ([src/src/core/error.rs] and the error types of [src/src/core/copy.rs])

    The crate's error enums with their [Display] and [From] impls.  A boxed
    [dyn Error] is one of the concrete errors the code boxes. *)

From S2P Require Import Prelude Utf8 Ports.

(** [std::io::ErrorKind], the kinds the code makes or tests. *)
Inductive ErrorKind := NotFound | InvalidData | TimedOut | Interrupted | OutOfMemory | OtherKind.

#[export] Instance ErrorKind_eq_dec : EqDecision ErrorKind.
Proof. solve_decision. Defined.

(** [std::io::Error] with a custom payload: its kind and its message. *)
Record IoError := mkIoError { io_kind : ErrorKind; io_msg : str }.

(** [std::io::Error::other(msg)] *)
Definition io_other (msg : str) : IoError := mkIoError OtherKind msg.

Inductive CopyToContainerError :=
| CopyToIoError (e : IoError)
| PathNameError (s : str)
| SizeLimitExceeded (limit : Z) (name : str).

Inductive CopyFromContainerError :=
| CopyFromIo (e : IoError)
| IsDirectory
| EmptyArchive
| UnsupportedEntry (s : str).

Definition show_CopyToContainerError (e : CopyToContainerError) : str :=
  match e with
  | CopyToIoError e => lit "I/O error: " ++ e.(io_msg)
  | PathNameError s => lit "copy path error: " ++ s
  | SizeLimitExceeded limit name =>
      lit "copy size exceeds " ++ show_nat limit ++ lit " bytes: " ++ name
  end.

Definition show_CopyFromContainerError (e : CopyFromContainerError) : str :=
  match e with
  | CopyFromIo e => lit "I/O error: " ++ e.(io_msg)
  | IsDirectory => lit "is a directory"
  | EmptyArchive => lit "empty archive"
  | UnsupportedEntry s => lit "unsupported entry type: " ++ s
  end.

(** [io_error_with_host_path(path, e)]; [path] is what [path.display()] prints. *)
Definition io_error_with_host_path (path : str) (e : IoError) : CopyToContainerError :=
  CopyToIoError (mkIoError e.(io_kind) (path ++ lit ": " ++ e.(io_msg))).

Inductive ClientError :=
| XpcConnect
| Xpc (s : str)
| XpcTimeout
| ImageNotFound (s : str)
| ContainerNotFound (s : str)
| ContainerPathNotFound (s : str)
| Configuration (s : str)
| Json (s : str)
| ClientOther (s : str).

Definition show_ClientError (e : ClientError) : str :=
  match e with
  | XpcConnect => lit "XPC connect failed"
  | Xpc s => lit "XPC error: " ++ s
  | XpcTimeout => lit "XPC request timed out"
  | ImageNotFound s => lit "image not found: " ++ s
  | ContainerNotFound s => lit "container not found: " ++ s
  | ContainerPathNotFound s => lit "container path not found: " ++ s
  | Configuration s => lit "configuration error: " ++ s
  | Json s => lit "JSON parse error: " ++ s
  | ClientOther s => s
  end.

Inductive ExecError :=
| ExitCodeMismatch (expected actual : Z).

Definition show_ExecError (e : ExecError) : str :=
  match e with
  | ExitCodeMismatch expected actual =>
      lit "exec process exited with code " ++ show_Z actual ++
      lit ", expected " ++ show_Z expected
  end.

(** The most bytes of the collected log that [EndOfStream] prints. *)
Definition MAX_END_OF_STREAM_PREVIEW_BYTES : Z := 1024.

Inductive WaitLogError :=
| EndOfStream (bytes : list byte)
| WaitLogIo (e : IoError).

(** The printed tail: [&bytes[bytes.len().saturating_sub(MAX)..]]. *)
Definition end_of_stream_tail (bytes : list byte) : list byte :=
  zdrop (Z.max 0 (len bytes - MAX_END_OF_STREAM_PREVIEW_BYTES)) bytes.

Definition show_WaitLogError (e : WaitLogError) : str :=
  match e with
  | EndOfStream bytes =>
      lit "end of stream reached before finding message (collected " ++
      show_nat (len bytes) ++ lit " bytes); log preview: " ++
      from_utf8_lossy (end_of_stream_tail bytes)
  | WaitLogIo e => lit "I/O error: " ++ e.(io_msg)
  end.

(** [core::wait::http_strategy::HttpWaitError] *)
Inductive HttpWaitError :=
| NoExposedPortsForHttpWait
| NoResponseMatcher
| RequestBuild (message : str).

Definition show_HttpWaitError (e : HttpWaitError) : str :=
  match e with
  | NoExposedPortsForHttpWait => lit "container has no exposed ports"
  | NoResponseMatcher =>
      lit "no response matcher provided for HTTP wait strategy (use with_expected_status_code or with_response_matcher)"
  | RequestBuild message => message
  end.

(** A [Duration] is its number of nanoseconds. *)
Definition Duration := Z.
Definition from_secs (s : Z) : Duration := s * 1000000000.
Definition from_millis (ms : Z) : Duration := ms * 1000000.

Inductive WaitContainerError :=
| WaitLog (e : WaitLogError)
| HttpWait (e : HttpWaitError)
| HealthCheckNotConfigured (s : str)
| Unhealthy (s : str)
| StartupTimeout (id : str) (timeout : Duration)
| UnexpectedExitCode (expected : Z) (actual : option Z).

(** What a [Box<dyn Error>] holds. *)
Inductive BoxError :=
| BoxMsg (s : str)
| BoxIo (e : IoError)
| BoxCopyTo (e : CopyToContainerError)
| BoxCopyFrom (e : CopyFromContainerError).

Inductive Error :=
| Client (e : ClientError)
| WaitContainer (e : WaitContainerError)
| PortNotExposed (id : str) (port : ContainerPort)
| Exec (e : ExecError)
| Io (e : IoError)
| Other (e : BoxError).

(** [Error::other] and the [From] impls behind [?] and [.into()]. *)
Definition other (s : str) : Error := Other (BoxMsg s).
Definition Error_from_ClientError (e : ClientError) : Error := Client e.
Definition Error_from_WaitLogError (e : WaitLogError) : Error := WaitContainer (WaitLog e).
Definition Error_from_WaitContainerError (e : WaitContainerError) : Error := WaitContainer e.
Definition Error_from_ExecError (e : ExecError) : Error := Exec e.
Definition Error_from_io (e : IoError) : Error := Io e.
Definition WaitContainerError_from_WaitLogError (e : WaitLogError) : WaitContainerError := WaitLog e.
Definition WaitLogError_from_io (e : IoError) : WaitLogError := WaitLogIo e.
Definition CopyToContainerError_from_io (e : IoError) : CopyToContainerError := CopyToIoError e.
Definition CopyFromContainerError_from_io (e : IoError) : CopyFromContainerError := CopyFromIo e.

(** The crate's [Result<T>]. *)
Abbreviation Result := (result Error).

(** The [Debug] form of a [Duration], [{:?}]: seconds, milliseconds,
    microseconds or nanoseconds, with the fraction's trailing zeros dropped. *)
Fixpoint show_fraction (digits : nat) (frac : Z) : str :=
  match digits with
  | O => []
  | S d => if frac =? 0 then []
           else digit_byte (frac / 10 ^ Z.of_nat d)
                :: show_fraction d (frac mod 10 ^ Z.of_nat d)
  end.

Definition show_decimal (int frac : Z) (digits : nat) (unit_ : str) : str :=
  show_nat int ++ (if frac =? 0 then [] else "."%byte :: show_fraction digits frac) ++ unit_.

Definition show_Duration (d : Duration) : str :=
  if 1000000000 <=? d then show_decimal (d / 1000000000) (d mod 1000000000) 9 (lit "s")
  else if 1000000 <=? d then show_decimal (d / 1000000) (d mod 1000000) 6 (lit "ms")
  else if 1000 <=? d then show_decimal (d / 1000) (d mod 1000) 3 ([xc2; xb5] ++ lit "s")
  else show_decimal d 0 0 (lit "ns").

Definition show_WaitContainerError (e : WaitContainerError) : str :=
  match e with
  | WaitLog e => lit "failed to wait for container log: " ++ show_WaitLogError e
  | HttpWait e => show_HttpWaitError e
  | HealthCheckNotConfigured s =>
      lit "healthcheck is not configured for container: " ++ s
  | Unhealthy s => lit "container is unhealthy: " ++ s
  | StartupTimeout id timeout =>
      lit "container startup timeout: container " ++ id ++
      lit " did not become ready within " ++ show_Duration timeout
  | UnexpectedExitCode expected (Some actual) =>
      lit "container exited with unexpected code: expected " ++ show_Z expected ++
      lit ", actual " ++ show_Z actual
  | UnexpectedExitCode expected None =>
      lit "container exited, but its exit code could not be confirmed: expected " ++
      show_Z expected
  end.

Definition show_BoxError (e : BoxError) : str :=
  match e with
  | BoxMsg s => s
  | BoxIo e => e.(io_msg)
  | BoxCopyTo e => show_CopyToContainerError e
  | BoxCopyFrom e => show_CopyFromContainerError e
  end.

Definition show_Error (e : Error) : str :=
  match e with
  | Client e => lit "client error: " ++ show_ClientError e
  | WaitContainer e => lit "container is not ready: " ++ show_WaitContainerError e
  | PortNotExposed id port =>
      lit "container '" ++ id ++ lit "' does not expose port " ++ show_ContainerPort port
  | Exec e => lit "exec operation failed: " ++ show_ExecError e
  | Io e => lit "I/O error: " ++ e.(io_msg)
  | Other e => lit "other error: " ++ show_BoxError e
  end.

Lemma end_of_stream_tail_len bytes :
  len (end_of_stream_tail bytes) = Z.min MAX_END_OF_STREAM_PREVIEW_BYTES (len bytes).
Proof. unfold end_of_stream_tail, MAX_END_OF_STREAM_PREVIEW_BYTES. llia. Qed.

Example show_Duration_ms : show_Duration (from_millis 2500) = lit "2.5s".
Proof. vm_compute. reflexivity. Qed.
Example show_Duration_us : show_Duration 1500 = lit "1.5" ++ [xc2; xb5] ++ lit "s".
Proof. vm_compute. reflexivity. Qed.

(** ** Causes ([std::error::Error::source])

    A [dyn Error] is one of the crate's errors, or a message or [io::Error] that has
    no cause of its own. *)

Inductive DynError :=
| DynIo (e : IoError)
| DynMsg (s : str)
| DynCopyTo (e : CopyToContainerError)
| DynCopyFrom (e : CopyFromContainerError)
| DynClient (e : ClientError)
| DynExec (e : ExecError)
| DynWaitLog (e : WaitLogError)
| DynHttpWait (e : HttpWaitError)
| DynWaitContainer (e : WaitContainerError)
| DynError_ (e : Error).

Definition boxed (e : BoxError) : DynError :=
  match e with
  | BoxMsg s => DynMsg s
  | BoxIo e => DynIo e
  | BoxCopyTo e => DynCopyTo e
  | BoxCopyFrom e => DynCopyFrom e
  end.

Definition CopyToContainerError_source (e : CopyToContainerError) : option DynError :=
  match e with CopyToIoError e => Some (DynIo e) | _ => None end.
Definition CopyFromContainerError_source (e : CopyFromContainerError) : option DynError :=
  match e with CopyFromIo e => Some (DynIo e) | _ => None end.
Definition WaitLogError_source (e : WaitLogError) : option DynError :=
  match e with WaitLogIo e => Some (DynIo e) | EndOfStream _ => None end.
Definition WaitContainerError_source (e : WaitContainerError) : option DynError :=
  match e with
  | WaitLog e => Some (DynWaitLog e)
  | HttpWait e => Some (DynHttpWait e)
  | HealthCheckNotConfigured _ | Unhealthy _ | StartupTimeout _ _ | UnexpectedExitCode _ _ => None
  end.
Definition ExecError_source (e : ExecError) : option DynError :=
  match e with ExitCodeMismatch _ _ => None end.
Definition HttpWaitError_source (e : HttpWaitError) : option DynError := None.
Definition Error_source (e : Error) : option DynError :=
  match e with
  | Client e => Some (DynClient e)
  | WaitContainer e => Some (DynWaitContainer e)
  | Exec e => Some (DynExec e)
  | Io e => Some (DynIo e)
  | Other e => Some (boxed e)
  | PortNotExposed _ _ => None
  end.

Definition error_source (e : DynError) : option DynError :=
  match e with
  | DynIo _ | DynMsg _ | DynClient _ => None
  | DynCopyTo e => CopyToContainerError_source e
  | DynCopyFrom e => CopyFromContainerError_source e
  | DynExec e => ExecError_source e
  | DynWaitLog e => WaitLogError_source e
  | DynHttpWait e => HttpWaitError_source e
  | DynWaitContainer e => WaitContainerError_source e
  | DynError_ e => Error_source e
  end.

Definition show_DynError (e : DynError) : str :=
  match e with
  | DynIo e => e.(io_msg)
  | DynMsg s => s
  | DynCopyTo e => show_CopyToContainerError e
  | DynCopyFrom e => show_CopyFromContainerError e
  | DynClient e => show_ClientError e
  | DynExec e => show_ExecError e
  | DynWaitLog e => show_WaitLogError e
  | DynHttpWait e => show_HttpWaitError e
  | DynWaitContainer e => show_WaitContainerError e
  | DynError_ e => show_Error e
  end.

(** The causes of an error, outermost first. *)
Fixpoint causes (fuel : nat) (e : DynError) : option (list DynError) :=
  match fuel with
  | O => None
  | S fuel => match error_source e with
              | None => Some []
              | Some c => cs ← causes fuel c; Some (c :: cs)
              end
  end.

Lemma show_source e c : error_source e = Some c -> exists prefix, show_DynError e = prefix ++ show_DynError c.
Proof.
  destruct e as [|?|[]|[]|?|[]|[]|[]|[]|[| | | | |[]]]; cbn [error_source]; intros [= <-];
    first [by exists [] | by eexists].
Qed.

(** The causes of any error are at most three, and each is told at the end of its text. *)
Lemma causes_told e : exists cs, causes 4 e = Some cs /\ (length cs <= 3)%nat /\
  Forall (fun c => exists prefix, show_DynError e = prefix ++ show_DynError c) cs.
Proof.
  assert (exists cs, causes 4 e = Some cs /\ (length cs <= 3)%nat) as (cs & E & Hl).
  { destruct e as [| |[]|[]| |[]|[]|[]|[[]|[]| | | |]|[|[[]|[]| | | |]| |[]| |[| |[]|[]]]]; cbn;
      eexists; (split; [reflexivity|]); cbn; lia. }
  exists cs. split_and!; [done|done|]. clear Hl. revert e cs E. generalize 4%nat as n.
  induction n as [|n IH]; intros e cs E; [done|]. cbn in E. destruct (error_source e) as [c|] eqn:Es.
  - destruct (causes n c) as [cs'|] eqn:Ec; [|done]. injection E as <-. apply show_source in Es as [p Ep].
    constructor; [by exists p|]. eapply Forall_impl; [by eapply IH|]. intros c' [q Eq]. exists (p ++ q).
    by rewrite Ep, Eq, app_assoc.
  - injection E as <-. constructor.
Qed.
