(* ===== verification/DockerTar.v ===== *)
(** * The ustar codec ([src/src/core/client/docker_tar.rs])

    The archive builder [UstarBuilder] used by [copy_to], and the parser
    [parse_first_regular_file_from_ustar] used by [copy_from].  A mutable byte
    slice is a list updated in place ([write_octal], [append_header]); the
    builder's buffer is threaded through its operations. *)

From S2P Require Import Prelude Slice Utf8 Errors.

(** [DOCKER_RESPONSE_BODY_LIMIT] of [docker_client.rs]: 64 MiB. *)
Definition DOCKER_RESPONSE_BODY_LIMIT : Z := 64 * 1024 * 1024.

Definition BLOCK_SIZE : nat := 512.
Definition NAME_OFF : nat := 0.
Definition NAME_LEN : nat := 100.
Definition MODE_OFF : nat := 100.
Definition UID_OFF : nat := 108.
Definition GID_OFF : nat := 116.
Definition SIZE_OFF : nat := 124.
Definition SIZE_LEN : nat := 12.
Definition MTIME_OFF : nat := 136.
Definition CHKSUM_OFF : nat := 148.
Definition CHKSUM_LEN : nat := 8.
Definition TYPEFLAG_OFF : nat := 156.
Definition MAGIC_OFF : nat := 257.
Definition VERSION_OFF : nat := 263.
Definition PREFIX_OFF : nat := 345.
Definition PREFIX_LEN : nat := 155.
Definition NAME_MAX : nat := NAME_LEN - 1.
Definition TYPEFLAG_REGULAR : byte := "0".
Definition TYPEFLAG_DIRECTORY : byte := "5".
Definition OCTAL_7DIGIT_MAX : Z := 8 ^ 7 - 1.
Definition OCTAL_11DIGIT_MAX : Z := 8 ^ 11 - 1.

Definition overflow_err (msg : str) : CopyToContainerError :=
  CopyToIoError (mkIoError InvalidData msg).
Definition invalid_data (msg : str) : CopyFromContainerError :=
  CopyFromIo (mkIoError InvalidData msg).
Definition path_err (msg : str) : CopyToContainerError := PathNameError msg.

(** The octal digit of the low three bits, [b'0' + (v & 0o7) as u8]. *)
Definition octal_byte (v : Z) : byte := as_u8 (48 + Z.land v 7).

(** The digit loop [for i in (0..i).rev()] of [write_octal] and [write_chksum]. *)
Fixpoint write_digits (field : list byte) (v : Z) (i : nat) : list byte :=
  match i with
  | O => field
  | S i' => write_digits (<[i' := octal_byte v]> field) (Z.shiftr v 3) i'
  end.

(** [field] has length [digits + 1] wherever the code calls it. *)
Definition write_octal (field : list byte) (value : Z) (digits : nat) : list byte :=
  <[digits := x00]> (write_digits field value digits).

(** [field] has length 8. *)
Definition write_chksum (field : list byte) (sum : Z) : list byte :=
  <[7%nat := x20]> (<[6%nat := x00]> (write_digits field sum 6)).

(** The loop shared by [parse_octal] ([u64]) and [parse_chksum] ([u32]): up to
    a NUL or a space, multiply by 8 and add, with overflow checks. *)
Fixpoint parse_octal_loop (max : Z) (bad over : str) (field : list byte) (value : Z)
    : result CopyFromContainerError Z :=
  match field with
  | [] => Ok value
  | b :: field' =>
      if (u8 b =? 0) || (u8 b =? 32) then Ok value
      else if negb (in_range 48 55 (u8 b)) then Err (invalid_data bad)
      else match (v ← checked 0 max (value * 8); checked 0 max (v + (u8 b - 48))) with
           | Some v => parse_octal_loop max bad over field' v
           | None => Err (invalid_data over)
           end
  end.

Definition parse_octal (field : list byte) : result CopyFromContainerError Z :=
  parse_octal_loop U64_MAX (lit "invalid octal field") (lit "octal field overflow") field 0.

Definition parse_chksum (field : list byte) : result CopyFromContainerError Z :=
  parse_octal_loop U32_MAX (lit "invalid checksum field") (lit "checksum field overflow") field 0.

(** One candidate [i] of the split search: a [/] at [i] whose two sides fit. *)
Definition split_candidate (bytes : list byte) (i : nat) : option (nat * nat) :=
  match bytes !! i with
  | Some b =>
      if decide (b = "/"%byte) then
        let prefix_len := i in
        let name_len := (length bytes - (i + 1))%nat in
        if negb ((1 <=? name_len) && (name_len <=? NAME_MAX))%nat then None
        else if negb ((1 <=? prefix_len) && (prefix_len <=? PREFIX_LEN))%nat then None
        else Some (name_len, prefix_len)
      else None
  | None => None
  end.

(** [best] after considering a candidate: a strictly longer name replaces it. *)
Definition split_update (best : option (nat * nat)) (c : option (nat * nat))
    : option (nat * nat) :=
  match c with
  | None => best
  | Some (name_len, prefix_len) =>
      match best with
      | None => Some (name_len, prefix_len)
      | Some (best_name, _) =>
          if (best_name <? name_len)%nat then Some (name_len, prefix_len) else best
      end
  end.

(** [for i in 0..search_end] *)
Definition split_search (bytes : list byte) (search_end : nat) : option (nat * nat) :=
  fold_left (fun best i => split_update best (split_candidate bytes i)) (seq 0 search_end) None.

(** The [name] and [prefix] fields of a path. *)
Definition split_ustar_path (path : str) : result CopyToContainerError (str * str) :=
  let bytes := path in
  if bool_decide (bytes = []) then Err (path_err (lit "tar entry path must not be empty"))
  else if contains x00 bytes then Err (path_err (lit "tar entry path must not contain NUL"))
  else if (length bytes <=? NAME_MAX)%nat then Ok (path, [])
  else
    let search_end :=
      if bool_decide (last bytes = Some "/"%byte) then (length bytes - 1)%nat
      else length bytes in
    if (search_end =? 0)%nat then Err (path_err (lit "tar entry path must not be empty"))
    else match split_search bytes search_end with
         | None =>
             Err (path_err (lit "tar entry path too long to fit ustar name/prefix: " ++
                            show_nat (len bytes) ++ lit " bytes"))
         | Some (name_len, prefix_len) =>
             let prefix := take prefix_len path in
             let name := drop (prefix_len + 1) path in
             Ok (name, prefix)
         end.

(** [header.iter().map(|&b| b as u32).sum()] *)
Definition byte_sum (h : list byte) : Z := fold_left (fun a b => a + u8 b) h 0.

Definition uid_limit_msg (what : str) (v : Z) : str :=
  what ++ lit " " ++ show_nat v ++ lit " exceeds ustar 7-octal-digit limit (" ++
  show_nat OCTAL_7DIGIT_MAX ++ lit ")".

(** The fields of a header whose path is already split, before the checksum. *)
Definition header_fields (name prefix : str) (typeflag : byte) (size mode uid gid : Z)
    : list byte :=
  let header := replicate BLOCK_SIZE x00 in
  let header := splice NAME_OFF name header in
  let header := if bool_decide (prefix = []) then header
                else splice PREFIX_OFF prefix header in
  let header := on_field MODE_OFF 8 (fun f => write_octal f (Z.land mode (8 ^ 4 - 1)) 7) header in
  let header := on_field UID_OFF 8 (fun f => write_octal f uid 7) header in
  let header := on_field GID_OFF 8 (fun f => write_octal f gid 7) header in
  let header := on_field SIZE_OFF SIZE_LEN (fun f => write_octal f size 11) header in
  let header := on_field MTIME_OFF SIZE_LEN (fun f => write_octal f 0 11) header in
  let header := <[TYPEFLAG_OFF := typeflag]> header in
  let header := splice MAGIC_OFF (lit "ustar" ++ [x00]) header in
  splice VERSION_OFF (lit "00") header.

(** The checksum is the sum of the header with spaces in the checksum field. *)
Definition write_header_chksum (header : list byte) : list byte :=
  let header := splice CHKSUM_OFF (replicate CHKSUM_LEN x20) header in
  let sum := byte_sum header in
  on_field CHKSUM_OFF CHKSUM_LEN (fun f => write_chksum f sum) header.

Definition header_block (name prefix : str) (typeflag : byte) (size mode uid gid : Z)
    : list byte :=
  write_header_chksum (header_fields name prefix typeflag size mode uid gid).

(** Appends a header to [out]; nothing is appended on an error. *)
Definition append_header (out : list byte) (relative_path : str) (typeflag : byte)
    (size mode uid gid : Z) : result CopyToContainerError (list byte) :=
  if OCTAL_7DIGIT_MAX <? uid then Err (overflow_err (uid_limit_msg (lit "uid") uid))
  else if OCTAL_7DIGIT_MAX <? gid then Err (overflow_err (uid_limit_msg (lit "gid") gid))
  else if OCTAL_11DIGIT_MAX <? size then
    Err (overflow_err (lit "data size " ++ show_nat size ++
                       lit " exceeds ustar 11-octal-digit limit (" ++
                       show_nat OCTAL_11DIGIT_MAX ++ lit ")"))
  else
    '(name, prefix) ← split_ustar_path relative_path;
    Ok (out ++ header_block name prefix typeflag size mode uid gid).

(** [UstarBuilder]: its buffer. *)
Record UstarBuilder := mkUstarBuilder { buf : list byte }.

Definition UstarBuilder_new : UstarBuilder := mkUstarBuilder [].

Definition check_limit (self : UstarBuilder) (name : str) : result CopyToContainerError unit :=
  if DOCKER_RESPONSE_BODY_LIMIT <? len self.(buf) then
    Err (SizeLimitExceeded DOCKER_RESPONSE_BODY_LIMIT name)
  else Ok tt.

Definition append_directory (self : UstarBuilder) (path : str) (mode uid gid : Z)
    : result CopyToContainerError UstarBuilder :=
  if negb (ends_with (lit "/") path) then
    Err (path_err (lit "directory tar entry path must end with a slash"))
  else
    out ← append_header self.(buf) path TYPEFLAG_DIRECTORY 0 mode uid gid;
    let self := mkUstarBuilder out in
    _ ← check_limit self path;
    Ok self.

(** [(BLOCK_SIZE - (n % BLOCK_SIZE)) % BLOCK_SIZE] *)
Definition pad_len (n : Z) : Z := (512 - n mod 512) mod 512.

Definition append_file (self : UstarBuilder) (relative_path : str) (data : list byte)
    (mode uid gid : Z) : result CopyToContainerError UstarBuilder :=
  if ends_with (lit "/") relative_path then
    Err (path_err (lit "file tar entry path must not end with a slash"))
  else
    let pad := pad_len (len data) in
    projected ← ok_or
      (n ← checked 0 USIZE_MAX (len self.(buf) + 512);
       n ← checked 0 USIZE_MAX (n + len data);
       checked 0 USIZE_MAX (n + pad))
      (overflow_err (lit "tar size overflow"));
    if DOCKER_RESPONSE_BODY_LIMIT <? projected then
      Err (SizeLimitExceeded DOCKER_RESPONSE_BODY_LIMIT relative_path)
    else
      out ← append_header self.(buf) relative_path TYPEFLAG_REGULAR (len data) mode uid gid;
      Ok (mkUstarBuilder (out ++ data ++ replicate (Z.to_nat pad) x00)).

Definition finish (self : UstarBuilder) : result CopyToContainerError (list byte) :=
  let self := mkUstarBuilder (self.(buf) ++ replicate (BLOCK_SIZE * 2) x00) in
  _ ← check_limit self (lit "tar trailer");
  Ok self.(buf).

Definition build_single_file_ustar (name : str) (data : list byte) (mode uid gid : Z)
    : result CopyToContainerError (list byte) :=
  builder ← append_file UstarBuilder_new name data mode uid gid;
  finish builder.

(** What the typeflag lets the parser go on with. *)
Definition check_typeflag (flag : byte) : result CopyFromContainerError unit :=
  if decide (flag = TYPEFLAG_DIRECTORY) then Err IsDirectory
  else if decide (flag = x00) then Ok tt
  else if decide (flag = TYPEFLAG_REGULAR) then Ok tt
  else if decide (flag = "1"%byte) then Err (UnsupportedEntry (lit "hardlink"))
  else if decide (flag = "2"%byte) then Err (UnsupportedEntry (lit "symlink"))
  else if decide (flag = "3"%byte) then Err (UnsupportedEntry (lit "char device"))
  else if decide (flag = "4"%byte) then Err (UnsupportedEntry (lit "block device"))
  else if decide (flag = "6"%byte) then Err (UnsupportedEntry (lit "fifo"))
  else Err (UnsupportedEntry (lit "unknown typeflag")).

Definition parse_first_regular_file_from_ustar (bytes : list byte)
    : result CopyFromContainerError (list byte) :=
  if (2 <=? len bytes) && bool_decide (take 2 bytes = [x1f; x8b]) then
    Err (UnsupportedEntry (lit "gzip"))
  else if len bytes <? 512 then Err (invalid_data (lit "truncated tar header"))
  else
    let header := take BLOCK_SIZE bytes in
    if forallb (fun b => u8 b =? 0) header then Err EmptyArchive
    else
      _ ← check_typeflag (nth TYPEFLAG_OFF header x00);
      stored ← parse_chksum (field CHKSUM_OFF CHKSUM_LEN header);
      let sum_header := splice CHKSUM_OFF (replicate CHKSUM_LEN x20) header in
      let computed := byte_sum sum_header in
      if negb (stored =? computed) then
        Err (invalid_data (lit "tar header checksum mismatch"))
      else
        size ← parse_octal (field SIZE_OFF SIZE_LEN header);
        size ← ok_or (checked 0 USIZE_MAX size)
                     (invalid_data (lit "tar size does not fit in usize"));
        let data_start := 512 in
        data_end ← ok_or (checked 0 USIZE_MAX (data_start + size))
                         (invalid_data (lit "tar size overflow"));
        if len bytes <? data_end then Err (invalid_data (lit "truncated tar data"))
        else Ok (ztake (data_end - data_start) (zdrop data_start bytes)).

(** ** Octal fields *)

(** The digits [write_digits] leaves in a field, most significant first. *)
Fixpoint octal_digits (n : nat) (v : Z) : list byte :=
  match n with
  | O => []
  | S n' => octal_digits n' (Z.shiftr v 3) ++ [octal_byte v]
  end.

Lemma length_octal_digits n v : length (octal_digits n v) = n.
Proof.
  revert v. induction n as [|n IH]; cbn; intros v; [done|].
  rewrite length_app, IH. cbn. lia.
Qed.

Lemma write_digits_eq n f v :
  (n <= length f)%nat -> write_digits f v n = octal_digits n v ++ drop n f.
Proof.
  revert f v. induction n as [|n IH]; intros f v Hn; [done|].
  cbn [write_digits octal_digits]. rewrite IH by (rewrite length_insert; lia).
  rewrite <- app_assoc. f_equal. cbn.
  rewrite (drop_S (<[n:=octal_byte v]> f) (octal_byte v) n)
    by (apply list_lookup_insert_eq; lia).
  f_equal. apply drop_insert_lt. lia.
Qed.

Lemma write_octal_eq f v digits :
  length f = S digits -> write_octal f v digits = octal_digits digits v ++ [x00].
Proof.
  intros Hf. unfold write_octal. rewrite write_digits_eq by lia.
  rewrite insert_app_r_alt by (rewrite length_octal_digits; lia).
  rewrite length_octal_digits. f_equal.
  replace (digits - digits)%nat with 0%nat by lia.
  destruct (drop digits f) as [|x [|y l]] eqn:E;
    apply (f_equal length) in E; rewrite length_drop in E; cbn in E; try lia. done.
Qed.

Lemma write_chksum_eq f v :
  length f = 8%nat -> write_chksum f v = octal_digits 6 v ++ [x00; x20].
Proof.
  intros Hf. unfold write_chksum. rewrite write_digits_eq by lia.
  rewrite !insert_app_r_alt by (rewrite ?length_octal_digits; lia).
  rewrite !length_octal_digits. f_equal.
  destruct (drop 6 f) as [|x [|y [|z l]]] eqn:E;
    apply (f_equal length) in E; rewrite length_drop, Hf in E; cbn in E; try lia. done.
Qed.

Lemma u8_octal_byte v : u8 (octal_byte v) = 48 + v mod 8.
Proof.
  unfold octal_byte. change 7 with (Z.ones 3). rewrite Z.land_ones by lia.
  pose proof (Z.mod_pos_bound v (2 ^ 3) eq_refl). rewrite u8_as_u8_small; [done|].
  change (2 ^ 3) with 8 in *. lia.
Qed.

Lemma octal_step v n : v mod 8 ^ Z.of_nat (S n) = 8 * ((v / 8) mod 8 ^ Z.of_nat n) + v mod 8.
Proof.
  rewrite Nat2Z.inj_succ, Z.pow_succ_r by lia.
  rewrite Z.rem_mul_r by lia. lia.
Qed.

(** The loop reads the digits back, and goes on with the rest of the field. *)
Lemma parse_octal_loop_digits max bad over n v rest acc :
  0 <= acc -> acc * 8 ^ Z.of_nat n + v mod 8 ^ Z.of_nat n <= max ->
  parse_octal_loop max bad over (octal_digits n v ++ rest) acc =
  parse_octal_loop max bad over rest (acc * 8 ^ Z.of_nat n + v mod 8 ^ Z.of_nat n).
Proof.
  revert v rest acc. induction n as [|n IH]; intros v rest acc Ha Hm.
  - cbn -[Z.mul]. change (8 ^ 0) with 1. rewrite Z.mod_1_r. f_equal. lia.
  - cbn [octal_digits]. rewrite <- app_assoc. rewrite Z.shiftr_div_pow2 by lia.
    change (2 ^ 3) with 8. rewrite octal_step in *.
    rewrite Nat2Z.inj_succ, Z.pow_succ_r in * by lia.
    pose proof (Z.mod_pos_bound v 8 eq_refl).
    pose proof (Z.mod_pos_bound (v / 8) (8 ^ Z.of_nat n) ltac:(apply Z.pow_pos_nonneg; lia)).
    assert (0 <= acc * 8 ^ Z.of_nat n) by (apply Z.mul_nonneg_nonneg; [lia | apply Z.pow_nonneg; lia]).
    rewrite IH by lia. cbn -[Z.mul Z.pow Z.modulo Z.div Z.add]. rewrite u8_octal_byte.
    destruct (Z.eqb_spec (48 + v mod 8) 0); [lia|].
    destruct (Z.eqb_spec (48 + v mod 8) 32); [lia|].
    cbn [orb]. unfold in_range at 1.
    destruct (Z.leb_spec 48 (48 + v mod 8)); [|lia].
    destruct (Z.leb_spec (48 + v mod 8) 55); [|lia]. cbn [andb negb].
    rewrite checked_ok by lia. cbn -[Z.mul Z.pow Z.modulo Z.div Z.add parse_octal_loop].
    rewrite checked_ok by lia. f_equal. lia.
Qed.

Lemma parse_octal_loop_range max bad over f acc v :
  0 <= acc <= max -> parse_octal_loop max bad over f acc = Ok v -> 0 <= v <= max.
Proof.
  revert acc. induction f as [|b f IH]; cbn; intros acc Ha; [congruence|].
  destruct (_ || _); [congruence|]. destruct (negb _); [done|].
  destruct (checked 0 max (acc * 8)) as [m|] eqn:E1; cbn; [|done].
  destruct (checked 0 max (m + (u8 b - 48))) as [w|] eqn:E2; [|done].
  apply checked_Some in E2 as [-> E2]. by apply IH.
Qed.

(** ** Header blocks *)

Definition is_block (h : list byte) : Prop := length h = BLOCK_SIZE.

Definition keeps_len (n : nat) (f : list byte -> list byte) : Prop :=
  forall g, length g = n -> length (f g) = n.

Section Block.
Implicit Types h bs : list byte.

Lemma block_zeros : is_block (replicate BLOCK_SIZE x00).
Proof. apply length_replicate. Qed.

Lemma block_splice off bs h :
  is_block h -> (off + length bs <= 512)%nat -> is_block (splice off bs h).
Proof. unfold is_block, BLOCK_SIZE. intros E ?. rewrite length_splice; lia. Qed.

Lemma block_on_field off n f h :
  is_block h -> (off + n <= 512)%nat -> keeps_len n f -> is_block (on_field off n f h).
Proof. unfold is_block, BLOCK_SIZE. intros E ? ?. rewrite (length_on_field off n); auto. lia. Qed.

Lemma block_insert i x h : is_block h -> is_block (<[i := x]> h).
Proof. unfold is_block. by rewrite length_insert. Qed.

Lemma write_octal_keeps v digits : keeps_len (S digits) (fun f => write_octal f v digits).
Proof. intros g Hg. rewrite write_octal_eq, length_app, length_octal_digits by done. cbn. lia. Qed.

Lemma write_chksum_keeps v : keeps_len 8 (fun f => write_chksum f v).
Proof. intros g Hg. by rewrite write_chksum_eq, length_app, length_octal_digits by done. Qed.

Lemma block_field_splice_disj off n off' bs h :
  is_block h -> (off' + length bs <= 512)%nat ->
  (off + n <= off' \/ off' + length bs <= off)%nat ->
  field off n (splice off' bs h) = field off n h.
Proof. unfold is_block, BLOCK_SIZE. intros. apply field_splice_disj; lia. Qed.

Lemma block_field_on_field_disj off n off' n' f h :
  is_block h -> (off' + n' <= 512)%nat -> keeps_len n' f ->
  (off + n <= off' \/ off' + n' <= off)%nat ->
  field off n (on_field off' n' f h) = field off n h.
Proof. unfold is_block, BLOCK_SIZE. intros. apply field_on_field_disj; auto. lia. Qed.

Lemma block_field_insert_ne off n i x h :
  (i < off \/ off + n <= i)%nat -> field off n (<[i := x]> h) = field off n h.
Proof.
  intros. apply list_eq. intros j. rewrite !lookup_field. case_decide; [|done].
  by rewrite list_lookup_insert_ne by lia.
Qed.

Lemma block_field_on_field_same off n f h :
  is_block h -> (off + n <= 512)%nat -> keeps_len n f ->
  field off n (on_field off n f h) = f (field off n h).
Proof. unfold is_block, BLOCK_SIZE. intros. apply field_on_field_same; auto. lia. Qed.
End Block.

(** Blocks are closed under the header's writes; offsets are computed. *)
Ltac block :=
  lazymatch goal with
  | |- is_block _ => first [ assumption | apply block_zeros
      | apply block_splice; block | apply block_on_field; block | apply block_insert; block ]
  | |- keeps_len _ _ => first [ apply write_octal_keeps | apply write_chksum_keeps ]
  | |- (_ <= _)%nat => apply Nat.leb_le; reflexivity
  | |- _ \/ _ => first [ left; apply Nat.leb_le; reflexivity | right; apply Nat.leb_le; reflexivity ]
  end.

(** A field of a header under construction: skip the writes elsewhere. *)
Ltac header_field :=
  repeat first
    [ rewrite block_field_splice_disj by block
    | rewrite block_field_on_field_disj by block
    | rewrite block_field_insert_ne by (first [left; apply Nat.ltb_lt; reflexivity
                                              | right; apply Nat.leb_le; reflexivity]) ].

Section Header.
Context (name prefix : str) (typeflag : byte) (size mode uid gid : Z).
Context (Hname : (length name <= 100)%nat) (Hprefix : (length prefix <= 155)%nat).
#[local] Abbreviation fields := (header_fields name prefix typeflag size mode uid gid).
#[local] Abbreviation header := (header_block name prefix typeflag size mode uid gid).

Lemma header_start_block :
  is_block (if bool_decide (prefix = []) then splice NAME_OFF name (replicate BLOCK_SIZE x00)
            else splice PREFIX_OFF prefix (splice NAME_OFF name (replicate BLOCK_SIZE x00))).
Proof.
  unfold NAME_OFF, PREFIX_OFF.
  case_bool_decide; repeat apply block_splice; try lia; apply block_zeros.
Qed.

Lemma header_fields_block : is_block fields.
Proof.
  unfold header_fields. pose proof header_start_block as H.
  set (h := if bool_decide (prefix = []) then _ else _) in *. clearbody h.
  block.
Qed.

Lemma header_block_block : is_block header.
Proof.
  unfold header_block, write_header_chksum.
  pose proof header_fields_block as H. block.
Qed.

Lemma header_fields_size :
  field SIZE_OFF SIZE_LEN fields = octal_digits 11 size ++ [x00].
Proof.
  unfold header_fields. pose proof header_start_block as H.
  set (h := if bool_decide (prefix = []) then _ else _) in *. clearbody h.
  header_field.
  rewrite block_field_on_field_same by block.
  apply write_octal_eq. apply length_field.
  match goal with |- (_ <= length ?g)%nat => assert (is_block g) as E by block end.
  rewrite E. apply Nat.leb_le. reflexivity.
Qed.

Lemma header_fields_typeflag : field TYPEFLAG_OFF 1 fields = [typeflag].
Proof.
  unfold header_fields. pose proof header_start_block as H.
  set (h := if bool_decide (prefix = []) then _ else _) in *. clearbody h.
  set (h1 := on_field MTIME_OFF SIZE_LEN _ _) in *.
  assert (is_block h1) as H1 by (subst h1; block). clearbody h1.
  rewrite insert_splice by (rewrite H1; apply Nat.ltb_lt; reflexivity).
  rewrite !block_field_splice_disj by block.
  apply (field_splice_same TYPEFLAG_OFF [typeflag]). rewrite H1. apply Nat.leb_le. reflexivity.
Qed.

(** The name field: the name, padded with NULs. *)
Lemma header_fields_name :
  field NAME_OFF NAME_LEN fields = name ++ replicate (NAME_LEN - length name) x00.
Proof.
  unfold header_fields.
  assert (field NAME_OFF NAME_LEN
    (if bool_decide (prefix = []) then splice NAME_OFF name (replicate BLOCK_SIZE x00)
     else splice PREFIX_OFF prefix (splice NAME_OFF name (replicate BLOCK_SIZE x00)))
    = name ++ replicate (NAME_LEN - length name) x00) as Hn.
  { transitivity (field NAME_OFF NAME_LEN (splice NAME_OFF name (replicate BLOCK_SIZE x00))).
    - case_bool_decide; [done|]. apply block_field_splice_disj.
      + apply block_splice; [apply block_zeros | cbn; lia].
      + cbn; lia.
      + left. apply Nat.leb_le. reflexivity.
    - unfold splice, field, NAME_OFF, NAME_LEN, BLOCK_SIZE. cbn [Nat.add drop].
      rewrite drop_replicate, take_0. cbn [app].
      rewrite drop_0, take_app_ge by lia. f_equal. rewrite take_replicate. f_equal. lia. }
  pose proof header_start_block as H.
  set (h := if bool_decide (prefix = []) then _ else _) in *. clearbody h.
  header_field. exact Hn.
Qed.
End Header.

(** ** The checksum *)

Lemma byte_sum_app a b : byte_sum (a ++ b) = byte_sum a + byte_sum b.
Proof.
  unfold byte_sum. rewrite fold_left_app. generalize (fold_left (fun x y => x + u8 y) a 0).
  induction b as [|y b IH] using rev_ind; intros z; cbn; [lia|].
  rewrite !fold_left_app. cbn. rewrite IH. lia.
Qed.

Lemma byte_sum_bound h : 0 <= byte_sum h <= 255 * len h.
Proof.
  induction h as [|b h IH] using rev_ind; [done|].
  rewrite byte_sum_app. unfold byte_sum at 2 4. cbn [fold_left].
  pose proof (u8_range b). llia.
Qed.

(** The checksum field of a finished header: the sum, readable and unharmed by
    the parser's own check, which blanks the field again. *)
Lemma write_header_chksum_spec h :
  is_block h ->
  let h' := write_header_chksum h in
  is_block h' /\
  parse_chksum (field CHKSUM_OFF CHKSUM_LEN h') =
    Ok (byte_sum (splice CHKSUM_OFF (replicate CHKSUM_LEN x20) h')) /\
  (forall off n, (off + n <= CHKSUM_OFF \/ CHKSUM_OFF + CHKSUM_LEN <= off)%nat ->
     field off n h' = field off n h).
Proof.
  intros Hh h'. unfold h', write_header_chksum.
  set (sp := splice CHKSUM_OFF (replicate CHKSUM_LEN x20) h).
  assert (is_block sp) as Hsp by (subst sp; block).
  assert (CHKSUM_OFF + CHKSUM_LEN <= length sp)%nat as Hfit
    by (rewrite Hsp; apply Nat.leb_le; reflexivity).
  split; [block|]. split.
  - rewrite block_field_on_field_same by block.
    rewrite write_chksum_eq by (apply length_field; exact Hfit).
    unfold parse_chksum. pose proof (byte_sum_bound sp) as Hb.
    unfold len in Hb. rewrite Hsp in Hb. change (Z.of_nat BLOCK_SIZE) with 512 in Hb.
    assert (byte_sum sp mod 8 ^ Z.of_nat 6 = byte_sum sp) as Hm
      by (apply Z.mod_small; change (8 ^ Z.of_nat 6) with 262144; lia).
    rewrite parse_octal_loop_digits by (rewrite ?Hm; unfold U32_MAX; lia).
    rewrite Hm. transitivity (@Ok CopyFromContainerError _ (byte_sum sp)); [reflexivity|].
    f_equal. f_equal. unfold on_field.
    rewrite splice_splice; [| |rewrite length_replicate; exact Hfit].
    + subst sp. rewrite splice_splice; [done|done|].
      rewrite length_replicate, Hh. apply Nat.leb_le. reflexivity.
    + rewrite write_chksum_eq by (apply length_field; exact Hfit).
      by rewrite length_app, length_octal_digits.
  - intros off n Hd. unfold sp.
    rewrite block_field_on_field_disj, block_field_splice_disj; block || done.
Qed.

(** ** Splitting a path *)

(** A split of a path at a slash whose two sides fit their fields. *)
Definition legal_split (path name prefix : str) : Prop :=
  path = prefix ++ "/"%byte :: name /\
  (1 <= length name <= NAME_MAX)%nat /\ (1 <= length prefix <= PREFIX_LEN)%nat.

Lemma split_candidate_Some bytes i n p :
  split_candidate bytes i = Some (n, p) <->
  p = i /\ n = length (drop (i + 1) bytes) /\
  legal_split bytes (drop (i + 1) bytes) (take i bytes).
Proof.
  unfold split_candidate, legal_split. rewrite length_drop, length_take.
  destruct (bytes !! i) as [b|] eqn:E.
  - pose proof (lookup_lt_Some _ _ _ E) as Hi. rewrite Nat.min_l by lia.
    pose proof (take_drop_middle _ _ _ E) as Hm.
    replace (S i) with (i + 1)%nat in Hm by lia. case_decide as Hb.
    + subst b.
      destruct (_ && (_ <=? NAME_MAX)%nat) eqn:E1; cbn [negb];
        [destruct (_ && (_ <=? PREFIX_LEN)%nat) eqn:E2; cbn [negb]|];
        repeat match goal with
        | H : (_ && _) = true |- _ => apply andb_true_iff in H as [?%Nat.leb_le ?%Nat.leb_le]
        | H : (_ && _) = false |- _ => apply andb_false_iff in H; rewrite !Nat.leb_gt in H
        end.
      * split; [by intros [= <- <-]|]. by intros (-> & -> & _).
      * split; [done|]. intros (_ & _ & _ & ? & ?). lia.
      * split; [done|]. intros (_ & _ & _ & ? & ?). lia.
    + split; [done|]. intros (_ & _ & H & _). exfalso. apply Hb.
      rewrite H in E. rewrite list_lookup_middle in E; [congruence|].
      rewrite length_take. lia.
  - split; [done|]. intros (_ & _ & H & _). apply lookup_ge_None in E.
    apply (f_equal length) in H. rewrite length_app, length_take in H. cbn in H.
    rewrite length_drop in H. lia.
Qed.

Lemma legal_split_candidate path name prefix :
  legal_split path name prefix ->
  split_candidate path (length prefix) = Some (length name, length prefix) /\
  drop (length prefix + 1) path = name.
Proof.
  intros H. pose proof H as (E & _).
  assert (drop (length prefix + 1) path = name) as Hd.
  { rewrite E, drop_app_ge by lia. by replace (length prefix + 1 - length prefix)%nat with 1%nat by lia. }
  split; [|done]. apply split_candidate_Some.
  rewrite Hd. split_and!; [done..|]. rewrite E, take_app_length. by rewrite <- E.
Qed.

(** What the search keeps: the longest name among the candidates seen. *)
Lemma split_search_spec bytes e :
  match split_search bytes e with
  | None => forall i, (i < e)%nat -> split_candidate bytes i = None
  | Some (n, p) => split_candidate bytes p = Some (n, p) /\
      forall i n' p', (i < e)%nat -> split_candidate bytes i = Some (n', p') -> (n' <= n)%nat
  end.
Proof.
  unfold split_search. induction e as [|e IH]; [intros i; lia|].
  rewrite seq_S, fold_left_app. cbn [fold_left Nat.add].
  destruct (fold_left _ (seq 0 e) None) as [[n p]|] eqn:Ef;
    destruct (split_candidate bytes e) as [[n1 p1]|] eqn:Ec; cbn [split_update].
  - destruct IH as [Hp Hmax]. destruct (Nat.ltb_spec n n1).
    + pose proof Ec as Ec'. apply split_candidate_Some in Ec' as (-> & _ & _). split; [done|].
      intros i n' p' Hi H'. destruct (decide (i = e)) as [->|]; [simplify_eq; lia|].
      assert (n' <= n)%nat by (eapply Hmax; [|exact H']; lia). lia.
    + split; [done|]. intros i n' p' Hi H'. destruct (decide (i = e)) as [->|]; [simplify_eq; lia|].
      eapply Hmax; [|exact H']; lia.
  - destruct IH as [Hp Hmax]. split; [done|]. intros i n' p' Hi H'.
    destruct (decide (i = e)) as [->|]; [simplify_eq; lia|]. eapply Hmax; [|exact H']; lia.
  - pose proof Ec as Ec'. apply split_candidate_Some in Ec' as (-> & _ & _). split; [done|].
    intros i n' p' Hi H'. destruct (decide (i = e)) as [->|]; [simplify_eq; lia|].
    rewrite IH in H' by lia. done.
  - intros i Hi. destruct (decide (i = e)) as [->|]; [done|]. apply IH. lia.
Qed.

(** The name/prefix split of a tar path is legal, loses nothing, and is
    the one with the longest name; it is refused exactly when the path is
    empty, contains a NUL, or is too long and has no legal split. *)
Theorem split_ustar_path_spec path :
  match split_ustar_path path with
  | Ok (name, prefix) =>
      path <> [] /\ (x00 ∉ path) /\
      ((length path <= NAME_MAX)%nat /\ name = path /\ prefix = [] \/
       (NAME_MAX < length path)%nat /\ legal_split path name prefix /\
       forall name' prefix', legal_split path name' prefix' -> (length name' <= length name)%nat)
  | Err _ =>
      path = [] \/ (x00 ∈ path) \/
      (NAME_MAX < length path)%nat /\ forall name prefix, ~ legal_split path name prefix
  end.
Proof.
  unfold split_ustar_path. case_bool_decide as Hne; [by left|].
  destruct (contains x00 path) eqn:Hnul;
    [right; left; by apply contains_true | apply contains_false in Hnul].
  destruct (Nat.leb_spec (length path) NAME_MAX) as [Hl|Hl]; [by auto 6|].
  set (e := if bool_decide _ then _ else _).
  assert (forall n p, legal_split path n p -> (length p < e)%nat) as He.
  { intros n p (E & Hn & Hp). apply (f_equal length) in E. rewrite length_app in E. cbn in E.
    subst e. case_bool_decide; lia. }
  destruct (Nat.eqb_spec e 0) as [E0|_].
  { exfalso. subst e. unfold NAME_MAX, NAME_LEN in Hl. case_bool_decide; lia. }
  pose proof (split_search_spec path e) as Hs.
  destruct (split_search path e) as [[n p]|].
  - destruct Hs as [Hc Hmax]. apply split_candidate_Some in Hc as (_ & -> & Hleg).
    split; [done|]. split; [done|]. right. split; [done|]. split; [done|].
    intros name' prefix' H'. pose proof (legal_split_candidate _ _ _ H') as [Hc _].
    eapply Hmax; [by eapply He | exact Hc].
  - right; right. split; [done|]. intros name prefix H'.
    pose proof (legal_split_candidate _ _ _ H') as [Hc _].
    rewrite Hs in Hc by (by eapply He). done.
Qed.

(** ** Archives *)

Lemma block_ztake h tail : is_block h -> take BLOCK_SIZE (h ++ tail) = h.
Proof. intros E. rewrite <- E. apply take_app_length. Qed.

Lemma block_zdrop h tail n :
  is_block h -> 512 <= n -> zdrop n (h ++ tail) = zdrop (n - 512) tail.
Proof.
  intros E Hn. assert (len h = 512) as El by (unfold len; by rewrite E).
  rewrite zdrop_app_ge by lia. by rewrite El.
Qed.

Lemma octal_digits_octal size :
  0 <= size <= OCTAL_11DIGIT_MAX -> parse_octal (octal_digits 11 size ++ [x00]) = Ok size.
Proof.
  intros Hs. unfold parse_octal.
  assert (size mod 8 ^ Z.of_nat 11 = size) as Hm
    by (apply Z.mod_small; unfold OCTAL_11DIGIT_MAX in Hs; cbn in *; lia).
  rewrite parse_octal_loop_digits; rewrite ?Hm; [done|lia|].
  unfold OCTAL_11DIGIT_MAX, U64_MAX in *. cbn in *. lia.
Qed.

(** The header's checksum is right, and its other fields are as written. *)
Lemma header_block_spec name prefix flag size mode uid gid (h := header_block name prefix flag size mode uid gid) :
  (length name <= 100)%nat -> (length prefix <= 155)%nat ->
  is_block h /\
  parse_chksum (field CHKSUM_OFF CHKSUM_LEN h) =
    Ok (byte_sum (splice CHKSUM_OFF (replicate CHKSUM_LEN x20) h)) /\
  field NAME_OFF NAME_LEN h = name ++ replicate (NAME_LEN - length name) x00 /\
  field TYPEFLAG_OFF 1 h = [flag] /\
  field SIZE_OFF SIZE_LEN h = octal_digits 11 size ++ [x00].
Proof.
  intros Hn Hp.
  pose proof (header_fields_block name prefix flag size mode uid gid Hn Hp) as Hfb.
  destruct (write_header_chksum_spec _ Hfb) as (Hb & Hsum & Hf).
  split; [exact Hb|]. split; [exact Hsum|].
  split_and!; (etransitivity; [apply Hf; block|]).
  - by apply header_fields_name.
  - by apply header_fields_typeflag.
  - by apply header_fields_size.
Qed.

(** What the parser makes of a written header followed by [tail]. *)
Section ParseHeader.
Context (name prefix : str) (flag : byte) (size mode uid gid : Z) (tail : list byte).
Context (Hn : (1 <= length name <= 99)%nat) (Hp : (length prefix <= 155)%nat).
Context (Hnul : x00 ∉ name) (Hgz : take 2 name <> [x1f; x8b]).
Context (Hs : 0 <= size <= OCTAL_11DIGIT_MAX).
#[local] Abbreviation h := (header_block name prefix flag size mode uid gid).

Lemma header_block_name_field : take NAME_LEN h = name ++ replicate (NAME_LEN - length name) x00.
Proof.
  destruct (header_block_spec name prefix flag size mode uid gid) as (_ & _ & H & _); [lia..|].
  rewrite <- H. unfold field, NAME_OFF. by rewrite drop_0.
Qed.

Lemma header_block_not_gzip : take 2 (h ++ tail) <> [x1f; x8b].
Proof.
  destruct (header_block_spec name prefix flag size mode uid gid) as (Hb & _); [lia..|].
  intros E. apply Hgz.
  rewrite take_app_le in E by (rewrite Hb; apply Nat.leb_le; reflexivity).
  replace (take 2 h) with (take 2 (take NAME_LEN h)) in E by (rewrite take_take; done).
  rewrite header_block_name_field in E. revert E Hgz Hn. clear. intros E Hgz Hn.
  destruct name as [|a [|b l]]; cbn in *; [lia|discriminate|done].
Qed.

Lemma header_block_not_zero : forallb (fun b => u8 b =? 0) h = false.
Proof.
  apply not_true_is_false. intros Hz. rewrite List.forallb_forall in Hz.
  assert (exists a, a ∈ name) as [a Ha].
  { destruct name as [|a l]; [cbn in Hn; lia|]. exists a. apply list_elem_of_here. }
  assert (a ∈ h) as Hin.
  { rewrite <- (take_drop NAME_LEN h), header_block_name_field.
    apply elem_of_app; left. apply elem_of_app; by left. }
  apply list_elem_of_In, Hz, Z.eqb_eq in Hin.
  assert (a = x00) as -> by (apply u8_inj; exact Hin). done.
Qed.

Lemma header_block_typeflag : nth TYPEFLAG_OFF h x00 = flag.
Proof.
  destruct (header_block_spec name prefix flag size mode uid gid) as (_ & _ & _ & H & _); [lia..|].
  apply nth_lookup_Some. apply (f_equal (fun l => l !! 0%nat)) in H.
  rewrite lookup_field, decide_True in H by lia. exact H.
Qed.

Lemma parse_header_block :
  check_typeflag flag = Ok tt ->
  parse_first_regular_file_from_ustar (h ++ tail) =
  if len tail <? size then Err (invalid_data (lit "truncated tar data"))
  else Ok (ztake size tail).
Proof.
  intros Hflag.
  destruct (header_block_spec name prefix flag size mode uid gid)
    as (Hb & Hsum & _ & _ & Hsize); [lia..|].
  assert (len h = 512) as El by exact (f_equal Z.of_nat Hb).
  unfold parse_first_regular_file_from_ustar. rewrite block_ztake by exact Hb.
  rewrite bool_decide_eq_false_2, andb_false_r by exact header_block_not_gzip.
  rewrite header_block_not_zero, header_block_typeflag, Hflag, Hsum, Hsize.
  rewrite octal_digits_octal by exact Hs. cbn [mbind result_bind].
  rewrite Z.eqb_refl. cbn [negb]. rewrite len_app, El.
  destruct (Z.ltb_spec (512 + len tail) 512) as [Hx|_]; [pose proof (len_nonneg tail); lia|].
  assert (0 <= size < 2 ^ 33) as Hs' by (unfold OCTAL_11DIGIT_MAX in Hs; lia).
  unfold USIZE_MAX, U64_MAX.
  rewrite checked_ok by lia. cbn [ok_or mbind result_bind].
  rewrite checked_ok by lia. cbn [ok_or mbind result_bind].
  rewrite block_zdrop, Z.sub_diag, zdrop_le by (exact Hb || lia).
  replace (512 + size - 512) with size by lia.
  destruct (Z.ltb_spec (512 + len tail) (512 + size)), (Z.ltb_spec (len tail) size); done || lia.
Qed.

Lemma parse_header_block_dir :
  check_typeflag flag = Err IsDirectory ->
  parse_first_regular_file_from_ustar (h ++ tail) = Err IsDirectory.
Proof.
  intros Hflag.
  destruct (header_block_spec name prefix flag size mode uid gid) as (Hb & _); [lia..|].
  assert (len h = 512) as El by exact (f_equal Z.of_nat Hb).
  unfold parse_first_regular_file_from_ustar. rewrite block_ztake by exact Hb.
  rewrite bool_decide_eq_false_2, andb_false_r by exact header_block_not_gzip.
  rewrite header_block_not_zero, header_block_typeflag, Hflag, len_app, El.
  destruct (Z.ltb_spec (512 + len tail) 512) as [Hx|_]; [pose proof (len_nonneg tail); lia|].
  done.
Qed.
End ParseHeader.

(** The name the header gets: it fits, has no NUL, and no gzip magic when the
    path is text. *)
Lemma split_ustar_path_name path name prefix :
  is_Some (from_utf8 path) -> split_ustar_path path = Ok (name, prefix) ->
  (1 <= length name <= 99)%nat /\ (length prefix <= 155)%nat /\
  (x00 ∉ name) /\ take 2 name <> [x1f; x8b].
Proof.
  intros [t Ht] E. pose proof (split_ustar_path_spec path) as H. rewrite E in H.
  destruct H as (Hne & Hnul & H).
  assert (exists k, path = k ++ name) as [k Hk].
  { destruct H as [(_ & -> & _)|(_ & (Hp & _) & _)]; [by exists []|].
    exists (prefix ++ [ "/"%byte ]). rewrite Hp at 1. by rewrite <- app_assoc. }
  split_and!.
  - destruct H as [(? & -> & _)|(_ & (_ & ? & ?) & _)]; [|unfold NAME_MAX, NAME_LEN, PREFIX_LEN in *; lia].
    destruct path; [done | cbn; lia].
  - destruct H as [(? & -> & ->)|(_ & (_ & ? & ?) & _)]; [|unfold NAME_MAX, NAME_LEN, PREFIX_LEN in *; lia].
    cbn in *; lia.
  - destruct H as [(? & -> & ->)|(_ & (_ & ? & ?) & _)]; [|unfold NAME_MAX, NAME_LEN, PREFIX_LEN in *; lia].
    cbn in *; lia.
  - intros Hin. apply Hnul. rewrite Hk. apply elem_of_app. by right.
  - intros Hgz. destruct name as [|a [|b l]]; try discriminate. cbn in Hgz. simplify_eq.
    rewrite utf8_no_cont_after_ascii in Ht; [done|cbn; lia|cbn; lia].
Qed.

Lemma pad_len_spec n : 0 <= n -> 0 <= pad_len n < 512 /\ (512 | n + pad_len n).
Proof.
  intros Hn. unfold pad_len. pose proof (Z.mod_pos_bound n 512 eq_refl).
  split; [apply Z.mod_pos_bound; lia|]. apply Z.mod_divide; [lia|].
  rewrite Zplus_mod_idemp_r. rewrite Z.add_sub_assoc, Zminus_mod_idemp_r.
  replace (n + 512 - n) with 512 by lia. done.
Qed.

(** A header needs a legal path only for its length. *)
Lemma split_ustar_path_block path name prefix flag size mode uid gid :
  split_ustar_path path = Ok (name, prefix) ->
  is_block (header_block name prefix flag size mode uid gid).
Proof.
  intros E. pose proof (split_ustar_path_spec path) as H. rewrite E in H.
  assert (length name <= 99 /\ length prefix <= 155)%nat as [? ?].
  { destruct H as (_ & _ & [(? & -> & ->)|(_ & (_ & ? & ?) & _)]);
      unfold NAME_MAX, NAME_LEN, PREFIX_LEN in *; cbn in *; lia. }
  apply header_block_block; lia.
Qed.

Lemma append_header_inv out path flag size mode uid gid out' :
  append_header out path flag size mode uid gid = Ok out' ->
  exists name prefix,
    split_ustar_path path = Ok (name, prefix) /\
    uid <= OCTAL_7DIGIT_MAX /\ gid <= OCTAL_7DIGIT_MAX /\ size <= OCTAL_11DIGIT_MAX /\
    is_block (header_block name prefix flag size mode uid gid) /\
    out' = out ++ header_block name prefix flag size mode uid gid.
Proof.
  unfold append_header. intros H. inv_ok H. destruct x as [name prefix].
  injection H as <-. exists name, prefix. repeat match goal with
    | H : (_ <? _) = false |- _ => apply Z.ltb_ge in H end.
  split_and!; try done. by eapply split_ustar_path_block.
Qed.

Lemma append_file_inv b path data mode uid gid b' :
  append_file b path data mode uid gid = Ok b' ->
  exists name prefix,
    split_ustar_path path = Ok (name, prefix) /\
    len data <= OCTAL_11DIGIT_MAX /\
    len b.(buf) + 512 + len data + pad_len (len data) <= DOCKER_RESPONSE_BODY_LIMIT /\
    is_block (header_block name prefix TYPEFLAG_REGULAR (len data) mode uid gid) /\
    b'.(buf) = b.(buf) ++ header_block name prefix TYPEFLAG_REGULAR (len data) mode uid gid ++
                 data ++ replicate (Z.to_nat (pad_len (len data))) x00.
Proof.
  unfold append_file. intros H. inv_ok H. injection H as <-.
  apply append_header_inv in H1 as (name & prefix & Hs & _ & _ & Hd & Hb & ->).
  apply ok_or_Ok in H0. exists name, prefix. apply Z.ltb_ge in Heqb1.
  destruct (checked 0 USIZE_MAX (len (buf b) + 512)) as [n|] eqn:E1; [|discriminate].
  apply checked_Some in E1 as [-> _]. cbn [mbind option_bind] in H0.
  destruct (checked 0 USIZE_MAX (_ + len data)) as [n|] eqn:E1; [|discriminate].
  apply checked_Some in E1 as [-> _]. apply checked_Some in H0 as [-> _].
  split_and!; try done. cbn [buf]. by rewrite <- !app_assoc.
Qed.

(** C36: Copying a file into an archive and reading the archive back gives the
    file, byte for byte, whatever follows it; the path is any text. *)
Theorem parse_append_file path data mode uid gid b rest :
  is_Some (from_utf8 path) ->
  append_file UstarBuilder_new path data mode uid gid = Ok b ->
  parse_first_regular_file_from_ustar (b.(buf) ++ rest) = Ok data.
Proof.
  intros Hu (name & prefix & Hs & Hd & _ & _ & ->)%append_file_inv.
  destruct (split_ustar_path_name _ _ _ Hu Hs) as (? & ? & ? & ?).
  change (buf UstarBuilder_new) with (@nil byte). rewrite app_nil_l, <- !app_assoc.
  rewrite parse_header_block by (done || llia). rewrite !len_app.
  destruct (Z.ltb_spec (len data + (len (replicate (Z.to_nat (pad_len (len data))) x00) + len rest)) (len data));
    [llia|].
  rewrite ztake_app_le by lia. rewrite ztake_ge by lia. done.
Qed.

(** The parser never takes a directory entry for a file. *)
Theorem parse_append_directory path mode uid gid b rest :
  is_Some (from_utf8 path) ->
  append_directory UstarBuilder_new path mode uid gid = Ok b ->
  parse_first_regular_file_from_ustar (b.(buf) ++ rest) = Err IsDirectory.
Proof.
  intros Hu. unfold append_directory. intros H. inv_ok H. injection H as <-.
  apply append_header_inv in H0 as (name & prefix & Hs & _ & _ & _ & _ & ->).
  destruct (split_ustar_path_name _ _ _ Hu Hs) as (? & ? & ? & ?).
  change (buf UstarBuilder_new) with (@nil byte). rewrite app_nil_l. cbn [buf].
  by apply parse_header_block_dir.
Qed.

(** The builders reachable from the empty one. *)
Inductive built : UstarBuilder -> Prop :=
| built_new : built UstarBuilder_new
| built_directory b path mode uid gid b' :
    built b -> append_directory b path mode uid gid = Ok b' -> built b'
| built_file b path data mode uid gid b' :
    built b -> append_file b path data mode uid gid = Ok b' -> built b'.

Lemma built_invariant b :
  built b -> (512 | len b.(buf)) /\ len b.(buf) <= DOCKER_RESPONSE_BODY_LIMIT.
Proof.
  induction 1 as [|b path mode uid gid b' _ [IH1 IH2] H|b path data mode uid gid b' _ [IH1 IH2] H].
  - split; [exists 0; done | done].
  - unfold append_directory, check_limit in H. inv_ok H. injection H as <-.
    cbn [buf] in *.
    apply append_header_inv in H0 as (? & ? & _ & _ & _ & _ & Hb & ->).
    destruct (DOCKER_RESPONSE_BODY_LIMIT <? _) eqn:E in H1; [done|].
    apply Z.ltb_ge in E. split; [|done]. rewrite len_app. apply Z.divide_add_r; [done|].
    exists 1. unfold len. by rewrite Hb.
  - apply append_file_inv in H as (name & prefix & _ & _ & Hl & Hb & ->).
    pose proof (pad_len_spec (len data) (len_nonneg _)) as [? ?].
    assert (len (header_block name prefix TYPEFLAG_REGULAR (len data) mode uid gid) = 512)
      as Hlen by exact (f_equal Z.of_nat Hb).
    rewrite !len_app, Hlen, len_replicate, Z2Nat.id by lia.
    split; [|lia]. apply Z.divide_add_r; [done|].
    apply Z.divide_add_r; [by exists 1 | done].
Qed.

(** A finished archive is a whole number of 512-byte records, ends with
    two zero records, and is within the 64 MiB limit. *)
Theorem finish_archive b bytes :
  built b -> finish b = Ok bytes ->
  (512 | len bytes) /\ len bytes <= DOCKER_RESPONSE_BODY_LIMIT /\
  bytes = b.(buf) ++ replicate (512 * 2) x00.
Proof.
  intros [Hd _]%built_invariant H. unfold finish, check_limit, BLOCK_SIZE in H.
  set (zs := replicate (512 * 2) x00) in *.
  assert (len zs = 1024) as Hz by apply len_replicate. clearbody zs.
  cbn [buf] in H. inv_ok H. injection H as <-.
  destruct (DOCKER_RESPONSE_BODY_LIMIT <? _) eqn:E in H0; [done|].
  apply Z.ltb_ge in E. split_and!; [|done|done].
  rewrite len_app, Hz. apply Z.divide_add_r; [done|]. by exists 2.
Qed.

(** ** Witnesses *)

Definition hello_archive : UstarBuilder :=
  match append_file UstarBuilder_new (lit "etc/motd") (lit "hello") 420 0 0 with
  | Ok b => b
  | Err _ => UstarBuilder_new
  end.

Lemma parse_append_file_witness :
  parse_first_regular_file_from_ustar (hello_archive.(buf) ++ lit "trailer") = Ok (lit "hello").
Proof.
  apply (parse_append_file (lit "etc/motd") (lit "hello") 420 0 0).
  - by exists (lit "etc/motd").
  - vm_compute. reflexivity.
Defined.

Definition dir_archive : UstarBuilder :=
  match append_directory UstarBuilder_new (lit "data/") 493 1000 1000 with
  | Ok b => b
  | Err _ => UstarBuilder_new
  end.

Lemma parse_append_directory_witness :
  parse_first_regular_file_from_ustar (dir_archive.(buf) ++ []) = Err IsDirectory.
Proof.
  apply (parse_append_directory (lit "data/") 493 1000 1000).
  - by exists (lit "data/").
  - vm_compute. reflexivity.
Defined.

Lemma finish_archive_witness :
  exists bytes, finish hello_archive = Ok bytes /\ (512 | len bytes) /\
    len bytes <= DOCKER_RESPONSE_BODY_LIMIT /\
    bytes = hello_archive.(buf) ++ replicate (512 * 2) x00.
Proof.
  eexists. split; [vm_compute; reflexivity|].
  apply finish_archive.
  - apply (built_file UstarBuilder_new (lit "etc/motd") (lit "hello") 420 0 0);
      [apply built_new | vm_compute; reflexivity].
  - vm_compute. reflexivity.
Defined.
