(* ===== verification/Http.v ===== *)
(** * The HTTP/1.1 response decoder the crate builds on

    [shiguredo_http11] is a third-party package: its [ResponseDecoder] is a
    class of operations on an abstract state [D].  What the crate relies on is
    the class [ResponseDecoderLaws]: a decoder yields the body bytes that its
    input decodes to, in order, and its operations make progress. *)

From S2P Require Import Prelude.

Record ResponseHead := mkResponseHead {
  status_code : Z;
  headers : list (str * str)
}.

(** [BodyKind] is non-exhaustive: [BodyUnknown] stands for a future variant. *)
Inductive BodyKind :=
| BodyNone | BodyTunnel | CloseDelimited | ContentLength (n : Z) | Chunked | BodyUnknown.

Inductive BodyProgress := Complete | Advanced | NeedData.

(** [with_limits None] is [ResponseDecoder::new()], with the package's default
    limits; [with_limits (Some n)] sets [max_body_size].  [advance_buf d bs]
    is [advance_buf(n)] after the [n] bytes [bs] were read into [mut_buf]. *)
Class ResponseDecoder (D : Type) := {
  with_limits : option Z -> D;
  set_request_method : str -> D -> D;
  available_buf : D -> Z;
  mut_buf : Z -> D -> result str unit;
  advance_buf : list byte -> D -> D;
  mark_eof : D -> D;
  decode_headers : D -> result str (option (ResponseHead * BodyKind) * D);
  peek_body : D -> option (list byte);
  consume_body : Z -> D -> result str (BodyProgress * D);
  progress : D -> result str (BodyProgress * D)
}.

(** [received d]: the body bytes that the input fed so far decodes to;
    [decoded d]: the part of them that is not consumed yet.  [work d]: a bound
    on the steps left before the decoder needs more input, which grows by at
    most [work_byte] per byte of input and at the end of file. *)
Class ResponseDecoderLaws (D : Type) `{ResponseDecoder D} := {
  received : D -> list byte;
  decoded : D -> list byte;
  work : D -> nat;
  work_byte : nat;
  available_law d : 0 <= available_buf d;
  new_law l : received (with_limits l) = [] /\ decoded (with_limits l) = [];
  method_law m d :
    received (set_request_method m d) = received d /\
    decoded (set_request_method m d) = decoded d /\
    work (set_request_method m d) = work d;
  advance_law bs d :
    (exists x, received (advance_buf bs d) = received d ++ x /\
               decoded (advance_buf bs d) = decoded d ++ x) /\
    (work (advance_buf bs d) <= work d + work_byte * length bs)%nat;
  eof_law d :
    (exists x, received (mark_eof d) = received d ++ x /\ decoded (mark_eof d) = decoded d ++ x) /\
    (work (mark_eof d) <= work d + work_byte)%nat;
  decode_law d o d' :
    decode_headers d = Ok (o, d') ->
    (exists x, received d' = received d ++ x /\ decoded d' = decoded d ++ x) /\
    (work d' <= work d)%nat /\ (is_Some o -> (work d' < work d)%nat);
  consume_law d x p d' :
    peek_body d = Some x -> consume_body (len x) d = Ok (p, d') ->
    received d' = received d /\ decoded d = x ++ decoded d' /\ (work d' < work d)%nat /\
    (p = Complete -> decoded d' = []);
  progress_law d p d' :
    peek_body d = None -> progress d = Ok (p, d') ->
    received d' = received d /\ decoded d' = decoded d /\ (work d' <= work d)%nat /\
    (p = Advanced -> (work d' < work d)%nat) /\
    (p <> Advanced -> decoded d' = [])
}.

(** ** A decoder for messages without framing

    The simplest decoder that meets the laws, used to evaluate the clients:
    the head is one line [status LF], and the body lasts until end of file. *)
Record PlainDecoder := mkPlain {
  p_buf : list byte; p_head : bool; p_eof : bool; p_consumed : list byte }.

Definition NL : byte := x0a.

#[export] Instance PlainDecoder_ops : ResponseDecoder PlainDecoder := {
  with_limits _ := mkPlain [] false false [];
  set_request_method _ d := d;
  available_buf d := Z.max 0 (65536 - len d.(p_buf));
  mut_buf _ _ := Ok tt;
  advance_buf bs d := mkPlain (d.(p_buf) ++ bs) d.(p_head) d.(p_eof) d.(p_consumed);
  mark_eof d := mkPlain d.(p_buf) d.(p_head) true d.(p_consumed);
  decode_headers d :=
    if d.(p_head) then Err (lit "unexpected state") else
    match split_once NL d.(p_buf) with
    | None => Ok (None, d)
    | Some (line, rest) =>
        match parse_u16 line with
        | Ok n => let k := if (n =? 204) || in_range 100 199 n then BodyNone else CloseDelimited in
                  Ok (Some (mkResponseHead n [], k),
                      mkPlain rest (negb (in_range 100 199 n)) d.(p_eof) d.(p_consumed))
        | Err _ => Err (lit "invalid status line")
        end
    end;
  peek_body d := if d.(p_head) then
                   match d.(p_buf) with [] => None | b => Some b end
                 else None;
  consume_body n d :=
    Ok (Advanced, mkPlain (zdrop n d.(p_buf)) d.(p_head) d.(p_eof)
                          (d.(p_consumed) ++ ztake n d.(p_buf)));
  progress d := if d.(p_eof) then Ok (Complete, d) else Ok (NeedData, d)
}.

Definition plain_decoded (d : PlainDecoder) : list byte := if d.(p_head) then d.(p_buf) else [].

#[export] Program Instance PlainDecoder_laws : ResponseDecoderLaws PlainDecoder := {
  received d := d.(p_consumed) ++ plain_decoded d;
  decoded := plain_decoded;
  work d := (length d.(p_buf));
  work_byte := 1%nat
}.
Next Obligation. intros d. cbn. lia. Qed.
Next Obligation. done. Qed.
Next Obligation. done. Qed.
Next Obligation.
  intros bs [b h e c]; split; [|cbn; rewrite length_app; lia].
  destruct h; [exists bs | exists []]; cbn; by rewrite ?app_assoc, ?app_nil_r.
Qed.
Next Obligation.
  intros [b h e c]; split; [|cbn; lia]. destruct h; exists []; cbn; by rewrite ?app_nil_r.
Qed.
Next Obligation.
  intros [b [] e c] o d'; cbn; [done|].
  destruct (split_once NL b) as [[line rest]|] eqn:E.
  - apply split_once_Some in E as [-> _].
    destruct (parse_u16 line) as [n|]; [|done]. intros [= <- <-]. split.
    + exists (plain_decoded (mkPlain rest (negb (in_range 100 199 n)) e c)).
      by rewrite app_nil_r.
    + cbn. rewrite length_app. cbn. split; [lia|]. intros _. lia.
  - intros [= <- <-]. split; [exists []; by rewrite !app_nil_r|]. split; [done|by intros []].
Qed.
Next Obligation.
  intros [b [] e c] x p d'; cbn; [|done]. destruct b as [|y b]; [done|].
  intros [= <-] [= <- <-]. cbn. rewrite zdrop_ge, ztake_ge by done. cbn.
  rewrite !app_nil_r. split_and!; [done|done|lia|done].
Qed.
Next Obligation.
  intros [b [] e c] p d'; cbn; [destruct b; [|done]|]; intros _;
    destruct e; intros [= <- <-]; done.
Qed.
