(* ===== verification/HttpDecode.v ===== *)
(** * The response accumulator ([src/src/core/client/http_decode.rs])

    [ResponseAccumulator] over any decoder of the class [ResponseDecoder]: the
    body limits, the skipping of interim responses and the end-of-file rules. *)

From S2P Require Import Prelude Http.

Inductive BodyLimit :=
| Unlimited
| Truncate (max : Z)
| BodyLimit_Error (max : Z).

Section HttpDecode.
Context {D : Type} `{ResponseDecoder D}.

Record ResponseAccumulator := mkAcc {
  decoder : D;
  request_method : str;
  acc_head : option ResponseHead;
  body_kind : option BodyKind;
  body_buf : list byte;
  body_done : bool;
  body_limit : BodyLimit
}.

Definition set_decoder (d : D) (s : ResponseAccumulator) : ResponseAccumulator :=
  mkAcc d s.(request_method) s.(acc_head) s.(body_kind) s.(body_buf) s.(body_done) s.(body_limit).
Definition set_body_buf (b : list byte) (s : ResponseAccumulator) : ResponseAccumulator :=
  mkAcc s.(decoder) s.(request_method) s.(acc_head) s.(body_kind) b s.(body_done) s.(body_limit).
Definition set_body_done (b : bool) (s : ResponseAccumulator) : ResponseAccumulator :=
  mkAcc s.(decoder) s.(request_method) s.(acc_head) s.(body_kind) s.(body_buf) b s.(body_limit).
Definition set_message (h : option ResponseHead) (k : option BodyKind)
    (s : ResponseAccumulator) : ResponseAccumulator :=
  mkAcc s.(decoder) s.(request_method) h k s.(body_buf) s.(body_done) s.(body_limit).

Record DecodedResponse := mkDecoded { dr_head : ResponseHead; dr_body : list byte }.

(** [ResponseAccumulator::new] *)
Definition ResponseAccumulator_new (method : str) (limit : BodyLimit) : ResponseAccumulator :=
  let d := match limit with
           | BodyLimit_Error max => with_limits (Some max)
           | Truncate _ => with_limits (Some U64_MAX)
           | Unlimited => with_limits None
           end in
  mkAcc (set_request_method method d) method None None [] false limit.

Definition read_buf_size (s : ResponseAccumulator) : Z :=
  Z.min (available_buf s.(decoder)) 8192.

(** What [drain_body] appends for a slice [data] of the body. *)
Definition limit_body (limit : BodyLimit) (buf data : list byte) : result str (list byte) :=
  match limit with
  | Unlimited => Ok (buf ++ data)
  | Truncate max =>
      let remaining := Z.max 0 (max - len buf) in
      Ok (buf ++ ztake (Z.min (len data) remaining) data)
  | BodyLimit_Error max =>
      if max <? Z.min USIZE_MAX (len buf + len data) then
        Err (lit "output exceeds " ++ show_nat max ++ lit " bytes limit")
      else Ok (buf ++ data)
  end.

(** [drain_body]; [None] when the fuel does not suffice. *)
Fixpoint drain_body (fuel : nat) (s : ResponseAccumulator) : option (result str ResponseAccumulator) :=
  match fuel with
  | O => None
  | S fuel =>
      match peek_body s.(decoder) with
      | Some data =>
          match limit_body s.(body_limit) s.(body_buf) data with
          | Err e => Some (Err e)
          | Ok buf =>
              match consume_body (len data) s.(decoder) with
              | Err e => Some (Err e)
              | Ok (p, d) =>
                  let s := set_decoder d (set_body_buf buf s) in
                  match p with
                  | Complete => Some (Ok (set_body_done true s))
                  | Advanced | NeedData => drain_body fuel s
                  end
              end
          end
      | None =>
          match progress s.(decoder) with
          | Err e => Some (Err e)
          | Ok (p, d) =>
              let s := set_decoder d s in
              match p with
              | Complete => Some (Ok (set_body_done true s))
              | Advanced => drain_body fuel s
              | NeedData => Some (Ok s)
              end
          end
      end
  end.

Definition is_interim (code : Z) : bool := in_range 100 199 code.

(** The part of [feed] after the head is known, at the body. *)
Definition feed_body (fuel : nat) (n : Z) (s : ResponseAccumulator)
    : option (result str (bool * ResponseAccumulator)) :=
  match s.(body_kind) with
  | Some (BodyNone | BodyTunnel) => Some (Ok (true, s))
  | Some CloseDelimited =>
      match drain_body fuel s with
      | None => None
      | Some (Err e) => Some (Err e)
      | Some (Ok s) =>
          if s.(body_done) then Some (Ok (true, s))
          else if n =? 0 then Some (Ok (true, set_body_done true s))
          else Some (Ok (false, s))
      end
  | Some (ContentLength _ | Chunked) =>
      match drain_body fuel s with
      | None => None
      | Some (Err e) => Some (Err e)
      | Some (Ok s) =>
          if s.(body_done) then Some (Ok (true, s))
          else if n =? 0 then Some (Err (lit "connection closed before body complete"))
          else Some (Ok (false, s))
      end
  | None => Some (Err (lit "missing body kind after headers"))
  | Some BodyUnknown => Some (Err (lit "unsupported body kind"))
  end.

(** The loop of [feed]: interim responses are dropped. *)
Fixpoint feed_loop (fuel : nat) (n : Z) (s : ResponseAccumulator)
    : option (result str (bool * ResponseAccumulator)) :=
  match fuel with
  | O => None
  | S fuel' =>
      match s.(acc_head) with
      | Some _ => feed_body fuel n s
      | None =>
          match decode_headers s.(decoder) with
          | Err e => Some (Err e)
          | Ok (Some (h, bk), d) =>
              let s := set_decoder d s in
              if is_interim h.(status_code) then
                feed_loop fuel' n
                  (mkAcc (set_request_method s.(request_method) d) s.(request_method)
                         None None [] false s.(body_limit))
              else feed_body fuel n (set_message (Some h) (Some bk) s)
          | Ok (None, d) =>
              if n =? 0 then Some (Err (lit "connection closed before headers complete"))
              else Some (Ok (false, set_decoder d s))
          end
      end
  end.

(** [feed(n)] after the bytes [bs] were read into [mut_buf]. *)
Definition feed (fuel : nat) (bs : list byte) (s : ResponseAccumulator)
    : option (result str (bool * ResponseAccumulator)) :=
  let d := advance_buf bs s.(decoder) in
  let d := if len bs =? 0 then mark_eof d else d in
  feed_loop fuel (len bs) (set_decoder d s).

Definition finish (s : ResponseAccumulator) : result str DecodedResponse :=
  head ← ok_or s.(acc_head) (lit "no response head");
  Ok (mkDecoded head s.(body_buf)).
End HttpDecode.
Arguments ResponseAccumulator D : clear implicits.

(** ** Limits *)

Section Limits.
Implicit Types buf data : list byte.

(** The body kept by a limit, of a whole body. *)
Definition limited (limit : BodyLimit) (body : list byte) : option (list byte) :=
  match limit with
  | Unlimited => Some body
  | Truncate max => Some (ztake max body)
  | BodyLimit_Error max => if max <? len body then None else Some body
  end.

Definition limit_ok (limit : BodyLimit) : Prop :=
  match limit with
  | Unlimited => True
  | Truncate max | BodyLimit_Error max => 0 <= max < USIZE_MAX
  end.

(** Appending slice by slice is limiting the concatenation. *)
Lemma limit_body_limited limit body data buf :
  limit_ok limit -> limited limit body = Some buf ->
  to_ok (limit_body limit buf data) = limited limit (body ++ data).
Proof.
  intros Hl. destruct limit as [|max|max]; cbn.
  - by intros [= ->].
  - intros [= <-]. f_equal. destruct (Z.leb_spec max (len body)).
    + rewrite ztake_app_le by done. rewrite (ztake_le (Z.min _ _)) by llia. apply app_nil_r.
    + rewrite (ztake_ge max body), ztake_app_ge by lia. f_equal.
      destruct (Z.leb_spec (len data) (max - len body)).
      * rewrite !ztake_ge by lia. done.
      * f_equal. lia.
  - destruct (Z.ltb_spec max (len body)); [done|]. intros [= <-].
    rewrite len_app. cbn in Hl. pose proof (len_nonneg body). pose proof (len_nonneg data).
    destruct (Z.ltb_spec max (Z.min USIZE_MAX (len body + len data))),
      (Z.ltb_spec max (len body + len data)); cbn; done || lia.
Qed.

Lemma limited_prefix limit a b : limited limit a = None -> limited limit (a ++ b) = None.
Proof.
  destruct limit as [|max|max]; cbn; [done..|]. rewrite len_app.
  pose proof (len_nonneg b). destruct (Z.ltb_spec max (len a)); [|done].
  destruct (Z.ltb_spec max (len a + len b)); done || lia.
Qed.
End Limits.

Section Drain.
Context {D : Type} `{ResponseDecoderLaws D}.
Implicit Types s : ResponseAccumulator D.

(** What a drain may end with, of the body [body] received before it. *)
Definition drained (body : list byte) s (r : result str (ResponseAccumulator D)) : Prop :=
  match r with
  | Ok s' =>
      limited s.(body_limit) (body ++ decoded s.(decoder)) = Some s'.(body_buf) /\
      decoded s'.(decoder) = [] /\
      s'.(body_limit) = s.(body_limit) /\ s'.(acc_head) = s.(acc_head) /\
      s'.(body_kind) = s.(body_kind) /\ s'.(request_method) = s.(request_method) /\
      (work s'.(decoder) <= work s.(decoder))%nat /\ received s'.(decoder) = received s.(decoder)
  | Err _ => True
  end.

Lemma drain_body_spec fuel body s :
  (work s.(decoder) < fuel)%nat -> limit_ok s.(body_limit) ->
  limited s.(body_limit) body = Some s.(body_buf) ->
  exists r, drain_body fuel s = Some r /\ drained body s r.
Proof.
  revert body s. induction fuel as [|fuel IH]; intros body s Hf Hlo Hl; [lia|].
  cbn [drain_body]. destruct (peek_body (decoder s)) as [data|] eqn:Ep.
  - pose proof (limit_body_limited _ _ data _ Hlo Hl) as Hb.
    destruct (limit_body _ _ data) as [buf|e]; cbn in Hb; [|by eexists].
    destruct (consume_body (len data) (decoder s)) as [[p d]|e] eqn:Ec; [|by eexists].
    pose proof (consume_law _ _ _ _ Ep Ec) as (Hrec & Hd & Hw & Hc).
    set (s1 := set_decoder d (set_body_buf buf s)).
    assert (forall r, drained (body ++ data) s1 r -> drained body s r) as Hmono.
    { intros [s'|e]; [|done]. unfold drained. cbn. rewrite Hd, app_assoc.
      intros (? & ? & ? & ? & ? & ? & ? & Hr). split_and!; try done; [lia|]. by rewrite Hr. }
    destruct (IH (body ++ data) s1) as (r & Hr & Hdr); [cbn; lia|done|by symmetry|].
    destruct p.
    + eexists. split; [done|]. apply Hmono. unfold drained. cbn.
      rewrite Hc by done. rewrite app_nil_r. split_and!; done || by symmetry.
    + exists r. auto.
    + exists r. auto.
  - destruct (progress (decoder s)) as [[p d]|e] eqn:Ec; [|by eexists].
    pose proof (progress_law _ _ _ Ep Ec) as (Hrec & Hd & Hw & Ha & Hn).
    set (s1 := set_decoder d s).
    assert (p <> Advanced -> drained body s (Ok s1)) as Hstop.
    { intros Hp. unfold drained. cbn. rewrite <- Hd, (Hn Hp), app_nil_r. by split_and!. }
    destruct p.
    + eexists. split; [done|]. apply Hstop. done.
    + destruct (IH body s1) as (r & Hr & Hdr); [cbn; specialize (Ha eq_refl); lia|done|done|].
      exists r. split; [done|]. destruct r as [s'|]; [|done]. unfold drained in *. cbn in Hdr.
      rewrite <- Hd. destruct Hdr as (? & ? & ? & ? & ? & ? & ? & Hrd). split_and!; try done; [lia|]. by rewrite Hrd.
    + eexists. split; [done|]. by apply Hstop.
Qed.

(** Draining terminates within the decoder's own bound on its steps, and a
    drain that succeeds has kept exactly what the limit keeps of everything
    received: all of it, its first bytes, or all of it within the maximum. *)
Theorem drain_body_limits fuel s body :
  (work s.(decoder) < fuel)%nat -> limit_ok s.(body_limit) ->
  limited s.(body_limit) body = Some s.(body_buf) ->
  exists r, drain_body fuel s = Some r /\
    forall s', r = Ok s' ->
      limited s.(body_limit) (body ++ decoded s.(decoder)) = Some s'.(body_buf) /\
      decoded s'.(decoder) = [].
Proof.
  intros Hf Ho Hl. destruct (drain_body_spec fuel body s Hf Ho Hl) as (r & Hr & Hd).
  exists r. split; [done|]. intros s' ->. destruct Hd as (? & ? & _). done.
Qed.

Lemma feed_body_eof fuel s s' : feed_body fuel 0 s <> Some (Ok (false, s')).
Proof. unfold feed_body. cbn. repeat case_match; congruence. Qed.

Lemma feed_body_head fuel n s b s' :
  (work s.(decoder) < fuel)%nat -> limit_ok s.(body_limit) ->
  limited s.(body_limit) s.(body_buf) = Some s.(body_buf) ->
  feed_body fuel n s = Some (Ok (b, s')) -> s'.(acc_head) = s.(acc_head).
Proof.
  intros Hf Ho Hl. destruct (drain_body_spec fuel (body_buf s) s Hf Ho Hl) as (r & Hr & Hd).
  unfold feed_body. rewrite Hr.
  destruct r as [s1|e]; [destruct Hd as (_ & _ & _ & Hh & _)|];
    repeat case_match; intros; simplify_eq; done.
Qed.

Lemma feed_body_total fuel n s :
  (work s.(decoder) < fuel)%nat -> limit_ok s.(body_limit) ->
  limited s.(body_limit) s.(body_buf) = Some s.(body_buf) ->
  is_Some (feed_body fuel n s).
Proof.
  intros Hf Ho Hl. destruct (drain_body_spec fuel (body_buf s) s Hf Ho Hl) as (r & Hr & _).
  unfold feed_body. rewrite Hr. repeat case_match; eauto.
Qed.

(** The accumulator keeps what its limit keeps, and has no interim head. *)
Definition acc_wf s : Prop :=
  limit_ok s.(body_limit) /\ limited s.(body_limit) s.(body_buf) = Some s.(body_buf) /\
  (forall h, s.(acc_head) = Some h -> is_interim h.(status_code) = false).

Lemma limited_nil limit : limit_ok limit -> limited limit [] = Some [].
Proof.
  destruct limit as [|max|max]; unfold limited, limit_ok; [done|intros..].
  - rewrite ztake_ge by llia. done.
  - rewrite len_nil. destruct (Z.ltb_spec max 0); [lia|done].
Qed.

Lemma accumulator_feed_spec fuel n s :
  (work s.(decoder) < fuel)%nat -> acc_wf s ->
  exists r, feed_loop fuel n s = Some r /\
    match r with
    | Ok (b, s') => (n = 0 -> b = true) /\
        (b = true -> exists h, s'.(acc_head) = Some h /\ is_interim h.(status_code) = false)
    | Err _ => True
    end.
Proof.
  revert s. induction fuel as [|fuel IH]; intros s Hf (Ho & Hl & Hh); [lia|].
  cbn [feed_loop].
  assert (forall s1, (work s1.(decoder) < S fuel)%nat -> body_limit s1 = body_limit s ->
    body_buf s1 = body_buf s ->
    (exists h, acc_head s1 = Some h /\ is_interim (status_code h) = false) ->
    exists r, feed_body (S fuel) n s1 = Some r /\
    match r with
    | Ok (b, s') => (n = 0 -> b = true) /\
        (b = true -> exists h, s'.(acc_head) = Some h /\ is_interim h.(status_code) = false)
    | Err _ => True
    end) as Hbody.
  { intros s1 Hw El Eb Hs1.
    destruct (feed_body_total (S fuel) n s1) as [r Hr]; [done|by rewrite El|by rewrite El, Eb|].
    exists r. split; [done|]. destruct r as [[b s']|]; [|done]. split.
    - intros ->. destruct b; [done|]. by apply feed_body_eof in Hr.
    - intros _. apply feed_body_head in Hr as ->; [done|done|by rewrite El|by rewrite El, Eb]. }
  destruct (acc_head s) as [h|] eqn:Eh; [apply Hbody; eauto|].
  destruct (decode_headers (decoder s)) as [[[[h bk]|] d]|e] eqn:Ed; [| |by eexists].
  - pose proof (proj2 (proj2 (decode_law _ _ _ Ed)) ltac:(eauto)) as Hw. destruct (is_interim (status_code h)) eqn:Ei.
    + apply IH; [cbn; destruct (method_law (request_method s) d) as (_ & _ & ->); lia|]. split_and!; cbn; [done| |done].
      by apply limited_nil.
    + apply Hbody; cbn; [lia|done|done|eauto].
  - destruct (Z.eqb_spec n 0); [by eexists|]. eexists. split; [done|]. cbn. by split.
Qed.

(** A call of [feed] terminates; the end of file ends the exchange with a
    finished response or an error; and a finished response is never an
    interim (1xx) one. *)
Theorem feed_ends fuel bs s
    (d := if len bs =? 0 then mark_eof (advance_buf bs s.(decoder))
          else advance_buf bs s.(decoder)) :
  (work d < fuel)%nat -> acc_wf s ->
  exists r, feed fuel bs s = Some r /\
    match r with
    | Ok (b, s') => (bs = [] -> b = true) /\
        (b = true -> exists h, s'.(acc_head) = Some h /\
           ~ (100 <= h.(status_code) < 200) /\ finish s' = Ok (mkDecoded h s'.(body_buf)))
    | Err _ => True
    end.
Proof.
  intros Hf (Ho & Hl & Hh).
  destruct (accumulator_feed_spec fuel (len bs) (set_decoder d s)) as (r & Hr & Hs);
    [done|by split_and!|]. exists r. split; [exact Hr|]. destruct r as [[b s']|]; [|done].
  destruct Hs as [He Hd]. split; [intros ->; by apply He|].
  intros Hb. destruct (Hd Hb) as (h & Eh & Hi). exists h. split_and!; [done| |].
  - intros Hc. unfold is_interim, in_range in Hi. lia.
  - unfold finish. by rewrite Eh.
Qed.
End Drain.

(** ** Witnesses, with the decoder [PlainDecoder] *)

Definition plain_acc (limit : BodyLimit) (buf : list byte) (input : str) : ResponseAccumulator PlainDecoder :=
  mkAcc (mkPlain input true false []) (lit "GET") (Some (mkResponseHead 200 [])) (Some CloseDelimited)
        buf false limit.

Lemma drain_body_limits_witness :
  exists r, drain_body 10 (plain_acc (Truncate 8) (lit "hello ") (lit "world")) = Some r /\
    forall s', r = Ok s' ->
      limited (Truncate 8) (lit "hello " ++ lit "world") = Some s'.(body_buf) /\
      decoded s'.(decoder) = [].
Proof.
  refine (drain_body_limits 10 (plain_acc (Truncate 8) (lit "hello ") (lit "world")) (lit "hello ") _ _ _).
  - cbn. lia.
  - cbn. unfold USIZE_MAX, U64_MAX. lia.
  - reflexivity.
Defined.

Example drain_body_truncates :
  (r ← drain_body 10 (plain_acc (Truncate 8) (lit "hello ") (lit "world")); to_ok (body_buf <$> r))
  = Some (lit "hello wo").
Proof. reflexivity. Qed.

Definition interim_input : str := lit "100" ++ NL :: lit "200" ++ NL :: lit "body".

Lemma feed_ends_witness :
  exists r, feed 100 interim_input (ResponseAccumulator_new (D := PlainDecoder) (lit "GET") (BodyLimit_Error 10)) = Some r /\
    match r with
    | Ok (b, s') => (interim_input = [] -> b = true) /\
        (b = true -> exists h, s'.(acc_head) = Some h /\
           ~ (100 <= h.(status_code) < 200) /\ finish s' = Ok (mkDecoded h s'.(body_buf)))
    | Err _ => True
    end.
Proof.
  apply (feed_ends 100 interim_input (ResponseAccumulator_new (lit "GET") (BodyLimit_Error 10))).
  - vm_compute. lia.
  - split_and!; cbn; [unfold USIZE_MAX, U64_MAX; lia | reflexivity | done].
Defined.
