(* ===== verification/LogStream.v ===== *)
(** * Docker log streams ([src/src/core/client/docker_log_stream.rs])

    The shared buffers a log session writes, the demultiplexer of Docker's
    framed log format, the readers with their own offsets, and the interleaving
    of the session's thread with a reader. *)

From S2P Require Import Prelude Slice Utf8 Errors Http.

Definition DEFAULT_BUFFER_LIMIT : Z := 8 * 1024 * 1024.
Definition FRAME_HEADER_LEN : nat := 8.
Definition READ_CHUNK : Z := 8192.

(** ** The shared buffer

    [head] counts bytes removed at the front; it cannot reach [2^64] in the
    life of a process and is an unbounded integer here. *)

Record SharedLogBuffer := mkSlb {
  slb_buf : list byte;
  slb_head : Z;
  slb_limit : Z;
  slb_strict : bool
}.

Definition with_mode (limit : Z) (strict : bool) : SharedLogBuffer := mkSlb [] 0 limit strict.
Definition slb_new (limit : Z) : SharedLogBuffer := with_mode limit false.
Definition new_strict (limit : Z) : SharedLogBuffer := with_mode limit true.

(** [while self.buf.len() > self.limit { pop_front; head += 1 }] *)
Fixpoint drop_oldest (limit : Z) (buf : list byte) (head : Z) : list byte * Z :=
  match buf with
  | [] => ([], head)
  | _ :: buf' => if limit <? len buf then drop_oldest limit buf' (head + 1) else (buf, head)
  end.

Definition append (self : SharedLogBuffer) (data : list byte) : bool * SharedLogBuffer :=
  if bool_decide (data = []) then (true, self)
  else if self.(slb_strict) then
    if (self.(slb_limit) <? len data) || (self.(slb_limit) <? len self.(slb_buf) + len data)
    then (false, self)
    else (true, mkSlb (self.(slb_buf) ++ data) self.(slb_head) self.(slb_limit) self.(slb_strict))
  else
    let keep := if self.(slb_limit) <? len data then zdrop (len data - self.(slb_limit)) data
                else data in
    let '(buf, head) := drop_oldest self.(slb_limit) (self.(slb_buf) ++ keep) self.(slb_head) in
    (true, mkSlb buf head self.(slb_limit) self.(slb_strict)).

(** The bytes copied, the next offset, and whether dropped bytes were skipped;
    [cap] is the length of the destination. *)
Definition read_at (self : SharedLogBuffer) (reader_offset cap : Z) : list byte * Z * bool :=
  let tail := self.(slb_head) + len self.(slb_buf) in
  let '(offset, skipped) :=
    if reader_offset <? self.(slb_head) then (self.(slb_head), true) else (reader_offset, false) in
  if (tail <=? offset) || (cap =? 0) then ([], offset, skipped)
  else
    let start := offset - self.(slb_head) in
    let n := Z.min (len self.(slb_buf) - start) cap in
    (ztake n (zdrop start self.(slb_buf)), offset + n, skipped).

(** [drain_buffer]: chunks of [READ_CHUNK] until nothing is left. *)
Fixpoint drain_buffer_loop (fuel : nat) (buffer : SharedLogBuffer) (offset : Z) (out : list byte)
    : option (list byte) :=
  match fuel with
  | O => None
  | S fuel =>
      let '(chunk, next, _) := read_at buffer offset READ_CHUNK in
      if len chunk =? 0 then Some out
      else drain_buffer_loop fuel buffer next (out ++ chunk)
  end.

Definition drain_buffer (buffer : SharedLogBuffer) : option (list byte) :=
  drain_buffer_loop (S (length buffer.(slb_buf))) buffer buffer.(slb_head) [].

(** ** The demultiplexer *)

Record FrameDemuxer := mkDemux {
  in_payload : bool;
  header : list byte;
  header_pos : nat;
  stream_type : Z;
  payload_remaining : Z
}.

Definition FrameDemuxer_new : FrameDemuxer :=
  mkDemux false (replicate FRAME_HEADER_LEN x00) 0 0 0.

Definition reset_header (self : FrameDemuxer) : FrameDemuxer :=
  mkDemux false self.(header) 0 0 0.

(** [u32::from_be_bytes([h[4], h[5], h[6], h[7]])] *)
Definition from_be_bytes (h : list byte) : Z :=
  fold_left (fun a b => a * 256 + u8 b) (take 4 (drop 4 h)) 0.

(** One iteration of [feed] in a header: the header bytes available are stored
    and, when they are eight, the frame starts. *)
Definition header_step (self : FrameDemuxer) (data : list byte) : FrameDemuxer * list byte :=
  let need := (FRAME_HEADER_LEN - self.(header_pos))%nat in
  let n := Nat.min need (length data) in
  let h := splice self.(header_pos) (take n data) self.(header) in
  let pos := (self.(header_pos) + n)%nat in
  let data := drop n data in
  let self := mkDemux self.(in_payload) h pos self.(stream_type) self.(payload_remaining) in
  if (pos =? FRAME_HEADER_LEN)%nat then
    let self := mkDemux true h pos (u8 (nth 0 h x00)) (from_be_bytes h) in
    (if self.(payload_remaining) =? 0 then reset_header self else self, data)
  else (self, data).

Definition limit_error (name : str) (limit : Z) : IoError :=
  io_other (name ++ lit " output exceeds " ++ show_nat limit ++ lit " bytes limit").

(** The two buffers and the two flags [feed] updates. *)
Record Sinks := mkSinks {
  stdout : SharedLogBuffer;
  stderr : SharedLogBuffer;
  wrote_out : bool;
  wrote_err : bool
}.

(** The chunk of an iteration goes to the buffer of its stream; 0 (stdin) and
    unknown streams are dropped. *)
Definition sink_chunk (ty : Z) (chunk : list byte) (s : Sinks) : result IoError Sinks :=
  if ty =? 1 then
    let '(ok, b) := append s.(stdout) chunk in
    if ok then Ok (mkSinks b s.(stderr) (s.(wrote_out) || negb (bool_decide (chunk = []))) s.(wrote_err))
    else Err (limit_error (lit "stdout") s.(stdout).(slb_limit))
  else if ty =? 2 then
    let '(ok, b) := append s.(stderr) chunk in
    if ok then Ok (mkSinks s.(stdout) b s.(wrote_out) (s.(wrote_err) || negb (bool_decide (chunk = []))))
    else Err (limit_error (lit "stderr") s.(stderr).(slb_limit))
  else Ok s.

Definition payload_step (self : FrameDemuxer) (data : list byte) (s : Sinks)
    : result IoError (FrameDemuxer * list byte * Sinks) :=
  let n := Z.min self.(payload_remaining) (len data) in
  let chunk := ztake n data in
  s ← sink_chunk self.(stream_type) chunk s;
  let self := mkDemux self.(in_payload) self.(header) self.(header_pos) self.(stream_type)
                      (self.(payload_remaining) - n) in
  Ok (if self.(payload_remaining) =? 0 then reset_header self else self, zdrop n data, s).

(** [while !data.is_empty()]; [None] when the fuel does not suffice. *)
Fixpoint feed_loop (fuel : nat) (self : FrameDemuxer) (data : list byte) (s : Sinks)
    : option (result IoError (FrameDemuxer * Sinks)) :=
  match data with
  | [] => Some (Ok (self, s))
  | _ :: _ =>
      match fuel with
      | O => None
      | S fuel =>
          if negb self.(in_payload) then
            let '(self, data) := header_step self data in feed_loop fuel self data s
          else
            match payload_step self data s with
            | Err e => Some (Err e)
            | Ok (self, data, s) => feed_loop fuel self data s
            end
      end
  end.

(** Every iteration consumes a byte of [data], so its length is enough fuel. *)
Definition feed (self : FrameDemuxer) (data : list byte) (out err : SharedLogBuffer)
    : option (result IoError (FrameDemuxer * Sinks)) :=
  feed_loop (length data) self data (mkSinks out err false false).

(** ** The shared buffer keeps the end of the stream *)

(** The last [n] elements. *)
Definition lastn {A} (n : Z) (l : list A) : list A := zdrop (len l - n) l.

Section Buffer.
Implicit Types l k w data : list byte.

Lemma len_lastn n l : 0 <= n -> len (lastn n l) = Z.min n (len l).
Proof. intros. unfold lastn. llia. Qed.

Lemma lastn_ge n l : len l <= n -> lastn n l = l.
Proof. intros. unfold lastn. apply zdrop_le. lia. Qed.

Lemma lastn_app_ge n l k : 0 <= n <= len k -> lastn n (l ++ k) = lastn n k.
Proof. intros. unfold lastn. rewrite len_app, zdrop_app_ge by llia. f_equal. lia. Qed.

Lemma lastn_app_le n l k : len k <= n -> lastn n (l ++ k) = lastn (n - len k) l ++ k.
Proof.
  intros. unfold lastn. rewrite len_app, zdrop_app_le by llia. f_equal. f_equal. lia.
Qed.

Lemma lastn_lastn n m l : 0 <= n <= m -> lastn n (lastn m l) = lastn n l.
Proof.
  intros. destruct (Z.leb_spec (len l) m); [by rewrite (lastn_ge m) by done|].
  unfold lastn at 1. rewrite len_lastn by lia. unfold lastn.
  rewrite zdrop_zdrop by lia. f_equal. lia.
Qed.

Lemma lastn_app_lastn n l k : 0 <= n -> lastn n (lastn n l ++ k) = lastn n (l ++ k).
Proof.
  intros. pose proof (len_nonneg k). destruct (Z.leb_spec (len k) n).
  - rewrite !lastn_app_le by done. by rewrite lastn_lastn by lia.
  - by rewrite !lastn_app_ge by lia.
Qed.

Lemma drop_oldest_spec limit l head :
  0 <= limit ->
  drop_oldest limit l head = (lastn limit l, head + Z.max 0 (len l - limit)).
Proof.
  intros Hl. revert head. induction l as [|b l IH]; intros head; cbn [drop_oldest].
  - rewrite lastn_ge by llia. f_equal. llia.
  - destruct (Z.ltb_spec limit (len (b :: l))) as [Hlt|Hge].
    + rewrite IH, len_cons. unfold lastn. rewrite len_cons in *. f_equal; [|lia].
      change (b :: l) with ([b] ++ l). rewrite zdrop_app_ge by (change (len [b]) with 1; lia).
      f_equal. change (len [b]) with 1. lia.
    + rewrite lastn_ge by lia. f_equal. lia.
Qed.

(** What a buffer holds of the bytes [w] written to it so far. *)
Definition holds (limit : Z) (strict : bool) (b : SharedLogBuffer) (w : list byte) : Prop :=
  b.(slb_limit) = limit /\ b.(slb_strict) = strict /\ b.(slb_buf) = lastn limit w /\
  (strict = true -> len w <= limit).

Lemma holds_new limit strict : 0 <= limit -> holds limit strict (with_mode limit strict) [].
Proof. intros. unfold holds. split_and!; try done. by rewrite lastn_ge. Qed.

Lemma append_holds limit strict b w data :
  0 <= limit -> holds limit strict b w ->
  if (append b data).1 then holds limit strict (append b data).2 (w ++ data)
  else strict = true /\ limit < len (w ++ data).
Proof.
  intros Hl (<- & <- & Hb & Hs). unfold append.
  case_bool_decide as Hd; [subst; by rewrite app_nil_r|].
  destruct (slb_strict b) eqn:Est.
  - specialize (Hs eq_refl). rewrite lastn_ge in Hb by done. rewrite Hb.
    destruct (Z.ltb_spec (slb_limit b) (len data)), (Z.ltb_spec (slb_limit b) (len w + len data));
      cbn; try (split; [done|]; llia).
    unfold holds. cbn. rewrite len_app. split_and!; try done.
    rewrite lastn_ge by llia. done.
  - rewrite drop_oldest_spec by done. cbn. unfold holds. cbn. split_and!; try done.
    rewrite Hb. destruct (Z.ltb_spec (slb_limit b) (len data)).
    + change (zdrop (len data - slb_limit b) data) with (lastn (slb_limit b) data).
      assert (len (lastn (slb_limit b) data) = slb_limit b) by (rewrite len_lastn; lia).
      rewrite lastn_app_ge by lia. rewrite lastn_lastn by lia. by rewrite lastn_app_ge by lia.
    + by rewrite lastn_app_lastn.
Qed.

(** The offset of the head, when no single write exceeds the limit. *)
Lemma append_head b data :
  b.(slb_strict) = false -> len data <= b.(slb_limit) -> len b.(slb_buf) <= b.(slb_limit) ->
  let b' := (append b data).2 in
  b'.(slb_head) + len b'.(slb_buf) = b.(slb_head) + len b.(slb_buf) + len data /\
  b.(slb_head) <= b'.(slb_head) /\ len b'.(slb_buf) <= b'.(slb_limit).
Proof.
  intros Hs Hd Hb b'. subst b'. unfold append.
  case_bool_decide as E; [subst; cbn [snd]; llia|]. rewrite Hs.
  destruct (Z.ltb_spec (slb_limit b) (len data)); [lia|]. pose proof (len_nonneg data).
  rewrite drop_oldest_spec by lia. cbn. rewrite len_lastn by lia. llia.
Qed.
End Buffer.

(** ** The frame format *)

Section Frames.
Implicit Types s t : list byte.

(** The frames of a whole stream: eight header bytes, then the payload; the
    last frame may be cut short. *)
Fixpoint frames_fuel (fuel : nat) (s : list byte) : list (Z * list byte) :=
  match fuel with
  | O => []
  | S fuel =>
      if len s <? 8 then []
      else
        let n := from_be_bytes s in
        let rest := zdrop 8 s in
        (u8 (nth 0 s x00), ztake n rest) :: frames_fuel fuel (zdrop n rest)
  end.

Definition frames (s : list byte) : list (Z * list byte) := frames_fuel (length s) s.

(** The bytes of one of the multiplexed streams. *)
Definition stream_bytes (ty : Z) (s : list byte) : list byte :=
  mjoin (snd <$> List.filter (fun f : Z * list byte => f.1 =? ty) (frames s)).

Lemma frames_fuel_enough f g s :
  (length s <= f)%nat -> (length s <= g)%nat -> frames_fuel f s = frames_fuel g s.
Proof.
  revert g s. induction f as [|f IH]; intros g s Hf Hg.
  - destruct s; [|cbn in Hf; lia]. by destruct g.
  - destruct g as [|g]; [destruct s; [done | cbn in Hg; lia]|].
    cbn [frames_fuel]. destruct (Z.ltb_spec (len s) 8); [done|]. f_equal.
    apply IH; unfold zdrop; rewrite !length_drop; unfold len in *; lia.
Qed.

Lemma frames_eq s :
  frames s = if len s <? 8 then []
             else (u8 (nth 0 s x00), ztake (from_be_bytes s) (zdrop 8 s)) ::
                  frames (zdrop (from_be_bytes s) (zdrop 8 s)).
Proof.
  unfold frames. destruct (length s) as [|f] eqn:E; cbn [frames_fuel].
  - destruct s; [done|discriminate].
  - destruct (Z.ltb_spec (len s) 8); [done|]. f_equal.
    apply frames_fuel_enough; unfold zdrop; rewrite ?length_drop; unfold len in *; lia.
Qed.

Lemma stream_bytes_eq ty s :
  stream_bytes ty s =
    if len s <? 8 then []
    else (if u8 (nth 0 s x00) =? ty then ztake (from_be_bytes s) (zdrop 8 s) else []) ++
         stream_bytes ty (zdrop (from_be_bytes s) (zdrop 8 s)).
Proof.
  unfold stream_bytes at 1. rewrite frames_eq.
  destruct (Z.ltb_spec (len s) 8); [done|]. cbn [List.filter fst].
  destruct (_ =? ty); done.
Qed.

Lemma stream_bytes_short ty s : len s < 8 -> stream_bytes ty s = [].
Proof. intros. rewrite stream_bytes_eq. by rewrite (proj2 (Z.ltb_lt _ _)). Qed.
End Frames.

(** ** The demultiplexer follows the frame format *)

Section Demux.
Implicit Types (d : FrameDemuxer) (data t : list byte).

Definition demux_wf d : Prop :=
  length d.(header) = FRAME_HEADER_LEN /\
  if d.(in_payload) then 0 < d.(payload_remaining) else (d.(header_pos) < FRAME_HEADER_LEN)%nat.

(** The bytes of stream [ty] that a demuxer in state [d] will write for an
    input [data]. *)
Definition resume (ty : Z) d data : list byte :=
  if d.(in_payload) then
    (if d.(stream_type) =? ty then ztake d.(payload_remaining) data else []) ++
    stream_bytes ty (zdrop d.(payload_remaining) data)
  else stream_bytes ty (take d.(header_pos) d.(header) ++ data).

Lemma demux_wf_new : demux_wf FrameDemuxer_new.
Proof. split; [done|]. cbn. unfold FRAME_HEADER_LEN. lia. Qed.

Lemma resume_new ty data : resume ty FrameDemuxer_new data = stream_bytes ty data.
Proof. reflexivity. Qed.

Lemma fold_be_nonneg l acc : 0 <= acc -> 0 <= fold_left (fun a b => a * 256 + u8 b) l acc.
Proof.
  revert acc. induction l as [|b l IH]; intros acc Ha; cbn; [done|].
  apply IH. pose proof (u8_range b). lia.
Qed.

Lemma from_be_bytes_nonneg s : 0 <= from_be_bytes s.
Proof. by apply fold_be_nonneg. Qed.

Lemma from_be_bytes_app h s : length h = 8%nat -> from_be_bytes (h ++ s) = from_be_bytes h.
Proof.
  intros E. unfold from_be_bytes. rewrite drop_app_le by lia.
  rewrite take_app_le by (rewrite length_drop; lia). done.
Qed.

(** A whole header in front of a stream. *)
Lemma stream_bytes_header ty h s :
  length h = 8%nat ->
  stream_bytes ty (h ++ s) =
    (if u8 (nth 0 h x00) =? ty then ztake (from_be_bytes h) s else []) ++
    stream_bytes ty (zdrop (from_be_bytes h) s).
Proof.
  intros E. rewrite stream_bytes_eq.
  assert (len h = 8) as El by (unfold len; lia).
  destruct (Z.ltb_spec (len (h ++ s)) 8); [llia|].
  rewrite from_be_bytes_app by done. rewrite zdrop_app_ge by lia.
  rewrite El, zdrop_le by lia. by rewrite app_nth1 by lia.
Qed.

Lemma take_splice off bs h :
  (off + length bs <= length h)%nat -> take (off + length bs) (splice off bs h) = take off h ++ bs.
Proof.
  intros E. unfold splice. rewrite app_assoc.
  rewrite take_app_le by (rewrite length_app, length_take; lia).
  apply take_ge. rewrite length_app, length_take. lia.
Qed.

Lemma header_step_spec d data :
  demux_wf d -> d.(in_payload) = false -> data <> [] ->
  let '(d', rest) := header_step d data in
  demux_wf d' /\ (length rest < length data)%nat /\
  forall ty t, resume ty d (data ++ t) = resume ty d' (rest ++ t).
Proof.
  intros [Hh Hp] Hin Hne. rewrite Hin in Hp. unfold header_step. cbn zeta.
  set (n := Nat.min _ _). unfold FRAME_HEADER_LEN in *.
  assert (0 < length data)%nat by (destruct data; [done | cbn; lia]).
  assert (0 < n <= length data /\ header_pos d + n <= 8)%nat as Hn0 by lia. clearbody n.
  assert (length (take n data) = n) as Hn by (rewrite length_take; lia).
  set (h := splice _ _ _).
  assert (length h = 8)%nat as Hl by (subst h; rewrite length_splice; lia).
  assert (take (header_pos d + n) h = take (header_pos d) (header d) ++ take n data) as Ht.
  { subst h. rewrite <- Hn at 1. apply take_splice. lia. }
  assert (forall ty t, resume ty d (data ++ t) =
    stream_bytes ty (take (header_pos d + n) h ++ (drop n data ++ t))) as Hr.
  { intros ty t. unfold resume. rewrite Hin, Ht, <- app_assoc. f_equal. f_equal.
    by rewrite app_assoc, take_drop. }
  destruct (Nat.eqb_spec (header_pos d + n) 8) as [E|E].
  - rewrite E, take_ge in Hr by lia. cbn [payload_remaining].
    pose proof (from_be_bytes_nonneg h).
    destruct (Z.eqb_spec (from_be_bytes h) 0) as [E0|E0].
    + split; [split; [done|cbn [in_payload payload_remaining header_pos reset_header]; unfold FRAME_HEADER_LEN; lia]|]. split; [rewrite length_drop; lia|].
      intros ty t. rewrite Hr, stream_bytes_header, E0 by done.
      unfold resume. cbn. rewrite ztake_le, zdrop_le by lia. by destruct (_ =? ty).
    + split; [split; [done|cbn [in_payload payload_remaining header_pos reset_header]; unfold FRAME_HEADER_LEN; lia]|]. split; [rewrite length_drop; lia|].
      intros ty t. rewrite Hr, stream_bytes_header by done. reflexivity.
  - rewrite Hin. split; [split; [done|cbn [in_payload payload_remaining header_pos reset_header]; unfold FRAME_HEADER_LEN; lia]|]. split; [rewrite length_drop; lia|].
    intros ty t. rewrite Hr. reflexivity.
Qed.

(** One payload iteration: the chunk goes to its stream. *)
Lemma payload_step_spec d data s :
  demux_wf d -> d.(in_payload) = true -> data <> [] ->
  exists chunk rest d',
    payload_step d data s = (s ← sink_chunk d.(stream_type) chunk s; Ok (d', rest, s)) /\
    demux_wf d' /\ (length rest < length data)%nat /\
    forall ty t, resume ty d (data ++ t) =
      (if d.(stream_type) =? ty then chunk else []) ++ resume ty d' (rest ++ t).
Proof.
  intros [Hh Hp] Hin Hne. rewrite Hin in Hp. unfold payload_step.
  set (n := Z.min _ _). set (d1 := mkDemux _ _ _ _ _). set (d' := if payload_remaining d1 =? 0 then _ else _).
  exists (ztake n data), (zdrop n data), d'.
  assert (0 < length data)%nat by (destruct data; [done | cbn; lia]).
  assert (0 < n <= len data) by (unfold len in *; lia).
  split; [done|]. split; [|split].
  - subst d'. destruct (Z.eqb_spec (payload_remaining d1) 0).
    + split; [done|]. cbn. unfold FRAME_HEADER_LEN. lia.
    + split; [done|]. cbn in *. rewrite Hin. cbn. lia.
  - unfold zdrop. rewrite length_drop. lia.
  - intros ty t. unfold resume at 1. rewrite Hin.
    destruct (Z.leb_spec (payload_remaining d) (len data)) as [Hle|Hgt].
    + assert (n = payload_remaining d) as En by lia. subst d'. cbn [d1 payload_remaining].
      rewrite En, Z.sub_diag. cbn. unfold resume. cbn. rewrite take_0. cbn [app].
      rewrite ztake_app_le, zdrop_app_le by lia. done.
    + assert (n = len data) as En by lia. subst d'. cbn [d1 payload_remaining].
      destruct (Z.eqb_spec (payload_remaining d - n) 0); [lia|].
      unfold resume. cbn. rewrite Hin, En, (ztake_ge (len data)), (zdrop_ge (len data)) by lia.
      rewrite ztake_app_ge, zdrop_app_ge by lia. cbn [app].
      destruct (_ =? ty); [by rewrite app_assoc | done].
Qed.
End Demux.

(** ** Feeding *)

Section Feed.
Context (limit : Z) (strict : bool) (Hlimit : 0 <= limit).
Implicit Types (d : FrameDemuxer) (data w v : list byte) (s : Sinks).

(** The sinks after the bytes [w] and [v] were written to them; the flags say
    whether there were any since [s0]. *)
Definition sunk (w v : list byte) s : Prop :=
  holds limit strict s.(stdout) w /\ holds limit strict s.(stderr) v.

Definition wrote (s0 : Sinks) (o e : list byte) s : Prop :=
  s.(wrote_out) = s0.(wrote_out) || negb (bool_decide (o = [])) /\
  s.(wrote_err) = s0.(wrote_err) || negb (bool_decide (e = [])).

(** A strict buffer that one of the inputs would overflow. *)
Definition overflows (w v : list byte) : Prop :=
  strict = true /\ (limit < len w \/ limit < len v).

Lemma overflows_mono w v w' v' : overflows w v -> overflows (w ++ w') (v ++ v').
Proof. intros [? [?|?]]; (split; [done|]); [left|right]; llia. Qed.

Lemma wrote_nil s : wrote s [] [] s.
Proof. split; cbn; by rewrite orb_false_r. Qed.

Lemma wrote_trans s0 s1 s2 o e o' e' :
  wrote s0 o e s1 -> wrote s1 o' e' s2 -> wrote s0 (o ++ o') (e ++ e') s2.
Proof.
  intros [Ho He] [Ho' He']. unfold wrote. rewrite Ho', He', Ho, He.
  by destruct o, o', e, e', (wrote_out s0), (wrote_err s0).
Qed.

Lemma sink_chunk_spec ty chunk w v s :
  sunk w v s ->
  let o := if ty =? 1 then chunk else [] in
  let e := if ty =? 2 then chunk else [] in
  match sink_chunk ty chunk s with
  | Ok s' => sunk (w ++ o) (v ++ e) s' /\ wrote s o e s'
  | Err _ => overflows (w ++ o) (v ++ e)
  end.
Proof.
  intros [Ho He]. unfold sink_chunk, overflows.
  destruct (Z.eqb_spec ty 1) as [->|E1]; [|destruct (Z.eqb_spec ty 2) as [->|E2]].
  - pose proof (append_holds limit strict _ w chunk Hlimit Ho) as Ha.
    destruct (append (stdout s) chunk) as [[] b]; cbn [fst snd] in Ha;
      change (1 =? 2) with false; cbn iota; rewrite app_nil_r; [|tauto].
    split; [by split|]. split; cbn; [done | by rewrite orb_false_r].
  - pose proof (append_holds limit strict _ v chunk Hlimit He) as Ha.
    destruct (append (stderr s) chunk) as [[] b]; cbn [fst snd] in Ha;
      rewrite app_nil_r; [|tauto].
    split; [by split|]. split; cbn; [by rewrite orb_false_r | done].
  - rewrite !app_nil_r. split; [by split|]. apply wrote_nil.
Qed.

Lemma feed_loop_spec fuel d data w v s :
  (length data <= fuel)%nat -> demux_wf d -> sunk w v s ->
  exists r, feed_loop fuel d data s = Some r /\
    match r with
    | Ok (d', s') => exists o e,
        demux_wf d' /\ sunk (w ++ o) (v ++ e) s' /\ wrote s o e s' /\
        forall t, resume 1 d (data ++ t) = o ++ resume 1 d' t /\
                  resume 2 d (data ++ t) = e ++ resume 2 d' t
    | Err _ => forall t, overflows (w ++ resume 1 d (data ++ t)) (v ++ resume 2 d (data ++ t))
    end.
Proof.
  revert d data w v s. induction fuel as [|fuel IH]; intros d data w v s Hf Hd Hs.
  - destruct data; [|cbn in Hf; lia]. eexists. split; [done|]. exists [], [].
    rewrite !app_nil_r. auto using wrote_nil.
  - destruct data as [|b data0]; cbn [feed_loop].
    { eexists. split; [done|]. exists [], []. rewrite !app_nil_r. auto using wrote_nil. }
    set (data := b :: data0) in *. assert (data <> []) as Hne by done. clearbody data. clear b data0.
    destruct (in_payload d) eqn:Hin; cbn [negb].
    + destruct (payload_step_spec d data s Hd Hin Hne) as (chunk & rest & d' & -> & Hd' & Hl & Hr).
      pose proof (sink_chunk_spec (stream_type d) chunk w v s Hs) as Hk. cbn zeta in Hk.
      destruct (sink_chunk (stream_type d) chunk s) as [s1|err]; cbn [mbind result_bind].
      * destruct Hk as [Hs1 Hw1].
        destruct (IH d' rest _ _ s1 ltac:(lia) Hd' Hs1) as (r & Hrun & Hpost).
        exists r. split; [done|]. destruct r as [[d2 s2]|err].
        -- destruct Hpost as (o & e & Hd2 & Hs2 & Hw2 & Hr2).
           exists ((if stream_type d =? 1 then chunk else []) ++ o),
             ((if stream_type d =? 2 then chunk else []) ++ e).
           split; [done|]. split; [by rewrite !app_assoc|].
           split; [by eapply wrote_trans|]. intros t. rewrite !Hr.
           destruct (Hr2 t) as [-> ->]. by rewrite !app_assoc.
        -- intros t. rewrite !Hr, !app_assoc. apply Hpost.
      * eexists. split; [done|]. intros t. rewrite !Hr, !app_assoc.
        by apply overflows_mono.
    + pose proof (header_step_spec d data Hd Hin Hne) as Hh.
      destruct (header_step d data) as [d' rest]. destruct Hh as (Hd' & Hl & Hr).
      destruct (IH d' rest _ _ s ltac:(lia) Hd' Hs) as (r & Hrun & Hpost).
      exists r. split; [done|]. destruct r as [[d2 s2]|err].
      * destruct Hpost as (o & e & Hd2 & Hs2 & Hw2 & Hr2). exists o, e.
        split; [done|]. split; [done|]. split; [done|]. intros t. rewrite !Hr. apply Hr2.
      * intros t. rewrite !Hr. apply Hpost.
Qed.

Lemma feed_spec d data w v out err :
  demux_wf d -> holds limit strict out w -> holds limit strict err v ->
  exists r, feed d data out err = Some r /\
    match r with
    | Ok (d', s') => exists o e,
        demux_wf d' /\ sunk (w ++ o) (v ++ e) s' /\
        s'.(wrote_out) = negb (bool_decide (o = [])) /\
        s'.(wrote_err) = negb (bool_decide (e = [])) /\
        forall t, resume 1 d (data ++ t) = o ++ resume 1 d' t /\
                  resume 2 d (data ++ t) = e ++ resume 2 d' t
    | Err _ => forall t, overflows (w ++ resume 1 d (data ++ t)) (v ++ resume 2 d (data ++ t))
    end.
Proof.
  intros Hd Ho He. unfold feed.
  destruct (feed_loop_spec (length data) d data w v (mkSinks out err false false))
    as (r & Hr & Hp); [done|done|by split|]. exists r. split; [done|].
  destruct r as [[d' s']|]; [|done]. destruct Hp as (o & e & ? & ? & [? ?] & ?). eauto 10.
Qed.

(** A session feeds the body in whatever slices it arrives in. *)
Fixpoint feed_all d (slices : list (list byte)) (out err : SharedLogBuffer)
    : option (result IoError (FrameDemuxer * SharedLogBuffer * SharedLogBuffer)) :=
  match slices with
  | [] => Some (Ok (d, out, err))
  | x :: xs =>
      match feed d x out err with
      | None => None
      | Some (Err e) => Some (Err e)
      | Some (Ok (d, s)) => feed_all d xs s.(stdout) s.(stderr)
      end
  end.

Lemma feed_all_spec d slices w v out err :
  demux_wf d -> holds limit strict out w -> holds limit strict err v ->
  exists r, feed_all d slices out err = Some r /\
    match r with
    | Ok (d', out', err') => exists o e,
        demux_wf d' /\ holds limit strict out' (w ++ o) /\ holds limit strict err' (v ++ e) /\
        forall t, resume 1 d (mjoin slices ++ t) = o ++ resume 1 d' t /\
                  resume 2 d (mjoin slices ++ t) = e ++ resume 2 d' t
    | Err _ => forall t, overflows (w ++ resume 1 d (mjoin slices ++ t)) (v ++ resume 2 d (mjoin slices ++ t))
    end.
Proof.
  revert d w v out err. induction slices as [|x xs IH]; intros d w v out err Hd Ho He; cbn [feed_all].
  - eexists. split; [done|]. exists [], []. rewrite !app_nil_r. auto.
  - destruct (feed_spec d x w v out err Hd Ho He) as (r & -> & Hp).
    change (mjoin (x :: xs)) with (x ++ mjoin xs).
    destruct r as [[d1 s1]|e1].
    + destruct Hp as (o & e & Hd1 & [Ho1 He1] & _ & _ & Hr).
      destruct (IH d1 _ _ _ _ Hd1 Ho1 He1) as (r & Hrun & Hp). exists r. split; [done|].
      destruct r as [[[d2 out2] err2]|].
      * destruct Hp as (o' & e' & Hd2 & Ho2 & He2 & Hr2). exists (o ++ o'), (e ++ e').
        rewrite !app_assoc. split_and!; try done; intros t.
        rewrite <- !app_assoc. destruct (Hr (mjoin xs ++ t)) as [-> ->].
        destruct (Hr2 t) as [-> ->]. done.
      * intros t. rewrite <- app_assoc. destruct (Hr (mjoin xs ++ t)) as [-> ->].
        rewrite !app_assoc. apply Hp.
    + eexists. split; [done|]. intros t. rewrite <- app_assoc. apply Hp.
Qed.
End Feed.

(** ** Sessions

    The socket is the sequence of answers of its reads: a chunk (empty at the
    end of file) or an error.  A chunk larger than the buffer is delivered in
    parts.  [percent_encode] and the request encoder of [docker_client.rs] only
    produce the bytes sent, which the peer's answers stand for. *)

Definition socket : Type := list (result IoError (list byte)).

Definition sock_read (want : Z) (sock : socket) : result IoError (list byte) * socket :=
  match sock with
  | [] => (Ok [], [])
  | Err e :: k => (Err e, k)
  | Ok bs :: k => if len bs <=? want then (Ok bs, k)
                  else (Ok (ztake want bs), Ok (zdrop want bs) :: k)
  end.

Definition content_type (h : ResponseHead) : option str :=
  snd <$> List.find (fun f : str * str => eq_ignore_ascii_case f.1 (lit "content-type")) h.(headers).

Definition is_multiplex_content_type (ct : option str) : bool :=
  match ct with
  | None => true
  | Some ct =>
      let media := trim (default ct (head (split ";" ct))) in
      bool_decide (media = [])
      || eq_ignore_ascii_case media (lit "application/vnd.docker.multiplexed-stream")
      || eq_ignore_ascii_case media (lit "application/octet-stream")
  end.

(** The checks of a response head, shared by both paths. *)
Definition validate_head (h : ResponseHead) : result IoError unit :=
  if negb (h.(status_code) =? 200) then
    Err (io_other (lit "logs request failed with status " ++ show_nat h.(status_code)))
  else if negb (is_multiplex_content_type (content_type h)) then
    Err (io_other (lit "unsupported log stream content type: " ++
                   default (lit "<absent>") (content_type h)))
  else Ok tt.

(** The errors of a session: a following one has [crate::Error], where an I/O error
    becomes [Error::Io] by [?] and an error of the decoder [Error::other] of one; a
    one-shot fetch has [std::io::Error] for both. *)
Class SessionErrors (E : Type) := { of_io : IoError -> E; of_decoder : IoError -> E }.
#[export] Instance Error_session : SessionErrors Error := {| of_io := Io; of_decoder e := Other (BoxIo e) |}.
#[export] Instance IoError_session : SessionErrors IoError := {| of_io e := e; of_decoder e := e |}.

Section Session.
Context {D : Type} `{ResponseDecoder D} {E : Type} `{SessionErrors E}.

(** Read into the decoder: the steps at the top of each loop. *)
Definition read_into (full_msg : str) (dec : D) (sock : socket)
    : result E (Z * D * socket) :=
  let want := Z.min (available_buf dec) READ_CHUNK in
  if want =? 0 then Err (of_io (io_other full_msg))
  else
    _ ← map_err (fun e => of_decoder (io_other e)) (mut_buf want dec);
    let '(r, sock) := sock_read want sock in
    bs ← map_err of_io r;
    Ok (len bs, advance_buf bs dec, sock).

(** [read_and_validate_head] *)
Fixpoint read_and_validate_head (fuel : nat) (dec : D) (sock : socket)
    : option (result E (D * socket)) :=
  match fuel with
  | O => None
  | S fuel =>
      match read_into (lit "decoder buffer full while reading log head") dec sock with
      | Err e => Some (Err e)
      | Ok (n, dec, sock) =>
          let dec := if n =? 0 then mark_eof dec else dec in
          match map_err (fun e => of_decoder (io_other e)) (decode_headers dec) with
          | Err e => Some (Err e)
          | Ok (Some (h, _), dec) => Some (_ ← map_err of_io (validate_head h); Ok (dec, sock))
          | Ok (None, dec) =>
              if n =? 0 then
                Some (Err (of_io (io_other (lit "connection closed before log head complete"))))
              else read_and_validate_head fuel dec sock
          end
      end
  end.

(** [drain_decoded] and [drain_oneshot_body]: everything decoded is fed to the
    demultiplexer; the flag says whether the body is complete.  An error leaves
    the buffers as they are. *)
Fixpoint drain_session (fuel : nat) (dec : D) (demux : FrameDemuxer) (out err : SharedLogBuffer)
    : option (result (E * SharedLogBuffer * SharedLogBuffer) (bool * D * FrameDemuxer * SharedLogBuffer * SharedLogBuffer)) :=
  match fuel with
  | O => None
  | S fuel =>
      match peek_body dec with
      | Some data =>
          match feed demux data out err with
          | None => None
          | Some (Err e) => Some (Err (of_decoder e, out, err))
          | Some (Ok (demux, s)) =>
              match consume_body (len data) dec with
              | Err e => Some (Err (of_decoder (io_other e), s.(stdout), s.(stderr)))
              | Ok (_, dec) => drain_session fuel dec demux s.(stdout) s.(stderr)
              end
          end
      | None =>
          match progress dec with
          | Err e => Some (Err (of_decoder (io_other e), out, err))
          | Ok (Complete, dec) => Some (Ok (true, dec, demux, out, err))
          | Ok (Advanced, dec) => drain_session fuel dec demux out err
          | Ok (NeedData, dec) => Some (Ok (false, dec, demux, out, err))
          end
      end
  end.

(** [demux_loop] of a following session; [stops i] is the value of the stop
    flag the [i]-th iteration loads. *)
Fixpoint demux_loop (fuel : nat) (stops : nat -> bool) (i : nat) (dec : D) (demux : FrameDemuxer)
    (out err : SharedLogBuffer) (sock : socket)
    : option (result (E * SharedLogBuffer * SharedLogBuffer) (D * FrameDemuxer * SharedLogBuffer * SharedLogBuffer)) :=
  match fuel with
  | O => None
  | S fuel =>
      if stops i then Some (Ok (dec, demux, out, err))
      else
        match drain_session fuel dec demux out err with
        | None => None
        | Some (Err e) => Some (Err e)
        | Some (Ok (_, dec, demux, out, err)) =>
            match read_into (lit "decoder buffer full while streaming logs") dec sock with
            | Err e => Some (Err (e, out, err))
            | Ok (n, dec, sock) =>
                if n =? 0 then
                  match drain_session fuel (mark_eof dec) demux out err with
                  | None => None
                  | Some (Err e) => Some (Err e)
                  | Some (Ok (_, dec, demux, out, err)) => Some (Ok (dec, demux, out, err))
                  end
                else demux_loop fuel stops (S i) dec demux out err sock
            end
        end
  end.

(** The body part of the one-shot loop, until the body is complete or the end
    of file. *)
Fixpoint oneshot_body (fuel : nat) (dec : D) (demux : FrameDemuxer) (out err : SharedLogBuffer)
    (sock : socket) : option (result E (D * SharedLogBuffer * SharedLogBuffer)) :=
  match fuel with
  | O => None
  | S fuel =>
      match drain_session fuel dec demux out err with
      | None => None
      | Some (Err (e, _, _)) => Some (Err e)
      | Some (Ok (true, dec, _, out, err)) => Some (Ok (dec, out, err))
      | Some (Ok (false, dec, demux, out, err)) =>
          match read_into (lit "decoder buffer full while reading oneshot body") dec sock with
          | Err e => Some (Err e)
          | Ok (n, dec, sock) =>
              if n =? 0 then
                match drain_session fuel (mark_eof dec) demux out err with
                | None => None
                | Some (Err (e, _, _)) => Some (Err e)
                | Some (Ok (_, dec, _, out, err)) => Some (Ok (dec, out, err))
                end
              else oneshot_body fuel dec demux out err sock
          end
      end
  end.

(** The head part of the one-shot loop, which goes on with the body. *)
Fixpoint oneshot_loop (fuel : nat) (limit : Z) (dec : D) (sock : socket)
    : option (result E (D * SharedLogBuffer * SharedLogBuffer)) :=
  match fuel with
  | O => None
  | S fuel =>
      match read_into (lit "decoder buffer full while reading oneshot head") dec sock with
      | Err e => Some (Err e)
      | Ok (n, dec, sock) =>
          let dec := if n =? 0 then mark_eof dec else dec in
          match map_err (fun e => of_decoder (io_other e)) (decode_headers dec) with
          | Err e => Some (Err e)
          | Ok (Some (h, _), dec) =>
              match validate_head h with
              | Err e => Some (Err (of_io e))
              | Ok _ => oneshot_body fuel dec FrameDemuxer_new (new_strict limit) (new_strict limit) sock
              end
          | Ok (None, dec) =>
              if n =? 0 then
                Some (Err (of_io (io_other (lit "connection closed before oneshot head complete"))))
              else oneshot_loop fuel limit dec sock
          end
      end
  end.

End Session.

(** [fetch_logs_oneshot_blocking_with_limit] after the request is sent; the
    decoder's final state is returned for the theorems. *)
Definition fetch_logs_oneshot {D : Type} `{ResponseDecoder D} (fuel : nat) (limit : Z) (sock : socket)
    : option (result IoError (D * list byte * list byte)) :=
  let dec := set_request_method (lit "GET") (with_limits (Some U64_MAX)) in
  match oneshot_loop fuel limit dec sock with
  | None => None
  | Some (Err e) => Some (Err e)
  | Some (Ok (dec, out, err)) =>
      match drain_buffer out, drain_buffer err with
      | Some out, Some err => Some (Ok (dec, out, err))
      | _, _ => None
      end
  end.

(** ** Draining a buffer *)

Lemma drain_buffer_loop_spec b fuel k :
  0 <= k <= len b.(slb_buf) -> len b.(slb_buf) - k < Z.of_nat fuel ->
  drain_buffer_loop fuel b (b.(slb_head) + k) (ztake k b.(slb_buf)) = Some b.(slb_buf).
Proof.
  revert k. induction fuel as [|fuel IH]; intros k Hk Hf; [lia|].
  cbn [drain_buffer_loop]. unfold read_at.
  destruct (Z.ltb_spec (slb_head b + k) (slb_head b)); [lia|].
  change (READ_CHUNK =? 0) with false. rewrite orb_false_r.
  destruct (Z.leb_spec (slb_head b + len (slb_buf b)) (slb_head b + k)).
  - cbn. by rewrite ztake_ge by lia.
  - replace (slb_head b + k - slb_head b) with k by lia.
    set (n := Z.min _ _). assert (0 < n <= len (slb_buf b) - k) by (unfold READ_CHUNK in *; lia).
    rewrite len_ztake, len_zdrop. destruct (Z.eqb_spec (Z.max 0 (Z.min n (Z.max 0 (len (slb_buf b) - Z.max 0 k)))) 0); [lia|].
    replace (slb_head b + k + n) with (slb_head b + (k + n)) by lia.
    replace (ztake k (slb_buf b) ++ ztake n (zdrop k (slb_buf b))) with (ztake (k + n) (slb_buf b)).
    { apply IH; lia. }
    apply ztake_add; lia.
Qed.

Lemma drain_buffer_all b : drain_buffer b = Some b.(slb_buf).
Proof.
  unfold drain_buffer. rewrite <- (Z.add_0_r (slb_head b)).
  change (@nil byte) with (ztake 0 (slb_buf b)).
  apply drain_buffer_loop_spec; unfold len; lia.
Qed.

(** ** What the sessions write *)

Section SessionSpec.
Context {D : Type} `{ResponseDecoderLaws D} {E : Type} `{SessionErrors E}.
Context (limit : Z) (strict : bool) (Hlimit : 0 <= limit).
Implicit Types (dec : D) (dm : FrameDemuxer) (out err : SharedLogBuffer) (sock : socket).

(** The body fed so far, [F], is what the decoder received less what is still
    in it; the buffers hold the two streams of [F]. *)
Definition session_inv (F : list byte) dec dm out err : Prop :=
  demux_wf dm /\ received dec = F ++ decoded dec /\
  exists w v, holds limit strict out w /\ holds limit strict err v /\
    forall t, stream_bytes 1 (F ++ t) = w ++ resume 1 dm t /\
              stream_bytes 2 (F ++ t) = v ++ resume 2 dm t.

Lemma resume_nil ty dm : demux_wf dm -> resume ty dm [] = [].
Proof.
  intros [Hh Hp]. unfold resume. destruct (in_payload dm).
  - unfold ztake, zdrop. rewrite take_nil, drop_nil. by destruct (_ =? ty).
  - rewrite app_nil_r. apply stream_bytes_short. unfold len. rewrite length_take.
    unfold FRAME_HEADER_LEN in *. lia.
Qed.

(** What the buffers hold of the body fed. *)
Lemma session_inv_holds F dec dm out err :
  session_inv F dec dm out err ->
  holds limit strict out (stream_bytes 1 F) /\ holds limit strict err (stream_bytes 2 F).
Proof.
  intros (Hd & _ & w & v & Ho & He & Hr). destruct (Hr []) as [E1 E2].
  rewrite !resume_nil, !app_nil_r in E1, E2 by done. by rewrite E1, E2.
Qed.

Lemma session_inv_grow F dec dec' dm out err :
  (exists x, received dec' = received dec ++ x /\ decoded dec' = decoded dec ++ x) ->
  session_inv F dec dm out err -> session_inv F dec' dm out err.
Proof.
  intros (x & Er & Ed) (Hd & Hf & Hs). split_and!; [done| |done].
  by rewrite Er, Ed, Hf, app_assoc.
Qed.

Lemma drain_session_spec fuel F dec dm out err :
  (work dec < fuel)%nat -> session_inv F dec dm out err ->
  exists r, drain_session fuel dec dm out err = Some r /\
    match r with
    | Ok (_, dec', dm', out', err') =>
        session_inv (received dec') dec' dm' out' err' /\ (work dec' <= work dec)%nat
    | Err _ => True
    end.
Proof.
  revert F dec dm out err. induction fuel as [|fuel IH]; intros F dec dm out err Hf Hs; [lia|].
  cbn [drain_session]. destruct (peek_body dec) as [data|] eqn:Ep.
  - destruct Hs as (Hd & Hrec & w & v & Ho & He & Hr).
    destruct (feed_spec limit strict Hlimit dm data w v out err Hd Ho He) as (r & -> & Hpost).
    destruct r as [[dm1 s1]|e]; [|by eexists].
    destruct Hpost as (o & e & Hd1 & [Ho1 He1] & _ & _ & Hr1).
    destruct (consume_body (len data) dec) as [[p dec1]|e1] eqn:Ec; [|by eexists].
    destruct (consume_law _ _ _ _ Ep Ec) as (Hc1 & Hc2 & Hc3 & _).
    destruct (IH (F ++ data) dec1 dm1 (stdout s1) (stderr s1)) as (r & Hrun & Hpost); [lia| |].
    + split_and!; [done|by rewrite Hc1, Hrec, Hc2, app_assoc|]. eexists _, _.
      split_and!; [exact Ho1|exact He1|]. intros t. rewrite <- !app_assoc.
      destruct (Hr (data ++ t)) as [-> ->]. destruct (Hr1 t) as [-> ->]. done.
    + exists r. split; [done|]. destruct r as [[[[[? ?] ?] ?] ?]|]; [|done].
      destruct Hpost. split; [done|]. lia.
  - destruct (progress dec) as [[p dec1]|e1] eqn:Ec; [|by eexists].
    destruct (progress_law _ _ _ Ep Ec) as (Hc1 & Hc2 & Hc3 & Hc4 & Hc5).
    assert (session_inv F dec1 dm out err) as Hs1.
    { destruct Hs as (? & Hrec & ?). split_and!; [done|by rewrite Hc1, Hc2|done]. }
    assert (p <> Advanced -> session_inv (received dec1) dec1 dm out err) as Hend.
    { intros Hp. specialize (Hc5 Hp). destruct Hs1 as (? & Hrec & ?).
      rewrite Hrec, Hc5, app_nil_r. split_and!; [done|by rewrite Hrec, Hc5, !app_nil_r|done]. }
    destruct p.
    + eexists. split; [done|]. split; [by apply Hend | done].
    + destruct (IH F dec1 dm out err) as (r & Hrun & Hpost); [specialize (Hc4 eq_refl); lia|done|].
      exists r. split; [done|]. destruct r as [[[[[? ?] ?] ?] ?]|]; [|done].
      destruct Hpost. split; [done|]. lia.
    + eexists. split; [done|]. split; [by apply Hend | done].
Qed.

(** A bound on the reads that are left and the work they bring. *)
Definition sock_bytes sock : nat :=
  sum_list ((fun r : result IoError (list byte) => match r with Ok bs => length bs | Err _ => 0 end) <$> sock)%nat.

Lemma sock_read_bytes want sock bs sock' :
  0 < want -> sock_read want sock = (Ok bs, sock') ->
  (sock_bytes sock = length bs + sock_bytes sock')%nat.
Proof.
  intros Hw. unfold sock_read, sock_bytes. destruct sock as [|[x|e] k]; [by intros [= <- <-]| |done].
  destruct (Z.leb_spec (len x) want); intros [= <- <-]; cbn; [done|].
  unfold ztake, zdrop. rewrite length_take, length_drop. unfold len in *. lia.
Qed.

Definition need dec sock : nat :=
  (work dec + (work_byte + 1) * sock_bytes sock + work_byte + 2)%nat.

Lemma read_into_spec msg dec sock n dec' sock' :
  read_into msg dec sock = Ok (n, dec', sock') ->
  (exists x, received dec' = received dec ++ x /\ decoded dec' = decoded dec ++ x) /\
  0 <= n /\ (need dec' sock' + Z.to_nat n <= need dec sock)%nat.
Proof.
  unfold read_into. intros Hr. pose proof (available_law dec) as Ha.
  set (want := Z.min _ _) in Hr. destruct (Z.eqb_spec want 0) as [|Hw]; [done|].
  apply bind_Ok in Hr as (u & _ & Hr).
  destruct (sock_read want sock) as [r sock1] eqn:Es.
  apply bind_Ok in Hr as (bs & Eb & [= <- <- <-]). destruct r as [bs0|]; [|done]. injection Eb as ->.
  destruct (advance_law bs dec) as [Hg Hwork]. split; [exact Hg|].
  apply sock_read_bytes in Es; [|subst want; unfold READ_CHUNK in *; lia].
  unfold need, len. split; [lia|]. rewrite Nat2Z.id, Es. lia.
Qed.

Lemma session_inv_new l m :
  session_inv [] (set_request_method m (with_limits l)) FrameDemuxer_new
    (with_mode limit strict) (with_mode limit strict).
Proof.
  destruct (method_law m (with_limits l)) as (E1 & E2 & _), (new_law l) as [E3 E4].
  split_and!; [apply demux_wf_new|by rewrite E1, E2, E3, E4|].
  exists [], []. split_and!; [by apply holds_new..|]. done.
Qed.

Lemma work_need dec sock : (work dec + work_byte + 2 <= need dec sock)%nat.
Proof. unfold need. lia. Qed.

Lemma need_work dec dec' sock :
  (work dec' <= work dec)%nat -> (need dec' sock <= need dec sock)%nat.
Proof. unfold need. lia. Qed.

(** The end of file: what is left is drained. *)
Lemma drain_eof_spec fuel F dec dm out err :
  (work dec + work_byte < fuel)%nat -> session_inv F dec dm out err ->
  exists r, drain_session fuel (mark_eof dec) dm out err = Some r /\
    match r with
    | Ok (_, dec', dm', out', err') => session_inv (received dec') dec' dm' out' err'
    | Err _ => True
    end.
Proof.
  intros Hf Hs. destruct (eof_law dec) as [Hg Hw].
  destruct (drain_session_spec fuel F (mark_eof dec) dm out err) as (r & Hr & Hp);
    [lia|by eapply session_inv_grow|].
  exists r. split; [done|]. destruct r as [[[[[? ?] ?] ?] ?]|]; [|done]. apply Hp.
Qed.

Lemma oneshot_body_spec fuel F dec dm out err sock :
  (need dec sock < fuel)%nat -> session_inv F dec dm out err ->
  exists r, oneshot_body fuel dec dm out err sock = Some r /\
    match r with
    | Ok (dec', out', err') => exists dm', session_inv (received dec') dec' dm' out' err'
    | Err _ => True
    end.
Proof.
  revert F dec dm out err sock. induction fuel as [|fuel IH]; intros F dec dm out err sock Hf Hs; [lia|].
  cbn [oneshot_body]. pose proof (work_need dec sock).
  destruct (drain_session_spec fuel F dec dm out err ltac:(lia) Hs) as (r & -> & Hp).
  destruct r as [[[[[b dec1] dm1] out1] err1]|[[? ?] ?]]; [|by eexists].
  destruct Hp as [Hs1 Hw1]. destruct b; [eexists; split; [done|]; by exists dm1|].
  pose proof (need_work dec dec1 sock Hw1).
  destruct (read_into _ dec1 sock) as [[[n dec2] sock2]|e] eqn:Er; [|by eexists].
  apply read_into_spec in Er as (Hg & Hn & Hneed).
  pose proof (session_inv_grow _ _ _ _ _ _ Hg Hs1) as Hs2.
  destruct (Z.eqb_spec n 0) as [->|Hn0].
  - pose proof (work_need dec2 sock2).
    destruct (drain_eof_spec fuel _ dec2 dm1 out1 err1 ltac:(lia) Hs2) as (r & -> & Hp).
    destruct r as [[[[[? ?] ?] ?] ?]|[[? ?] ?]]; eexists; (split; [done|]); cbn; by eauto.
  - apply (IH (received dec1) dec2 dm1 out1 err1 sock2); [lia|exact Hs2].
Qed.

(** With a stop flag that is never set, a following session ends only at the
    end of file, with everything received in the buffers. *)
Lemma demux_loop_spec fuel stops i F dec dm out err sock :
  (need dec sock < fuel)%nat -> session_inv F dec dm out err ->
  exists r, demux_loop fuel stops i dec dm out err sock = Some r /\
    match r with
    | Ok (dec', dm', out', err') => exists F',
        session_inv F' dec' dm' out' err' /\ ((forall j, stops j = false) -> F' = received dec')
    | Err _ => True
    end.
Proof.
  revert i F dec dm out err sock.
  induction fuel as [|fuel IH]; intros i F dec dm out err sock Hf Hs; [lia|].
  cbn [demux_loop]. pose proof (work_need dec sock).
  destruct (stops i) eqn:Estop.
  { eexists. split; [done|]. exists F. split; [done|]. intros Hn. by rewrite Hn in Estop. }
  destruct (drain_session_spec fuel F dec dm out err ltac:(lia) Hs) as (r & -> & Hp).
  destruct r as [[[[[b dec1] dm1] out1] err1]|[[? ?] ?]]; [|by eexists].
  destruct Hp as [Hs1 Hw1].
  pose proof (need_work dec dec1 sock Hw1).
  destruct (read_into _ dec1 sock) as [[[n dec2] sock2]|e] eqn:Er; [|by eexists].
  apply read_into_spec in Er as (Hg & Hn & Hneed).
  pose proof (session_inv_grow _ _ _ _ _ _ Hg Hs1) as Hs2.
  destruct (Z.eqb_spec n 0) as [->|Hn0].
  - pose proof (work_need dec2 sock2).
    destruct (drain_eof_spec fuel _ dec2 dm1 out1 err1 ltac:(lia) Hs2) as (r & -> & Hp).
    destruct r as [[[[[? ?] ?] ?] ?]|[[? ?] ?]]; eexists; (split; [done|]); cbn; by eauto.
  - apply (IH (S i) (received dec1) dec2 dm1 out1 err1 sock2); [lia|exact Hs2].
Qed.
End SessionSpec.

Section OneshotLoop.
Context {D : Type} `{ResponseDecoderLaws D} {E : Type} `{SessionErrors E}.

Lemma oneshot_loop_spec fuel limit dec sock :
  0 <= limit -> received dec = [] -> decoded dec = [] ->
  (need dec sock + work_byte < fuel)%nat ->
  exists r, oneshot_loop fuel limit dec sock = Some r /\
    match r with
    | Ok (dec', out', err') => exists dm',
        session_inv limit true (received dec') dec' dm' out' err'
    | Err _ => True
    end.
Proof.
  intros Hl Hrec Hdec Hf.
  assert (received dec = decoded dec) as HF by (by rewrite Hrec, Hdec).
  clear Hrec Hdec. revert dec sock HF Hf. induction fuel as [|fuel IH]; intros dec sock HF Hf; [lia|].
  cbn [oneshot_loop].
  destruct (read_into _ dec sock) as [[[n dec2] sock2]|e] eqn:Er; [|by eexists].
  apply read_into_spec in Er as ((x & Er & Ed) & Hn & Hneed).
  set (dec3 := if n =? 0 then mark_eof dec2 else dec2).
  assert (received dec3 = decoded dec3 /\
    (work dec3 <= work dec2 + (if (n =? 0)%Z then work_byte else 0))%nat) as [HF3 Hw3].
  { subst dec3. destruct (n =? 0).
    - destruct (eof_law dec2) as [(y & -> & ->) Hw]. split; [|done].
      by rewrite Er, Ed, HF.
    - split; [by rewrite Er, Ed, HF|lia]. }
  destruct (decode_headers dec3) as [[[[h k]|] dec4]|e] eqn:Edh; cbn [map_err]; [| |by eexists].
  - apply decode_law in Edh as ((y & Ey & Ey') & _ & Hw4). specialize (Hw4 ltac:(eauto)).
    destruct (validate_head h) as [u|e]; [|by eexists].
    destruct (oneshot_body_spec limit true Hl fuel [] dec4 FrameDemuxer_new
      (new_strict limit) (new_strict limit) sock2) as (r & -> & Hp).
    + unfold need in *. destruct (Z.eqb_spec n 0); lia.
    + split_and!; [apply demux_wf_new|by rewrite Ey, Ey', HF3|].
      exists [], []. split_and!; [by apply holds_new..|]. done.
    + by eexists.
  - apply decode_law in Edh as ((y & Ey & Ey') & Hw4 & _).
    destruct (Z.eqb_spec n 0) as [->|Hn0]; [by eexists|].
    apply IH; [by rewrite Ey, Ey', HF3|]. unfold need in *. lia.
Qed.
End OneshotLoop.

Section Theorems.
Context {D : Type} `{ResponseDecoderLaws D}.

(** C32: The follow path is independent of how the stream is sliced: it never
    fails, and each buffer ends up with the last [limit] bytes of its stream's
    payload. *)
Theorem feed_all_follow limit slices :
  0 <= limit ->
  exists d out err,
    feed_all FrameDemuxer_new slices (slb_new limit) (slb_new limit) = Some (Ok (d, out, err)) /\
    out.(slb_buf) = lastn limit (stream_bytes 1 (mjoin slices)) /\
    err.(slb_buf) = lastn limit (stream_bytes 2 (mjoin slices)).
Proof.
  intros Hl. destruct (feed_all_spec limit false Hl FrameDemuxer_new slices [] []
    (slb_new limit) (slb_new limit)) as (r & Hr & Hp);
    [apply demux_wf_new|by apply holds_new..|].
  destruct r as [[[d out] err]|e]; [|by destruct (Hp [])].
  destruct Hp as (o & e & Hd & (_ & _ & Ho & _) & (_ & _ & He & _) & Hres).
  exists d, out, err. split; [done|]. destruct (Hres []) as [E1 E2].
  rewrite !resume_nil, !app_nil_r, !resume_new in * by done. by rewrite E1, E2.
Qed.

(** The strict path collects both streams exactly, or fails, and it fails
    exactly when one of them exceeds the limit. *)
Theorem feed_all_strict limit slices :
  0 <= limit ->
  exists r, feed_all FrameDemuxer_new slices (new_strict limit) (new_strict limit) = Some r /\
    match r with
    | Ok (_, out, err) =>
        out.(slb_buf) = stream_bytes 1 (mjoin slices) /\
        err.(slb_buf) = stream_bytes 2 (mjoin slices) /\
        len (stream_bytes 1 (mjoin slices)) <= limit /\
        len (stream_bytes 2 (mjoin slices)) <= limit
    | Err _ => limit < len (stream_bytes 1 (mjoin slices)) \/
               limit < len (stream_bytes 2 (mjoin slices))
    end.
Proof.
  intros Hl. destruct (feed_all_spec limit true Hl FrameDemuxer_new slices [] []
    (new_strict limit) (new_strict limit)) as (r & Hr & Hp);
    [apply demux_wf_new|by apply holds_new..|].
  exists r. split; [done|]. destruct r as [[[d out] err]|e].
  - destruct Hp as (o & e & Hd & (_ & _ & Ho & Ho') & (_ & _ & He & He') & Hres).
    destruct (Hres []) as [E1 E2].
    rewrite !resume_nil, !app_nil_r, !resume_new in * by done. rewrite E1, E2.
    specialize (Ho' eq_refl). specialize (He' eq_refl).
    rewrite Ho, He, !lastn_ge by done. done.
  - destruct (Hp []) as [_ Hov]. by rewrite !app_nil_r, !resume_new in Hov.
Qed.

(** A one-shot fetch ends within the stated fuel whatever the socket
    answers, and what it returns is the complete demultiplexed body the decoder
    received: nothing truncated, both streams within the limit. *)
Theorem fetch_logs_oneshot_spec fuel limit sock
    (dec0 := set_request_method (lit "GET") (with_limits (D := D) (Some U64_MAX))) :
  0 <= limit -> (need dec0 sock + work_byte < fuel)%nat ->
  exists r, fetch_logs_oneshot fuel limit sock = Some r /\
    match r with
    | Ok (dec, out, err) =>
        out = stream_bytes 1 (received dec) /\ err = stream_bytes 2 (received dec) /\
        len out <= limit /\ len err <= limit
    | Err _ => True
    end.
Proof.
  intros Hl Hf. unfold fetch_logs_oneshot. fold dec0.
  destruct (method_law (lit "GET") (with_limits (Some U64_MAX))) as (E1 & E2 & _).
  destruct (new_law (Some U64_MAX)) as [E3 E4].
  destruct (oneshot_loop_spec (E := IoError) fuel limit dec0 sock) as (r & Hr & Hp);
    [done|subst dec0; by rewrite E1|subst dec0; by rewrite E2|done|].
  rewrite Hr. destruct r as [[[dec out] err]|e]; [|by eexists].
  destruct Hp as [dm Hs]. rewrite !drain_buffer_all. eexists. split; [done|].
  apply session_inv_holds in Hs as [(_ & _ & Ho & Ho') (_ & _ & He & He')].
  specialize (Ho' eq_refl). specialize (He' eq_refl).
  rewrite Ho, He, !lastn_ge by done. done.
Qed.

(** A following session with no stop request reads to the end of file, and
    then each buffer holds the last [limit] bytes of its stream. *)
Theorem demux_loop_follow fuel limit dec0 sock :
  0 <= limit -> received dec0 = decoded dec0 -> (need dec0 sock < fuel)%nat ->
  exists r, demux_loop (E := Error) fuel (fun _ => false) 0 dec0 FrameDemuxer_new
              (slb_new limit) (slb_new limit) sock = Some r /\
    match r with
    | Ok (dec, _, out, err) =>
        out.(slb_buf) = lastn limit (stream_bytes 1 (received dec)) /\
        err.(slb_buf) = lastn limit (stream_bytes 2 (received dec))
    | Err _ => True
    end.
Proof.
  intros Hl HF Hf.
  destruct (demux_loop_spec (E := Error) limit false Hl fuel (fun _ => false) 0 [] dec0 FrameDemuxer_new
    (slb_new limit) (slb_new limit) sock) as (r & Hr & Hp); [done| |].
  - split_and!; [apply demux_wf_new|by rewrite HF|].
    exists [], []. split_and!; [by apply holds_new..|]. done.
  - exists r. split; [done|]. destruct r as [[[[dec dm] out] err]|e]; [|done].
    destruct Hp as (F & Hs & HFr). rewrite <- HFr by done.
    apply session_inv_holds in Hs as [(_ & _ & Ho & _) (_ & _ & He & _)]; done.
Qed.
End Theorems.

(** ** Readers *)

(** [LogStream]: [ls_notify] counts the calls of [notify_waiters]. *)
Record LogStream := mkLogStream {
  ls_buffer : SharedLogBuffer;
  ls_notify : Z;
  ls_terminated : bool
}.

Definition LogStream_new (limit : Z) : LogStream := mkLogStream (slb_new limit) 0 false.

Definition notify_waiters (st : LogStream) : LogStream :=
  mkLogStream st.(ls_buffer) (st.(ls_notify) + 1) st.(ls_terminated).
Definition terminate (st : LogStream) : LogStream :=
  notify_waiters (mkLogStream st.(ls_buffer) st.(ls_notify) true).

(** [LogReader]: [lr_wait] is the pending [notified()] future, with the count
    of [notify_waiters] calls at its creation; it is ready once there was a
    further call. *)
Record LogReader := mkLogReader {
  lr_offset : Z;
  lr_warned_skip : bool;
  lr_buf : list byte;
  lr_pos : nat;
  lr_wait : option Z
}.

Definition LogReader_new : LogReader := mkLogReader 0 false [] 0 None.

Inductive Poll (A : Type) := Ready (a : A) | Pending.
Arguments Ready {A} a.
Arguments Pending {A}.

(** The loop of [poll_fill] on a snapshot of the stream. *)
Fixpoint poll_fill (fuel : nat) (st : LogStream) (self : LogReader)
    : option (Poll (list byte) * LogReader) :=
  match fuel with
  | O => None
  | S fuel =>
      if (self.(lr_pos) <? length self.(lr_buf))%nat then
        Some (Ready (drop self.(lr_pos) self.(lr_buf)), self)
      else
        let registered := default st.(ls_notify) self.(lr_wait) in
        if negb (registered =? st.(ls_notify)) then
          poll_fill fuel st
            (mkLogReader self.(lr_offset) self.(lr_warned_skip) self.(lr_buf) self.(lr_pos) None)
        else
          let '(data, next, skipped) := read_at st.(ls_buffer) self.(lr_offset) READ_CHUNK in
          let warned := self.(lr_warned_skip) || skipped in
          if 0 <? len data then
            Some (Ready data, mkLogReader next warned data 0 None)
          else if st.(ls_terminated) then Some (Ready [], mkLogReader next warned data 0 None)
          else Some (Pending, mkLogReader next warned data 0 (Some registered))
  end.

Definition consume (amt : nat) (self : LogReader) : LogReader :=
  mkLogReader self.(lr_offset) self.(lr_warned_skip) self.(lr_buf)
              (Nat.min (self.(lr_pos) + amt) (length self.(lr_buf))) self.(lr_wait).

(** [poll_read] into a destination with [remaining] bytes left. *)
Definition poll_read (fuel : nat) (st : LogStream) (remaining : nat) (self : LogReader)
    : option (Poll (list byte) * LogReader) :=
  '(p, self) ← poll_fill fuel st self;
  match p with
  | Pending => Some (Pending, self)
  | Ready data =>
      let n := Nat.min (length data) remaining in
      Some (Ready (take n data),
            mkLogReader self.(lr_offset) self.(lr_warned_skip) self.(lr_buf)
                        (self.(lr_pos) + n) self.(lr_wait))
  end.

(** What a reader has not been given yet, from the oldest byte still kept. *)
Definition unread (st : LogStream) (offset : Z) : list byte :=
  zdrop (offset - st.(ls_buffer).(slb_head)) st.(ls_buffer).(slb_buf).

Lemma read_at_spec b off cap :
  0 <= cap -> off <= b.(slb_head) + len b.(slb_buf) ->
  let '(data, next, skipped) := read_at b off cap in
  data = ztake cap (zdrop (off - b.(slb_head)) b.(slb_buf)) /\
  next = Z.max off b.(slb_head) + len data /\ skipped = (off <? b.(slb_head)).
Proof.
  intros Hc Ho. unfold read_at.
  destruct (Z.ltb_spec off (slb_head b)) as [Hlt|Hge].
  - destruct (Z.leb_spec (slb_head b + len (slb_buf b)) (slb_head b)).
    + assert (slb_buf b = []) as -> by (apply len_0_nil; llia).
      unfold zdrop, ztake. cbn [orb]. rewrite drop_nil, take_nil, len_nil. split_and!; [done|lia|done].
    + destruct (Z.eqb_spec cap 0) as [->|]; cbn [orb].
      * rewrite ztake_le by done. split_and!; [done|rewrite len_nil; lia|done].
      * replace (slb_head b - slb_head b) with 0 by lia. rewrite Z.sub_0_r, !zdrop_le by lia.
        split_and!; [|rewrite len_ztake; llia|done].
        destruct (Z.leb_spec (len (slb_buf b)) cap); [rewrite !ztake_ge by lia; done|].
        f_equal. lia.
  - destruct (Z.leb_spec (slb_head b + len (slb_buf b)) off); cbn [orb].
    + rewrite zdrop_ge by lia. unfold ztake. rewrite take_nil, len_nil. split_and!; [done|lia|done].
    + destruct (Z.eqb_spec cap 0) as [->|].
      * rewrite ztake_le by done. split_and!; [done|rewrite len_nil; lia|done].
      * split_and!; [|rewrite len_ztake, len_zdrop; llia|done].
        destruct (Z.leb_spec (len (slb_buf b) - (off - slb_head b)) cap).
        -- rewrite !ztake_ge by llia. done.
        -- f_equal. lia.
Qed.

Lemma poll_fill_stale f st off ws b pos c :
  (length b <= pos)%nat -> c <> st.(ls_notify) ->
  poll_fill (S f) st (mkLogReader off ws b pos (Some c)) =
  poll_fill f st (mkLogReader off ws b pos None).
Proof.
  intros Hb Hc. cbn [poll_fill lr_pos lr_buf lr_wait from_option id lr_offset lr_warned_skip].
  rewrite (proj2 (Nat.ltb_ge _ _) Hb), (proj2 (Z.eqb_neq _ _) Hc). done.
Qed.

(** What a poll with nothing left in the local buffer brings. *)
Definition refilled (st : LogStream) (off : Z) (p : Poll (list byte)) (r' : LogReader) : Prop :=
  match p with
  | Ready data =>
      data = ztake READ_CHUNK (unread st off) /\
      lr_buf r' = data /\ lr_pos r' = 0%nat /\
      lr_offset r' = Z.max off st.(ls_buffer).(slb_head) + len data /\
      (data = [] -> st.(ls_terminated) = true)
  | Pending => unread st off = [] /\ st.(ls_terminated) = false /\ lr_wait r' = Some st.(ls_notify)
  end.

Lemma poll_fill_fresh f st off ws b pos w :
  w = None \/ w = Some st.(ls_notify) -> (length b <= pos)%nat ->
  off <= st.(ls_buffer).(slb_head) + len st.(ls_buffer).(slb_buf) ->
  exists p r', poll_fill (S f) st (mkLogReader off ws b pos w) = Some (p, r') /\ refilled st off p r'.
Proof.
  intros Hw Hl Ho. pose proof (read_at_spec st.(ls_buffer) off READ_CHUNK ltac:(done) Ho) as Hr.
  cbn [poll_fill lr_pos lr_buf lr_wait lr_offset lr_warned_skip]. rewrite (proj2 (Nat.ltb_ge _ _) Hl).
  assert (default (ls_notify st) w = ls_notify st) as -> by (destruct Hw as [->| ->]; done).
  rewrite Z.eqb_refl. cbn [negb].
  destruct (read_at _ _ _) as [[data next] skipped]. destruct Hr as (Hd & Hn & _). fold (unread st off) in Hd.
  destruct (Z.ltb_spec 0 (len data)).
  - eexists _, _. split; [done|]. cbn. split_and!; try done. intros E. apply (f_equal len) in E. rewrite len_nil in E. lia.
  - assert (data = []) as -> by (apply len_0_nil; llia).
    assert (unread st off = []) as Hu.
    { apply len_0_nil. apply (f_equal len) in Hd. rewrite len_ztake in Hd. unfold READ_CHUNK in Hd. cbn in Hd. llia. }
    destruct (ls_terminated st) eqn:Et; (eexists _, _; split; [done|]); cbn; by rewrite ?Hu.
Qed.

Lemma poll_fill_empty st r :
  (length r.(lr_buf) <= r.(lr_pos))%nat -> r.(lr_offset) <= st.(ls_buffer).(slb_head) + len st.(ls_buffer).(slb_buf) ->
  exists p r', poll_fill 2 st r = Some (p, r') /\ refilled st r.(lr_offset) p r'.
Proof.
  destruct r as [off ws b pos w]. cbn [lr_buf lr_pos lr_offset]. intros Hl Ho.
  destruct w as [c|]; [|by apply poll_fill_fresh; [left|..]].
  destruct (Z.eq_dec c (ls_notify st)) as [->|Hc]; [by apply poll_fill_fresh; [right|..]|].
  rewrite poll_fill_stale by done. by apply poll_fill_fresh; [left|..].
Qed.

(** Polling a reader on a snapshot: data comes from the local buffer or is
    the next unread part of the stream, end of file only when the stream is
    terminated with nothing unread, and a reader that is left pending is
    registered for the next notification with nothing unread. *)
Theorem poll_fill_spec st r :
  (r.(lr_pos) <= length r.(lr_buf))%nat ->
  r.(lr_offset) <= st.(ls_buffer).(slb_head) + len st.(ls_buffer).(slb_buf) ->
  exists p r', poll_fill 2 st r = Some (p, r') /\
    match p with
    | Ready data =>
        (drop r.(lr_pos) r.(lr_buf) <> [] /\ data = drop r.(lr_pos) r.(lr_buf) /\ r' = r) \/
        (drop r.(lr_pos) r.(lr_buf) = [] /\
         data = ztake READ_CHUNK (unread st r.(lr_offset)) /\
         lr_buf r' = data /\ lr_pos r' = 0%nat /\
         lr_offset r' = Z.max r.(lr_offset) st.(ls_buffer).(slb_head) + len data /\
         (data = [] -> st.(ls_terminated) = true))
    | Pending =>
        drop r.(lr_pos) r.(lr_buf) = [] /\ unread st r.(lr_offset) = [] /\
        st.(ls_terminated) = false /\ lr_wait r' = Some st.(ls_notify)
    end.
Proof.
  intros Hp Ho. destruct (Nat.ltb_spec (lr_pos r) (length (lr_buf r))) as [Hlt|Hge].
  - eexists _, _. cbn [poll_fill]. rewrite (proj2 (Nat.ltb_lt _ _) Hlt). split; [done|].
    left. split_and!; [|done|done]. intros E. apply (f_equal length) in E. rewrite length_drop in E. cbn in E. lia.
  - destruct (poll_fill_empty st r Hge Ho) as (p & r' & E & Hm).
    assert (drop (lr_pos r) (lr_buf r) = []) as Hnil by (apply drop_ge; lia).
    exists p, r'. split; [done|]. destruct p; [right|]; done.
Qed.

(** ** A reader beside the session's thread

    The reader holds the lock only while it copies: [SyncLogReader::read] (and
    the poll above) is a copy step and, when the copy was empty, a separate
    look at the [terminated] flag.  The session's thread appends and
    terminates in between. *)

Inductive Phase := Reading | Checking | AtEof.

(** [w_written], [w_reads] and [w_after] only record the history: the bytes
    appended, the reads with their offsets, and whether the last empty copy was
    made after the termination. *)
Record World := mkWorld {
  w_buf : SharedLogBuffer;
  w_term : bool;
  w_off : Z;
  w_phase : Phase;
  w_written : list byte;
  w_reads : list (Z * list byte);
  w_after : bool
}.

Definition World_new (limit : Z) : World := mkWorld (slb_new limit) false 0 Reading [] [] false.

Definition step_append (chunk : list byte) (w : World) : World :=
  mkWorld (append w.(w_buf) chunk).2 w.(w_term) w.(w_off) w.(w_phase)
          (w.(w_written) ++ chunk) w.(w_reads) w.(w_after).

Definition step_terminate (w : World) : World :=
  mkWorld w.(w_buf) true w.(w_off) w.(w_phase) w.(w_written) w.(w_reads) w.(w_after).

(** The locked copy of [SyncLogReader::read]. *)
Definition step_copy (cap : Z) (w : World) : World :=
  let '(data, next, _) := read_at w.(w_buf) w.(w_off) cap in
  if 0 <? len data then
    mkWorld w.(w_buf) w.(w_term) next Reading w.(w_written)
            (w.(w_reads) ++ [(next - len data, data)]) w.(w_after)
  else mkWorld w.(w_buf) w.(w_term) next Checking w.(w_written) w.(w_reads) w.(w_term).

(** The look at [terminated] after an empty copy. *)
Definition step_check (w : World) : World :=
  mkWorld w.(w_buf) w.(w_term) w.(w_off) (if w.(w_term) then AtEof else Reading)
          w.(w_written) w.(w_reads) w.(w_after).

Inductive step (cap : Z) : World -> World -> Prop :=
| s_append w chunk : w.(w_term) = false -> len chunk <= w.(w_buf).(slb_limit) ->
    step cap w (step_append chunk w)
| s_terminate w : w.(w_term) = false -> step cap w (step_terminate w)
| s_copy w : w.(w_phase) = Reading -> step cap w (step_copy cap w)
| s_check w : w.(w_phase) = Checking -> step cap w (step_check w).

Definition reachable (limit cap : Z) (w : World) : Prop := rtc (step cap) (World_new limit) w.

Section Interleaving.
Context (limit cap : Z) (Hlimit : 0 < limit) (Hcap : 0 < cap).
Implicit Types w : World.

(** The reads are slices of what was written, each from the end of the one
    before or later, up to the reader's offset. *)
Fixpoint ordered (from : Z) (reads : list (Z * list byte)) : Prop :=
  match reads with
  | [] => True
  | (o, bs) :: rest => from <= o /\ ordered (o + len bs) rest
  end.

Definition slice_of (written : list byte) (r : Z * list byte) : Prop :=
  0 <= r.1 /\ r.2 = ztake (len r.2) (zdrop r.1 written).

Record world_inv w : Prop := {
  wi_limit : w.(w_buf).(slb_limit) = limit;
  wi_lax : w.(w_buf).(slb_strict) = false;
  wi_head : 0 <= w.(w_buf).(slb_head);
  wi_tail : w.(w_buf).(slb_head) + len w.(w_buf).(slb_buf) = len w.(w_written);
  wi_buf : w.(w_buf).(slb_buf) = lastn limit w.(w_written);
  wi_off : 0 <= w.(w_off) <= len w.(w_written);
  wi_slices : Forall (slice_of w.(w_written)) w.(w_reads);
  wi_ordered : ordered 0 (w.(w_reads) ++ [(w.(w_off), [])]);
  wi_complete : len w.(w_written) <= limit ->
    mjoin w.(w_reads).*2 = ztake w.(w_off) w.(w_written);
  wi_eof : w.(w_phase) <> Reading -> w.(w_after) = true ->
    w.(w_off) = len w.(w_written) /\ w.(w_term) = true
}.

Lemma slice_of_app written k r :
  r.1 + len r.2 <= len written -> slice_of written r -> slice_of (written ++ k) r.
Proof.
  intros Hle [Hr E]. split; [done|]. rewrite E at 1.
  pose proof (len_nonneg (snd r)).
  rewrite zdrop_app_le by lia. rewrite ztake_app_le by llia. done.
Qed.

Lemma slice_of_end written r : slice_of written r -> r.2 <> [] -> r.1 + len r.2 <= len written.
Proof.
  intros [Hr E] Hne. apply (f_equal len) in E. rewrite len_ztake, len_zdrop in E.
  assert (0 < len (snd r)) by (destruct (snd r); [done | rewrite len_cons; llia]). llia.
Qed.

Lemma ordered_app from reads o bs :
  ordered from (reads ++ [(o, bs)]) -> forall o' bs', o + len bs <= o' ->
  ordered from (reads ++ [(o, bs); (o', bs')]).
Proof.
  revert from. induction reads as [|[o1 b1] reads IH]; cbn; intros from.
  - intros [? _] o' bs' ?. auto.
  - intros [? Hr] o' bs' Ho. split; [done|]. by apply IH.
Qed.

Lemma ordered_last from reads o o' bs :
  ordered from (reads ++ [(o, [])]) -> o <= o' -> ordered from (reads ++ [(o', bs)]).
Proof.
  revert from. induction reads as [|[o1 b1] reads IH]; cbn; intros from.
  - intros [? _] ?. split; [lia|done].
  - intros [? Hr] ?. split; [done|]. by apply IH.
Qed.

Lemma world_inv_new : world_inv (World_new limit).
Proof. split; cbn; try done; try lia. rewrite lastn_ge; [done|]. rewrite len_nil. lia. Qed.

(** Reading: where the copy comes from. *)
Lemma copy_data w data next skipped :
  world_inv w -> read_at w.(w_buf) w.(w_off) cap = (data, next, skipped) ->
  let start := Z.max w.(w_off) w.(w_buf).(slb_head) in
  data = ztake (len data) (zdrop start w.(w_written)) /\ next = start + len data /\
  next <= len w.(w_written) /\ (data = [] -> next = len w.(w_written)) /\
  (len w.(w_written) <= limit -> start = w.(w_off)).
Proof.
  intros Hw E start. destruct Hw as [Hl Hx Hh Ht Hb Ho Hs Hor Hc He].
  pose proof (read_at_spec w.(w_buf) w.(w_off) cap ltac:(lia) ltac:(lia)) as Hr.
  rewrite E in Hr. destruct Hr as (Hd & Hn & _). subst start.
  assert (zdrop (w_off w - slb_head (w_buf w)) (slb_buf (w_buf w)) =
          zdrop (Z.max (w_off w) (slb_head (w_buf w))) (w_written w)) as Hz.
  { rewrite Hb. unfold lastn.
    assert (len (lastn limit (w_written w)) = len (slb_buf (w_buf w))) as Hlb by (by rewrite Hb).
    rewrite len_lastn in Hlb by lia.
    destruct (Z.leb_spec (slb_head (w_buf w)) (w_off w)).
    - rewrite (Z.max_l (w_off w)) by lia.
      destruct (Z.leb_spec (len (w_written w)) limit).
      + rewrite (zdrop_le (len (w_written w) - limit)) by lia. f_equal. lia.
      + rewrite zdrop_zdrop by lia. f_equal. lia.
    - rewrite (Z.max_r (w_off w)) by lia. rewrite (zdrop_le (w_off w - _)) by lia.
      destruct (Z.leb_spec (len (w_written w)) limit).
      + rewrite !zdrop_le by lia. done.
      + f_equal. lia. }
  rewrite Hz in Hd.
  assert (len data = Z.min cap (len (w_written w) - Z.max (w_off w) (slb_head (w_buf w)))) as Hlen.
  { rewrite Hd, len_ztake, len_zdrop. llia. }
  split_and!.
  - rewrite Hlen. rewrite Hd at 1.
    destruct (Z.leb_spec cap (len (w_written w) - Z.max (w_off w) (slb_head (w_buf w)))).
    + by rewrite Z.min_l by lia.
    + rewrite !ztake_ge by llia. done.
  - done.
  - lia.
  - intros ->. rewrite len_nil in *. lia.
  - intros Hle. assert (len (lastn limit (w_written w)) = len (slb_buf (w_buf w))) as Hlb by (by rewrite Hb).
    rewrite len_lastn in Hlb by lia. lia.
Qed.

Lemma step_append_inv w chunk :
  world_inv w -> w.(w_term) = false -> len chunk <= w.(w_buf).(slb_limit) ->
  world_inv (step_append chunk w).
Proof.
  intros Hw Hterm Hch. destruct Hw as [Hl Hx Hh Ht Hb Ho Hs Hor Hc He].
  assert (len (slb_buf (w_buf w)) <= slb_limit (w_buf w)) as Hbl
    by (rewrite Hb, len_lastn; lia).
  pose proof (append_head _ chunk Hx Hch Hbl) as (Ht' & Hh' & _).
  assert (holds limit false (w_buf w) (w_written w)) as Hho by (unfold holds; by rewrite Hx).
  pose proof (append_holds limit false _ _ chunk ltac:(lia) Hho) as Ha.
  unfold step_append. destruct (append (w_buf w) chunk) as [[] b']; [|by destruct Ha].
  cbn [fst snd] in *. destruct Ha as (Hl' & Hx' & Hb' & _).
  pose proof (len_nonneg chunk).
  split; cbn; rewrite ?len_app; try done; try lia.
  - eapply Forall_impl; [exact Hs|]. intros [o bs] Hsl. cbn.
    destruct (decide (bs = [])) as [->|Hne].
    + destruct Hsl as [? _]. split; [done|]. cbn. by rewrite ztake_le.
    + apply slice_of_app; [|done]. cbn. by apply (slice_of_end _ (o, bs)).
  - intros Hle. rewrite Hc by lia. by rewrite ztake_app_le by lia.
  - intros Hph Haf. destruct (He Hph Haf) as [_ Htm]. congruence.
Qed.

Lemma step_copy_inv w : world_inv w -> world_inv (step_copy cap w).
Proof.
  intros Hw. unfold step_copy.
  destruct (read_at (w_buf w) (w_off w) cap) as [[data next] skipped] eqn:E.
  pose proof (copy_data w data next skipped Hw E) as (Hd & Hn & Hle & Hnil & Hsmall).
  destruct Hw as [Hl Hx Hh Ht Hb Ho Hs Hor Hc He].
  destruct (Z.ltb_spec 0 (len data)) as [Hpos|Hz].
  - split; cbn; try done; try lia.
    + apply Forall_app. split; [done|]. constructor; [|constructor]. split; cbn; [lia|].
      rewrite Hd at 1. do 2 f_equal. lia.
    + rewrite <- app_assoc. cbn. apply ordered_app; [|lia].
      eapply ordered_last; [exact Hor | lia].
    + intros Hlim. specialize (Hsmall Hlim). rewrite fmap_app, join_app, Hc by done. cbn.
      rewrite app_nil_r. rewrite Hsmall in Hd, Hn. rewrite Hn.
      rewrite ztake_add by lia. by rewrite <- Hd.
  - assert (data = []) as -> by (apply len_0_nil; llia). specialize (Hnil eq_refl).
    rewrite len_nil in *. split; cbn; try done; try lia.
    + eapply ordered_last; [exact Hor | lia].
    + intros Hlim. rewrite Hc by done. rewrite Hn, (Hsmall Hlim). f_equal. lia.
Qed.

Lemma reachable_inv w : reachable limit cap w -> world_inv w.
Proof.
  intros Hr. apply (rtc_ind_r (fun w => world_inv w) (World_new limit)) in Hr; [done|apply world_inv_new|].
  intros w1 w2 _ Hst Hw. destruct Hst as [w3 chunk Ht Hc|w3 Ht|w3 Hph|w3 Hph].
  - by apply step_append_inv.
  - destruct Hw. split; try done. cbn. intros Hph Haf. destruct (wi_eof0 Hph Haf). congruence.
  - by apply step_copy_inv.
  - destruct Hw. split; try done. cbn. intros _ Haf. apply wi_eof0; [by rewrite Hph | done].
Qed.
End Interleaving.

(** C31: In every interleaving of the session's thread with a reader, the reads
    are slices of what was written, in order and never overlapping; while no
    more than the limit was written they are together exactly the part before
    the reader's offset; and an end of file seen by a copy made after the
    termination means that everything was read. *)
Theorem reader_slices limit cap w :
  0 < limit -> 0 < cap -> reachable limit cap w ->
  Forall (slice_of w.(w_written)) w.(w_reads) /\
  ordered 0 (w.(w_reads) ++ [(w.(w_off), [])]) /\
  (len w.(w_written) <= limit -> mjoin w.(w_reads).*2 = ztake w.(w_off) w.(w_written)) /\
  (w.(w_phase) = AtEof -> w.(w_after) = true -> w.(w_off) = len w.(w_written)).
Proof.
  intros Hl Hc Hr. apply reachable_inv in Hr as []; [|done..]. split_and!; try done.
  intros Hph Haf. apply wi_eof0; [by rewrite Hph | done].
Qed.

(** The flag is loaded after the lock is released, so output appended and
    a termination between an empty copy and the look at the flag make the
    reader report the end of file with bytes unread, far within the limit. *)
Theorem reader_eof_race :
  exists w, reachable DEFAULT_BUFFER_LIMIT READ_CHUNK w /\
    w.(w_phase) = AtEof /\ w.(w_reads) = [] /\ w.(w_written) = lit "last words".
Proof.
  eexists. split.
  - unfold reachable.
    eapply rtc_l; [by apply s_copy|].
    eapply rtc_l; [apply (s_append _ _ (lit "last words")); [done|apply Z.leb_le; reflexivity]|].
    eapply rtc_l; [by apply s_terminate|].
    eapply rtc_l; [by apply s_check|]. apply rtc_refl.
  - vm_compute. done.
Qed.

Definition race_free_world : World :=
  step_check (step_copy 10 (step_copy 10 (step_terminate (step_append (lit "hi") (World_new 100))))).

Lemma reader_slices_witness :
  Forall (slice_of (w_written race_free_world)) (w_reads race_free_world) /\
  ordered 0 (w_reads race_free_world ++ [(w_off race_free_world, [])]) /\
  (len (w_written race_free_world) <= 100 ->
   mjoin (w_reads race_free_world).*2 = ztake (w_off race_free_world) (w_written race_free_world)) /\
  (w_phase race_free_world = AtEof -> w_after race_free_world = true ->
   w_off race_free_world = len (w_written race_free_world)).
Proof.
  apply (reader_slices 100 10 race_free_world); [lia|lia|]. unfold reachable, race_free_world.
  eapply rtc_l; [apply (s_append _ _ (lit "hi")); [done|apply Z.leb_le; reflexivity]|].
  eapply rtc_l; [by apply s_terminate|].
  eapply rtc_l; [by apply s_copy|].
  eapply rtc_l; [by apply s_copy|].
  eapply rtc_l; [by apply s_check|]. apply rtc_refl.
Defined.

(** ** One-shot readers

    The first read fetches; [fetched] is what [fetch_logs_oneshot_blocking]
    answers at that moment. *)

Record SyncOneshotReader := mkSyncOneshot {
  so_stdout : bool;
  so_data : option (list byte);
  so_pos : nat;
  so_failed : bool
}.

Definition SyncOneshotReader_new (stdout : bool) : SyncOneshotReader :=
  mkSyncOneshot stdout None 0 false.

Definition oneshot_read (fetched : result IoError (list byte * list byte)) (cap : nat)
    (self : SyncOneshotReader) : result IoError (list byte) * SyncOneshotReader :=
  let '(early, self) :=
    match self.(so_data), self.(so_failed) with
    | None, false =>
        match fetched with
        | Ok (out, err) =>
            (None, mkSyncOneshot self.(so_stdout)
                     (Some (if self.(so_stdout) then out else err)) self.(so_pos) false)
        | Err e => (Some e, mkSyncOneshot self.(so_stdout) None self.(so_pos) true)
        end
    | _, _ => (None, self)
    end in
  match early with
  | Some e => (Err e, self)
  | None =>
      if self.(so_failed) then (Err (io_other (lit "oneshot log reader already failed")), self)
      else
        let remaining := drop self.(so_pos) (default [] self.(so_data)) in
        let n := Nat.min (length remaining) cap in
        (Ok (take n remaining),
         mkSyncOneshot self.(so_stdout) self.(so_data) (self.(so_pos) + n) self.(so_failed))
  end.

(** Reads with the given buffer sizes, one after the other. *)
Fixpoint oneshot_reads (fetched : result IoError (list byte * list byte)) (caps : list nat)
    (self : SyncOneshotReader) : list (result IoError (list byte)) :=
  match caps with
  | [] => []
  | cap :: caps =>
      let '(r, self) := oneshot_read fetched cap self in r :: oneshot_reads fetched caps self
  end.

Lemma oneshot_reads_data fetched caps so d pos :
  (pos <= length d)%nat ->
  exists chunks, oneshot_reads fetched caps (mkSyncOneshot so (Some d) pos false) = Ok <$> chunks /\
    mjoin chunks = take (sum_list caps) (drop pos d).
Proof.
  revert pos. induction caps as [|cap caps IH]; intros pos Hp; cbn [oneshot_reads].
  - exists []. done.
  - unfold oneshot_read. cbn [so_data so_failed so_pos so_stdout from_option id].
    set (n := Nat.min _ _). assert (n = Nat.min (length d - pos) cap) as Hn by (subst n; by rewrite length_drop). clearbody n.
    destruct (IH (pos + n)%nat) as (chunks & E & Hj); [lia|].
    exists (take n (drop pos d) :: chunks). rewrite E. split; [done|].
    change (mjoin (take n (drop pos d) :: chunks)) with (take n (drop pos d) ++ mjoin chunks).
    rewrite Hj, <- drop_drop. cbn [sum_list sum_list_with id].
    destruct (decide (cap <= length d - pos)%nat).
    + replace n with cap by lia. by rewrite take_take_drop.
    + assert (drop n (drop pos d) = []) as -> by (apply drop_ge; rewrite length_drop; lia).
      rewrite take_nil, app_nil_r. rewrite !take_ge by (rewrite length_drop; lia). done.
Qed.

(** A one-shot reader returns the fetched stream in order, whatever the
    sizes of the reads; after a failed fetch every read fails. *)
Theorem oneshot_reads_spec fetched caps so :
  match fetched with
  | Ok (out, err) =>
      exists chunks, oneshot_reads fetched caps (SyncOneshotReader_new so) = Ok <$> chunks /\
        mjoin chunks = take (sum_list caps) (if so then out else err)
  | Err _ => forall r, r ∈ oneshot_reads fetched caps (SyncOneshotReader_new so) -> is_ok r = false
  end.
Proof.
  destruct fetched as [[out err]|e].
  - destruct caps as [|cap caps]; [by exists []|].
    destruct (oneshot_reads_data (Ok (out, err)) (cap :: caps) so (if so then out else err) 0)
      as (chunks & E & Hj); [lia|]. rewrite drop_0 in Hj. exists chunks. split; [|done].
    rewrite <- E. cbn [oneshot_reads]. unfold oneshot_read. cbn. by destruct so.
  - assert (forall caps pos r, r ∈ oneshot_reads (Err e) caps (mkSyncOneshot so None pos true) ->
      is_ok r = false) as Hf.
    { clear caps. induction caps as [|cap caps IH]; intros pos r; cbn [oneshot_reads].
      - intros Hr. by apply elem_of_nil in Hr.
      - unfold oneshot_read. cbn. intros [->|Hr]%elem_of_cons; [done|]. by eapply IH. }
    destruct caps as [|cap caps]; intros r; cbn [oneshot_reads]; [intros Hr; by apply elem_of_nil in Hr|].
    unfold oneshot_read. cbn. intros [->|Hr]%elem_of_cons; [done|]. by eapply Hf.
Qed.

(** ** The session handle *)

(** [shutdown_socket] is whether the duplicated socket is still held, and
    [h_shutdown] whether it was shut down. *)
Record DockerLogsHandle := mkHandle {
  h_stdout : LogStream;
  h_stderr : LogStream;
  log_stop : bool;
  shutdown_socket : bool;
  h_shutdown : bool;
  demux_done : bool;
  active_consumers : Z
}.

Definition DockerLogsHandle_new : DockerLogsHandle :=
  mkHandle (LogStream_new DEFAULT_BUFFER_LIMIT) (LogStream_new DEFAULT_BUFFER_LIMIT)
           false false false false 0.

Definition stop (h : DockerLogsHandle) : DockerLogsHandle :=
  mkHandle h.(h_stdout) h.(h_stderr) true false (h.(h_shutdown) || h.(shutdown_socket))
           h.(demux_done) h.(active_consumers).

(** Also the guard [TerminateOnDrop] of the session's thread. *)
Definition terminate_all (h : DockerLogsHandle) : DockerLogsHandle :=
  mkHandle (terminate h.(h_stdout)) (terminate h.(h_stderr)) h.(log_stop) h.(shutdown_socket)
           h.(h_shutdown) true h.(active_consumers).

Definition logs_terminated (h : DockerLogsHandle) : bool := h.(demux_done).

(** [fetch_add(1)] and [fetch_sub(1)] on a [usize]. *)
Definition set_consumers (n : Z) (h : DockerLogsHandle) : DockerLogsHandle :=
  mkHandle h.(h_stdout) h.(h_stderr) h.(log_stop) h.(shutdown_socket) h.(h_shutdown)
           h.(demux_done) (n mod (USIZE_MAX + 1)).
Definition register_consumer (h : DockerLogsHandle) : DockerLogsHandle :=
  set_consumers (h.(active_consumers) + 1) h.
Definition consumer_finished (h : DockerLogsHandle) : DockerLogsHandle :=
  set_consumers (h.(active_consumers) - 1) h.

Definition all_done (h : DockerLogsHandle) : bool := h.(demux_done) && (h.(active_consumers) =? 0).

(** The life of a session: each consumer task is registered before it starts
    and finishes once ([ConsumerFinishedOnDrop]); [k] counts those running. *)
Inductive session_step : DockerLogsHandle * nat -> DockerLogsHandle * nat -> Prop :=
| ss_register h k : Z.of_nat (S k) <= USIZE_MAX ->
    session_step (h, k) (register_consumer h, S k)
| ss_finish h k : session_step (h, S k) (consumer_finished h, k)
| ss_stop h k : session_step (h, k) (stop h, k)
| ss_demux_exit h k : h.(demux_done) = false -> session_step (h, k) (terminate_all h, k).

(** [all_done] holds exactly when the session's thread has exited and no
    consumer task is running, and then both streams are terminated, so that no
    reader waits for ever. *)
Theorem all_done_iff h k :
  rtc session_step (DockerLogsHandle_new, 0%nat) (h, k) ->
  (all_done h = true <-> h.(demux_done) = true /\ k = 0%nat) /\
  (logs_terminated h = true <->
   h.(h_stdout).(ls_terminated) = true /\ h.(h_stderr).(ls_terminated) = true).
Proof.
  intros Hr.
  assert (h.(active_consumers) = Z.of_nat k /\ Z.of_nat k <= USIZE_MAX /\
    (ls_terminated h.(h_stdout) = h.(demux_done)) /\
    (ls_terminated h.(h_stderr) = h.(demux_done))) as (Hc & Hk & Ho & He).
  { change h with (fst (h, k)). change k with (snd (h, k)).
    refine (rtc_ind_r (R := session_step) (fun p : DockerLogsHandle * nat =>
      active_consumers p.1 = Z.of_nat p.2 /\ Z.of_nat p.2 <= USIZE_MAX /\
      ls_terminated (h_stdout p.1) = demux_done p.1 /\
      ls_terminated (h_stderr p.1) = demux_done p.1) (DockerLogsHandle_new, 0%nat) _ _ _ Hr); [done|].
    intros y z _ Hst. destruct Hst; cbn -[Z.of_nat USIZE_MAX Z.modulo]; intros (? & ? & ? & ?);
      split_and!; try done; try lia;
      rewrite Z.mod_small; unfold USIZE_MAX, U64_MAX in *; lia. }
  unfold all_done, logs_terminated. rewrite Hc, Ho, He. split; [|tauto].
  rewrite andb_true_iff, Z.eqb_eq. split; intros [? ?]; split; done || lia.
Qed.

(** ** Witnesses *)

(** Two frames, cut inside the second header. *)
Definition two_frames : list (list byte) :=
  [[x01; x00; x00; x00; x00; x00; x00; x02; "h"%byte; "i"%byte; x02; x00];
   [x00; x00; x00; x00; x00; x03; "e"%byte; "r"%byte; "r"%byte]].

Example two_frames_streams :
  stream_bytes 1 (mjoin two_frames) = lit "hi" /\ stream_bytes 2 (mjoin two_frames) = lit "err".
Proof. split; reflexivity. Qed.

Lemma feed_all_follow_witness :
  exists d out err,
    feed_all FrameDemuxer_new two_frames (slb_new 2) (slb_new 2) = Some (Ok (d, out, err)) /\
    out.(slb_buf) = lastn 2 (stream_bytes 1 (mjoin two_frames)) /\
    err.(slb_buf) = lastn 2 (stream_bytes 2 (mjoin two_frames)).
Proof. apply (feed_all_follow 2 two_frames). lia. Defined.

Lemma feed_all_strict_witness :
  exists r, feed_all FrameDemuxer_new two_frames (new_strict 2) (new_strict 2) = Some r /\
    match r with
    | Ok (_, out, err) =>
        out.(slb_buf) = stream_bytes 1 (mjoin two_frames) /\
        err.(slb_buf) = stream_bytes 2 (mjoin two_frames) /\
        len (stream_bytes 1 (mjoin two_frames)) <= 2 /\
        len (stream_bytes 2 (mjoin two_frames)) <= 2
    | Err _ => 2 < len (stream_bytes 1 (mjoin two_frames)) \/
               2 < len (stream_bytes 2 (mjoin two_frames))
    end.
Proof. apply (feed_all_strict 2 two_frames). lia. Defined.

Definition log_socket : socket := [Ok (lit "200" ++ [NL]); Ok (mjoin two_frames)].

Lemma fetch_logs_oneshot_witness :
  exists r, fetch_logs_oneshot (D := PlainDecoder) 200 100 log_socket = Some r /\
    match r with
    | Ok (dec, out, err) =>
        out = stream_bytes 1 (received dec) /\ err = stream_bytes 2 (received dec) /\
        len out <= 100 /\ len err <= 100
    | Err _ => True
    end.
Proof.
  apply (fetch_logs_oneshot_spec (D := PlainDecoder) 200 100 log_socket); [lia|].
  vm_compute. lia.
Defined.

Example fetch_logs_oneshot_ok :
  match fetch_logs_oneshot (D := PlainDecoder) 200 100 log_socket with
  | Some (Ok (_, out, err)) => out = lit "hi" /\ err = lit "err"
  | _ => False
  end.
Proof. vm_compute. done. Qed.

Definition streaming : PlainDecoder := mkPlain [] true false [].

Lemma demux_loop_follow_witness :
  exists r, demux_loop (E := Error) 200 (fun _ => false) 0 streaming FrameDemuxer_new
              (slb_new 2) (slb_new 2) [Ok (mjoin two_frames)] = Some r /\
    match r with
    | Ok (dec, _, out, err) =>
        out.(slb_buf) = lastn 2 (stream_bytes 1 (received dec)) /\
        err.(slb_buf) = lastn 2 (stream_bytes 2 (received dec))
    | Err _ => True
    end.
Proof.
  apply (demux_loop_follow 200 2 streaming [Ok (mjoin two_frames)]); [lia|done|].
  vm_compute. lia.
Defined.

Lemma poll_fill_spec_witness :
  exists p r', poll_fill 2 (mkLogStream (append (slb_new 100) (lit "hi")).2 3 false)
      (mkLogReader 0 false [] 0 (Some 2)) = Some (p, r') /\
    match p with
    | Ready data =>
        (drop 0 (@nil byte) <> [] /\ data = drop 0 [] /\ r' = mkLogReader 0 false [] 0 (Some 2)) \/
        (drop 0 (@nil byte) = [] /\
         data = ztake READ_CHUNK (unread (mkLogStream (append (slb_new 100) (lit "hi")).2 3 false) 0) /\
         lr_buf r' = data /\ lr_pos r' = 0%nat /\ lr_offset r' = Z.max 0 0 + len data /\
         (data = [] -> false = true))
    | Pending =>
        drop 0 (@nil byte) = [] /\
        unread (mkLogStream (append (slb_new 100) (lit "hi")).2 3 false) 0 = [] /\
        false = false /\ lr_wait r' = Some 3
    end.
Proof.
  apply (poll_fill_spec (mkLogStream (append (slb_new 100) (lit "hi")).2 3 false)
                        (mkLogReader 0 false [] 0 (Some 2))); [cbn; lia | apply Z.leb_le; reflexivity].
Defined.

Lemma all_done_iff_witness :
  let h := terminate_all (consumer_finished (register_consumer DockerLogsHandle_new)) in
  (all_done h = true <-> h.(demux_done) = true /\ 0%nat = 0%nat) /\
  (logs_terminated h = true <->
   h.(h_stdout).(ls_terminated) = true /\ h.(h_stderr).(ls_terminated) = true).
Proof.
  apply (all_done_iff _ 0).
  eapply rtc_l; [apply ss_register; unfold USIZE_MAX, U64_MAX; lia|].
  eapply rtc_l; [apply ss_finish|].
  eapply rtc_l; [by apply ss_demux_exit|]. apply rtc_refl.
Defined.
