(* ===== verification/Exchange.v ===== *)
(** * One HTTP exchange over a socket

    The loop that [read_http11_response] ([src/src/core/client/docker_client.rs]) and
    [send_request_inner] ([src/src/core/wait/http_strategy.rs]) have in common: reads
    into a [ResponseAccumulator] until it has a whole response.  The two differ in the
    type their errors come to, the class [ExchangeErrors].  Against any peer the loop
    ends, and what it ends with is the body the limit keeps of all that was received. *)

From S2P Require Import Prelude Errors Http HttpDecode LogStream.

(** How the errors of an exchange are made: that of a decoder without room, those of
    the accumulator, those of the socket. *)
Class ExchangeErrors (E : Type) := {
  decoder_full : E;
  of_decoding : str -> E;
  of_socket : IoError -> E;
}.

Section Exchange.
Context {D : Type} `{ResponseDecoder D} {E : Type} `{ExchangeErrors E}.

(** The rounds; the fuel bounds them and the decoder's steps in each. *)
Fixpoint read_loop (fuel : nat) (acc : ResponseAccumulator D) (sock : socket)
    : option (result E (ResponseAccumulator D)) :=
  match fuel with
  | O => None
  | S f =>
      let want := read_buf_size acc in
      if want =? 0 then Some (Err decoder_full)
      else
        match mut_buf want acc.(decoder) with
        | Err e => Some (Err (of_decoding e))
        | Ok _ =>
            match sock_read want sock with
            | (Err e, _) => Some (Err (of_socket e))
            | (Ok bs, sock) =>
                match HttpDecode.feed f bs acc with
                | None => None
                | Some (Err e) => Some (Err (of_decoding e))
                | Some (Ok (true, acc)) => Some (Ok acc)
                | Some (Ok (false, acc)) => read_loop f acc sock
                end
            end
        end
  end.
End Exchange.

(** ** What an exchange ends with *)

Section Spec.
Context {D : Type} `{ResponseDecoderLaws D} {E : Type} `{ExchangeErrors E}.
Implicit Types s : ResponseAccumulator D.

Definition has_body (k : BodyKind) : bool :=
  match k with CloseDelimited | ContentLength _ | Chunked => true | BodyNone | BodyTunnel | BodyUnknown => false end.

(** What was kept, of the part [F] of the received body that was taken from the decoder. *)
Definition kept (F : list byte) s : Prop :=
  received s.(decoder) = F ++ decoded s.(decoder) /\ limited s.(body_limit) F = Some s.(body_buf).

(** Between two reads: nothing is kept before the head, and a head that is known is
    final and has a body. *)
Definition midway s : Prop :=
  limit_ok s.(body_limit) /\ exists F, kept F s /\
    match s.(acc_head) with
    | None => F = []
    | Some h => is_interim h.(status_code) = false /\ exists k, s.(body_kind) = Some k /\ has_body k = true
    end.

(** A whole response: a head that is no interim one, and what the limit keeps of
    everything received, or nothing where the head allows no body. *)
Definition whole s : Prop := exists h k,
  s.(acc_head) = Some h /\ is_interim h.(status_code) = false /\ s.(body_kind) = Some k /\
  if has_body k then limited s.(body_limit) (received s.(decoder)) = Some s.(body_buf) else s.(body_buf) = [].

Definition fed (n : Z) s (r : result str (bool * ResponseAccumulator D)) : Prop :=
  match r with
  | Ok (true, s') => whole s' /\ s'.(body_limit) = s.(body_limit)
  | Ok (false, s') => n <> 0 /\ midway s' /\ s'.(body_limit) = s.(body_limit) /\
      (work s'.(decoder) <= work s.(decoder))%nat
  | Err _ => True
  end.

(** A drain of a response that has a body, and the end of it. *)
Lemma drain_fed fuel n s F h k (stop : bool) (e : str) :
  (work s.(decoder) < fuel)%nat -> limit_ok s.(body_limit) -> kept F s ->
  s.(acc_head) = Some h -> is_interim h.(status_code) = false -> s.(body_kind) = Some k -> has_body k = true ->
  exists r, match drain_body fuel s with
            | None => None
            | Some (Err e) => Some (Err e)
            | Some (Ok s) =>
                if s.(body_done) then Some (Ok (true, s))
                else if n =? 0 then Some (if stop then Ok (true, set_body_done true s) else Err e)
                else Some (Ok (false, s))
            end = Some r /\ fed n s r.
Proof.
  intros Hf Hl [Hrec Hlim] Hh Hi Hk Hb. destruct (drain_body_spec fuel F s Hf Hl Hlim) as (r & -> & Hd).
  destruct r as [s'|e']; [|by eexists]. destruct Hd as (Hd & Hdec & Ebl & Eh & Ek & _ & Hw & Er).
  rewrite <- Hrec in Hd. rewrite <- Er in Hd.
  assert (forall d, whole (set_body_done d s')) as Hwhole.
  { intros d. exists h, k. cbn. rewrite Eh, Ek, Hb, Ebl. by split_and!. }
  destruct (body_done s') eqn:Ed.
  - eexists. split; [done|]. split; [|done]. exists h, k. rewrite Eh, Ek, Hb, Ebl. by split_and!.
  - destruct (Z.eqb_spec n 0).
    + eexists. split; [done|]. destruct stop; [|done]. by split; [apply Hwhole|].
    + eexists. split; [done|]. split_and!; [done| |done|done]. split; [by rewrite Ebl|].
      exists (received (decoder s')). split; [split; [by rewrite Hdec, app_nil_r|by rewrite Ebl]|].
      rewrite Eh, Hh, Ek. split; [done|]. by exists k.
Qed.

Lemma feed_body_fed fuel n s F h :
  (work s.(decoder) < fuel)%nat -> limit_ok s.(body_limit) -> kept F s ->
  s.(acc_head) = Some h -> is_interim h.(status_code) = false ->
  match s.(body_kind) with Some k => has_body k = true \/ F = [] | None => True end ->
  exists r, feed_body fuel n s = Some r /\ fed n s r.
Proof.
  intros Hf Hl Hkept Hh Hi. unfold feed_body.
  assert (forall k, has_body k = false -> body_kind s = Some k -> F = [] -> whole s) as Hnone.
  { intros k Hb Ek ->. exists h, k. rewrite Hb. split_and!; [done..|]. destruct Hkept as [_ Hlim].
    rewrite limited_nil in Hlim by done. by injection Hlim. }
  destruct (body_kind s) as [k|] eqn:Ek; intros Hk; [|by eexists]. destruct k as [| | |n0| |]; [..|by eexists].
  - eexists. split; [done|]. destruct Hk as [|Hk]; [done|]. split; [by apply (Hnone BodyNone)|done].
  - eexists. split; [done|]. destruct Hk as [|Hk]; [done|]. split; [by apply (Hnone BodyTunnel)|done].
  - by apply (drain_fed fuel n s F h CloseDelimited true []).
  - by apply (drain_fed fuel n s F h (ContentLength n0) false).
  - by apply (drain_fed fuel n s F h Chunked false).
Qed.

Lemma feed_loop_fed fuel n s :
  (work s.(decoder) < fuel)%nat -> midway s -> exists r, HttpDecode.feed_loop fuel n s = Some r /\ fed n s r.
Proof.
  revert s. induction fuel as [|fuel IH]; intros s Hf (Hl & F & Hkept & Hh); [lia|]. cbn [HttpDecode.feed_loop].
  destruct (acc_head s) as [h|] eqn:Eh.
  - destruct Hh as [Hi (k & Ek & Hb)]. apply (feed_body_fed _ n s F h); [lia|done..|]. rewrite Ek. by left.
  - subst F. destruct Hkept as [Hrec Hlim]. cbn in Hrec.
    destruct (decode_headers (decoder s)) as [[[[h k]|] d]|e] eqn:Ed; [| |by eexists];
      apply decode_law in Ed as ((x & Er & Edc) & Hw & Hw').
    + assert (received d = decoded d) as Hd by (by rewrite Er, Edc, Hrec).
      specialize (Hw' (mk_is_Some _ _ eq_refl)). destruct (is_interim (status_code h)) eqn:Ei.
      * destruct (method_law (request_method s) d) as (Em & Em' & Em'').
        destruct (IH (mkAcc (set_request_method (request_method s) d) (request_method s) None None [] false (body_limit s)))
          as (r & Eq & Hr); [cbn; lia| |].
        { split; [done|]. exists []. split; [|done]. split; cbn; [by rewrite Em, Em', Hd|by apply limited_nil]. }
        exists r. split; [exact Eq|]. destruct r as [[[] s']|]; [done| |done]. cbn in *.
        destruct Hr as (? & ? & ? & ?). split_and!; [done..|lia].
      * destruct (feed_body_fed (S fuel) n (set_message (Some h) (Some k) (set_decoder d s)) [] h)
          as (r & Eq & Hr); cbn; [lia|done|by split|done|done|by right|].
        exists r. split; [exact Eq|]. destruct r as [[[] s']|]; [done| |done]. cbn in *.
        destruct Hr as (? & ? & ? & ?). split_and!; [done..|lia].
    + destruct (Z.eqb_spec n 0); [by eexists|]. eexists. split; [done|]. cbn. split_and!; [done| |done|done].
      split; [done|]. exists []. cbn. rewrite Eh. split; [|done]. split; cbn; [by rewrite Er, Edc, Hrec|done].
Qed.

(** The loop ends, for any socket. *)
Lemma read_to_whole fuel s sock :
  midway s -> (work s.(decoder) + (work_byte + 1) * sock_bytes sock + work_byte + 1 < fuel)%nat ->
  exists r, read_loop (E := E) fuel s sock = Some r /\
    match r with Ok s' => whole s' /\ s'.(body_limit) = s.(body_limit) | Err _ => True end.
Proof.
  revert s sock. induction fuel as [|fuel IH]; intros s sock Hm Hf; [lia|]. cbn [read_loop].
  destruct (Z.eqb_spec (read_buf_size s) 0) as [|Hw]; [by eexists|].
  destruct (mut_buf _ (decoder s)); [|by eexists].
  pose proof (available_law (decoder s)) as Ha.
  destruct (sock_read (read_buf_size s) sock) as [[bs|e] sock'] eqn:Es; [|by eexists].
  apply sock_read_bytes in Es; [|unfold read_buf_size in *; lia].
  unfold HttpDecode.feed. destruct (advance_law bs (decoder s)) as ((x & Er & Ed) & Hadv).
  set (d := if len bs =? 0 then mark_eof (advance_buf bs (decoder s)) else advance_buf bs (decoder s)).
  assert ((exists y, received d = received (decoder s) ++ y /\ decoded d = decoded (decoder s) ++ y) /\
    (work d <= work (decoder s) + work_byte * length bs + (if (len bs =? 0)%Z then work_byte else 0))%nat) as [(y & Hr & Hd) Hwd].
  { subst d. destruct (len bs =? 0); [|split; [by exists x|lia]].
    destruct (eof_law (advance_buf bs (decoder s))) as ((z & Er' & Ed') & Hadv'). split; [|lia].
    exists (x ++ z). by rewrite Er', Ed', Er, Ed, <- !app_assoc. }
  destruct (feed_loop_fed fuel (len bs) (set_decoder d s)) as (r & -> & Hfed).
  - cbn. destruct (len bs =? 0) eqn:El; [|nia].
    assert (length bs = 0%nat) as Hz by (apply Z.eqb_eq in El; unfold len in El; lia). nia.
  - destruct Hm as (Hl & F & [Hrec Hlim] & Hh). split; [done|]. exists F. split; [|done]. split; cbn; [|done].
    by rewrite Hr, Hd, Hrec, app_assoc.
  - destruct r as [[[] s']|e]; cbn in Hfed; [by eexists| |by eexists].
    destruct Hfed as (Hn & Hm' & El & Hw'). destruct (Z.eqb_spec (len bs) 0); [done|].
    destruct (IH s' sock' Hm') as (r & -> & Hr').
    { assert (0 < length bs)%nat by (unfold len in *; lia). nia. }
    exists r. split; [done|]. rewrite <- El. exact Hr'.
Qed.

(** An accumulator that was just made. *)
Lemma new_midway method limit : limit_ok limit -> midway (ResponseAccumulator_new method limit : ResponseAccumulator D).
Proof.
  intros Hl. split; [done|]. exists []. split; [|done]. unfold ResponseAccumulator_new. cbn. split; [|by apply limited_nil].
  cbn. match goal with |- context [set_request_method method ?d] => destruct (method_law method d) as (-> & -> & _) end.
  destruct limit; [destruct (new_law None) as [-> ->]|destruct (new_law (Some U64_MAX)) as [-> ->]|
    destruct (new_law (Some max)) as [-> ->]]; done.
Qed.

Lemma whole_finish s : whole s -> exists h, finish s = Ok (mkDecoded h s.(body_buf)) /\
  is_interim h.(status_code) = false.
Proof. intros (h & k & Eh & Hi & _). exists h. unfold finish. by rewrite Eh. Qed.
End Spec.

(** C35: An HTTP exchange, on whatever the peer sends and however it slices it, ends: with
    an error, or with a whole response.  Its head is never that of an interim response;
    where the head allows no body there is none; and the body is what the limit keeps
    of everything that was received: all of it, its first bytes, or all of it within
    the maximum. *)
Theorem exchange_spec {D} `{ResponseDecoderLaws D} {E} `{ExchangeErrors E} fuel method limit sock
    (acc := ResponseAccumulator_new (D := D) method limit) :
  limit_ok limit -> (work acc.(decoder) + (work_byte + 1) * sock_bytes sock + work_byte + 1 < fuel)%nat ->
  exists r, read_loop (E := E) fuel acc sock = Some r /\
    match r with
    | Ok s => exists h k, finish s = Ok (mkDecoded h s.(body_buf)) /\ ~ (100 <= h.(status_code) < 200) /\
        s.(body_kind) = Some k /\
        if has_body k then limited limit (received s.(decoder)) = Some s.(body_buf) else s.(body_buf) = []
    | Err _ => True
    end.
Proof.
  intros Hl Hf. destruct (read_to_whole (E := E) fuel acc sock (new_midway method limit Hl) Hf) as (r & -> & Hr).
  exists r. split; [done|]. destruct r as [s|e]; [|done]. destruct Hr as [(h & k & Eh & Hi & Ek & Hb) El].
  exists h, k. split_and!; [by unfold finish; rewrite Eh| |done|by rewrite El in Hb].
  unfold is_interim, in_range in Hi. lia.
Qed.

(** An interim response and a body in two reads, with a limit that cuts it. *)
Definition two_reads : socket := [Ok (lit "100" ++ NL :: lit "200" ++ NL :: lit "hel"); Ok (lit "lo world")].

#[export] Instance IoError_exchange : ExchangeErrors IoError := {|
  decoder_full := io_other (lit "decoder buffer full"); of_decoding := io_other; of_socket e := e |}.

Lemma exchange_spec_witness : exists s : ResponseAccumulator PlainDecoder,
  read_loop (E := IoError) 100 (ResponseAccumulator_new (lit "GET") (Truncate 5)) two_reads = Some (Ok s) /\
  received s.(decoder) = lit "hello world" /\ s.(body_buf) = lit "hello" /\
  limited (Truncate 5) (received s.(decoder)) = Some s.(body_buf).
Proof.
  destruct (exchange_spec (D := PlainDecoder) (E := IoError) 100 (lit "GET") (Truncate 5) two_reads) as (r & E & Hr).
  - cbn. unfold USIZE_MAX, U64_MAX. lia.
  - vm_compute. lia.
  - pose proof E as E'. vm_compute in E'. injection E' as <-. destruct Hr as (h & k & _ & _ & Ek & Hb).
    injection Ek as <-. eexists. split; [exact E|]. split; [reflexivity|]. split; [reflexivity|exact Hb].
Defined.
