(* ===== verification/LogLine.v ===== *)
(** * Log lines and frames ([src/src/core/logs.rs], [logs/line.rs],
      [logs/consumer/logging_consumer.rs])

    Cutting a byte stream into lines with a bound on the memory used, and the
    delivery of the lines to consumers. *)

From S2P Require Import Prelude Utf8 Errors.

Inductive LogFrame := FrameStdOut (bytes : list byte) | FrameStdErr (bytes : list byte).
Inductive LogSource := StdOut | StdErr | BothStd.

Definition frame_source (f : LogFrame) : LogSource :=
  match f with FrameStdOut _ => StdOut | FrameStdErr _ => StdErr end.
Definition frame_bytes (f : LogFrame) : list byte :=
  match f with FrameStdOut b | FrameStdErr b => b end.

Definition MAX_LINE_LENGTH : Z := 8 * 1024 * 1024.

Inductive LineRead :=
| Line (l : list byte)
| Truncated (l : list byte)
| Final (l : list byte)
| Closed.

(** An [AsyncBufRead]: the bytes in its buffer and the answers of the fills to
    come; an empty answer is the end of file. *)
Record BufReader := mkBufReader {
  cur : list byte;
  fills : list (result IoError (list byte))
}.

Definition fill_buf (r : BufReader) : result IoError (list byte) * BufReader :=
  match r.(cur) with
  | [] => match r.(fills) with
          | [] => (Ok [], r)
          | Ok b :: k => (Ok b, mkBufReader b k)
          | Err e :: k => (Err e, mkBufReader [] k)
          end
  | _ => (Ok r.(cur), r)
  end.

Definition consume (n : Z) (r : BufReader) : BufReader := mkBufReader (zdrop n r.(cur)) r.(fills).

Definition LF : byte := x0a.
Definition CR : byte := x0d.

(** [buf.iter().position(|&b| b == b'\n')] *)
Definition position_lf (buf : list byte) : option Z :=
  (fun p : list byte * list byte => len p.1) <$> split_once LF buf.

Definition strip_trailing_cr (line : list byte) : list byte :=
  if bool_decide (last line = Some CR) then removelast line else line.

(** The loop of [read_line_limited]: the line so far, and the head of an
    overlong line whose rest is being skipped. *)
Fixpoint read_line_loop (fuel : nat) (limit : Z) (line : list byte) (truncated : option (list byte))
    (reader : BufReader) : option (result IoError LineRead * BufReader) :=
  match fuel with
  | O => None
  | S fuel =>
      let '(r, reader) := fill_buf reader in
      match r with
      | Err e => Some (Err e, reader)
      | Ok buf =>
          if bool_decide (buf = []) then
            match truncated with
            | Some head => Some (Ok (Truncated head), reader)
            | None => if bool_decide (line = []) then Some (Ok Closed, reader)
                      else Some (Ok (Final (strip_trailing_cr line)), reader)
            end
          else
            match truncated with
            | Some head =>
                match position_lf buf with
                | Some pos => Some (Ok (Truncated head), consume (pos + 1) reader)
                | None => read_line_loop fuel limit line truncated (consume (len buf) reader)
                end
            | None =>
                match position_lf buf with
                | Some pos =>
                    if limit <? len line + pos then
                      let head_len := limit - len line in
                      Some (Ok (Truncated (line ++ ztake head_len buf)), consume (pos + 1) reader)
                    else
                      Some (Ok (Line (strip_trailing_cr (line ++ ztake pos buf))),
                            consume (pos + 1) reader)
                | None =>
                    if limit <? len line + len buf then
                      let head_len := limit - len line in
                      read_line_loop fuel limit [] (Some (line ++ ztake head_len buf))
                                     (consume head_len reader)
                    else read_line_loop fuel limit (line ++ buf) None (consume (len buf) reader)
                end
            end
      end
  end.

(** Every iteration but one per line takes a fill, so this fuel is enough. *)
Definition read_line_limited (reader : BufReader) (limit : Z)
    : option (result IoError LineRead * BufReader) :=
  read_line_loop (length reader.(fills) + 3) limit [] None reader.

(** A consumer is the list of the frames it accepted. *)
Definition accept_all (consumers : list (list LogFrame)) (f : LogFrame) : list (list LogFrame) :=
  (fun c => c ++ [f]) <$> consumers.

(** [deliver_line_to_consumers]: [Ok true] to go on, [Ok false] at the end of
    file, [Err tt] on a read error. *)
Definition deliver_line_to_consumers (reader : BufReader) (consumers : list (list LogFrame))
    (to_frame : list byte -> LogFrame)
    : option (result unit bool * BufReader * list (list LogFrame)) :=
  match read_line_limited reader MAX_LINE_LENGTH with
  | None => None
  | Some (Ok Closed, reader) => Some (Ok false, reader, consumers)
  | Some (Ok (Line l | Final l | Truncated l), reader) =>
      Some (Ok true, reader, accept_all consumers (to_frame l))
  | Some (Err _, reader) => Some (Err tt, reader, consumers)
  end.

(** The delivery task of [spawn_log_consumer_task] on Linux:
    [while let Ok(true) = deliver_line_to_consumers(...)]. *)
Fixpoint deliver_loop (fuel : nat) (reader : BufReader) (consumers : list (list LogFrame))
    (to_frame : list byte -> LogFrame) : option (list (list LogFrame)) :=
  match fuel with
  | O => None
  | S fuel =>
      match deliver_line_to_consumers reader consumers to_frame with
      | None => None
      | Some (Ok true, reader, consumers) => deliver_loop fuel reader consumers to_frame
      | Some (_, _, consumers) => Some consumers
      end
  end.

(** ** [LoggingConsumer] *)

Record LoggingConsumer := mkLoggingConsumer {
  stdout_level : option nat;
  stderr_level : option nat;
  prefix : option str
}.

Definition LoggingConsumer_new : LoggingConsumer := mkLoggingConsumer None None None.

(** [message.trim_end_matches(['\n', '\r'])] *)
Definition trim_newlines (message : str) : str :=
  rev (strip_all [[LF]; [CR]] (length message) (rev message)).

Definition format_message (self : LoggingConsumer) (message : str) : str :=
  let message := trim_newlines message in
  match self.(prefix) with
  | Some p => p ++ lit " " ++ message
  | None => message
  end.

(** What [accept] prints: the level of the stream and the text, or, without a
    level, the line on standard error. *)
Definition accept (self : LoggingConsumer) (record : LogFrame) : option nat * str :=
  let message := format_message self (from_utf8_lossy (frame_bytes record)) in
  let '(source, level) := match frame_source record with
                          | StdOut => (lit "stdout", self.(stdout_level))
                          | _ => (lit "stderr", self.(stderr_level))
                          end in
  match level with
  | Some l => (Some l, message)
  | None => (None, source ++ lit ": " ++ message)
  end.

(** ** The lines of a stream *)

(** One line of a whole stream, and what follows it. *)
Definition next_line (limit : Z) (s : list byte) : LineRead * list byte :=
  match split_once LF s with
  | Some (l, rest) =>
      (if limit <? len l then Truncated (ztake limit l) else Line (strip_trailing_cr l), rest)
  | None =>
      if bool_decide (s = []) then (Closed, [])
      else (if limit <? len s then Truncated (ztake limit s) else Final (strip_trailing_cr s), [])
  end.

(** The frames of a whole stream. *)
Fixpoint line_frames (fuel : nat) (limit : Z) (s : list byte) : list (list byte) :=
  match fuel with
  | O => []
  | S fuel =>
      match next_line limit s with
      | (Closed, _) => []
      | ((Line l | Final l | Truncated l), rest) => l :: line_frames fuel limit rest
      end
  end.

Definition frames_of (limit : Z) (s : list byte) : list (list byte) := line_frames (length s) limit s.

(** A reader of a stream that ends: no errors, and no empty fills before. *)
Definition good_fill (r : result IoError (list byte)) : Prop :=
  match r with Ok b => b <> [] | Err _ => False end.
Definition stream_of (r : BufReader) : list byte :=
  r.(cur) ++ mjoin ((fun x : result IoError (list byte) => match x with Ok b => b | Err _ => [] end) <$> r.(fills)).
Definition good (r : BufReader) : Prop := Forall good_fill r.(fills).

Lemma fill_buf_good r :
  good r ->
  exists buf r', fill_buf r = (Ok buf, r') /\ good r' /\ r'.(cur) = buf /\
    stream_of r' = stream_of r /\ (buf = [] -> stream_of r = []) /\
    (length r'.(fills) <= length r.(fills))%nat /\
    (r.(cur) = [] -> buf <> [] -> (length r'.(fills) < length r.(fills))%nat).
Proof.
  intros Hg. destruct r as [[|b c] fs]; unfold fill_buf, stream_of, good in *; cbn [cur fills] in *.
  - destruct Hg as [|[b|e] k Hb Hk]; [| |done].
    + exists [], (mkBufReader [] []). split_and!; try done.
    + exists b, (mkBufReader b k). split_and!; try done; cbn; lia.
  - exists (b :: c), (mkBufReader (b :: c) fs). split_and!; try done.
Qed.

Lemma position_lf_spec buf :
  match position_lf buf with
  | Some pos => 0 <= pos < len buf /\ exists rest, buf = ztake pos buf ++ LF :: rest /\
      (LF ∉ ztake pos buf) /\ zdrop (pos + 1) buf = rest
  | None => LF ∉ buf
  end.
Proof.
  unfold position_lf. destruct (split_once LF buf) as [[l r]|] eqn:E; cbn.
  - apply split_once_Some in E as [-> Hn].
    assert (ztake (len l) (l ++ LF :: r) = l) as Ht.
    { rewrite ztake_app_le by lia. apply ztake_ge. lia. }
    rewrite Ht. split; [llia|]. exists r. split_and!; [done|done|].
    rewrite zdrop_app_ge by llia. replace (len l + 1 - len l) with 1 by lia. done.
  - by apply split_once_None in E.
Qed.

Lemma split_once_app c l r : c ∉ l -> split_once c (l ++ c :: r) = Some (l, r).
Proof. intros. by apply split_once_Some. Qed.

Lemma split_once_skip c l s :
  c ∉ l -> split_once c (l ++ s) = (fun p => (l ++ p.1, p.2)) <$> split_once c s.
Proof.
  intros Hl. destruct (split_once c s) as [[a b]|] eqn:E; cbn.
  - apply split_once_Some in E as [-> Ha]. rewrite app_assoc. apply split_once_app. mem.
  - apply split_once_None in E. apply split_once_None. mem.
Qed.

(** Skipping the rest of an overlong line. *)
Definition skip_line (s : list byte) : list byte :=
  match split_once LF s with Some (_, rest) => rest | None => [] end.

Lemma read_line_loop_skip fuel limit line head r :
  good r -> (length r.(fills) + 1 + (if bool_decide (r.(cur) = []) then 0 else 1) <= fuel)%nat ->
  exists r', read_line_loop fuel limit line (Some head) r = Some (Ok (Truncated head), r') /\
    good r' /\ stream_of r' = skip_line (stream_of r).
Proof.
  revert line r. induction fuel as [|fuel IH]; intros line r Hg Hf; [lia|].
  cbn [read_line_loop].
  destruct (fill_buf_good r Hg) as (buf & r' & -> & Hg' & Hcur & Hst & Hnil & Hle & Hlt).
  destruct (decide (buf = [])) as [Hb|Hb];
    [rewrite (bool_decide_eq_true_2 (buf = [])) by done
    |rewrite (bool_decide_eq_false_2 (buf = [])) by done].
  - eexists. split; [done|]. split; [done|]. rewrite Hst, Hnil by done. done.
  - pose proof (position_lf_spec buf) as Hp. destruct (position_lf buf) as [pos|].
    + destruct Hp as (Hpos & rest & Hbuf & Hn & Hrest). eexists. split; [done|]. split; [done|].
      rewrite <- Hst. unfold stream_of, consume, skip_line. cbn [cur fills]. rewrite Hcur, Hrest.
      rewrite Hbuf at 1. rewrite <- app_assoc. cbn [app]. by rewrite split_once_app.
    + destruct (IH line (consume (len buf) r')) as (r2 & Hr & Hg2 & Hs2).
      * done.
      * unfold consume. cbn [cur fills]. rewrite Hcur, zdrop_ge by lia.
        rewrite bool_decide_eq_true_2 by done.
        destruct (decide (cur r = [])) as [Ec|Ec].
        -- rewrite bool_decide_eq_true_2 in Hf by done. specialize (Hlt Ec Hb). lia.
        -- rewrite bool_decide_eq_false_2 in Hf by done. lia.
      * exists r2. split; [done|]. split; [done|]. rewrite Hs2, <- Hst.
        unfold stream_of, consume, skip_line. cbn [cur fills]. rewrite Hcur, zdrop_ge by lia.
        cbn [app]. rewrite (split_once_skip LF buf) by done.
        by destruct (split_once LF (mjoin _)) as [[? ?]|].
Qed.

Lemma next_line_skip limit l s :
  0 <= limit -> LF ∉ l -> limit < len l -> next_line limit (l ++ s) = (Truncated (ztake limit l), skip_line s).
Proof.
  intros H0 Hn Hl. unfold next_line, skip_line. rewrite split_once_skip by done.
  destruct (split_once LF s) as [[a b]|] eqn:E; cbn.
  - rewrite (proj2 (Z.ltb_lt _ _)) by llia. by rewrite ztake_app_le by lia.
  - rewrite bool_decide_eq_false_2.
    + rewrite (proj2 (Z.ltb_lt _ _)) by llia. by rewrite ztake_app_le by lia.
    + intros [-> _]%app_eq_nil. rewrite len_nil in Hl. lia.
Qed.

Lemma stream_consume n r : exists t,
  stream_of r = r.(cur) ++ t /\ stream_of (consume n r) = zdrop n r.(cur) ++ t.
Proof. by eexists. Qed.

(** A newline in the buffer. *)
Lemma next_line_found limit line buf pos rest t :
  LF ∉ line -> len line <= limit -> 0 <= pos <= len buf -> LF ∉ ztake pos buf -> buf = ztake pos buf ++ LF :: rest ->
  next_line limit (line ++ buf ++ t) =
    (if limit <? len line + pos then Truncated (line ++ ztake (limit - len line) buf)
     else Line (strip_trailing_cr (line ++ ztake pos buf)), rest ++ t).
Proof.
  intros Hline Hlim Hpos Hn Hbuf. rewrite Hbuf at 1. rewrite <- app_assoc. cbn [app]. rewrite app_assoc.
  unfold next_line. rewrite split_once_app by mem. f_equal. rewrite len_app, len_ztake.
  replace (len line + Z.max 0 (Z.min pos (len buf))) with (len line + pos) by lia.
  destruct (Z.ltb_spec limit (len line + pos)); [|done]. f_equal.
  rewrite ztake_app_ge by lia. f_equal. rewrite Hbuf at 2. by rewrite ztake_app_le by llia.
Qed.

(** A buffer without newline that the limit cuts. *)
Lemma read_line_loop_overflow fuel limit line r :
  good r -> LF ∉ line -> LF ∉ r.(cur) -> len line <= limit -> limit < len line + len r.(cur) ->
  (length r.(fills) + 2 <= fuel)%nat ->
  exists r', read_line_loop fuel limit [] (Some (line ++ ztake (limit - len line) r.(cur))) (consume (limit - len line) r) =
      Some (Ok (next_line limit (line ++ stream_of r)).1, r') /\
    good r' /\ stream_of r' = (next_line limit (line ++ stream_of r)).2.
Proof.
  intros Hg Hline Hn Hlim Hov Hf. destruct (stream_consume (limit - len line) r) as (t & E1 & E2).
  destruct (read_line_loop_skip fuel limit [] (line ++ ztake (limit - len line) r.(cur)) (consume (limit - len line) r))
    as (r2 & Hr & Hg2 & Hs2).
  - done.
  - unfold consume. cbn [cur fills]. destruct (bool_decide (zdrop _ _ = [])); lia.
  - rewrite E1, app_assoc, next_line_skip; [|llia|mem|llia]. rewrite ztake_app_ge by lia. cbn [fst snd].
    exists r2. split; [done|]. split; [done|]. rewrite Hs2, E2. unfold skip_line.
    rewrite split_once_skip; [by destruct (split_once LF t) as [[? ?]|]|].
    intros Hin. apply Hn. rewrite <- (ztake_zdrop (limit - len line) r.(cur)). mem.
Qed.

Lemma read_line_loop_spec fuel limit line r :
  good r -> LF ∉ line -> len line <= limit ->
  (length r.(fills) + 2 + (if bool_decide (r.(cur) = []) then 0 else 1) <= fuel)%nat ->
  exists r', read_line_loop fuel limit line None r =
      Some (Ok (next_line limit (line ++ stream_of r)).1, r') /\
    good r' /\ stream_of r' = (next_line limit (line ++ stream_of r)).2.
Proof.
  revert line r. induction fuel as [|fuel IH]; intros line r Hg Hline Hlim Hf; [lia|].
  cbn [read_line_loop].
  destruct (fill_buf_good r Hg) as (buf & r' & -> & Hg' & Hcur & Hst & Hnil & Hle & Hlt).
  assert (buf <> [] -> (length (fills r') + 2 <= fuel)%nat) as Hfuel.
  { intros Hb. destruct (decide (cur r = [])) as [Ec|Ec].
    - rewrite bool_decide_eq_true_2 in Hf by done. specialize (Hlt Ec Hb). lia.
    - rewrite bool_decide_eq_false_2 in Hf by done. lia. }
  destruct (decide (buf = [])) as [Hb|Hb];
    [rewrite (bool_decide_eq_true_2 (buf = [])) by done|rewrite (bool_decide_eq_false_2 (buf = [])) by done].
  - rewrite Hnil, app_nil_r in * by done. unfold next_line. rewrite (proj2 (split_once_None _ _) Hline).
    destruct (decide (line = [])) as [->|Hl]; [by eexists|].
    rewrite !(bool_decide_eq_false_2 (line = [])) by done. rewrite (proj2 (Z.ltb_ge _ _)) by lia. by eexists.
  - specialize (Hfuel Hb). pose proof (position_lf_spec buf) as Hp. rewrite <- Hst. subst buf.
    destruct (position_lf (cur r')) as [pos|].
    + destruct Hp as (Hpos & rest & Hbuf & Hn & Hrest). destruct (stream_consume (pos + 1) r') as (t & E1 & E2).
      rewrite E1, (next_line_found limit line (cur r') pos rest t), <- Hrest, <- E2 by (done || lia).
      cbn [fst snd]. destruct (limit <? len line + pos); eexists; (split; [done|]; done).
    + destruct (Z.ltb_spec limit (len line + len (cur r'))) as [Hov|Hok]; [by apply read_line_loop_overflow|].
      destruct (stream_consume (len (cur r')) r') as (t & E1 & E2). rewrite zdrop_ge in E2 by lia.
      destruct (IH (line ++ cur r') (consume (len (cur r')) r')) as (r2 & Hr & Hg2 & Hs2); [done|mem|llia| |].
      * unfold consume. cbn [cur fills]. rewrite zdrop_ge by lia. rewrite bool_decide_eq_true_2 by done. lia.
      * rewrite E2 in Hr, Hs2. rewrite E1, app_assoc. by exists r2.
Qed.

(** Reading a line is independent of how the input is buffered: it returns
    the next line of the stream - cut at the limit when it is longer, however
    long the rest - and leaves the stream after its newline. *)
Theorem read_line_limited_spec limit r :
  good r -> 0 <= limit ->
  exists r', read_line_limited r limit = Some (Ok (next_line limit (stream_of r)).1, r') /\
    good r' /\ stream_of r' = (next_line limit (stream_of r)).2.
Proof.
  intros Hg Hl. apply (read_line_loop_spec _ limit [] r); [done|apply not_elem_of_nil|done|].
  destruct (bool_decide _); lia.
Qed.

Lemma next_line_shrinks limit s :
  (next_line limit s).1 = Closed \/ (length (next_line limit s).2 < length s)%nat.
Proof.
  unfold next_line. destruct (split_once LF s) as [[a b]|] eqn:E; cbn.
  - apply split_once_Some in E as [-> _]. right. rewrite length_app. cbn. lia.
  - case_bool_decide as Hs; [by left|]. right. destruct s; [done|cbn; lia].
Qed.

Lemma line_frames_enough f g limit s :
  (length s <= f)%nat -> (length s <= g)%nat -> line_frames f limit s = line_frames g limit s.
Proof.
  revert g s. induction f as [|f IH]; intros g s Hf Hg.
  - destruct s; [|cbn in Hf; lia]. by destruct g.
  - destruct g as [|g]; [destruct s; [done|cbn in Hg; lia]|]. cbn [line_frames].
    destruct (next_line_shrinks limit s) as [E|E];
      destruct (next_line limit s) as [[l|l|l|] rest]; cbn in E; try done;
      f_equal; apply IH; lia.
Qed.

Lemma frames_of_eq limit s :
  frames_of limit s = match next_line limit s with
                      | (Closed, _) => []
                      | ((Line l | Final l | Truncated l), rest) => l :: frames_of limit rest
                      end.
Proof.
  unfold frames_of. destruct (length s) as [|n] eqn:E; cbn [line_frames].
  - destruct s; [done|discriminate].
  - destruct (next_line_shrinks limit s) as [E'|E'];
      destruct (next_line limit s) as [[l|l|l|] rest]; cbn in E'; try done;
      f_equal; apply line_frames_enough; lia.
Qed.

(** A line is no longer than the limit. *)
Lemma next_line_len limit s l :
  0 <= limit ->
  (next_line limit s).1 = Line l \/ (next_line limit s).1 = Final l \/
  (next_line limit s).1 = Truncated l -> len l <= limit.
Proof.
  intros Hlim. assert (forall x, len (strip_trailing_cr x) <= len x) as Hcr.
  { intros x. unfold strip_trailing_cr. case_bool_decide; [|done].
    destruct x as [|a x] using rev_ind; [done|]. rewrite removelast_last. llia. }
  unfold next_line. destruct (split_once LF _) as [[a b]|]; cbn [fst].
  - destruct (Z.ltb_spec limit (len a)); intros [?|[?|?]]; simplify_eq.
    + rewrite len_ztake. lia.
    + pose proof (Hcr a). lia.
  - case_bool_decide; [by intros [?|[?|?]]|]. cbn [fst].
    destruct (Z.ltb_spec limit (len s)); intros [?|[?|?]]; simplify_eq.
    + rewrite len_ztake. lia.
    + pose proof (Hcr s). lia.
Qed.

(** C30: The delivery task gives every consumer the same frames: the lines of
    the stream in order, each within the line limit, and, where the stream does not
    end in a line feed, what is left after the last one as a frame of its own; it
    stops at the end. *)
Theorem deliver_loop_spec fuel r consumers to_frame :
  good r -> (length (stream_of r) < fuel)%nat ->
  deliver_loop fuel r consumers to_frame =
    Some ((fun c => c ++ (to_frame <$> frames_of MAX_LINE_LENGTH (stream_of r))) <$> consumers) /\
  Forall (fun l => len l <= MAX_LINE_LENGTH) (frames_of MAX_LINE_LENGTH (stream_of r)).
Proof.
  revert r consumers. induction fuel as [|fuel IH]; intros r consumers Hg Hf; [lia|].
  cbn [deliver_loop]. unfold deliver_line_to_consumers.
  destruct (read_line_limited_spec MAX_LINE_LENGTH r Hg ltac:(done)) as (r' & -> & Hg' & Hs').
  pose proof (next_line_shrinks MAX_LINE_LENGTH (stream_of r)) as Hsh.
  pose proof (fun l => next_line_len MAX_LINE_LENGTH (stream_of r) l ltac:(done)) as Hlen.
  rewrite frames_of_eq.
  destruct (next_line MAX_LINE_LENGTH (stream_of r)) as [[l|l|l|] rest]; cbn [fst snd] in *;
    try (destruct Hsh as [Hsh|Hsh]; [done|]; rewrite <- Hs' in *;
         destruct (IH r' (accept_all consumers (to_frame l)) Hg' ltac:(lia)) as [-> Hall];
         split; [|constructor; [apply (Hlen l); auto|done]];
         f_equal; unfold accept_all; rewrite <- list_fmap_compose; apply list_fmap_ext;
         intros i c _; cbn; by rewrite <- app_assoc).
  split; [|constructor]. f_equal. rewrite <- (list_fmap_id consumers) at 1.
  apply list_fmap_ext. intros i c _. cbn. by rewrite app_nil_r.
Qed.

(** ** Witnesses *)

Definition crlf_reader : BufReader :=
  mkBufReader [] [Ok (lit "one" ++ [CR]); Ok ([LF] ++ lit "two"); Ok (lit "!")].

Lemma read_line_limited_spec_witness :
  exists r', read_line_limited crlf_reader 2 =
      Some (Ok (next_line 2 (stream_of crlf_reader)).1, r') /\
    good r' /\ stream_of r' = (next_line 2 (stream_of crlf_reader)).2.
Proof. apply (read_line_limited_spec 2 crlf_reader); [by repeat constructor | lia]. Defined.

Lemma deliver_loop_spec_witness :
  deliver_loop 20 crlf_reader [[]; [FrameStdOut (lit "zero")]] FrameStdOut =
    Some ((fun c => c ++ (FrameStdOut <$> frames_of MAX_LINE_LENGTH (stream_of crlf_reader))) <$>
          [[]; [FrameStdOut (lit "zero")]]) /\
  Forall (fun l => len l <= MAX_LINE_LENGTH) (frames_of MAX_LINE_LENGTH (stream_of crlf_reader)).
Proof. apply (deliver_loop_spec 20 crlf_reader); [by repeat constructor | cbn; lia]. Defined.

Example crlf_frames : frames_of MAX_LINE_LENGTH (stream_of crlf_reader) = [lit "one"; lit "two!"].
Proof. reflexivity. Qed.
