(* ===== verification/LogWait.v ===== *)
(** * Waiting for a log message ([src/src/core/wait/log_strategy.rs])

    The diagnostic ring buffer, the streaming matcher and the polling loop of
    [LogWaitStrategy]. *)

From S2P Require Import Prelude Errors LogStream LogLine.

Definition POLL_INTERVAL : Duration := from_millis 100.
Definition DRAIN_GRACE : Duration := from_secs 2.
Definition MAX_COLLECTED_LOG_BYTES : Z := 1024 * 1024.

(** [CollectedLogs] is its buffer. *)
Abbreviation CollectedLogs := (list byte).

(** [while self.buf.len() > MAX { pop_front }] *)
Fixpoint pop_excess (buf : list byte) : list byte :=
  match buf with
  | [] => []
  | _ :: buf' => if MAX_COLLECTED_LOG_BYTES <? len buf then pop_excess buf' else buf
  end.

Definition push (self : CollectedLogs) (bytes : list byte) : CollectedLogs :=
  if bool_decide (bytes = []) then self
  else
    let keep := if MAX_COLLECTED_LOG_BYTES <? len bytes
                then zdrop (len bytes - MAX_COLLECTED_LOG_BYTES) bytes else bytes in
    pop_excess (self ++ keep).

(** ** The matcher *)

Record StreamMatcher := mkMatcher {
  pattern : list byte;
  carry : list byte;
  m_count : Z
}.

Definition StreamMatcher_new (pattern : list byte) : StreamMatcher := mkMatcher pattern [] 0.

(** [buf.windows(n).filter(|w| w == pattern).count()] for a non-empty pattern
    of length [n]. *)
Fixpoint count_windows (p s : list byte) : Z :=
  match s with
  | [] => 0
  | _ :: s' => (if starts_with p s then 1 else 0) + count_windows p s'
  end.

(** The count is bounded by the bytes read, so it is an unbounded integer. *)
Definition matcher_feed (self : StreamMatcher) (chunk : list byte) : Z * StreamMatcher :=
  if bool_decide (self.(pattern) = []) then (USIZE_MAX, self)
  else
    let buf := self.(carry) ++ chunk in
    if len self.(pattern) <=? len buf then
      let count := self.(m_count) + count_windows self.(pattern) buf in
      let keep := len self.(pattern) - 1 in
      (count, mkMatcher self.(pattern) (zdrop (len buf - Z.min keep (len buf)) buf) count)
    else (self.(m_count), mkMatcher self.(pattern) buf self.(m_count)).

(** ** The strategy *)

Record LogWaitStrategy := mkLogWait {
  source : LogSource;
  message : list byte;
  times : Z
}.

Definition LogWaitStrategy_new (source : LogSource) (message : list byte) : LogWaitStrategy :=
  mkLogWait source message 1.
Definition wait_stdout : list byte -> LogWaitStrategy := LogWaitStrategy_new StdOut.
Definition wait_stderr : list byte -> LogWaitStrategy := LogWaitStrategy_new StdErr.
Definition wait_stdout_or_stderr : list byte -> LogWaitStrategy := LogWaitStrategy_new BothStd.
Definition with_times (self : LogWaitStrategy) (times : Z) : LogWaitStrategy :=
  mkLogWait self.(source) self.(message) (Z.max times 1).

(** How many streams a source reads. *)
Definition readers (s : LogSource) : nat := match s with BothStd => 2 | _ => 1 end.

(** One round of the loop as the environment answers it: for each reader the
    data of its read (nothing at a timeout or the end of file) or its error,
    and, when nothing came, whether the container is seen exited and the time. *)
Record Round := mkRound {
  reads : list (result IoError (list byte));
  exited : bool;
  now : Duration
}.

Record WaitLoop := mkWaitLoop {
  matchers : list StreamMatcher;
  exited_at : option Duration;
  collected : CollectedLogs
}.

Inductive Outcome := Continue (s : WaitLoop) | Done (r : result Error unit).

(** The inner [for (reader, matcher)] loop. *)
Fixpoint poll_readers (rs : list (result IoError (list byte))) (ms : list StreamMatcher)
    (progressed : bool) (total : Z) (collected : CollectedLogs)
    : result IoError (bool * Z * CollectedLogs * list StreamMatcher) :=
  match rs, ms with
  | r :: rs, m :: ms =>
      chunk ← r;
      let '(count, m) := matcher_feed m chunk in
      let '(progressed, collected) :=
        if 0 <? len chunk then (true, push collected chunk) else (progressed, collected) in
      '(progressed, total, collected, ms) ←
        poll_readers rs ms progressed (Z.min USIZE_MAX (total + count)) collected;
      Ok (progressed, total, collected, m :: ms)
  | _, _ => Ok (progressed, total, collected, ms)
  end.

Definition wait_round (self : LogWaitStrategy) (round : Round) (s : WaitLoop) : Outcome :=
  match poll_readers round.(reads) s.(matchers) false 0 s.(collected) with
  | Err e => Done (Err (Error_from_WaitLogError (WaitLogIo e)))
  | Ok (progressed, total, collected, ms) =>
      if self.(times) <=? total then Done (Ok tt)
      else if progressed then Continue (mkWaitLoop ms s.(exited_at) collected)
      else if round.(exited) then
        let at_ := default round.(now) s.(exited_at) in
        if DRAIN_GRACE <=? round.(now) - at_ then
          Done (Err (WaitContainer (WaitLog (EndOfStream collected))))
        else Continue (mkWaitLoop ms (Some at_) collected)
      else Continue (mkWaitLoop ms s.(exited_at) collected)
  end.

(** [wait_until_ready] over the rounds seen so far: the outcome, or the state
    in which it still waits. *)
Fixpoint wait_rounds (self : LogWaitStrategy) (rounds : list Round) (s : WaitLoop) : Outcome :=
  match rounds with
  | [] => Continue s
  | r :: rounds =>
      match wait_round self r s with
      | Done res => Done res
      | Continue s => wait_rounds self rounds s
      end
  end.

Definition WaitLoop_new (self : LogWaitStrategy) : WaitLoop :=
  mkWaitLoop (replicate (readers self.(source)) (StreamMatcher_new self.(message))) None [].

Definition wait_until_ready (self : LogWaitStrategy) (rounds : list Round) : Outcome :=
  if bool_decide (self.(message) = []) then Done (Ok tt)
  else wait_rounds self rounds (WaitLoop_new self).

(** ** The ring buffer keeps the last bytes *)

Lemma pop_excess_spec buf : pop_excess buf = lastn MAX_COLLECTED_LOG_BYTES buf.
Proof.
  induction buf as [|b buf IH]; [done|]. cbn [pop_excess].
  destruct (Z.ltb_spec MAX_COLLECTED_LOG_BYTES (len (b :: buf))) as [Hlt|Hge].
  - rewrite IH. unfold lastn. rewrite len_cons in *. change (b :: buf) with ([b] ++ buf).
    rewrite zdrop_app_ge by (change (len [b]) with 1; lia). f_equal. change (len [b]) with 1. lia.
  - by rewrite lastn_ge by lia.
Qed.

Lemma push_lastn written bytes :
  push (lastn MAX_COLLECTED_LOG_BYTES written) bytes =
  lastn MAX_COLLECTED_LOG_BYTES (written ++ bytes).
Proof.
  unfold push. case_bool_decide as E; [by rewrite E, app_nil_r|].
  rewrite pop_excess_spec. pose proof (len_nonneg bytes).
  destruct (Z.ltb_spec MAX_COLLECTED_LOG_BYTES (len bytes)).
  - change (zdrop _ bytes) with (lastn MAX_COLLECTED_LOG_BYTES bytes).
    rewrite !lastn_app_ge by (rewrite ?len_lastn by done; unfold MAX_COLLECTED_LOG_BYTES in *; lia).
    by rewrite lastn_lastn by done.
  - by rewrite lastn_app_lastn.
Qed.

(** ** The matcher counts occurrences in the whole stream *)

Section Matcher.
Implicit Types p s t : list byte.

Lemma starts_with_short p s : len s < len p -> starts_with p s = false.
Proof.
  intros Hl. apply not_true_is_false. intros [k ->]%starts_with_iff. llia.
Qed.

Lemma count_windows_short p s : len s < len p -> count_windows p s = 0.
Proof.
  induction s as [|b s IH]; intros Hl; [done|]. cbn [count_windows].
  rewrite starts_with_short, IH by llia. done.
Qed.

Lemma starts_with_app p s t : len p <= len s -> starts_with p (s ++ t) = starts_with p s.
Proof.
  intros Hl. unfold starts_with. rewrite take_app_le; [done|]. unfold len in *. lia.
Qed.

(** What the windows of a concatenation are: those of the first part, and
    those of the second part with the last [len p - 1] bytes before it. *)
Lemma count_windows_app p s t :
  p <> [] ->
  count_windows p (s ++ t) = count_windows p s + count_windows p (lastn (len p - 1) s ++ t).
Proof.
  intros Hp. assert (1 <= len p) by (destruct p; [done|llia]).
  induction s as [|b s IH].
  - cbn. by rewrite lastn_ge by (rewrite len_nil; lia).
  - destruct (Z.leb_spec (len p) (len (b :: s))) as [Hle|Hgt].
    + cbn [app count_windows]. rewrite IH.
      change (b :: s ++ t) with ((b :: s) ++ t). rewrite starts_with_app by done.
      assert (lastn (len p - 1) (b :: s) = lastn (len p - 1) s) as ->; [|lia].
      rewrite len_cons in Hle. change (b :: s) with ([b] ++ s). apply lastn_app_ge. lia.
    + rewrite (count_windows_short p (b :: s)) by done. by rewrite lastn_ge by lia.
Qed.

(** The state of a matcher that was fed the bytes [s]. *)
Definition matcher_at (p s : list byte) (m : StreamMatcher) : Prop :=
  m.(pattern) = p /\ m.(carry) = lastn (len p - 1) s /\ m.(m_count) = count_windows p s.

Lemma matcher_feed_spec p s m chunk :
  p <> [] -> matcher_at p s m ->
  (matcher_feed m chunk).1 = count_windows p (s ++ chunk) /\
  matcher_at p (s ++ chunk) (matcher_feed m chunk).2.
Proof.
  intros Hp (<- & Hc & Hn). unfold matcher_feed.
  rewrite bool_decide_eq_false_2 by done.
  assert (1 <= len (pattern m)) by (destruct (pattern m); [done|llia]).
  rewrite (count_windows_app (pattern m) s chunk), <- Hc, <- Hn by done.
  assert (lastn (len (pattern m) - 1) (s ++ chunk) =
          lastn (len (pattern m) - 1) (carry m ++ chunk)) as Hl
    by (rewrite Hc; symmetry; apply lastn_app_lastn; lia).
  destruct (Z.leb_spec (len (pattern m)) (len (carry m ++ chunk))); cbn [fst snd].
  - split; [done|]. split_and!; cbn; [done| |].
    + rewrite Hl. unfold lastn. f_equal. lia.
    + rewrite (count_windows_app (pattern m) s chunk), <- Hc, <- Hn by done. done.
  - rewrite (count_windows_short _ (carry m ++ chunk)) by done.
    split; [lia|]. split_and!; cbn; [done| |].
    + rewrite Hl, lastn_ge by lia. done.
    + rewrite (count_windows_app (pattern m) s chunk), <- Hc, <- Hn, (count_windows_short _ (carry m ++ chunk)) by done. lia.
Qed.
End Matcher.

(** Feeding a stream chunk by chunk counts the occurrences of the pattern
    in the whole stream, overlapping ones and those across chunks included,
    while only the pattern's length less one is carried over. *)
Theorem matcher_counts p chunks :
  p <> [] ->
  let run := fold_left (fun m c => (matcher_feed m c).2) chunks (StreamMatcher_new p) in
  run.(m_count) = count_windows p (mjoin chunks) /\ len run.(carry) <= len p - 1.
Proof.
  intros Hp run. assert (matcher_at p (mjoin chunks) run) as (_ & Hc & Hn).
  { subst run. induction chunks as [|c chunks IH] using rev_ind.
    - split_and!; [done| |done]. rewrite lastn_ge; [done|]. change (0 <= len p - 1).
      destruct p; [done|llia].
    - rewrite fold_left_app, join_app. cbn [fold_left].
      change (mjoin [c]) with (c ++ []). rewrite app_nil_r.
      by apply matcher_feed_spec. }
  split; [done|]. rewrite Hc, len_lastn; [lia|]. destruct p; [done|llia].
Qed.

(** ** The loop *)

Definition ok_bytes (r : result IoError (list byte)) : list byte :=
  match r with Ok b => b | Err _ => [] end.

(** What each reader was given in the rounds, and everything in the order it
    was read. *)
Definition add_reads (streams : list (list byte)) (r : Round) : list (list byte) :=
  zip_with app streams (ok_bytes <$> r.(reads)).
Definition streams_after (n : nat) (rounds : list Round) : list (list byte) :=
  fold_left add_reads rounds (replicate n []).
Definition all_data (rounds : list Round) : list byte :=
  mjoin ((fun r => mjoin (ok_bytes <$> r.(reads))) <$> rounds).

Definition sum_counts (p : list byte) (streams : list (list byte)) : Z :=
  foldr Z.add 0 (count_windows p <$> streams).

(** The occurrences of the message in all streams read. *)
Definition occurrences (self : LogWaitStrategy) (rounds : list Round) : Z :=
  sum_counts self.(message) (streams_after (readers self.(source)) rounds).

Definition good_round (n : nat) (r : Round) : Prop :=
  length r.(reads) = n /\ Forall (fun x : result IoError (list byte) => is_ok x = true) r.(reads).

Lemma count_windows_nonneg p s : 0 <= count_windows p s.
Proof. induction s as [|b s IH]; cbn; [done|]. destruct (starts_with _ _); lia. Qed.

Lemma push_nil c : push c [] = c.
Proof. reflexivity. Qed.

Lemma poll_readers_spec p rs ms streams progressed total data :
  p <> [] -> length rs = length streams ->
  Forall (fun x : result IoError (list byte) => is_ok x = true) rs ->
  Forall2 (matcher_at p) streams ms -> 0 <= total ->
  let streams' := zip_with app streams (ok_bytes <$> rs) in
  exists ms', poll_readers rs ms progressed (Z.min USIZE_MAX total)
      (lastn MAX_COLLECTED_LOG_BYTES data) =
    Ok (progressed || negb (bool_decide (mjoin (ok_bytes <$> rs) = [])),
        Z.min USIZE_MAX (total + sum_counts p streams'),
        lastn MAX_COLLECTED_LOG_BYTES (data ++ mjoin (ok_bytes <$> rs)), ms') /\
    Forall2 (matcher_at p) streams' ms'.
Proof.
  intros Hp. revert ms streams progressed total data.
  induction rs as [|r rs IH]; intros ms streams progressed total data Hlen Hok Hms Ht streams'.
  - destruct streams; [|done]. inversion Hms; subst. exists []. split; [|constructor].
    cbn. rewrite app_nil_r, orb_false_r. do 4 f_equal. unfold sum_counts. cbn. lia.
  - destruct streams as [|s streams]; [done|]. apply Forall2_cons_inv_l in Hms as (m & ms0 & Hm & Hms & ->).
    apply Forall_cons in Hok as [Hr Hok]. destruct r as [chunk|e]; [|done].
    injection Hlen as Hlen. cbn [poll_readers mbind result_bind].
    destruct (matcher_feed_spec p s m chunk Hp Hm) as [Hc Hm'].
    destruct (matcher_feed m chunk) as [count m']. cbn [fst snd] in Hc, Hm'. subst count. cbn beta iota.
    pose proof (count_windows_nonneg p (s ++ chunk)).
    assert ((if 0 <? len chunk
             then (true, push (lastn MAX_COLLECTED_LOG_BYTES data) chunk)
             else (progressed, lastn MAX_COLLECTED_LOG_BYTES data)) =
            (progressed || negb (bool_decide (chunk = [])),
             lastn MAX_COLLECTED_LOG_BYTES (data ++ chunk))) as ->.
    { rewrite push_lastn. destruct chunk; cbn; [by rewrite app_nil_r, orb_false_r|].
      by rewrite orb_true_r. }
    replace (Z.min USIZE_MAX (Z.min USIZE_MAX total + count_windows p (s ++ chunk)))
      with (Z.min USIZE_MAX (total + count_windows p (s ++ chunk))) by lia.
    destruct (IH ms0 streams (progressed || negb (bool_decide (chunk = [])))
      (total + count_windows p (s ++ chunk)) (data ++ chunk)) as (ms' & -> & Hms');
      [done|done|done|lia|].
    cbn [mbind result_bind]. exists (m' :: ms'). split; [|by constructor].
    subst streams'. cbn [fmap list_fmap zip_with ok_bytes mjoin list_join].
    rewrite <- app_assoc.
    replace (total + count_windows p (s ++ chunk) + sum_counts p (zip_with app streams (ok_bytes <$> rs)))
      with (total + sum_counts p ((s ++ chunk) :: zip_with app streams (ok_bytes <$> rs)))
      by (unfold sum_counts; cbn; lia).
    do 4 f_equal. rewrite <- orb_assoc. f_equal. rewrite <- negb_andb. f_equal.
    by destruct chunk, (mjoin (ok_bytes <$> rs)).
Qed.

Section Loop.
Context (self : LogWaitStrategy).
Context (Hmsg : self.(message) <> []) (Htimes : 1 <= self.(times) <= USIZE_MAX).
#[local] Abbreviation n := (readers self.(source)).

(** The state after the rounds [pre] without an outcome. *)
Definition loop_inv (pre : list Round) (s : WaitLoop) : Prop :=
  Forall2 (matcher_at self.(message)) (streams_after n pre) s.(matchers) /\
  s.(collected) = lastn MAX_COLLECTED_LOG_BYTES (all_data pre) /\
  (forall t, s.(exited_at) = Some t -> exists r0, r0 ∈ pre /\ r0.(exited) = true /\ r0.(now) = t).

(** The outcomes allowed after the rounds [rounds]. *)
Definition outcome_ok (rounds : list Round) (o : Outcome) : Prop :=
  match o with
  | Continue s => occurrences self rounds < self.(times)
  | Done (Ok _) => exists pre suf, rounds = pre ++ suf /\ self.(times) <= occurrences self pre
  | Done (Err e) => exists pre r suf r0,
      rounds = pre ++ r :: suf /\ occurrences self (pre ++ [r]) < self.(times) /\
      mjoin (ok_bytes <$> r.(reads)) = [] /\ r.(exited) = true /\
      r0 ∈ pre ++ [r] /\ r0.(exited) = true /\ DRAIN_GRACE <= r.(now) - r0.(now) /\
      e = WaitContainer (WaitLog (EndOfStream (lastn MAX_COLLECTED_LOG_BYTES (all_data pre))))
  end.

Lemma streams_after_snoc pre r : streams_after n (pre ++ [r]) = add_reads (streams_after n pre) r.
Proof. unfold streams_after. by rewrite fold_left_app. Qed.

Lemma all_data_snoc pre r : all_data (pre ++ [r]) = all_data pre ++ mjoin (ok_bytes <$> r.(reads)).
Proof. unfold all_data. rewrite fmap_app, join_app. cbn. by rewrite app_nil_r. Qed.

Lemma length_streams_after pre :
  Forall (good_round n) pre -> length (streams_after n pre) = n.
Proof.
  induction pre as [|r pre IH] using rev_ind; intros Hg; [apply length_replicate|].
  apply Forall_app in Hg as [Hg Hr]. rewrite streams_after_snoc. unfold add_reads.
  rewrite length_zip_with, IH, length_fmap by done. apply Forall_cons in Hr as [[Hl _] _]. lia.
Qed.

Lemma wait_round_spec pre r s :
  Forall (good_round n) pre -> good_round n r -> loop_inv pre s ->
  match wait_round self r s with
  | Continue s' => occurrences self (pre ++ [r]) < self.(times) /\ loop_inv (pre ++ [r]) s'
  | Done o => forall suf, outcome_ok (pre ++ r :: suf) (Done o)
  end.
Proof.
  intros Hpre [Hlen Hok] (Hms & Hcol & Hex). unfold wait_round.
  destruct (poll_readers_spec self.(message) r.(reads) s.(matchers) (streams_after n pre) false 0
    (all_data pre)) as (ms & Hp & Hms'); [done|by rewrite Hlen, length_streams_after|done|done|done|].
  rewrite Z.add_0_l in Hp. change (Z.min USIZE_MAX 0) with 0 in Hp. rewrite Hcol, Hp. cbn [orb].
  change (zip_with app (streams_after n pre) (ok_bytes <$> reads r))
    with (add_reads (streams_after n pre) r) in *. rewrite <- streams_after_snoc in *.
  change (sum_counts _ _) with (occurrences self (pre ++ [r])).
  rewrite <- all_data_snoc. clear Hp.
  destruct (Z.leb_spec self.(times) (Z.min USIZE_MAX (occurrences self (pre ++ [r])))) as [Hle|Hgt].
  - intros suf. exists (pre ++ [r]), suf. rewrite <- app_assoc. split; [done|]. lia.
  - assert (occurrences self (pre ++ [r]) < self.(times)) as Hocc by lia.
    assert (forall t, exited_at s = Some t ->
      exists r0, r0 ∈ pre ++ [r] /\ exited r0 = true /\ now r0 = t) as Hex'.
    { intros t Ht. destruct (Hex t Ht) as (r0 & ? & ? & ?). exists r0. split_and!; try done.
      apply elem_of_app. by left. }
    case_bool_decide as Hd; cbn [negb].
    + destruct (exited r) eqn:Er.
      * assert (exists r0, r0 ∈ pre ++ [r] /\ exited r0 = true /\
          now r0 = default (now r) (exited_at s)) as (r0 & Hin & He0 & Hn0).
        { destruct (exited_at s) as [t|]; [by apply Hex'|]. exists r. split_and!; try done.
          apply elem_of_app. right. apply list_elem_of_here. }
        destruct (Z.leb_spec DRAIN_GRACE (now r - default (now r) (exited_at s))) as [Hgr|Hgr].
        -- intros suf. exists pre, r, suf, r0. rewrite Hn0. split_and!; try done.
           by rewrite all_data_snoc, Hd, app_nil_r.
        -- split; [done|]. split_and!; [done|done|]. cbn. intros t [= <-]. by exists r0.
      * split; [done|]. by split_and!.
    + split; [done|]. by split_and!.
Qed.

Lemma wait_rounds_spec pre rounds s :
  Forall (good_round n) (pre ++ rounds) -> loop_inv pre s -> occurrences self pre < self.(times) ->
  outcome_ok (pre ++ rounds) (wait_rounds self rounds s).
Proof.
  revert pre s. induction rounds as [|r rounds IH]; intros pre s Hg Hi Ho; cbn [wait_rounds].
  - by rewrite app_nil_r.
  - pose proof Hg as Hg'. apply Forall_app in Hg' as [Hpre [Hr Hrest]%Forall_cons].
    pose proof (wait_round_spec pre r s Hpre Hr Hi) as Hw.
    destruct (wait_round self r s) as [s'|o]; [|apply Hw].
    destruct Hw as [Ho' Hi']. rewrite cons_middle, app_assoc in Hg |- *. by apply IH.
Qed.
End Loop.

(** ** Reads that fail *)

Lemma poll_readers_matchers rs ms progressed total data x :
  poll_readers rs ms progressed total data = Ok x -> length x.2 = length ms.
Proof.
  revert ms progressed total data x. induction rs as [|r rs IH]; intros [|m ms] progressed total data x;
    try (by intros [= <-]).
  cbn [poll_readers]. destruct r as [chunk|e]; cbn [mbind result_bind]; [|done].
  destruct (matcher_feed m chunk) as [count m'].
  destruct (if 0 <? len chunk then _ else _) as [progressed' data'].
  destruct (poll_readers rs ms _ _ _) as [[[[p' t'] d'] ms']|e] eqn:E; cbn [mbind result_bind]; [|done].
  intros [= <-]. apply IH in E. cbn in *. by f_equal.
Qed.

Lemma wait_rounds_app self rounds rounds' s :
  wait_rounds self (rounds ++ rounds') s =
    match wait_rounds self rounds s with Continue s' => wait_rounds self rounds' s' | o => o end.
Proof. revert s. induction rounds as [|r rounds IH]; intros s; cbn; [done|]. by destruct (wait_round self r s). Qed.

Lemma wait_rounds_matchers self rounds s s' :
  wait_rounds self rounds s = Continue s' -> length s'.(matchers) = length s.(matchers).
Proof.
  revert s. induction rounds as [|r rounds IH]; intros s; cbn [wait_rounds]; [by intros [= <-]|].
  destruct (wait_round self r s) as [s1|o] eqn:E; [|done]. intros ->%IH. revert E. unfold wait_round.
  destruct (poll_readers _ _ _ _ _) as [[[[p t] d] ms]|e] eqn:Ep; [|done]. apply poll_readers_matchers in Ep.
  repeat case_match; by intros [= <-].
Qed.

Lemma poll_readers_fail oks e rest ms progressed total data :
  Forall (fun r => is_ok r = true) oks -> (length oks < length ms)%nat ->
  poll_readers (oks ++ Err e :: rest) ms progressed total data = Err e.
Proof.
  intros Hoks. revert ms progressed total data. induction Hoks as [|r oks Hr _ IH]; intros [|m ms] progressed total data Hl;
    cbn in Hl; try lia; [done|]. destruct r as [chunk|]; [|done]. cbn [poll_readers app mbind result_bind].
  destruct (matcher_feed m chunk) as [count m']. destruct (if 0 <? len chunk then _ else _) as [progressed' data'].
  by rewrite IH by lia.
Qed.

(** C28: The wait ends well only when the message occurred often enough in the
    streams read so far, it goes on as long as it did not, and it gives up only
    when the container was seen exited for the grace period with nothing more
    read, reporting the last mebibyte of everything read.  That is of a message
    that is not empty and of rounds whose reads succeed; for an empty message the
    wait ends well without reading, and the first read that fails ends a wait that
    was still going on with its error. *)
Theorem wait_until_ready_spec self rounds :
  (self.(message) <> [] -> 1 <= self.(times) <= USIZE_MAX ->
   Forall (good_round (readers self.(source))) rounds ->
   outcome_ok self rounds (wait_until_ready self rounds)) /\
  (self.(message) = [] -> wait_until_ready self rounds = Done (Ok tt)) /\
  (self.(message) <> [] -> forall oks e rest seen_exited at_ later,
   Forall (fun r => is_ok r = true) oks -> (length oks < readers self.(source))%nat ->
   wait_until_ready self (rounds ++ mkRound (oks ++ Err e :: rest) seen_exited at_ :: later) =
     match wait_until_ready self rounds with
     | Continue _ => Done (Err (Error_from_WaitLogError (WaitLogIo e)))
     | o => o
     end).
Proof.
  unfold wait_until_ready. split_and!.
  - intros Hm Ht Hg. rewrite bool_decide_eq_false_2 by done.
    apply (wait_rounds_spec self Hm Ht [] rounds); [done| |].
    + split_and!; [|done|done]. unfold streams_after, WaitLoop_new. cbn [fold_left matchers].
      assert (matcher_at (message self) [] (StreamMatcher_new (message self))) as Hm0.
      { split_and!; [done| |done]. rewrite lastn_ge; [done|]. rewrite len_nil.
        destruct (message self); [done|llia]. }
      destruct (source self); cbn; repeat (first [apply Forall2_nil; done | apply Forall2_cons; split; [exact Hm0|]]).
    + unfold occurrences, streams_after. destruct (source self); cbn; lia.
  - intros Hm. by rewrite bool_decide_eq_true_2.
  - intros Hm oks e rest seen_exited at_ later Hoks Hl. rewrite bool_decide_eq_false_2 by done.
    rewrite wait_rounds_app. destruct (wait_rounds self rounds _) as [s|o] eqn:E; [|done].
    apply wait_rounds_matchers in E. cbn [wait_rounds]. unfold wait_round. cbn [reads].
    rewrite poll_readers_fail; [done..|]. rewrite E. cbn. by rewrite length_replicate.
Qed.

(** ** Witnesses *)

Lemma matcher_counts_witness :
  let run := fold_left (fun m c => (matcher_feed m c).2) [lit "xre"; lit "adyrea"; lit "dy"]
               (StreamMatcher_new (lit "ready")) in
  run.(m_count) = count_windows (lit "ready") (mjoin [lit "xre"; lit "adyrea"; lit "dy"]) /\
  len run.(carry) <= len (lit "ready") - 1.
Proof. apply (matcher_counts (lit "ready") [lit "xre"; lit "adyrea"; lit "dy"]). done. Defined.

Definition both_rounds : list Round :=
  [mkRound [Ok (lit "re"); Ok []] false 0; mkRound [Ok (lit "ad"); Ok (lit "ready")] false 1;
   mkRound [Ok (lit "y"); Ok []] false 2].
Definition ready_twice : LogWaitStrategy := with_times (wait_stdout_or_stderr (lit "ready")) 2.

Lemma wait_until_ready_spec_witness :
  outcome_ok ready_twice both_rounds (wait_until_ready ready_twice both_rounds) /\
  wait_until_ready (wait_stdout []) [] = Done (Ok tt) /\
  wait_until_ready ready_twice [mkRound [Ok (lit "re"); Ok []] false 0; mkRound [Ok []; Err (io_other (lit "gone"))] false 1] =
    Done (Err (Error_from_WaitLogError (WaitLogIo (io_other (lit "gone"))))).
Proof.
  split_and!.
  - apply (wait_until_ready_spec ready_twice both_rounds); [done|cbn; unfold USIZE_MAX, U64_MAX; lia|].
    by repeat constructor.
  - by apply (wait_until_ready_spec (wait_stdout []) []).
  - apply (wait_until_ready_spec ready_twice [mkRound [Ok (lit "re"); Ok []] false 0]) with (oks := [Ok []]) (rest := []);
      [done | by repeat constructor | cbn; lia].
Defined.

Example ready_twice_done : wait_until_ready ready_twice both_rounds = Done (Ok tt).
Proof. reflexivity. Qed.

Example exited_container_gives_up :
  wait_until_ready (wait_stdout (lit "ready"))
    [mkRound [Ok (lit "boom")] false 0; mkRound [Ok []] true 0;
     mkRound [Ok []] true (from_secs 2)] =
  Done (Err (WaitContainer (WaitLog (EndOfStream (lit "boom"))))).
Proof. reflexivity. Qed.
