(* ===== verification/Json.v ===== *)
(** * JSON text ([src/src/core/client/docker_client.rs]: [escape_json] and the
    helpers built on it)

    The crate writes its JSON by hand and reads JSON through the [nojson]
    crate.  This file has the data model of RFC 8259, the text [print] that the
    hand-written fragments are compared with, a reference reader [read_json]
    with its round trip, the writers of [docker_client.rs] and the interface
    [JsonLib] of what the code uses of [nojson].  The reader is also the
    concrete [JsonLib] on which the examples run. *)

From S2P Require Import Prelude BTree.

(** ** Values; the numbers of these messages are integers *)

#[local] Set Warnings "-register-all".
Inductive json :=
| JNull
| JBool (b : bool)
| JNum (n : Z)
| JStr (s : str)
| JArr (items : list json)
| JObj (members : list (str * json)).

Section JsonInd.
Variable P : json -> Prop.
Hypothesis HNull : P JNull.
Hypothesis HBool : forall b, P (JBool b).
Hypothesis HNum : forall n, P (JNum n).
Hypothesis HStr : forall s, P (JStr s).
Hypothesis HArr : forall l, Forall P l -> P (JArr l).
Hypothesis HObj : forall l, Forall (fun kv => P kv.2) l -> P (JObj l).

(** Induction with the hypotheses for the elements of arrays and objects. *)
Fixpoint json_ind' (j : json) : P j :=
  match j with
  | JNull => HNull
  | JBool b => HBool b
  | JNum n => HNum n
  | JStr s => HStr s
  | JArr l => HArr l ((fix go l : Forall P l :=
      match l with
      | [] => Forall_nil_2 P
      | x :: l' => Forall_cons_2 P x l' (json_ind' x) (go l')
      end) l)
  | JObj l => HObj l ((fix go l : Forall (fun kv => P kv.2) l :=
      match l with
      | [] => Forall_nil_2 _
      | x :: l' => Forall_cons_2 (fun kv => P kv.2) x l' (json_ind' x.2) (go l')
      end) l)
  end.
End JsonInd.

(** ** The writers of the code *)

Definition hex_lower (d : Z) : byte := as_u8 (if d <? 10 then 48 + d else 87 + d).

(** One character of [escape_json_value]: every character with a special form
    is ASCII, and the bytes of the other characters are copied. *)
Definition escape_byte (b : byte) : str :=
  if decide (b = x22) then [x5c; x22]
  else if decide (b = x5c) then [x5c; x5c]
  else if decide (b = x08) then [x5c; "b"%byte]
  else if decide (b = x0c) then [x5c; "f"%byte]
  else if decide (b = x0a) then [x5c; "n"%byte]
  else if decide (b = x0d) then [x5c; "r"%byte]
  else if decide (b = x09) then [x5c; "t"%byte]
  else if u8 b <? 32 then
    [x5c; "u"%byte; "0"%byte; "0"%byte; hex_lower (u8 b / 16); hex_lower (u8 b mod 16)]
  else [b].

Definition escape_json_value (s : str) : str := concat (escape_byte <$> s).
Definition escape_json (s : str) : str := x22 :: escape_json_value s ++ [x22].

(** The loops [for (i, item) in ... { if i > 0 { push(',') } push(item) }]
    write the items joined by commas. *)
Definition json_array (items : list str) : str :=
  lit "[" ++ join (lit ",") (escape_json <$> items) ++ lit "]".

Definition json_object (map : list (str * str)) : str :=
  lit "{" ++ join (lit ",") ((fun kv => escape_json kv.1 ++ lit ":" ++ escape_json kv.2) <$> map)
    ++ lit "}".

Definition json_bool (b : bool) : str := if b then lit "true" else lit "false".

(** ** The reference text of a value *)

Fixpoint print (j : json) : str :=
  match j with
  | JNull => lit "null"
  | JBool b => json_bool b
  | JNum n => show_Z n
  | JStr s => escape_json s
  | JArr l => lit "[" ++ join (lit ",") (map print l) ++ lit "]"
  | JObj l => lit "{" ++ join (lit ",") (map (fun kv => escape_json kv.1 ++ lit ":" ++ print kv.2) l)
                ++ lit "}"
  end.

Lemma json_array_print items : json_array items = print (JArr (JStr <$> items)).
Proof.
  assert (escape_json <$> items = map print (JStr <$> items)) as E
    by (induction items as [|i l IH]; cbn; [done | by rewrite IH]).
  unfold json_array. by rewrite E.
Qed.

Lemma json_object_print m : json_object m = print (JObj ((fun kv => (kv.1, JStr kv.2)) <$> m)).
Proof.
  unfold json_object. cbn [print]. do 3 f_equal.
  induction m as [|kv m IH]; cbn in *; [done | by rewrite IH].
Qed.

(** ** The reference reader *)

Definition is_ws (b : byte) : bool :=
  bool_decide (b = x20 \/ b = x09 \/ b = x0a \/ b = x0d).
Fixpoint skip_ws (s : str) : str :=
  match s with
  | b :: s' => if is_ws b then skip_ws s' else s
  | [] => []
  end.

Definition hex_value (b : byte) : option Z :=
  if in_range 48 57 (u8 b) then Some (u8 b - 48)
  else if in_range 65 70 (u8 b) then Some (u8 b - 55)
  else if in_range 97 102 (u8 b) then Some (u8 b - 87)
  else None.

(** The UTF-8 bytes of a character below [U+10000]; a surrogate is refused. *)
Definition encode_bmp (c : Z) : option str :=
  if c <? 128 then Some [as_u8 c]
  else if c <? 2048 then Some [as_u8 (192 + c / 64); as_u8 (128 + c mod 64)]
  else if in_range 55296 57343 c then None
  else Some [as_u8 (224 + c / 4096); as_u8 (128 + c / 64 mod 64); as_u8 (128 + c mod 64)].

Definition simple_escape (b : byte) : option byte :=
  if decide (b = x22) then Some x22
  else if decide (b = x5c) then Some x5c
  else if decide (b = "/"%byte) then Some "/"%byte
  else if decide (b = "b"%byte) then Some x08
  else if decide (b = "f"%byte) then Some x0c
  else if decide (b = "n"%byte) then Some x0a
  else if decide (b = "r"%byte) then Some x0d
  else if decide (b = "t"%byte) then Some x09
  else None.

(** The contents of a string up to its closing quote, and what follows. *)
Fixpoint read_string (s : str) : option (str * str) :=
  match s with
  | [] => None
  | b :: s' =>
      if decide (b = x22) then Some ([], s')
      else if decide (b = x5c) then
        match s' with
        | e :: s'' =>
            if decide (e = "u"%byte) then
              match s'' with
              | h1 :: h2 :: h3 :: h4 :: r =>
                  a ← hex_value h1; b ← hex_value h2; c ← hex_value h3; d ← hex_value h4;
                  cs ← encode_bmp (((a * 16 + b) * 16 + c) * 16 + d);
                  '(t, r) ← read_string r; Some (cs ++ t, r)
              | _ => None
              end
            else c ← simple_escape e; '(t, r) ← read_string s''; Some (c :: t, r)
        | [] => None
        end
      else if u8 b <? 32 then None
      else '(t, r) ← read_string s'; Some (b :: t, r)
  end.

Fixpoint digits_run (s : str) : str * str :=
  match s with
  | b :: s' => if is_digit b then let '(d, r) := digits_run s' in (b :: d, r) else ([], s)
  | [] => ([], [])
  end.

Definition read_number (s : str) : option (json * str) :=
  let '(neg, s) := match s with
                   | b :: s' => if decide (b = "-"%byte) then (true, s') else (false, s)
                   | [] => (false, s)
                   end in
  let '(d, r) := digits_run s in
  if bool_decide (d = []) then None
  else Some (JNum (if neg : bool then - dval 0 d else dval 0 d), r).

Definition expect (lit_ : str) (j : json) (s : str) : option (json * str) :=
  r ← strip_prefix lit_ s; Some (j, r).

(** Every call consumes a byte or stops, so the length of the text is fuel enough. *)
Fixpoint read_value (fuel : nat) (s : str) : option (json * str) :=
  match fuel with
  | O => None
  | S f =>
      match skip_ws s with
      | [] => None
      | b :: s' =>
          if decide (b = x22) then '(t, r) ← read_string s'; Some (JStr t, r)
          else if decide (b = "["%byte) then
            match skip_ws s' with
            | c :: r => if decide (c = "]"%byte) then Some (JArr [], r)
                        else '(l, r) ← read_items f s'; Some (JArr l, r)
            | [] => None
            end
          else if decide (b = "{"%byte) then
            match skip_ws s' with
            | c :: r => if decide (c = "}"%byte) then Some (JObj [], r)
                        else '(l, r) ← read_members f s'; Some (JObj l, r)
            | [] => None
            end
          else if decide (b = "t"%byte) then expect (lit "rue") (JBool true) s'
          else if decide (b = "f"%byte) then expect (lit "alse") (JBool false) s'
          else if decide (b = "n"%byte) then expect (lit "ull") JNull s'
          else read_number (b :: s')
      end
  end
with read_items (fuel : nat) (s : str) : option (list json * str) :=
  match fuel with
  | O => None
  | S f =>
      '(j, r) ← read_value f s;
      match skip_ws r with
      | b :: r => if decide (b = ","%byte) then '(l, r) ← read_items f r; Some (j :: l, r)
                  else if decide (b = "]"%byte) then Some ([j], r)
                  else None
      | [] => None
      end
  end
with read_members (fuel : nat) (s : str) : option (list (str * json) * str) :=
  match fuel with
  | O => None
  | S f =>
      match skip_ws s with
      | b :: s' =>
          if decide (b = x22) then
            '(k, r) ← read_string s';
            match skip_ws r with
            | c :: r =>
                if decide (c = ":"%byte) then
                  '(j, r) ← read_value f r;
                  match skip_ws r with
                  | b :: r => if decide (b = ","%byte) then
                                '(l, r) ← read_members f r; Some ((k, j) :: l, r)
                              else if decide (b = "}"%byte) then Some ([(k, j)], r)
                              else None
                  | [] => None
                  end
                else None
            | [] => None
            end
          else None
      | [] => None
      end
  end.

(** A whole text: one value and nothing but white space after it. *)
Definition read_json (s : str) : option json :=
  '(j, r) ← read_value (S (length s)) s;
  if bool_decide (skip_ws r = []) then Some j else None.

(** ** Reading back what is printed *)

Lemma skip_ws_cons b s : is_ws b = false -> skip_ws (b :: s) = b :: s.
Proof. intros H. cbn. by rewrite H. Qed.

(** The shapes [escape_byte] takes, and that [read_string] inverts each. *)
Definition escape_reads (b : byte) : bool :=
  match escape_byte b with
  | [c] => bool_decide (c = b) && negb (bool_decide (b = x22)) && negb (bool_decide (b = x5c))
           && negb (u8 b <? 32)
  | [c; e] => bool_decide (c = x5c) && negb (bool_decide (e = "u"%byte))
              && bool_decide (simple_escape e = Some b)
  | [c; e; h1; h2; h3; h4] =>
      bool_decide (c = x5c) && bool_decide (e = "u"%byte)
      && bool_decide ((a ← hex_value h1; b ← hex_value h2; c ← hex_value h3; d ← hex_value h4;
                       encode_bmp (((a * 16 + b) * 16 + c) * 16 + d)) = Some [b])
  | _ => false
  end.

Lemma escape_reads_all b : escape_reads b = true.
Proof. apply byte_forall. vm_compute. reflexivity. Qed.

Lemma read_string_escape_byte b s t r :
  read_string s = Some (t, r) -> read_string (escape_byte b ++ s) = Some (b :: t, r).
Proof.
  intros Hs. pose proof (escape_reads_all b) as E. unfold escape_reads in E.
  destruct (escape_byte b) as [|c [|e [|h1 [|h2 [|h3 [|h4 [|]]]]]]]; try discriminate E.
  - rewrite !andb_true_iff, !negb_true_iff, !bool_decide_eq_true, !bool_decide_eq_false in E.
    destruct E as (((-> & H1) & H2) & H3). cbn.
    rewrite !decide_False by done. rewrite H3, Hs. done.
  - rewrite !andb_true_iff, !negb_true_iff, !bool_decide_eq_true, !bool_decide_eq_false in E.
    destruct E as ((-> & H1) & H2). cbn [app read_string].
    rewrite (decide_False (P := x5c = x22)), decide_True by done.
    rewrite decide_False by done. rewrite H2. cbn. by rewrite Hs.
  - rewrite !andb_true_iff, !bool_decide_eq_true in E. destruct E as ((-> & ->) & H).
    cbn [app read_string].
    rewrite (decide_False (P := x5c = x22)), !decide_True by done.
    destruct (hex_value h1), (hex_value h2), (hex_value h3), (hex_value h4); try discriminate H.
    cbn -[encode_bmp] in *. rewrite H, Hs. done.
Qed.

(** [escape_json_value] followed by a quote reads back as the string. *)
Lemma read_string_escape s r :
  read_string (escape_json_value s ++ x22 :: r) = Some (s, r).
Proof.
  induction s as [|b s IH]; [done|].
  change (escape_json_value (b :: s)) with (escape_byte b ++ escape_json_value s).
  rewrite <- app_assoc. by apply read_string_escape_byte.
Qed.

(** What may follow a value: not a digit. *)
Definition no_digit (s : str) : Prop :=
  match s with b :: _ => is_digit b = false | [] => True end.

Lemma digits_run_app d r :
  Forall (fun b => is_digit b = true) d -> no_digit r -> digits_run (d ++ r) = (d, r).
Proof.
  intros Hd Hr. induction Hd as [|b d Hb _ IH]; cbn.
  - destruct r as [|b r]; cbn in *; [done | by rewrite Hr].
  - by rewrite Hb, IH.
Qed.

Lemma digit_not_minus b : is_digit b = true -> b <> "-"%byte.
Proof. by intros H ->. Qed.

Lemma read_number_show n r : no_digit r -> read_number (show_Z n ++ r) = Some (JNum n, r).
Proof.
  intros Hr. unfold show_Z, read_number. destruct (Z.ltb_spec n 0).
  - destruct (show_nat_spec (- n)) as (Hne & Hd & Hv); [lia|]. cbn [app].
    rewrite decide_True by done. rewrite digits_run_app by done.
    rewrite bool_decide_eq_false_2 by done. rewrite Hv. do 3 f_equal. lia.
  - destruct (show_nat_spec n) as (Hne & Hd & Hv); [lia|].
    rewrite <- Hv at 2. destruct (show_nat n) as [|b d] eqn:E; [done|]. cbn [app].
    apply Forall_cons in Hd as Hd'. destruct Hd' as [Hb _].
    rewrite decide_False by by apply digit_not_minus.
    change (b :: d ++ r) with ((b :: d) ++ r). rewrite digits_run_app by done. done.
Qed.

(** The first byte of a printed number starts no other kind of value. *)
Lemma show_Z_first n : exists b s, show_Z n = b :: s /\ (b = "-"%byte \/ is_digit b = true).
Proof.
  unfold show_Z. destruct (Z.ltb_spec n 0).
  - do 2 eexists. split; [reflexivity | by left].
  - destruct (show_nat_spec n) as (Hne & Hd & _); [lia|].
    destruct (show_nat n) as [|b s]; [done|]. apply Forall_cons in Hd as [Hb _].
    do 2 eexists. split; [reflexivity | by right].
Qed.

Definition number_start (b : byte) : bool := bool_decide (b = "-"%byte) || is_digit b.
Definition number_start_ok (b : byte) : bool :=
  negb (number_start b) ||
  negb (is_ws b || bool_decide (b ∈ [x22; "["%byte; "{"%byte; "t"%byte; "f"%byte; "n"%byte])).
Lemma number_start_all b : number_start_ok b = true.
Proof. apply byte_forall. vm_compute. reflexivity. Qed.

Lemma read_value_number f n r :
  no_digit r -> read_value (S f) (show_Z n ++ r) = Some (JNum n, r).
Proof.
  intros Hr. pose proof (read_number_show n r Hr) as Hn.
  destruct (show_Z_first n) as (b & s & E & Hb). rewrite E in *. cbn [app] in *.
  pose proof (number_start_all b) as Hok. unfold number_start_ok in Hok.
  assert (number_start b = true) as Hs
    by (unfold number_start; destruct Hb as [->|Hb]; [done | by rewrite Hb, orb_true_r]).
  rewrite Hs in Hok. cbn [negb orb] in Hok.
  rewrite negb_true_iff, orb_false_iff, bool_decide_eq_false in Hok. destruct Hok as [Hw Hc].
  rewrite !not_elem_of_cons in Hc. destruct Hc as (?&?&?&?&?&?&_).
  cbn [read_value]. rewrite skip_ws_cons by done. by rewrite !decide_False by done.
Qed.

Lemma number_stop b : b ∈ [","%byte; "]"%byte; "}"%byte] -> forall r, no_digit (b :: r).
Proof. intros Hb r. rewrite !elem_of_cons in Hb. by destruct Hb as [->|[->|[->|[]%elem_of_nil]]]. Qed.

Lemma print_first j : exists b s, print j = b :: s /\ is_ws b = false /\ b <> "]"%byte.
Proof.
  destruct j as [|[]|n|s|l|l]; cbn; eauto 10.
  destruct (show_Z_first n) as (b & s & -> & Hb). exists b, s. split; [done|].
  destruct Hb as [->|Hb]; [done|]. split.
  - pose proof (number_start_all b) as H. unfold number_start_ok, number_start in H.
    rewrite Hb, orb_true_r in H. cbn [negb orb] in H.
    by rewrite negb_true_iff, orb_false_iff in H; destruct H.
  - by intros ->.
Qed.

Definition reads (j : json) : Prop := forall f r,
  no_digit r -> (length (print j) < f)%nat -> read_value f (print j ++ r) = Some (j, r).

Lemma read_items_join l f r :
  Forall reads l -> l <> [] -> (S (length (join (lit ",") (map print l))) < f)%nat ->
  read_items f (join (lit ",") (map print l) ++ "]"%byte :: r) = Some (l, r).
Proof.
  intros Hl. revert f. induction Hl as [|j l Hj Hl IH]; intros f Hne Hf; [done|].
  destruct f as [|f]; [lia|]. destruct l as [|k l].
  - cbn [map join] in *. cbn [read_items].
    rewrite Hj; [done|by apply number_stop; set_solver|lia].
  - cbn [map join] in *. cbn [read_items]. rewrite <- !app_assoc.
    rewrite !length_app in Hf. change (length (lit ",")) with 1%nat in Hf.
    rewrite Hj; [|by apply number_stop; set_solver|lia].
    cbn [mbind option_bind]. change (lit ",") with [","%byte]. cbn [app].
    rewrite skip_ws_cons, decide_True by done.
    change [","%byte] with (lit ","). rewrite IH; [done|done|lia].
Qed.

Definition print_member (kv : str * json) : str := escape_json kv.1 ++ lit ":" ++ print kv.2.

Lemma read_members_one f k j r :
  reads j -> no_digit r -> (length (print j) < f)%nat ->
  read_members (S f) (print_member (k, j) ++ r) =
    match skip_ws r with
    | b :: r => if decide (b = ","%byte) then '(l, r) ← read_members f r; Some ((k, j) :: l, r)
                else if decide (b = "}"%byte) then Some ([(k, j)], r)
                else None
    | [] => None
    end.
Proof.
  intros Hj Hr Hf. unfold print_member, escape_json. cbn [fst snd app].
  cbn [read_members]. rewrite skip_ws_cons by done. rewrite decide_True by done.
  rewrite <- !app_assoc. cbn [app]. rewrite read_string_escape. cbn [mbind option_bind].
  change (lit ":") with [":"%byte]. cbn [app]. rewrite skip_ws_cons, decide_True by done.
  rewrite Hj by (done || lia). done.
Qed.

Lemma read_members_join l f r :
  Forall (fun kv => reads kv.2) l -> l <> [] ->
  (S (length (join (lit ",") (map print_member l))) < f)%nat ->
  read_members f (join (lit ",") (map print_member l) ++ "}"%byte :: r) = Some (l, r).
Proof.
  intros Hl. revert f. induction Hl as [|[k j] l Hj Hl IH]; intros f Hne Hf; [done|].
  destruct f as [|f]; [lia|].
  assert (length (print j) <= length (print_member (k, j)))%nat as Hlen
    by (unfold print_member; cbn [fst snd]; rewrite !length_app; lia).
  destruct l as [|kv l].
  - cbn [map join] in *. rewrite read_members_one; [|done|by apply number_stop; set_solver|lia].
    rewrite skip_ws_cons by done. by rewrite decide_False, decide_True by done.
  - cbn [map join] in *. rewrite <- !app_assoc.
    rewrite !length_app in Hf. change (length (lit ",")) with 1%nat in Hf.
    change (lit ",") with [","%byte] in *. cbn [app].
    rewrite read_members_one; [|done|by apply number_stop; set_solver|lia].
    rewrite skip_ws_cons, decide_True by done. rewrite IH; [done|done|lia].
Qed.

(** The items of a printed array do not start with the closing bracket. *)
Lemma skip_ws_items j l k :
  exists b s, skip_ws (join (lit ",") (map print (j :: l)) ++ k) = b :: s /\ b <> "]"%byte.
Proof.
  destruct (print_first j) as (b & s & E & Hw & Hb).
  destruct l; cbn [map join]; rewrite E, <- ?app_assoc; cbn [app]; rewrite skip_ws_cons by done;
    eauto.
Qed.

Lemma skip_ws_members kv l k :
  exists s, skip_ws (join (lit ",") (map print_member (kv :: l)) ++ k) = x22 :: s.
Proof. destruct kv, l; cbn; eauto. Qed.

Lemma read_value_print j : reads j.
Proof.
  induction j as [|b|n|s|l IH|l IH] using json_ind'; intros f r Hr Hf;
    (destruct f as [|f]; [lia|]).
  - done.
  - by destruct b.
  - by apply read_value_number.
  - cbn [print escape_json app]. rewrite <- app_assoc. cbn [app]. cbn [read_value].
    rewrite skip_ws_cons, decide_True by done. by rewrite read_string_escape.
  - cbn [print] in *. rewrite !length_app in Hf. change (length (lit "[")) with 1%nat in Hf.
    change (length (lit "]")) with 1%nat in Hf.
    change (lit "[") with ["["%byte]. rewrite <- !app_assoc. cbn [app read_value].
    rewrite skip_ws_cons, (decide_False (P := "["%byte = x22)), decide_True by done.
    destruct l as [|j l]; [done|].
    change (lit "]") with ["]"%byte]. cbn [app].
    destruct (skip_ws_items j l ("]"%byte :: r)) as (b & s & E & Hb). rewrite E.
    rewrite decide_False by done. rewrite read_items_join; [done|done|done|lia].
  - cbn [print] in *. change (fun kv => escape_json kv.1 ++ lit ":" ++ print kv.2) with print_member in *.
    rewrite !length_app in Hf. change (length (lit "{")) with 1%nat in Hf.
    change (length (lit "}")) with 1%nat in Hf.
    change (lit "{") with ["{"%byte]. rewrite <- !app_assoc. cbn [app read_value].
    rewrite skip_ws_cons, !(decide_False (P := "{"%byte = _)), decide_True by done.
    destruct l as [|kv l]; [done|].
    change (lit "}") with ["}"%byte]. cbn [app].
    destruct (skip_ws_members kv l ("}"%byte :: r)) as (s & E). rewrite E.
    rewrite decide_False by done. rewrite read_members_join; [done|done|done|lia].
Qed.

(** The reader inverts the printer. *)
Lemma read_json_print j : read_json (print j) = Some j.
Proof.
  unfold read_json. rewrite <- (app_nil_r (print j)) at 2.
  rewrite read_value_print by (done || lia). cbn. done.
Qed.

(** ** Objects written member by member

    [to_docker_json] and the bodies of [docker_client.rs] push the members
    after the first one each with its comma, the optional ones only when set. *)

(** [if let Some(x) = field { push(",\"Key\":"); push(show(x)) }] *)
Definition push_field {A} (key : str) (show : A -> str) (field : option A) : str :=
  match field with
  | Some x => lit "," ++ escape_json key ++ lit ":" ++ show x
  | None => []
  end.

Definition is_none {A} (o : option A) : bool := match o with None => true | Some _ => false end.

Definition field_json {A} (key : str) (to : A -> json) (field : option A) : list (str * json) :=
  match field with Some x => [(key, to x)] | None => [] end.

(** Members written one by one, each after the first with its comma. *)
Definition members_tail (ms : list (str * json)) : str :=
  concat (map (fun kv => lit "," ++ print_member kv) ms).

Lemma join_tail m ms :
  join (lit ",") (map print_member (m :: ms)) = print_member m ++ members_tail ms.
Proof.
  revert m. induction ms as [|m' ms IH]; intros m.
  - cbn. by rewrite app_nil_r.
  - change (join (lit ",") (map print_member (m :: m' :: ms)))
      with (print_member m ++ lit "," ++ join (lit ",") (map print_member (m' :: ms))).
    rewrite IH. unfold members_tail. cbn [map concat]. by rewrite <- !app_assoc.
Qed.

Lemma members_tail_app a b : members_tail (a ++ b) = members_tail a ++ members_tail b.
Proof. unfold members_tail. by rewrite map_app, concat_app. Qed.

Lemma push_field_tail {A} key (show : A -> str) (to : A -> json) field :
  (forall x, show x = print (to x)) ->
  push_field key show field = members_tail (field_json key to field).
Proof.
  intros H. destruct field as [x|]; [|done]. cbn. unfold print_member. cbn.
  rewrite app_nil_r. by rewrite H.
Qed.

Lemma print_obj m ms : print (JObj (m :: ms)) = lit "{" ++ print_member m ++ members_tail ms ++ lit "}".
Proof.
  change (print (JObj (m :: ms))) with (lit "{" ++ join (lit ",") (map print_member (m :: ms)) ++ lit "}").
  by rewrite join_tail, <- app_assoc.
Qed.

(** A text without special characters is written as it is. *)
Definition plain_byte (b : byte) : bool := bool_decide (escape_byte b = [b]).
Lemma escape_json_plain s :
  forallb plain_byte s = true -> escape_json s = [x22] ++ s ++ [x22].
Proof.
  intros H. unfold escape_json. cbn [app]. do 2 f_equal.
  induction s as [|b s IH]; [done|]. cbn in H. apply andb_true_iff in H as [Hb H].
  apply bool_decide_eq_true in Hb. unfold escape_json_value in *. cbn [fmap list_fmap concat].
  rewrite Hb, IH by done. done.
Qed.

Lemma escape_json_quotes s : escape_json s = [x22] ++ escape_json_value s ++ [x22].
Proof. done. Qed.

(** ** What the code uses of [nojson]

    [Value] is a [RawJsonValue]; an error is the text it prints.  [to_member]
    is [to_member(k)] followed by [optional()], [missing_member] the error of
    [required()] on an absent member. *)
Class JsonLib := {
  Value : Type;
  json_parse : str -> result str Value;
  to_member : Value -> str -> result str (option Value);
  missing_member : Value -> str -> str;
  to_string : Value -> result str str;
  to_bool : Value -> result str bool;
  to_i64 : Value -> result str Z;
  to_array : Value -> result str (list Value);
  to_object : Value -> result str (list (Value * Value));
  is_object : Value -> bool;
}.

Section Access.
Context `{JsonLib}.

(** [v.to_member(k)] then [required()]. *)
Definition required (v : Value) (k : str) : result str Value :=
  o ← to_member v k; ok_or o (missing_member v k).

(** [v.to_member(k).ok().and_then(|m| m.optional())] *)
Definition optional (v : Value) (k : str) : option Value :=
  match to_member v k with Ok (Some w) => Some w | _ => None end.

(** [optional(k).and_then(|v| String::try_from(v).ok())] and its like. *)
Definition optional_string (v : Value) (k : str) : option str :=
  w ← optional v k; to_ok (to_string w).
Definition optional_bool (v : Value) (k : str) : option bool :=
  w ← optional v k; to_ok (to_bool w).
Definition optional_i64 (v : Value) (k : str) : option Z :=
  w ← optional v k; to_ok (to_i64 w).
End Access.

(** The documented behaviour: a value stands for a JSON value, a text printed
    from one parses to it, members are found by name, and the conversions
    accept exactly their kind. *)
Definition member (k : str) (ms : list (str * json)) : option json :=
  (fun p => p.2.2) <$> list_find (fun kv => kv.1 = k) ms.

Class JsonLaws `(J : JsonLib) := {
  denote : Value -> json;
  parse_law j : exists v, json_parse (print j) = Ok v /\ denote v = j;
  member_law v ms k : denote v = JObj ms -> NoDup ms.*1 ->
    exists o, to_member v k = Ok o /\ denote <$> o = member k ms;
  member_kind_law v k o : to_member v k = Ok o -> exists ms, denote v = JObj ms;
  string_law v s : to_string v = Ok s <-> denote v = JStr s;
  bool_law v b : to_bool v = Ok b <-> denote v = JBool b;
  i64_law v n : to_i64 v = Ok n <-> denote v = JNum n /\ I64_MIN <= n <= I64_MAX;
  array_law v l : denote v = JArr l -> exists ws, to_array v = Ok ws /\ denote <$> ws = l;
  array_kind_law v ws : to_array v = Ok ws -> denote v = JArr (denote <$> ws);
  object_law v ms : denote v = JObj ms -> exists ws, to_object v = Ok ws /\
    (fun kv => (denote kv.1, denote kv.2)) <$> ws = (fun kv => (JStr kv.1, kv.2)) <$> ms;
  is_object_law v : is_object v = true <-> exists ms, denote v = JObj ms;
}.

(** The data model itself, read by the reference reader, is such a library. *)
#[export] Instance DomJson : JsonLib := {|
  Value := json;
  json_parse s := match read_json s with Some j => Ok j | None => Err (lit "invalid JSON") end;
  to_member v k := match v with JObj ms => Ok (member k ms) | _ => Err (lit "not an object") end;
  missing_member v k := lit "missing member " ++ k;
  to_string v := match v with JStr s => Ok s | _ => Err (lit "not a string") end;
  to_bool v := match v with JBool b => Ok b | _ => Err (lit "not a boolean") end;
  to_i64 v := match v with
              | JNum n => if in_range I64_MIN I64_MAX n then Ok n else Err (lit "out of range")
              | _ => Err (lit "not a number") end;
  to_array v := match v with JArr l => Ok l | _ => Err (lit "not an array") end;
  to_object v := match v with
                 | JObj ms => Ok ((fun kv => (JStr kv.1, kv.2)) <$> ms)
                 | _ => Err (lit "not an object") end;
  is_object v := match v with JObj _ => true | _ => false end;
|}.

#[export] Program Instance DomJson_laws : JsonLaws DomJson := {| denote := (fun j : json => j) |}.
Next Obligation. intros j. exists j. unfold json_parse, DomJson. by rewrite read_json_print. Qed.
Next Obligation. cbn. intros v ms k -> _. eexists. split; [done|]. by destruct (member k ms). Qed.
Next Obligation. cbn. intros v k o. destruct v; try done. eauto. Qed.
Next Obligation. cbn. intros v s. destruct v; split; congruence. Qed.
Next Obligation. cbn. intros v b. destruct v; split; congruence. Qed.
Next Obligation.
  cbn. intros v n. destruct v as [| |m| | |]; try (split; [done | intros [[=] _]]).
  destruct (in_range I64_MIN I64_MAX m) eqn:E.
  - apply in_range_true in E. split; [intros [= ->]; done | intros [[= ->] _]; done].
  - split; [done|]. intros [[= ->] Hr]. apply in_range_true in Hr. congruence.
Qed.
Next Obligation. cbn. intros v l ->. eexists. split; [done | apply list_fmap_id]. Qed.
Next Obligation. cbn. intros v ws. destruct v; try done. intros [= ->]. by rewrite list_fmap_id. Qed.
Next Obligation.
  cbn. intros v ms ->. eexists. split; [done|]. rewrite <- list_fmap_compose. done.
Qed.
Next Obligation.
  cbn. intros v. destruct v; split; try done; try (by intros [? [=]]); eauto.
Qed.

Section AccessLemmas.
Context `{J : JsonLib} `{!JsonLaws J}.

Lemma optional_member v ms k :
  denote v = JObj ms -> NoDup ms.*1 -> denote <$> optional v k = member k ms.
Proof.
  intros Hv Hn. destruct (member_law v ms k Hv Hn) as (o & E & Ho).
  unfold optional. rewrite E, <- Ho. by destruct o.
Qed.

Lemma optional_string_Some v ms k s :
  denote v = JObj ms -> NoDup ms.*1 ->
  optional_string v k = Some s <-> member k ms = Some (JStr s).
Proof.
  intros Hv Hn. pose proof (optional_member v ms k Hv Hn) as E. unfold optional_string.
  destruct (optional v k) as [w|]; cbn in *; rewrite <- E; [|by split].
  destruct (to_string w) as [t|e] eqn:Et; cbn.
  - apply string_law in Et. rewrite Et. split; congruence.
  - split; [done|]. intros [= Hs]. apply string_law in Hs. congruence.
Qed.

Lemma optional_bool_Some v ms k b :
  denote v = JObj ms -> NoDup ms.*1 ->
  optional_bool v k = Some b <-> member k ms = Some (JBool b).
Proof.
  intros Hv Hn. pose proof (optional_member v ms k Hv Hn) as E. unfold optional_bool.
  destruct (optional v k) as [w|]; cbn in *; rewrite <- E; [|by split].
  destruct (to_bool w) as [t|e] eqn:Et; cbn.
  - apply bool_law in Et. rewrite Et. split; congruence.
  - split; [done|]. intros [= Hs]. apply bool_law in Hs. congruence.
Qed.
End AccessLemmas.
