(* ===== verification/Env.v ===== *)
(** * Environment settings ([src/src/core/env.rs])

    The termination command chosen by [TESTCONTAINERS_COMMAND] and the folding
    of environment variables.  The process environment is a lookup function:
    [None] when the variable is unset or not Unicode. *)

From S2P Require Import Prelude BTree.

Inductive Command := Remove | Keep.

#[export] Instance Command_eq_dec : EqDecision Command.
Proof. solve_decision. Defined.

(** [std::env::var(name).ok()] *)
Definition Environment := str -> option str.

Definition command (env : Environment) : Command :=
  match env (lit "TESTCONTAINERS_COMMAND") with
  | Some v => if bool_decide (v = lit "keep") then Keep else Remove
  | None => Remove
  end.

(** [format!("{k}={v}")] *)
Definition env_entry (kv : str * str) : str := kv.1 ++ lit "=" ++ kv.2.

Definition fold_env (base overrides : list (str * str)) : list str :=
  let merged := bt_collect base in
  let merged := fold_left (fun m kv => bt_insert kv.1 kv.2 m) overrides merged in
  env_entry <$> merged.

(** The environment list has one entry per variable name, in key order, and
    the value of a name is the last one the overrides give it, else the last
    one the base gives it. *)
Theorem fold_env_spec (base overrides : list (str * str)) :
  exists m, fold_env base overrides = env_entry <$> m /\ bt_sorted m /\ NoDup m.*1 /\
    forall k v, (k, v) ∈ m <->
      match last_binding k overrides with
      | Some v' => v' = v
      | None => last_binding k base = Some v
      end.
Proof.
  exists (bt_extend (bt_collect base) overrides). split; [done|].
  assert (bt_sorted (bt_extend (bt_collect base) overrides)) as Hs by auto with btree.
  split; [done|]. split.
  { by apply bt_sorted_keys_NoDup. }
  intros k v.
  rewrite <- (bt_get_elem k v) by done. rewrite bt_get_extend, bt_get_collect.
  destruct (last_binding k overrides); [|done]. split; congruence.
Qed.

Example fold_env_ex :
  fold_env [(lit "B", lit "1"); (lit "A", lit "2")] [(lit "B", lit "3")] = [lit "A=2"; lit "B=3"].
Proof. reflexivity. Qed.
