(* ===== verification/Mounts.v ===== *)
(** * Mounts ([src/src/core/mounts.rs])

    [Mount] with its constructors, builders and accessors.  A builder that
    asserts returns [None] where the code panics. *)

From S2P Require Import Prelude Utf8.

Inductive MountType := Bind | Volume | Tmpfs.
Inductive AccessMode := ReadOnly | ReadWrite.

#[export] Instance AccessMode_eq_dec : EqDecision AccessMode.
Proof. solve_decision. Defined.

(** [impl Display] of the two enums. *)
Definition show_MountType (t : MountType) : str :=
  match t with Bind => lit "bind" | Volume => lit "volume" | Tmpfs => lit "tmpfs" end.
Definition show_AccessMode (m : AccessMode) : str :=
  match m with ReadOnly => lit "ro" | ReadWrite => lit "rw" end.

Record MountTmpfsOptions := mkMountTmpfsOptions {
  size_bytes : option Z;
  mode : option Z;
}.

Definition MountTmpfsOptions_default : MountTmpfsOptions := mkMountTmpfsOptions None None.

Record Mount := mkMount {
  access_mode : AccessMode;
  mount_type : MountType;
  source : option str;
  target : option str;
  tmpfs_options : option MountTmpfsOptions;
}.

Definition bind_mount (host_path container_path : str) : Mount :=
  mkMount ReadWrite Bind (Some host_path) (Some container_path) None.
Definition volume_mount (name container_path : str) : Mount :=
  mkMount ReadWrite Volume (Some name) (Some container_path) None.
Definition tmpfs_mount (container_path : str) : Mount :=
  mkMount ReadWrite Tmpfs None (Some container_path) None.

Definition with_access_mode (m : Mount) (a : AccessMode) : Mount :=
  mkMount a m.(mount_type) m.(source) m.(target) m.(tmpfs_options).

(** [self.tmpfs_options.get_or_insert_with(MountTmpfsOptions::default)] *)
Definition tmpfs_or_default (m : Mount) : MountTmpfsOptions :=
  match m.(tmpfs_options) with Some o => o | None => MountTmpfsOptions_default end.

Definition with_size_bytes (m : Mount) (size : Z) : option Mount :=
  if 0 <=? size then
    Some (mkMount m.(access_mode) m.(mount_type) m.(source) m.(target)
            (Some (mkMountTmpfsOptions (Some size) (tmpfs_or_default m).(mode))))
  else None.

Definition with_mode (m : Mount) (mode_ : Z) : option Mount :=
  if 0 <=? mode_ then
    Some (mkMount m.(access_mode) m.(mount_type) m.(source) m.(target)
            (Some (mkMountTmpfsOptions (tmpfs_or_default m).(size_bytes) (Some mode_))))
  else None.

(** [s.strip_suffix([a, b])] for two one-byte characters. *)
Definition strip_suffix2 (a b : byte) (s : str) : option str :=
  match rev s with
  | x :: r => if bool_decide (x = a \/ x = b) then Some (rev r) else None
  | [] => None
  end.

(** The unit of a size and the text before it. *)
Definition size_unit (size : str) : str * Z :=
  match strip_suffix2 "k" "K" size with
  | Some stripped => (stripped, 1000)
  | None =>
      match strip_suffix2 "m" "M" size with
      | Some stripped => (stripped, 1000000)
      | None =>
          match strip_suffix2 "g" "G" size with
          | Some stripped => (stripped, 1000000000)
          | None => (size, 1)
          end
      end
  end.

Definition parse_size (size : str) : result str Z :=
  let size := trim size in
  if bool_decide (size = []) then Err (lit "Size string is empty")
  else
    let '(number_part, unit_) := size_unit size in
    number ← map_err (fun e => lit "Failed to parse number '" ++ number_part ++ lit "': "
                               ++ show_ParseIntError e)
                     (parse_i64 (trim number_part));
    if number <? 0 then Err (lit "Size cannot be negative")
    else ok_or (checked I64_MIN I64_MAX (number * unit_)) (lit "Size value overflows i64").

(** [with_size] panics when the text does not parse. *)
Definition with_size (m : Mount) (size : str) : option Mount :=
  match parse_size size with
  | Ok bytes => with_size_bytes m bytes
  | Err _ => None
  end.

Lemma solid_digit b : is_digit b = true -> solid b = true.
Proof.
  assert (negb (is_digit b) || solid b = true) as H
    by (apply (byte_forall (fun b => negb (is_digit b) || solid b)); vm_compute; reflexivity).
  intros E. by rewrite E in H.
Qed.

(** Trimming a number, with or without a unit, does nothing. *)
Lemma trim_digits d u :
  Forall (fun b => is_digit b = true) d -> d <> [] -> Forall (fun b => solid b = true) u ->
  (length u <= 1)%nat -> trim (d ++ u) = d ++ u.
Proof.
  intros Hd Hne Hu Hl.
  assert (Forall (fun b => solid b = true) (d ++ u)) as Hs.
  { apply Forall_app_2; [|done]. eapply Forall_impl; [exact Hd|]. apply solid_digit. }
  destruct d as [|a d]; [done|]. cbn [app] in *. apply Forall_cons in Hs as [Ha Hs].
  destruct (d ++ u) as [|x l _] eqn:E using rev_ind.
  - by apply trim_solid_one.
  - apply Forall_app in Hs as [_ Hx]. apply Forall_cons in Hx as [Hx _]. by apply trim_solid.
Qed.

(** The suffixes [parse_size] knows, with their factors. *)
Definition size_suffixes : list (str * Z) :=
  [(lit "", 1); (lit "k", 1000); (lit "K", 1000); (lit "m", 1000000); (lit "M", 1000000);
   (lit "g", 1000000000); (lit "G", 1000000000)].

Lemma size_suffixes_ind (P : str -> Z -> Prop) :
  Forall (fun uf => P uf.1 uf.2) size_suffixes -> forall u f, (u, f) ∈ size_suffixes -> P u f.
Proof. rewrite Forall_forall. intros H u f Hu. apply (H _ Hu). Qed.

Lemma size_suffixes_ok u f :
  (u, f) ∈ size_suffixes -> Forall (fun b => solid b = true) u /\ (length u <= 1)%nat /\ 0 < f.
Proof.
  apply (size_suffixes_ind (fun u f => Forall (fun b => solid b = true) u /\ (length u <= 1)%nat /\ 0 < f)).
  repeat constructor; cbn; lia.
Qed.

Lemma size_unit_suffix d u f :
  Forall (fun b => is_digit b = true) d -> (u, f) ∈ size_suffixes -> size_unit (d ++ u) = (d, f).
Proof.
  intros Hd. revert u f. apply (size_suffixes_ind (fun u f => size_unit (d ++ u) = (d, f))).
  unfold size_unit, strip_suffix2.
  repeat constructor; cbn [fst snd]; rewrite rev_app_distr; cbn [rev app lit];
    [|cbn; by rewrite rev_involutive..].
  rewrite app_nil_r. change (rev (lit "")) with (@nil byte). cbn [app].
  destruct (rev d) as [|b r] eqn:E; [done|].
  assert (is_digit b = true) as Hb.
  { rewrite Forall_forall in Hd. apply Hd. apply list_elem_of_In, in_rev. rewrite E. by left. }
  by rewrite !bool_decide_eq_false_2 by (intros [->| ->]; discriminate Hb).
Qed.

Lemma parse_size_number n u f :
  0 <= n <= I64_MAX -> (u, f) ∈ size_suffixes ->
  parse_size (show_nat n ++ u) =
    if n * f <=? I64_MAX then Ok (n * f) else Err (lit "Size value overflows i64").
Proof.
  intros Hn Hu. destruct (show_nat_spec n) as (Hne & Hd & _); [lia|].
  destruct (size_suffixes_ok u f Hu) as (Hs & Hl & Hf).
  unfold parse_size. rewrite trim_digits by done. rewrite bool_decide_eq_false_2.
  2: { by intros [? _]%app_eq_nil. }
  rewrite (size_unit_suffix _ u f) by done.
  pose proof (trim_digits (show_nat n) [] Hd Hne ltac:(constructor) ltac:(cbn; lia)) as Ht.
  rewrite app_nil_r in Ht. rewrite Ht. unfold parse_i64.
  rewrite parse_int_show_nat by (unfold I64_MIN; lia). cbn [map_err mbind result_bind].
  destruct (Z.ltb_spec n 0); [lia|]. destruct (Z.leb_spec (n * f) I64_MAX).
  - rewrite checked_ok; [done|]. unfold I64_MIN. nia.
  - assert (checked I64_MIN I64_MAX (n * f) = None) as -> by (apply checked_None; lia). done.
Qed.

(** [parse_size] returns the number times the factor of its unit when that
    fits an [i64] and the overflow error when it does not, and whatever it
    returns is a non-negative [i64]; so [with_size] panics exactly when
    [parse_size] fails, never in the sign check of [with_size_bytes]. *)
Theorem parse_size_spec :
  (forall n u f, 0 <= n <= I64_MAX -> (u, f) ∈ size_suffixes ->
     parse_size (show_nat n ++ u) =
       if n * f <=? I64_MAX then Ok (n * f) else Err (lit "Size value overflows i64")) /\
  (forall s n, parse_size s = Ok n -> 0 <= n <= I64_MAX) /\
  (forall m s, with_size m s = None <-> is_ok (parse_size s) = false).
Proof.
  assert (forall s n, parse_size s = Ok n -> 0 <= n <= I64_MAX) as Hr.
  { intros s n. unfold parse_size. case_bool_decide; [done|].
    destruct (size_unit (trim s)) as [d f] eqn:E. intros H1. inv_ok H1.
    apply ok_or_Ok, checked_Some in H1 as [-> H1].
    assert (0 < f).
    { unfold size_unit in E. repeat case_match; simplify_eq; lia. }
    match goal with Hlt : (?x <? 0) = false |- _ => apply Z.ltb_ge in Hlt; nia end. }
  split; [exact parse_size_number|]. split; [exact Hr|].
  intros m s. unfold with_size. destruct (parse_size s) as [n|e] eqn:E; cbn; [|done].
  apply Hr in E. unfold with_size_bytes. destruct (Z.leb_spec 0 n); [done | lia].
Qed.

Example parse_size_ex : parse_size (lit " 128 m ") = Ok 128000000.
Proof. vm_compute. reflexivity. Qed.
Example parse_size_neg : parse_size (lit "-1k") = Err (lit "Size cannot be negative").
Proof. vm_compute. reflexivity. Qed.
