(* ===== verification/Healthcheck.v ===== *)
(** * Health checks ([src/src/core/healthcheck.rs])

    The [Healthcheck] settings, their builders and the JSON object they become
    in the Docker create request.  A [Duration] is its nanoseconds. *)

From S2P Require Import Prelude BTree Utf8 Ports Errors Json.

Record Healthcheck := mkHealthcheck {
  test : list str;
  interval : option Duration;
  timeout : option Duration;
  retries : option Z;
  start_period : option Duration;
  start_interval : option Duration;
}.

Definition none : Healthcheck := mkHealthcheck [lit "NONE"] None None None None None.
Definition empty : Healthcheck := mkHealthcheck [] None None None None None.
Definition cmd_shell (cmd : str) : Healthcheck :=
  mkHealthcheck [lit "CMD-SHELL"; cmd] None None None None None.
Definition cmd (cmd : list str) : Healthcheck :=
  mkHealthcheck (lit "CMD" :: cmd) None None None None None.

Definition with_interval (h : Healthcheck) (d : Duration) : Healthcheck :=
  mkHealthcheck h.(test) (Some d) h.(timeout) h.(retries) h.(start_period) h.(start_interval).
Definition with_timeout (h : Healthcheck) (d : Duration) : Healthcheck :=
  mkHealthcheck h.(test) h.(interval) (Some d) h.(retries) h.(start_period) h.(start_interval).
Definition with_retries (h : Healthcheck) (n : Z) : Healthcheck :=
  mkHealthcheck h.(test) h.(interval) h.(timeout) (Some n) h.(start_period) h.(start_interval).
Definition with_start_period (h : Healthcheck) (d : Duration) : Healthcheck :=
  mkHealthcheck h.(test) h.(interval) h.(timeout) h.(retries) (Some d) h.(start_interval).
Definition with_start_interval (h : Healthcheck) (d : Duration) : Healthcheck :=
  mkHealthcheck h.(test) h.(interval) h.(timeout) h.(retries) h.(start_period) (Some d).

(** [d.as_nanos().min(i64::MAX as u128) as i64] *)
Definition duration_to_nanos_i64 (d : Duration) : Z := Z.min d I64_MAX.

Definition to_docker_json (h : Healthcheck) : option str :=
  let all_none := is_none h.(interval) && is_none h.(timeout) && is_none h.(retries)
                  && is_none h.(start_period) && is_none h.(start_interval) in
  if bool_decide (h.(test) = []) && all_none then None
  else
    let nanos d := show_Z (duration_to_nanos_i64 d) in
    Some (lit "{" ++ escape_json (lit "Test") ++ lit ":" ++ json_array h.(test)
          ++ push_field (lit "Interval") nanos h.(interval)
          ++ push_field (lit "Timeout") nanos h.(timeout)
          ++ push_field (lit "Retries") show_Z h.(retries)
          ++ push_field (lit "StartPeriod") nanos h.(start_period)
          ++ push_field (lit "StartInterval") nanos h.(start_interval)
          ++ lit "}").

(** ** The object a health check stands for *)

Definition healthcheck_json (h : Healthcheck) : json :=
  let nanos d := JNum (Z.min d I64_MAX) in
  JObj ([(lit "Test", JArr (JStr <$> h.(test)))]
        ++ field_json (lit "Interval") nanos h.(interval)
        ++ field_json (lit "Timeout") nanos h.(timeout)
        ++ field_json (lit "Retries") JNum h.(retries)
        ++ field_json (lit "StartPeriod") nanos h.(start_period)
        ++ field_json (lit "StartInterval") nanos h.(start_interval)).

Lemma to_docker_json_print h j : to_docker_json h = Some j -> j = print (healthcheck_json h).
Proof.
  unfold to_docker_json. case_match; [done|]. intros Hj. apply (inj Some) in Hj. subst j.
  unfold healthcheck_json. cbn [app]. rewrite print_obj, !members_tail_app.
  unfold print_member at 1. cbn [fst snd]. rewrite <- json_array_print.
  pose proof (fun key => push_field_tail key (fun d => show_Z (duration_to_nanos_i64 d))
                (fun d => JNum (Z.min d I64_MAX))) as Hd.
  rewrite !Hd by done.
  rewrite (push_field_tail _ _ JNum) by done. by rewrite <- !app_assoc.
Qed.

Lemma to_docker_json_None h : to_docker_json h = None <-> h = empty.
Proof.
  unfold to_docker_json. destruct h as [[|t l] [i|] [t'|] [r|] [sp|] [si|]]; cbn;
    split; intros; try done.
Qed.

(** A health check is left out of the create request exactly when it says
    nothing at all ([Healthcheck::empty()], so the image's own is inherited);
    otherwise its text reads back as the object with the probe command and the
    durations in nanoseconds, each saturated at the largest [i64]. *)
Theorem to_docker_json_spec (h : Healthcheck) :
  match to_docker_json h with
  | None => h = empty
  | Some j => h <> empty /\ read_json j = Some (healthcheck_json h)
  end.
Proof.
  destruct (to_docker_json h) as [j|] eqn:E.
  - split.
    + intros H. apply to_docker_json_None in H. congruence.
    + apply to_docker_json_print in E as ->. apply read_json_print.
  - by apply to_docker_json_None.
Qed.

Example to_docker_json_ex :
  to_docker_json (with_retries (with_interval (cmd_shell (lit "true")) (from_secs 2)) 3)
    = Some (lit "{'Test':['CMD-SHELL','true'],'Interval':2000000000,'Retries':3}" ≫=
            fun b => [if decide (b = "'"%byte) then x22 else b]).
Proof. vm_compute. reflexivity. Qed.
