(* ===== verification/RegistryAuth.v ===== *)
(** * Registry authentication ([src/src/core/client/registry_auth.rs])

    Which entry of the Docker configuration an image reference selects and the
    [X-Registry-Auth] header made from it.  [base64ct] is a third-party
    package (class [Base64]); the environment and the file system are lookup
    functions. *)

From S2P Require Import Prelude BTree Utf8 Json Env.

(** [Base64::encode_string] and [Base64::decode_vec]. *)
Class Base64 := {
  encode_string : list byte -> str;
  decode_vec : str -> option (list byte);
}.

Class Base64Laws `(B : Base64) := {
  decode_encode s : decode_vec (encode_string s) = Some s;
}.

Definition DOCKER_HUB_AUTH_KEY : str := lit "https://index.docker.io/v1/".

(** [descriptor.split('/').next()] *)
Definition first_component (descriptor : str) : str :=
  match split "/" descriptor with p :: _ => p | [] => [] end.

Definition auths_key (descriptor : str) : str :=
  let first := first_component descriptor in
  if contains "/" descriptor
     && (contains "." first || contains ":" first || bool_decide (first = lit "localhost")) then
    if bool_decide (first = lit "docker.io" \/ first = lit "index.docker.io") then DOCKER_HUB_AUTH_KEY
    else first
  else DOCKER_HUB_AUTH_KEY.

Section Config.
Context (env : Environment) (read_to_string : str -> option str).

Definition home_dir : option str := env (lit "HOME").

(** [DOCKER_AUTH_CONFIG], else the directory [DOCKER_CONFIG] alone, else [~/.docker]. *)
Definition load_config_json : option str :=
  match env (lit "DOCKER_AUTH_CONFIG") with
  | Some (c :: json) => Some (c :: json)
  | _ =>
      match env (lit "DOCKER_CONFIG") with
      | Some (c :: dir) => read_to_string (path_join (c :: dir) (lit "config.json"))
      | _ =>
          match home_dir with
          | Some home => read_to_string (path_join (path_join home (lit ".docker")) (lit "config.json"))
          | None => None
          end
      end
  end.
End Config.

Section Auth.
Context `{JsonLib} `{Base64}.

(** [to_member(k).and_then(|m| m.required()).ok()] *)
Definition required_ok (v : Value) (k : str) : option Value := to_ok (required v k).

Definition required_string (v : Value) (k : str) : option str :=
  w ← required_ok v k; to_ok (to_string w).

(** The entry of the key in the [auths] of a configuration. *)
Definition auth_entry (config_json key : str) : option Value :=
  parsed ← to_ok (json_parse config_json);
  auths_value ← required_ok parsed (lit "auths");
  required_ok auths_value key.

Definition identity_header (token : str) : str :=
  lit "{" ++ [x22] ++ lit "identitytoken" ++ [x22] ++ lit ":" ++ [x22]
    ++ escape_json_value token ++ [x22] ++ lit "}".

Definition basic_header (username password key : str) : str :=
  lit "{" ++ [x22] ++ lit "username" ++ [x22] ++ lit ":" ++ [x22] ++ escape_json_value username
    ++ [x22] ++ lit "," ++ [x22] ++ lit "password" ++ [x22] ++ lit ":" ++ [x22]
    ++ escape_json_value password ++ [x22] ++ lit "," ++ [x22] ++ lit "serveraddress" ++ [x22]
    ++ lit ":" ++ [x22] ++ escape_json_value key ++ [x22] ++ lit "}".

Definition extract_auth_entry (config_json key : str) : option str :=
  entry_value ← auth_entry config_json key;
  match required_string entry_value (lit "identitytoken") with
  | Some (c :: token) => Some (encode_string (identity_header (c :: token)))
  | _ =>
      auth_str ← required_string entry_value (lit "auth");
      if bool_decide (auth_str = []) then None
      else
        decoded_bytes ← decode_vec auth_str;
        decoded ← from_utf8 decoded_bytes;
        '(username, password) ← split_once ":" decoded;
        Some (encode_string (basic_header username password key))
  end.

Definition x_registry_auth (env : Environment) (read_to_string : str -> option str)
    (descriptor : str) : option str :=
  config_json ← load_config_json env read_to_string;
  extract_auth_entry config_json (auths_key descriptor).

Lemma identity_header_print token :
  identity_header token = print (JObj [(lit "identitytoken", JStr token)]).
Proof.
  rewrite print_obj. unfold identity_header, print_member. cbn [fst snd print].
  rewrite escape_json_plain by done. rewrite (escape_json_quotes token), <- !app_assoc. done.
Qed.

Lemma basic_header_print u p k :
  basic_header u p k =
    print (JObj [(lit "username", JStr u); (lit "password", JStr p); (lit "serveraddress", JStr k)]).
Proof.
  rewrite print_obj. unfold members_tail, basic_header, print_member. cbn [map concat fst snd print].
  rewrite (escape_json_plain (lit "username")), (escape_json_plain (lit "password")),
    (escape_json_plain (lit "serveraddress")) by done.
  rewrite !escape_json_quotes, app_nil_r, <- !app_assoc. done.
Qed.
End Auth.

(** A header value decodes to a JSON object with exactly the credentials of
    the entry the key selects: the non-empty identity token when there is one,
    else the user name before the first colon of the decoded [auth], the
    password after it and the key, whatever characters they contain. *)
Theorem extract_auth_entry_spec `{JsonLib} `{Base64Laws} (config_json key h : str) :
  extract_auth_entry config_json key = Some h ->
  exists entry text, auth_entry config_json key = Some entry /\ decode_vec h = Some text /\
    match required_string entry (lit "identitytoken") with
    | Some (c :: token) => read_json text = Some (JObj [(lit "identitytoken", JStr (c :: token))])
    | _ => exists auth u p, required_string entry (lit "auth") = Some auth /\
        decode_vec auth = Some (u ++ ":"%byte :: p) /\ (":"%byte ∉ u) /\
        read_json text = Some (JObj [(lit "username", JStr u); (lit "password", JStr p);
                                     (lit "serveraddress", JStr key)])
    end.
Proof.
  unfold extract_auth_entry. destruct (auth_entry config_json key) as [entry|]; [|done].
  cbn [mbind option_bind]. intros E. exists entry.
  assert (forall auth, required_string entry (lit "auth") = Some auth ->
    (if bool_decide (auth = []) then None else
       decoded_bytes ← decode_vec auth; decoded ← from_utf8 decoded_bytes;
       '(u, p) ← split_once ":" decoded; Some (encode_string (basic_header u p key))) = Some h ->
    exists text u p, decode_vec h = Some text /\ decode_vec auth = Some (u ++ ":"%byte :: p) /\
      (":"%byte ∉ u) /\
      read_json text = Some (JObj [(lit "username", JStr u); (lit "password", JStr p);
                                     (lit "serveraddress", JStr key)])) as Hbasic.
  { intros auth _ Ha. case_bool_decide; [done|].
    destruct (decode_vec auth) as [bs|]; [|done]. cbn [mbind option_bind] in Ha.
    destruct (from_utf8 bs) as [d|] eqn:Ed; [|done]. cbn [mbind option_bind] in Ha. apply from_utf8_Some in Ed as ->.
    destruct (split_once ":" bs) as [[u p]|] eqn:Es; [|done]. cbn [mbind option_bind] in Ha.
    apply (inj Some) in Ha as <-. apply split_once_Some in Es as [-> Hu].
    exists (basic_header u p key), u, p. rewrite decode_encode, basic_header_print, read_json_print.
    by split_and!. }
  destruct (required_string entry (lit "identitytoken")) as [[|c token]|].
  2: { apply (inj Some) in E as <-. exists (identity_header (c :: token)).
       by rewrite decode_encode, identity_header_print, read_json_print. }
  all: destruct (required_string entry (lit "auth")) as [auth|]; [|done];
    destruct (Hbasic auth eq_refl E) as (text & u & p & ? & ? & ? & ?); exists text; eauto 10.
Qed.

(** The simplest codec that meets the law. *)
#[local] Instance PlainBase64 : Base64 := {| encode_string s := s; decode_vec s := Some s |}.
#[local] Program Instance PlainBase64_laws : Base64Laws PlainBase64.
Next Obligation. done. Qed.

(** A login whose password holds a quote and a colon. *)
Definition sample_login : str := lit "me:p" ++ [x22] ++ lit "w:x".
Definition sample_config : str :=
  print (JObj [(lit "auths", JObj [(lit "ghcr.io", JObj [(lit "auth", JStr sample_login)])])]).

Lemma extract_auth_entry_spec_witness :
  exists h, x_registry_auth (fun v => if bool_decide (v = lit "DOCKER_AUTH_CONFIG") then Some sample_config
                                      else None) (fun _ => None) (lit "ghcr.io/org/app:1") = Some h /\
  exists entry text, auth_entry sample_config (lit "ghcr.io") = Some entry /\ decode_vec h = Some text /\
    match required_string entry (lit "identitytoken") with
    | Some (c :: token) => read_json text = Some (JObj [(lit "identitytoken", JStr (c :: token))])
    | _ => exists auth u p, required_string entry (lit "auth") = Some auth /\
        decode_vec auth = Some (u ++ ":"%byte :: p) /\ (":"%byte ∉ u) /\
        read_json text = Some (JObj [(lit "username", JStr u); (lit "password", JStr p);
                                     (lit "serveraddress", JStr (lit "ghcr.io"))])
    end.
Proof.
  exists (basic_header (lit "me") (lit "p" ++ [x22] ++ lit "w:x") (lit "ghcr.io")).
  split; [vm_compute; reflexivity|].
  apply (extract_auth_entry_spec sample_config). vm_compute. reflexivity.
Defined.

Example auths_key_hub : auths_key (lit "docker.io/library/alpine") = DOCKER_HUB_AUTH_KEY.
Proof. reflexivity. Qed.
Example auths_key_name : auths_key (lit "org/app:1") = DOCKER_HUB_AUTH_KEY.
Proof. reflexivity. Qed.
Example auths_key_host : auths_key (lit "localhost:5000/app") = lit "localhost:5000".
Proof. reflexivity. Qed.
