(* ===== verification/Effect.v ===== *)
(** * The world outside the crate

    The client, the container handle and the runners talk to a daemon, sleep,
    and read logs.  What they do is a list of events, the [Trace]; what they
    get back is decided by a [Host], any function of the trace so far: a
    daemon that fails at any point, that forgets a container, or that changes
    between two requests is a [Host].  A theorem about a program of this
    monad holds for every host.  A program can be dropped by who awaits it, at an await
    before its event or while that is in flight; then what it owns is dropped, and the
    threads it waited for run on. *)

From S2P Require Import Prelude Utf8 Ports Errors Http HttpDecode LogLine.

(** ** Requests and responses *)

Record HttpRequest := mkRequest {
  req_method : str;
  req_path : str;
  req_headers : list (str * str);
  req_body : option (list byte);
}.

(** [shiguredo_http11::Response]: its status code and body. *)
Record Response := mkResponse {
  resp_status : Z;
  resp_body : option (list byte);
}.

(** ** XPC messages ([src/src/xpc/conn.rs]) *)

Inductive KeyValue :=
| KString (s : str)
| KData (bytes : list byte)
| KBool (b : bool)
| KInt64 (n : Z)
| KUInt64 (n : Z)
| KFd (fd : Z).

Record XpcMessage := mkXpcMessage {
  xpc_service : str;
  xpc_route : str;
  xpc_entries : list (str * KeyValue);
  xpc_timeout : Duration;
}.

(** What a reply holds, by key, and the descriptors of its [logs] array. *)
Record RawReply := mkRawReply {
  reply_data : list (str * list byte);
  reply_strings : list (str * list byte);
  reply_int64 : list (str * Z);
  reply_fds : list Z;
}.

(** How a message ends: no dictionary or no descriptor to send it with, nothing
    in time, an error object with its description, a reply. *)
Inductive XpcAnswer :=
| NoDictionary
| NoDescriptor
| NoReply
| XpcErrorObject (description : option (list byte))
| XpcReply (r : RawReply).

(** ** Events *)

(** What is done to the host's files. *)
Inductive FileOp :=
| CreateNew (path : str)
| WriteAll (path : str) (bytes : list byte)
| Metadata (path : str)
| OpenFile (path : str)
| RemoveFile (path : str)
| RemoveDirAll (path : str).

(** What is done to the pipes of an exec: made, marked close-on-exec, an end closed by
    its owner, an end given to a thread that reads it, and the threads told to stop. *)
Inductive PipeOp :=
| MakePipe (read_end write_end : Z)
| CloseOnExec (fd : Z)
| ClosePipe (fd : Z)
| ReadByThread (fd : Z)
| CancelReaders.

Inductive Event :=
| EvRequest (r : HttpRequest) (limit : BodyLimit)
| EvSleep (d : Duration)
| EvOpenLogs (id : str)
| EvStopLogs (session : nat)
| EvConsumers (session : nat)
| EvWaiter (generation : Z)
| EvReadFile (path : str)
| EvLogPoll
| EvProbe (host : str) (port : Z) (bytes : list byte)
| EvConnect (service : str)
| EvXpc (m : XpcMessage)
| EvFile (op : FileOp)
| EvCloseFd (fd : Z)
| EvPipe (op : PipeOp)
| EvRegister (id : str)
| EvStore (generation code : Z).

Abbreviation Trace := (list Event).

(** A response of a wait for an HTTP server. *)
Record HttpResponse := mkHttpResponse {
  status : Z;
  resp_headers : list (str * str);
  body : list byte;
}.

(** What the outside answers, given everything that happened before.  [elapsed t0 d t]:
    at [t], the time [d] counted from [t0] has run out.  [in_flight t]: the last event of
    [t] was begun and its answer was not there yet when its caller was dropped.  [log_read] is one read
    of a stream of a log session, empty at a timeout and at the end;
    [exit_code_hint] is what the waiter threads have recorded; [xpc] is the
    outcome of an XPC message on a connection; [read_file], [file_op], [is_dir]
    and [is_file] are the host's file system; [wait_generation] is the shared generation of the
    waiter threads. *)
Class Host := {
  send : Trace -> HttpRequest -> BodyLimit -> Result Response;
  open_logs : Trace -> str -> Result nat;
  probe : Trace -> str -> Z -> list byte -> result str HttpResponse;
  elapsed : Trace -> Duration -> Trace -> bool;
  in_flight : Trace -> bool;
  log_read : Trace -> nat -> LogSource -> result IoError (list byte);
  logs_terminated : Trace -> nat -> bool;
  logs_all_done : Trace -> nat -> bool;
  exit_code_hint : Trace -> option Z;
  clock : Trace -> Duration;
  xpc_connect : Trace -> str -> bool;
  xpc : Trace -> XpcMessage -> XpcAnswer;
  read_file : Trace -> str -> result IoError (list byte);
  file_op : Trace -> FileOp -> result IoError unit;
  is_dir : Trace -> str -> bool;
  is_file : Trace -> str -> bool;
  wait_generation : Trace -> Z;
}.

(** ** Programs

    A program ends with a result, or is cancelled because the future it models was
    dropped, by a time limit it runs under or by whoever awaits it, or uses up the fuel
    of its loops. *)

Inductive Out (A : Type) :=
| Done (r : Result A)
| Cancelled
| OutOfFuel.
Arguments Done {A} r.
Arguments Cancelled {A}.
Arguments OutOfFuel {A}.

(** Who may drop the future, if anybody: the traces at which it no longer waits. *)
Definition Scope := option (Trace -> bool).

Definition M (A : Type) := Scope -> Trace -> Out A * Trace.

#[export] Instance M_ret : MRet M := fun A a _ tr => (Done (Ok a), tr).
#[export] Instance M_bind : MBind M := fun A B f m sc tr =>
  match m sc tr with
  | (Done (Ok a), tr) => f a sc tr
  | (Done (Err e), tr) => (Done (Err e), tr)
  | (Cancelled, tr) => (Cancelled, tr)
  | (OutOfFuel, tr) => (OutOfFuel, tr)
  end.

(** A computed result, [r?]. *)
Definition lift {A} (r : Result A) : M A := fun _ tr => (Done r, tr).
Definition fail {A} (e : Error) : M A := lift (Err e).
Definition no_fuel {A} : M A := fun _ tr => (OutOfFuel, tr).

(** [m.await] without [?]: the result as a value. *)
Definition attempt {A} (m : M A) : M (Result A) := fun sc tr =>
  match m sc tr with
  | (Done r, tr) => (Done (Ok r), tr)
  | (Cancelled, tr) => (Cancelled, tr)
  | (OutOfFuel, tr) => (OutOfFuel, tr)
  end.

Definition with_err {A} (f : Error -> Error) (m : M A) : M A := fun sc tr =>
  match m sc tr with
  | (Done r, tr) => (Done (map_err f r), tr)
  | o => o
  end.

Section Programs.
Context `{Host}.

Definition expired (sc : Scope) (tr : Trace) : bool :=
  match sc with Some over => over tr | None => false end.

(** How a future can be dropped at the await of an event: before the event, or while it
    is in flight, when it happens all the same and its answer is lost.  An answer that is
    there when the future is looked at is taken, however late it is. *)
Definition overtaken (sc : Scope) (tr : Trace) : bool := expired sc tr && in_flight tr.
Definition cut (sc : Scope) (tr : Trace) (ev : Event) : bool := expired sc tr || overtaken sc (tr ++ [ev]).
Definition cut_at (sc : Scope) (tr : Trace) (ev : Event) : Trace :=
  if overtaken sc (tr ++ [ev]) then tr ++ [ev] else tr.

(** The await of an event: cut off, or [answer] of the trace before it. *)
Definition perform {A} (ev : Event) (answer : Trace -> Result A) : M A := fun sc tr =>
  if cut sc tr ev then (Cancelled, cut_at sc tr ev) else (Done (answer tr), tr ++ [ev]).

(** A call of blocking code, at which no future waits. *)
Definition invoke {A} (ev : Event) (answer : Trace -> Result A) : M A := fun _ tr =>
  (Done (answer tr), tr ++ [ev]).

Definition send_request (req : HttpRequest) (limit : BodyLimit) : M Response :=
  perform (EvRequest req limit) (fun tr => send tr req limit).

Definition sleep (d : Duration) : M unit := perform (EvSleep d) (fun _ => Ok tt).

(** A look at the state shared with other threads: no event, no cancellation. *)
Definition peek {A} (f : Trace -> A) : M A := fun _ tr => (Done (Ok (f tr)), tr).

(** Blocking code, which runs to its end whatever limit its caller has. *)
Definition blocking {A} (m : M A) : M A := fun _ tr => m None tr.

(** [tokio::task::spawn_blocking(m).await]: the thread of [m] runs to its end although its
    caller is dropped, and its result is lost then. *)
Definition spawn_blocking {A} (m : M A) : M A := fun sc tr =>
  let (o, tr') := m None tr in
  if overtaken sc tr' then (Cancelled, tr') else if expired sc tr then (Cancelled, tr) else (o, tr').

(** A value whose [Drop] does [d] when the future that owns it is dropped. *)
Definition dropping {A} (d : M unit) (m : M A) : M A := fun sc tr =>
  match m sc tr with
  | (Cancelled, tr) => (Cancelled, (d None tr).2)
  | o => o
  end.

(** An action of the process itself, which nothing can cancel. *)
Definition note (ev : Event) : M unit := fun _ tr => (Done (Ok tt), tr ++ [ev]).

(** A guard whose [Drop] does [ev] however the code it is alive in ends. *)
Definition guarded {A} (ev : Event) (m : M A) : M A := fun sc tr =>
  let (o, tr) := m sc tr in (o, tr ++ [ev]).

(** Values whose [Drop] does [evs] where the code returns before they are moved or
    dropped. *)
Definition on_err {A} (evs : list Event) (m : M A) : M A := fun sc tr =>
  match m sc tr with
  | (Done (Err e), tr) => (Done (Err e), tr ++ evs)
  | o => o
  end.

(** [tokio::time::timeout(d, m).await.map_err(|_| e)??]: [m] is dropped when the time is
    out, or with the caller; the time is looked at first. *)
Definition within (sc : Scope) (t0 : Trace) (d : Duration) : Scope :=
  Some (fun tr => elapsed t0 d tr || expired sc tr).
Definition timeout {A} (d : Duration) (e : Error) (m : M A) : M A := fun sc tr =>
  match m (within sc tr d) tr with
  | (Cancelled, tr') => if elapsed tr d tr' then (Done (Err e), tr') else (Cancelled, tr')
  | o => o
  end.

(** [for x in xs { f(x)?; }] *)
Fixpoint for_each {A} (f : A -> M unit) (xs : list A) : M unit :=
  match xs with
  | [] => mret tt
  | x :: xs => f x ;; for_each f xs
  end.

(** ** Laws *)

Lemma cut_expired sc tr ev : cut sc tr ev = false -> expired sc tr = false.
Proof. by intros [? _]%orb_false_iff. Qed.
(** Nobody cuts what nobody may drop. *)
Lemma cut_None tr ev : cut None tr ev = false.
Proof. reflexivity. Qed.
Lemma cut_at_cases sc tr ev : cut_at sc tr ev = tr \/ cut_at sc tr ev = tr ++ [ev].
Proof. unfold cut_at. destruct (overtaken _ _); auto. Qed.
Lemma cut_at_expired sc tr ev : cut sc tr ev = true -> expired sc (cut_at sc tr ev) = true.
Proof.
  unfold cut, cut_at. destruct (overtaken sc (tr ++ [ev])) eqn:E; [by apply andb_true_iff in E as [E _]|].
  by rewrite orb_false_r.
Qed.

Lemma perform_ok' {A} ev (f : Trace -> Result A) sc tr a tr' :
  perform ev f sc tr = (Done (Ok a), tr') -> expired sc tr = false /\ tr' = tr ++ [ev].
Proof. unfold perform. destruct (cut sc tr ev) eqn:E; [done|]. apply cut_expired in E. by intros [= _ <-]. Qed.
Lemma perform_cut {A} ev (f : Trace -> Result A) sc tr tr' :
  perform ev f sc tr = (Cancelled, tr') -> cut sc tr ev = true /\ tr' = cut_at sc tr ev.
Proof. unfold perform. by destruct (cut sc tr ev); intros [= <-]. Qed.

Lemma bind_Done {A B} (m : M A) (f : A -> M B) sc tr o tr' :
  (m ≫= f) sc tr = (o, tr') <->
    (exists a tr1, m sc tr = (Done (Ok a), tr1) /\ f a sc tr1 = (o, tr')) \/
    (exists e, m sc tr = (Done (Err e), tr') /\ o = Done (Err e)) \/
    (m sc tr = (Cancelled, tr') /\ o = Cancelled) \/
    (m sc tr = (OutOfFuel, tr') /\ o = OutOfFuel).
Proof.
  unfold mbind, M_bind. destruct (m sc tr) as [[[a|e]| |] tr1]; (split;
    [intros ?; simplify_eq; eauto 10 | intros [(?&?&?&?)|[(?&?&?)|[(?&?)|(?&?)]]]; simplify_eq; done]).
Qed.

(** Programs only add to the trace. *)
Class Extends {A} (m : M A) := extends sc tr : tr `prefix_of` (m sc tr).2.

#[export] Instance ret_extends {A} (a : A) : Extends (mret a).
Proof. intros sc tr. reflexivity. Qed.
#[export] Instance lift_extends {A} (r : Result A) : Extends (lift r).
Proof. intros sc tr. reflexivity. Qed.
#[export] Instance no_fuel_extends {A} : Extends (@no_fuel A).
Proof. intros sc tr. reflexivity. Qed.
#[export] Instance bind_extends {A B} (m : M A) (f : A -> M B) :
  Extends m -> (forall a, Extends (f a)) -> Extends (m ≫= f).
Proof.
  intros Hm Hf sc tr. unfold mbind, M_bind. pose proof (Hm sc tr) as E.
  destruct (m sc tr) as [[[a|e]| |] tr1]; try done. etrans; [exact E | apply Hf].
Qed.
#[export] Instance attempt_extends {A} (m : M A) : Extends m -> Extends (attempt m).
Proof.
  intros Hm sc tr. unfold attempt. pose proof (Hm sc tr) as E. by destruct (m sc tr) as [[ | |] ?].
Qed.
#[export] Instance with_err_extends {A} f (m : M A) : Extends m -> Extends (with_err f m).
Proof.
  intros Hm sc tr. unfold with_err. pose proof (Hm sc tr) as E. by destruct (m sc tr) as [[ | |] ?].
Qed.
#[export] Instance perform_extends {A} ev (f : Trace -> Result A) : Extends (perform ev f).
Proof.
  intros sc tr. unfold perform. case_match; cbn; [|by apply prefix_app_r].
  destruct (cut_at_cases sc tr ev) as [->| ->]; [reflexivity | by apply prefix_app_r].
Qed.
#[export] Instance invoke_extends {A} ev (f : Trace -> Result A) : Extends (invoke ev f).
Proof. intros sc tr. by apply prefix_app_r. Qed.
#[export] Instance peek_extends {A} (f : Trace -> A) : Extends (peek f).
Proof. intros sc tr. reflexivity. Qed.
#[export] Instance blocking_extends {A} (m : M A) : Extends m -> Extends (blocking m).
Proof. intros Hm sc tr. apply (Hm None). Qed.
#[export] Instance spawn_blocking_extends {A} (m : M A) : Extends m -> Extends (spawn_blocking m).
Proof.
  intros Hm sc tr. unfold spawn_blocking. pose proof (Hm None tr) as E. destruct (m None tr) as [o tr1].
  by repeat case_match.
Qed.
#[export] Instance dropping_extends {A} d (m : M A) : Extends d -> Extends m -> Extends (dropping d m).
Proof.
  intros Hd Hm sc tr. unfold dropping. pose proof (Hm sc tr) as E. destruct (m sc tr) as [[ | |] tr1]; try done.
  etrans; [exact E | apply Hd].
Qed.
#[export] Instance note_extends ev : Extends (note ev).
Proof. intros sc tr. by apply prefix_app_r. Qed.
#[export] Instance on_err_extends {A} evs (m : M A) : Extends m -> Extends (on_err evs m).
Proof.
  intros Hm sc tr. unfold on_err. specialize (Hm sc tr). destruct (m sc tr) as [[[a|e]| |] tr1]; cbn in *; try done.
  destruct Hm as [evs' ->]. rewrite <- app_assoc. by eexists.
Qed.
#[export] Instance guarded_extends {A} ev (m : M A) : Extends m -> Extends (guarded ev m).
Proof.
  intros Hm sc tr. unfold guarded. pose proof (Hm sc tr) as E. destruct (m sc tr) as [o tr1].
  etrans; [exact E | by apply prefix_app_r].
Qed.
#[export] Instance timeout_extends {A} d e (m : M A) : Extends m -> Extends (timeout d e m).
Proof.
  intros Hm sc tr. unfold timeout. pose proof (Hm (within sc tr d) tr) as E.
  destruct (m (within sc tr d) tr) as [[ | |] ?]; [done| |done]. by case_match.
Qed.
#[export] Instance for_each_extends {A} (f : A -> M unit) xs :
  (forall x, Extends (f x)) -> Extends (for_each f xs).
Proof. intros Hf. induction xs; cbn; apply _. Qed.

(** A program is cancelled only when the limit it runs under has run out. *)
Class Timely {A} (m : M A) := timely sc tr tr' : m sc tr = (Cancelled, tr') -> expired sc tr' = true.

#[export] Instance ret_timely {A} (a : A) : Timely (mret a).
Proof. by intros sc tr tr'. Qed.
#[export] Instance lift_timely {A} (r : Result A) : Timely (lift r).
Proof. by intros sc tr tr'. Qed.
#[export] Instance no_fuel_timely {A} : Timely (@no_fuel A).
Proof. by intros sc tr tr'. Qed.
#[export] Instance peek_timely {A} (f : Trace -> A) : Timely (peek f).
Proof. by intros sc tr tr'. Qed.
#[export] Instance note_timely ev : Timely (note ev).
Proof. by intros sc tr tr'. Qed.
#[export] Instance perform_timely {A} ev (f : Trace -> Result A) : Timely (perform ev f).
Proof. intros sc tr tr' [Hc ->]%perform_cut. by apply cut_at_expired. Qed.
#[export] Instance invoke_timely {A} ev (f : Trace -> Result A) : Timely (invoke ev f).
Proof. by intros sc tr tr'. Qed.
#[export] Instance bind_timely {A B} (m : M A) (f : A -> M B) :
  Timely m -> (forall a, Timely (f a)) -> Timely (m ≫= f).
Proof.
  intros Hm Hf sc tr tr'. unfold mbind, M_bind.
  destruct (m sc tr) as [[[a|e]| |] tr1] eqn:E; [apply Hf|done| |done].
  intros [= <-]. by apply (Hm sc tr).
Qed.
#[export] Instance attempt_timely {A} (m : M A) : Timely m -> Timely (attempt m).
Proof.
  intros Hm sc tr tr'. unfold attempt. destruct (m sc tr) as [[r| |] tr1] eqn:E; intros [= <-].
  by apply (Hm sc tr).
Qed.
#[export] Instance on_err_timely {A} evs (m : M A) : Timely m -> Timely (on_err evs m).
Proof.
  intros Hm sc tr tr'. unfold on_err. destruct (m sc tr) as [[[a|e]| |] tr1] eqn:E; intros [= <-].
  by apply (Hm sc tr tr1).
Qed.
#[export] Instance with_err_timely {A} f (m : M A) : Timely m -> Timely (with_err f m).
Proof.
  intros Hm sc tr tr'. unfold with_err. destruct (m sc tr) as [[r| |] tr1] eqn:E; intros [= <-].
  by apply (Hm sc tr).
Qed.
#[export] Instance timeout_timely {A} d e (m : M A) : Timely m -> Timely (timeout d e m).
Proof.
  intros Hm sc tr tr'. unfold timeout. destruct (m (within sc tr d) tr) as [[r| |] tr1] eqn:E; try done.
  apply Hm in E. cbn in E. destruct (elapsed tr d tr1) eqn:Ee; [done|]. by intros [= <-].
Qed.
#[export] Instance blocking_timely {A} (m : M A) : Timely m -> Timely (blocking m).
Proof. intros Hm sc tr tr' E. by apply (Hm None) in E. Qed.
#[export] Instance spawn_blocking_timely {A} (m : M A) : Timely m -> Timely (spawn_blocking m).
Proof.
  intros Hm sc tr tr'. unfold spawn_blocking. destruct (m None tr) as [o tr1] eqn:E.
  destruct (overtaken sc tr1) eqn:Eo; [intros [= <-]; by apply andb_true_iff in Eo as [Eo _]|].
  destruct (expired sc tr) eqn:Ee; [by intros [= <-]|]. intros [= -> <-]. by apply Hm in E.
Qed.
#[export] Instance for_each_timely {A} (f : A -> M unit) xs :
  (forall x, Timely (f x)) -> Timely (for_each f xs).
Proof. intros Hf. induction xs; cbn; apply _. Qed.

(** A program that uses up a fuel of [n] had time for as many events. *)
Class Paced {A} (n : nat) (m : M A) := paced sc tr tr' : m sc tr = (OutOfFuel, tr') ->
  n = 0%nat \/ exists mid, tr `prefix_of` mid /\ (length tr + n <= S (length mid))%nat /\ expired sc mid = false.

#[export] Instance ret_paced {A} n (a : A) : Paced n (mret a).
Proof. by intros sc tr tr'. Qed.
#[export] Instance lift_paced {A} n (r : Result A) : Paced n (lift r).
Proof. by intros sc tr tr'. Qed.
#[export] Instance no_fuel_paced {A} : Paced 0 (@no_fuel A).
Proof. intros sc tr tr' _. by left. Qed.
#[export] Instance peek_paced {A} n (f : Trace -> A) : Paced n (peek f).
Proof. by intros sc tr tr'. Qed.
#[export] Instance perform_paced {A} n ev (f : Trace -> Result A) : Paced n (perform ev f).
Proof. intros sc tr tr'. unfold perform. by destruct (cut sc tr ev). Qed.
#[export] Instance bind_paced {A B} n (m : M A) (f : A -> M B) :
  Paced n m -> Extends m -> (forall a, Paced n (f a)) -> Paced n (m ≫= f).
Proof.
  intros Hm He Hf sc tr tr' E. apply bind_Done in E as [(a & tr1 & E1 & E)|[(?&?&?)|[(?&?)|(E&_)]]]; try done.
  - specialize (He sc tr). rewrite E1 in He. apply Hf in E as [?|(mid & Hp & Hl & Hx)]; [by left|].
    right. exists mid. split; [by etrans|]. split; [|done]. apply prefix_length in He. cbn in He. lia.
  - by apply (Hm sc tr tr') in E.
Qed.
(** An event takes its share of the time. *)
#[export] Instance perform_then_paced {A B} n ev (g : Trace -> Result A) (f : A -> M B) :
  (forall a, Paced n (f a)) -> Paced (S n) (perform ev g ≫= f) | 0.
Proof.
  intros Hf sc tr tr' E. apply bind_Done in E as [(a & tr1 & E1 & E)|[(?&?&?)|[(?&?)|(E&_)]]]; try done.
  - apply perform_ok' in E1 as (Hx & ->). right.
    apply Hf in E as [->|(mid & Hp & Hl & Hm)].
    + exists tr. split; [done|]. split; [lia|done].
    + exists mid. split; [etrans; [|exact Hp]; by apply prefix_app_r|].
      rewrite length_app in Hl. cbn in Hl. split; [lia|done].
  - unfold perform in E. by destruct (cut sc tr ev).
Qed.
#[export] Instance attempt_paced {A} n (m : M A) : Paced n m -> Paced n (attempt m).
Proof.
  intros Hm sc tr tr'. unfold attempt. destruct (m sc tr) as [[r| |] tr1] eqn:E; intros [= <-].
  by apply (Hm sc tr tr1).
Qed.
#[export] Instance for_each_paced {A} n (f : A -> M unit) xs :
  (forall x, Extends (f x)) -> (forall x, Paced n (f x)) -> Paced n (for_each f xs).
Proof. intros He Hf. induction xs; cbn; apply _. Qed.
(** Programs all of whose events satisfy a test. *)
Class Emits (P : Event -> bool) {A} (m : M A) :=
  emits sc tr : exists evs, (m sc tr).2 = tr ++ evs /\ Forall (fun ev => P ev = true) evs.

Section Emits.
Context (P : Event -> bool).

Lemma emits_nil (tr : Trace) : exists evs, tr = tr ++ evs /\ Forall (fun ev => P ev = true) evs.
Proof. exists []. split; [by rewrite app_nil_r | constructor]. Qed.

#[export] Instance ret_emits {A} (a : A) : Emits P (mret a).
Proof. intros sc tr. apply emits_nil. Qed.
#[export] Instance lift_emits {A} (r : Result A) : Emits P (lift r).
Proof. intros sc tr. apply emits_nil. Qed.
#[export] Instance no_fuel_emits {A} : Emits P (@no_fuel A).
Proof. intros sc tr. apply emits_nil. Qed.
#[export] Instance peek_emits {A} (f : Trace -> A) : Emits P (peek f).
Proof. intros sc tr. apply emits_nil. Qed.
Lemma perform_emits {A} ev (f : Trace -> Result A) : P ev = true -> Emits P (perform ev f).
Proof.
  intros Hd sc tr. unfold perform. case_match; [|exists [ev]; by repeat constructor]. cbn.
  destruct (cut_at_cases sc tr ev) as [->| ->]; [apply emits_nil|]. exists [ev]. by repeat constructor.
Qed.
Lemma invoke_emits {A} ev (f : Trace -> Result A) : P ev = true -> Emits P (invoke ev f).
Proof. intros Hd sc tr. exists [ev]. by repeat constructor. Qed.
Lemma note_emits ev : P ev = true -> Emits P (note ev).
Proof. intros Hd sc tr. exists [ev]. by repeat constructor. Qed.
Lemma guarded_emits {A} ev (m : M A) : P ev = true -> Emits P m -> Emits P (guarded ev m).
Proof.
  intros Hd Hm sc tr. unfold guarded. destruct (Hm sc tr) as (evs & E & Hs).
  destruct (m sc tr) as [o tr1]. cbn in *. subst tr1. exists (evs ++ [ev]). rewrite app_assoc.
  split; [done|]. apply Forall_app. by repeat constructor.
Qed.
#[export] Instance bind_emits {A B} (m : M A) (f : A -> M B) :
  Emits P m -> (forall a, Emits P (f a)) -> Emits P (m ≫= f).
Proof.
  intros Hm Hf sc tr. unfold mbind, M_bind. destruct (Hm sc tr) as (evs & E & Hs).
  destruct (m sc tr) as [[[a|e]| |] tr1]; cbn in E; subst; [|by exists evs..].
  destruct (Hf a sc (tr ++ evs)) as (evs' & -> & Hs'). exists (evs ++ evs').
  split; [by rewrite app_assoc | by apply Forall_app].
Qed.
Lemma on_err_emits {A} evs (m : M A) : Forall (fun ev => P ev = true) evs -> Emits P m -> Emits P (on_err evs m).
Proof.
  intros Hd Hm sc tr. unfold on_err. destruct (Hm sc tr) as (evs' & E & Hs).
  destruct (m sc tr) as [[[a|e]| |] tr1]; cbn in *; subst tr1; [by exists evs'| |by exists evs'..].
  exists (evs' ++ evs). rewrite app_assoc. split; [done|]. by apply Forall_app.
Qed.
#[export] Instance attempt_emits {A} (m : M A) : Emits P m -> Emits P (attempt m).
Proof. intros Hm sc tr. unfold attempt. specialize (Hm sc tr). by destruct (m sc tr) as [[ | |] ?]. Qed.
#[export] Instance with_err_emits {A} f (m : M A) : Emits P m -> Emits P (with_err f m).
Proof. intros Hm sc tr. unfold with_err. specialize (Hm sc tr). by destruct (m sc tr) as [[ | |] ?]. Qed.
#[export] Instance timeout_emits {A} d e (m : M A) : Emits P m -> Emits P (timeout d e m).
Proof.
  intros Hm sc tr. unfold timeout. specialize (Hm (within sc tr d) tr).
  destruct (m (within sc tr d) tr) as [[ | |] ?]; [done| |done]. by case_match.
Qed.
#[export] Instance blocking_emits {A} (m : M A) : Emits P m -> Emits P (blocking m).
Proof. intros Hm sc tr. apply (Hm None). Qed.
#[export] Instance spawn_blocking_emits {A} (m : M A) : Emits P m -> Emits P (spawn_blocking m).
Proof.
  intros Hm sc tr. unfold spawn_blocking. specialize (Hm None tr). destruct (m None tr) as [o tr1].
  repeat case_match; [done|apply emits_nil|done].
Qed.
#[export] Instance dropping_emits {A} d (m : M A) : Emits P d -> Emits P m -> Emits P (dropping d m).
Proof.
  intros Hd Hm sc tr. unfold dropping. destruct (Hm sc tr) as (evs & E & Hs).
  destruct (m sc tr) as [[ | |] tr1]; cbn in E; subst; [by exists evs| |by exists evs].
  cbn. destruct (Hd None (tr ++ evs)) as (evs' & -> & Hs'). exists (evs ++ evs').
  split; [by rewrite app_assoc | by apply Forall_app].
Qed.
#[export] Instance for_each_emits {A} (f : A -> M unit) xs :
  (forall x, Emits P (f x)) -> Emits P (for_each f xs).
Proof. intros Hf. induction xs; cbn; apply _. Qed.
End Emits.

Lemma emits_weaken {A} (P Q : Event -> bool) (m : M A) :
  Emits P m -> (forall ev, P ev = true -> Q ev = true) -> Emits Q m.
Proof.
  intros Hm HQ sc tr. destruct (Hm sc tr) as (evs & E & Hs). exists evs. split; [done|].
  eapply Forall_impl; [exact Hs | intros ev; apply HQ].
Qed.

(** Programs that delete nothing: no request they send is a [DELETE], no message
    a [containerDelete]. *)
Definition deletes (ev : Event) : bool :=
  match ev with
  | EvRequest r _ => bool_decide (r.(req_method) = lit "DELETE")
  | EvXpc m => bool_decide (m.(xpc_route) = lit "containerDelete")
  | _ => false
  end.
Definition spared (evs : Trace) : Prop := Forall (fun ev => deletes ev = false) evs.
Definition harmless (ev : Event) : bool := negb (deletes ev).

Lemma spares {A} {m : M A} `{!Emits harmless m} sc tr : exists evs, (m sc tr).2 = tr ++ evs /\ spared evs.
Proof.
  destruct (emits (P := harmless) (m := m) sc tr) as (evs & E & Hs). exists evs. split; [done|].
  eapply Forall_impl; [exact Hs | intros ev; apply negb_true_iff].
Qed.
End Programs.

Abbreviation Spares := (Emits harmless).

(** The laws pass through the branches of a program. *)
#[export] Hint Extern 5 (Paced _ (match ?x with _ => _ end)) => destruct x : typeclass_instances.
#[export] Hint Extern 4 (Paced _ (fail _)) => apply lift_paced : typeclass_instances.
#[export] Hint Extern 4 (Paced _ (send_request _ _)) => apply perform_paced : typeclass_instances.
#[export] Hint Extern 4 (Paced _ (sleep _)) => apply perform_paced : typeclass_instances.
#[export] Hint Extern 0 (Paced (S _) (sleep _ ≫= _)) => apply perform_then_paced; intros ? : typeclass_instances.
#[export] Hint Extern 5 (Extends (match ?x with _ => _ end)) => destruct x : typeclass_instances.
#[export] Hint Extern 5 (Timely (match ?x with _ => _ end)) => destruct x : typeclass_instances.
#[export] Hint Extern 4 (Extends (fail _)) => apply lift_extends : typeclass_instances.
#[export] Hint Extern 4 (Timely (fail _)) => apply lift_timely : typeclass_instances.
#[export] Hint Extern 4 (Extends (send_request _ _)) => apply perform_extends : typeclass_instances.
#[export] Hint Extern 4 (Timely (send_request _ _)) => apply perform_timely : typeclass_instances.
#[export] Hint Extern 4 (Extends (sleep _)) => apply perform_extends : typeclass_instances.
#[export] Hint Extern 4 (Timely (sleep _)) => apply perform_timely : typeclass_instances.

#[export] Hint Extern 5 (Emits _ (match ?x with _ => _ end)) => destruct x : typeclass_instances.
#[export] Hint Extern 4 (Emits _ (fail _)) => apply lift_emits : typeclass_instances.
#[export] Hint Extern 4 (Emits _ (perform _ _)) => apply perform_emits; reflexivity : typeclass_instances.
#[export] Hint Extern 4 (Emits _ (invoke _ _)) => apply invoke_emits; reflexivity : typeclass_instances.
#[export] Hint Extern 4 (Emits _ (send_request _ _)) => apply perform_emits; reflexivity : typeclass_instances.
#[export] Hint Extern 4 (Emits _ (sleep _)) => apply perform_emits; reflexivity : typeclass_instances.
#[export] Hint Extern 4 (Emits _ (on_err _ _)) => apply on_err_emits; [repeat constructor|] : typeclass_instances.
#[export] Hint Extern 4 (Emits _ (guarded _ _)) => apply guarded_emits; [reflexivity|] : typeclass_instances.
#[export] Hint Extern 4 (Emits _ (note _)) => apply note_emits; reflexivity : typeclass_instances.

(** ** Runs that succeed *)

(** One step of a run, by how it ends. *)
Lemma bind_step {A B} (m : M A) (f : A -> M B) sc tr a tr1 :
  m sc tr = (Done (Ok a), tr1) -> (m ≫= f) sc tr = f a sc tr1.
Proof. unfold mbind, M_bind. by intros ->. Qed.
Lemma bind_stop {A B} (m : M A) (f : A -> M B) sc tr e tr1 :
  m sc tr = (Done (Err e), tr1) -> (m ≫= f) sc tr = (Done (Err e), tr1).
Proof. unfold mbind, M_bind. by intros ->. Qed.
Lemma attempt_run {A} (m : M A) sc tr r tr1 :
  m sc tr = (Done r, tr1) -> attempt m sc tr = (Done (Ok r), tr1).
Proof. unfold attempt. by intros ->. Qed.

Lemma bind_ok {A B} (m : M A) (f : A -> M B) sc tr b tr' :
  (m ≫= f) sc tr = (Done (Ok b), tr') <->
    exists a tr1, m sc tr = (Done (Ok a), tr1) /\ f a sc tr1 = (Done (Ok b), tr').
Proof.
  unfold mbind, M_bind. destruct (m sc tr) as [[[a|e]| |] tr1]; split;
    first [intros E; eauto; discriminate E | intros (? & ? & ? & ?); congruence].
Qed.

Lemma lift_ok {A} (r : Result A) sc tr a tr' :
  lift r sc tr = (Done (Ok a), tr') <-> r = Ok a /\ tr' = tr.
Proof. unfold lift. split; [intros [= -> ->]; done | by intros [-> ->]]. Qed.

Lemma mret_ok {A} (a b : A) (sc : Scope) tr tr' :
  (mret a : M A) sc tr = (Done (Ok b), tr') <-> a = b /\ tr' = tr.
Proof. unfold mret, M_ret. split; [intros [= -> ->]; done | by intros [-> ->]]. Qed.

Lemma perform_ok `{Host} {A} ev (f : Trace -> Result A) sc tr a tr' :
  perform ev f sc tr = (Done (Ok a), tr') <->
    cut sc tr ev = false /\ f tr = Ok a /\ tr' = tr ++ [ev].
Proof. 
  unfold perform. destruct (cut sc tr ev); split.
  - intros [=].
  - intros ([=] & _).
  - intros [= E <-]. done.
  - by intros (_ & -> & ->).
Qed.

Lemma peek_ok {A} (f : Trace -> A) sc tr a tr' :
  peek f sc tr = (Done (Ok a), tr') <-> a = f tr /\ tr' = tr.
Proof. unfold peek. split; [by intros [= -> ->] | by intros [-> ->]]. Qed.

Lemma note_ok ev sc tr tr' :
  note ev sc tr = (Done (Ok tt), tr') <-> tr' = tr ++ [ev].
Proof. unfold note. split; [by intros [= ->] | by intros ->]. Qed.

Lemma attempt_ok {A} (m : M A) sc tr r tr' :
  attempt m sc tr = (Done (Ok r), tr') <-> m sc tr = (Done r, tr').
Proof. unfold attempt. destruct (m sc tr) as [[x| |] tr1]; split; congruence. Qed.

Lemma attempt_inv {A} (m : M A) sc tr r tr' :
  attempt m sc tr = (Done (Ok r), tr') -> m sc tr = (Done r, tr').
Proof. apply attempt_ok. Qed.

Lemma timeout_ok `{Host} {A} d e (m : M A) sc tr a tr' :
  timeout d e m sc tr = (Done (Ok a), tr') <-> m (within sc tr d) tr = (Done (Ok a), tr').
Proof.
  unfold timeout. destruct (m (within sc tr d) tr) as [[x| |] tr1]; [done| |done]. case_match; split; congruence.
Qed.

(** What a program that is owned by its caller, or runs in a blocking thread, gave. *)
Lemma spawn_blocking_done `{Host} {A} (m : M A) sc tr r tr' :
  spawn_blocking m sc tr = (Done r, tr') -> m None tr = (Done r, tr').
Proof. unfold spawn_blocking. destruct (m None tr) as [o tr1]. by repeat case_match; intros [= -> ->]. Qed.
Lemma spawn_blocking_None `{Host} {A} (m : M A) tr : spawn_blocking m None tr = m None tr.
Proof. unfold spawn_blocking. by destruct (m None tr). Qed.
(** How the await of a blocking thread ends: with what the thread came to, or cut. *)
Lemma spawn_blocking_cases `{Host} {A} (m : M A) sc tr o tr' :
  spawn_blocking m None tr = (o, tr') ->
  spawn_blocking m sc tr = (o, tr') \/
  (expired sc tr = true /\ spawn_blocking m sc tr = (Cancelled, tr)) \/
  (expired sc tr' = true /\ spawn_blocking m sc tr = (Cancelled, tr')).
Proof.
  rewrite spawn_blocking_None. unfold spawn_blocking. intros ->. destruct (overtaken sc tr') eqn:E.
  - apply andb_true_iff in E as [E _]. auto.
  - destruct (expired sc tr) eqn:Ee; auto.
Qed.
Lemma dropping_done `{Host} {A} d (m : M A) sc tr r tr' :
  dropping d m sc tr = (Done r, tr') <-> m sc tr = (Done r, tr').
Proof. unfold dropping. destruct (m sc tr) as [[x| |] tr1]; split; congruence. Qed.

Lemma with_err_ok {A} f (m : M A) sc tr a tr' :
  with_err f m sc tr = (Done (Ok a), tr') <-> m sc tr = (Done (Ok a), tr').
Proof. unfold with_err. destruct (m sc tr) as [[[x|e]| |] tr1]; split; cbn; congruence. Qed.

Lemma fail_ok {A} (e : Error) sc tr (a : A) tr' : fail e sc tr = (Done (Ok a), tr') <-> False.
Proof. split; [intros [=] | done]. Qed.

(** Open a successful run. *)
Ltac run_ok H :=
  repeat first
    [ apply bind_ok in H as (? & ? & ?Hstep & H); cbv beta zeta in H
    | apply fail_ok in H; destruct H
    | match type of H with
      | (if ?b then _ else _) _ _ = _ => destruct b eqn:?
      | (let '(_, _) := ?p in _) _ _ = _ => destruct p eqn:?
      end ];
  repeat match goal with
  | E : lift _ _ _ = (Done (Ok _), _) |- _ => apply lift_ok in E as [E ?]; subst
  | E : with_err _ _ _ _ = (Done (Ok _), _) |- _ => apply with_err_ok in E
  | E : perform _ _ _ _ = (Done (Ok _), _) |- _ => apply perform_ok in E as (? & E & ?); subst
  | E : send_request _ _ _ _ = (Done (Ok _), _) |- _ => apply perform_ok in E as (? & E & ?); subst
  | E : sleep _ _ _ = (Done (Ok _), _) |- _ => apply perform_ok in E as (? & E & ?); subst
  | E : mret _ _ _ = (Done (Ok _), _) |- _ => apply mret_ok in E as [E ?]; subst
  end.

(** ** A host that answers from a script, used to evaluate programs *)

Definition is_request (e : Event) : bool := match e with EvRequest _ _ => true | _ => false end.
Definition requests (tr : Trace) : nat := length (List.filter is_request tr).

Definition script_host (answers : list (Result Response)) : Host := {|
  send tr _ _ := nth (requests tr) answers (Err (other (lit "connection refused")));
  open_logs tr _ := Ok 0%nat;
  probe _ _ _ _ := Err (lit "connection refused");
  elapsed _ _ _ := false;
  in_flight _ := false;
  log_read _ _ _ := Ok [];
  logs_terminated _ _ := false;
  logs_all_done _ _ := true;
  exit_code_hint _ := None;
  clock _ := 0;
  xpc_connect _ _ := false;
  xpc _ _ := NoReply;
  read_file _ _ := Err (mkIoError NotFound (lit "No such file or directory"));
  file_op _ _ := Ok tt;
  is_dir _ _ := false;
  is_file _ _ := false;
  wait_generation _ := 0;
|}.

Definition answer (status : Z) (text : str) : Result Response := Ok (mkResponse status (Some text)).

(** Follow a run through a sequence of binds, one case per way a step can end. *)
Ltac run H :=
  repeat match type of H with
  | (_ ≫= _) _ _ = (_, _) =>
      apply bind_Done in H as
        [(? & ? & ?Hstep & H)|[(? & ?Hstep & ?Hout)|[(?Hstep & ?Hout)|(?Hstep & ?Hout)]]]
  end.
