(* ===== verification/Rollback.v ===== *)
(** * Cleaning up after a failure

    What a start owes once its container exists, for both back ends: a program
    that [guards] the container deletes nothing while it works, and when it fails
    leaves the events a cleaning allows.  What cleaning means is the parameter. *)

From S2P Require Import Prelude Errors Effect.

(** The events of a trace that delete. *)
Definition deletions (evs : Trace) : Trace := List.filter deletes evs.

Lemma deletions_app evs evs' : deletions (evs ++ evs') = deletions evs ++ deletions evs'.
Proof. apply List.filter_app. Qed.

Lemma deletions_spared evs : spared evs <-> deletions evs = [].
Proof.
  unfold spared, deletions. split.
  - induction 1 as [|ev evs E _ IH]; [done|]. cbn. by rewrite E.
  - induction evs as [|ev evs IH]; cbn; [by constructor|].
    destruct (deletes ev) eqn:E; [done|]. intros Hs. by constructor; [|apply IH].
Qed.

(** ** Programs that are not cancelled from inside *)

Section Steady.
Context `{Host}.

Class Steady {A} (m : M A) := steady tr tr' : m None tr <> (Cancelled, tr').

#[export] Instance timely_steady {A} (m : M A) : Timely m -> Steady m | 100.
Proof. intros Hm tr tr' E. by apply Hm in E. Qed.
#[export] Instance bind_steady {A B} (m : M A) (f : A -> M B) :
  Steady m -> (forall a, Steady (f a)) -> Steady (m ≫= f).
Proof.
  intros Hm Hf tr tr'. unfold mbind, M_bind. destruct (m None tr) as [[[a|e]| |] tr1] eqn:E; [apply Hf|done| |done].
  by apply Hm in E.
Qed.
#[export] Instance attempt_steady {A} (m : M A) : Steady m -> Steady (attempt m).
Proof.
  intros Hm tr tr'. unfold attempt. destruct (m None tr) as [[r| |] tr1] eqn:E; [done| |done]. by apply Hm in E.
Qed.
#[export] Instance guarded_steady {A} ev (m : M A) : Steady m -> Steady (guarded ev m).
Proof.
  intros Hm tr tr'. unfold guarded. destruct (m None tr) as [o tr1] eqn:E. intros [= -> _]. by apply Hm in E.
Qed.
#[export] Instance for_each_steady {A} (f : A -> M unit) xs : (forall x, Steady (f x)) -> Steady (for_each f xs).
Proof. intros Hf. induction xs; cbn; apply _. Qed.

(** Nobody drops the owner when nobody may. *)
Lemma dropping_run {A} d (m : M A) `{!Steady m} tr : dropping d m None tr = m None tr.
Proof. unfold dropping. destruct (m None tr) as [[r| |] tr1] eqn:E; [done| |done]. by apply steady in E. Qed.
#[export] Instance dropping_steady {A} d (m : M A) : Steady m -> Steady (dropping d m).
Proof. intros Hm tr tr'. rewrite dropping_run by done. apply Hm. Qed.
#[export] Instance blocking_steady {A} (m : M A) : Steady m -> Steady (blocking m).
Proof. intros Hm tr tr'. apply Hm. Qed.

(** A program that deletes nothing, run without a time limit: its events, and no cancellation. *)
Lemma spares_run {A} (m : M A) `{!Spares m, !Steady m} tr :
  exists o evs, m None tr = (o, tr ++ evs) /\ spared evs /\ o <> Cancelled.
Proof.
  destruct (spares (m := m) None tr) as (evs & E & Hs). exists (m None tr).1, evs.
  split; [by rewrite <- E, <- surjective_pairing|]. split; [done|]. intros Ec.
  apply (steady (m := m) tr (m None tr).2). by rewrite <- Ec, <- surjective_pairing.
Qed.
End Steady.

#[export] Hint Extern 5 (Steady (match ?x with _ => _ end)) => destruct x : typeclass_instances.

(** ** Programs that guard a container *)

(** Events after a trace that are clean up, however much was done before them. *)
Class Cleaning (cleaned : Trace -> Trace -> Prop) :=
  cleaned_after tr evs evs' : spared evs -> cleaned (tr ++ evs) evs' -> cleaned tr (evs ++ evs').

Section Guards.
Context `{Host} (cleaned : Trace -> Trace -> Prop) `{!Cleaning cleaned}.

(** A program that runs after the container came to be and cleans up when it
    fails; its results satisfy [Q]. *)
Definition guards {A} (m : M A) (Q : A -> Prop) : Prop := forall tr,
  match m None tr with
  | (Done (Ok a), tr') => Q a /\ exists evs, tr' = tr ++ evs /\ spared evs
  | (Done (Err e), tr') => exists evs, tr' = tr ++ evs /\ cleaned tr evs
  | (Cancelled, _) => False
  | (OutOfFuel, _) => True
  end.

Lemma guards_bind {A B} (m : M A) (f : A -> M B) Q Q' :
  guards m Q -> (forall a, Q a -> guards (f a) Q') -> guards (m ≫= f) Q'.
Proof.
  intros Hm Hf tr. unfold mbind, M_bind. specialize (Hm tr).
  destruct (m None tr) as [[[a|e]| |] tr1]; [|done..]. destruct Hm as (HQ & evs & -> & Hs).
  specialize (Hf a HQ (tr ++ evs)). destruct (f a None (tr ++ evs)) as [[[b|e]| |] tr2]; [| |done..].
  - destruct Hf as (HQ' & evs' & -> & Hs'). split; [done|]. exists (evs ++ evs').
    rewrite app_assoc. split; [done|]. by apply Forall_app.
  - destruct Hf as (evs' & -> & Hc). exists (evs ++ evs'). rewrite app_assoc. split; [done|].
    by apply cleaned_after.
Qed.

Lemma guards_ret {A} (a : A) (Q : A -> Prop) : Q a -> guards (mret a) Q.
Proof. intros HQ tr. split; [done|]. exists []. rewrite app_nil_r. by split; [|constructor]. Qed.

Lemma guards_weaken {A} (m : M A) (Q Q' : A -> Prop) : guards m Q -> (forall a, Q a -> Q' a) -> guards m Q'.
Proof.
  intros Hm HQ tr. specialize (Hm tr). destruct (m None tr) as [[[a|e]| |] tr']; [|done..].
  destruct Hm as [? ?]. by split; [apply HQ|].
Qed.

Lemma guards_note ev : deletes ev = false -> guards (note ev) (fun _ => True).
Proof. intros Hd tr. split; [done|]. exists [ev]. by repeat constructor. Qed.

(** A program that deletes nothing, followed by [f] whether it worked or not. *)
Lemma guards_attempt {A B} (m : M A) (f : Result A -> M B) Q `{!Spares m, !Steady m} :
  (forall r, guards (f r) Q) -> guards (attempt m ≫= f) Q.
Proof.
  intros Hf. eapply (guards_bind _ _ (fun _ => True)); [|by intros r _; apply Hf].
  intros tr. destruct (spares_run m tr) as (o & evs & E & Hs & Ho). unfold attempt. rewrite E.
  destruct o; [|done..]. split; [done|]. by exists evs.
Qed.

(** The same while the program owns a value: a drop of its caller is not its failure. *)
Lemma guards_dropping {A B} d (m : M A) (f : Result A -> M B) Q `{!Spares m, !Steady m} :
  (forall r, guards (f r) Q) -> guards (attempt (dropping d m) ≫= f) Q.
Proof.
  intros Hf tr. pose proof (guards_attempt m f Q Hf tr) as Hg.
  unfold mbind, M_bind, attempt in *. by rewrite dropping_run.
Qed.

(** A program that adds the events [evs tr] and then fails. *)
Lemma guards_fail {A} (m : M unit) e (evs : Trace -> Trace) (Q : A -> Prop) :
  (forall tr, m None tr = (Done (Ok tt), tr ++ evs tr)) -> (forall tr, cleaned tr (evs tr)) ->
  guards (m ;; fail e) Q.
Proof. intros Hm Hc tr. rewrite (bind_step _ _ _ _ _ _ (Hm tr)). by exists (evs tr). Qed.
End Guards.

(** A start: a preparation that deletes nothing, then what guards the container
    it made. *)
Lemma guards_start `{Host} {A B} (cleaned : A -> Trace -> Trace -> Prop) (made : M A) (launch : A -> M B)
    (P : A -> Prop) (Q : A -> B -> Prop) `{!Spares made, !Steady made} tr :
  (forall a tr', made None tr = (Done (Ok a), tr') -> P a) ->
  (forall a, P a -> guards (cleaned a) (launch a) (Q a)) ->
  match (made ≫= launch) None tr with
  | (Done (Ok c), tr') => exists a created evs, made None tr = (Done (Ok a), created) /\ Q a c /\
      tr' = created ++ evs /\ deletions evs = []
  | (Done (Err e), tr') =>
      (made None tr = (Done (Err e), tr') /\ exists evs, tr' = tr ++ evs /\ deletions evs = []) \/
      (exists a created evs, made None tr = (Done (Ok a), created) /\
         tr' = created ++ evs /\ cleaned a created evs)
  | (Cancelled, _) => False
  | (OutOfFuel, _) => True
  end.
Proof.
  intros HP Hl. unfold mbind, M_bind. destruct (spares_run made tr) as (o & evs & E & Hs & Ho).
  rewrite E. apply deletions_spared in Hs. destruct o as [[a|e]| |]; [| |done..].
  - specialize (Hl a (HP _ _ E) (tr ++ evs)).
    destruct (launch a None (tr ++ evs)) as [[[c|e]| |] tr']; [| |done..].
    + destruct Hl as (HQ & evs' & -> & Hs'%deletions_spared). by exists a, (tr ++ evs), evs'.
    + destruct Hl as (evs' & -> & Hc). right. by exists a, (tr ++ evs), evs'.
  - left. split; [done|]. by exists evs.
Qed.
