(* ===== verification/Wait.v ===== *)
(** * Wait conditions ([src/src/core/wait/])

    The condition types of [mod.rs], [cmd_wait.rs], [health_strategy.rs],
    [exit_strategy.rs] and [http_strategy.rs] with their builders, and the HTTP
    request an HTTP wait sends.  The waiting loops, which poll a container,
    are in [Container.v]; the log wait is [LogWait.v]. *)

From S2P Require Import Prelude BTree Utf8 Ports Errors Env Http HttpDecode LogLine LogWait Effect.
From S2P Require Import RegistryAuth.

(** ** The completion of an exec ([cmd_wait.rs]) *)

Inductive CmdWaitFor :=
| CmdNothing
| StdOutMessage (message : list byte)
| StdErrMessage (message : list byte)
| CmdDuration (length : Duration)
| CmdExit (code : option Z).

Definition cmd_message_on_stdout (message : list byte) : CmdWaitFor := StdOutMessage message.
Definition cmd_message_on_stderr (message : list byte) : CmdWaitFor := StdErrMessage message.
Definition exit_any : CmdWaitFor := CmdExit None.
Definition exit_code (code : Z) : CmdWaitFor := CmdExit (Some code).
Definition cmd_seconds (length : Z) : CmdWaitFor := CmdDuration (from_secs length).
Definition cmd_millis (length : Z) : CmdWaitFor := CmdDuration (from_millis length).

(** ** Health and exit ([health_strategy.rs], [exit_strategy.rs]) *)

Record HealthWaitStrategy := mkHealthWait { health_poll_interval : Duration }.
Definition HealthWaitStrategy_new : HealthWaitStrategy := mkHealthWait (from_millis 100).
Definition health_with_poll_interval (s : HealthWaitStrategy) (d : Duration) : HealthWaitStrategy :=
  mkHealthWait d.

Record ExitWaitStrategy := mkExitWait {
  expected_code : option Z;
  exit_poll_interval : Duration;
}.
Definition ExitWaitStrategy_new : ExitWaitStrategy := mkExitWait None (from_millis 100).
Definition exit_with_poll_interval (s : ExitWaitStrategy) (d : Duration) : ExitWaitStrategy :=
  mkExitWait s.(expected_code) d.
Definition with_exit_code (s : ExitWaitStrategy) (code : Z) : ExitWaitStrategy :=
  mkExitWait (Some code) s.(exit_poll_interval).

(** ** HTTP ([http_strategy.rs]) *)

Definition DEFAULT_REQUEST_TIMEOUT : Duration := from_secs 10.
Definition MAX_HTTP_RESPONSE_BODY_BYTES : Z := 1024 * 1024.

(** [HttpResponse::header]: the first value, the name's case ignored. *)
Definition header (r : HttpResponse) (name : str) : option str :=
  snd <$> List.find (fun kv => eq_ignore_ascii_case kv.1 name) r.(resp_headers).

Inductive Auth :=
| Basic (username password : str)
| Bearer (token : str).

Record HttpWaitStrategy := mkHttpWait {
  path : str;
  port : option ContainerPort;
  method : str;
  headers : list (str * str);
  http_body : option (list byte);
  auth : option Auth;
  response_matcher : option (HttpResponse -> bool);
  poll_interval : Duration;
  request_timeout : Duration;
}.

Definition HttpWaitStrategy_new (p : str) : HttpWaitStrategy :=
  mkHttpWait p None (lit "GET") [] None None None (from_millis 100) DEFAULT_REQUEST_TIMEOUT.

Definition with_port (s : HttpWaitStrategy) (p : ContainerPort) : HttpWaitStrategy :=
  mkHttpWait s.(path) (Some p) s.(method) s.(headers) s.(http_body) s.(auth) s.(response_matcher)
    s.(poll_interval) s.(request_timeout).
Definition with_method (s : HttpWaitStrategy) (m : str) : HttpWaitStrategy :=
  mkHttpWait s.(path) s.(port) m s.(headers) s.(http_body) s.(auth) s.(response_matcher)
    s.(poll_interval) s.(request_timeout).
Definition with_header (s : HttpWaitStrategy) (key value : str) : HttpWaitStrategy :=
  mkHttpWait s.(path) s.(port) s.(method) (s.(headers) ++ [(key, value)]) s.(http_body) s.(auth)
    s.(response_matcher) s.(poll_interval) s.(request_timeout).
Definition with_body (s : HttpWaitStrategy) (b : list byte) : HttpWaitStrategy :=
  mkHttpWait s.(path) s.(port) s.(method) s.(headers) (Some b) s.(auth) s.(response_matcher)
    s.(poll_interval) s.(request_timeout).
Definition with_basic_auth (s : HttpWaitStrategy) (username password : str) : HttpWaitStrategy :=
  mkHttpWait s.(path) s.(port) s.(method) s.(headers) s.(http_body) (Some (Basic username password))
    s.(response_matcher) s.(poll_interval) s.(request_timeout).
Definition with_bearer_auth (s : HttpWaitStrategy) (token : str) : HttpWaitStrategy :=
  mkHttpWait s.(path) s.(port) s.(method) s.(headers) s.(http_body) (Some (Bearer token))
    s.(response_matcher) s.(poll_interval) s.(request_timeout).
Definition http_with_poll_interval (s : HttpWaitStrategy) (d : Duration) : HttpWaitStrategy :=
  mkHttpWait s.(path) s.(port) s.(method) s.(headers) s.(http_body) s.(auth) s.(response_matcher)
    d s.(request_timeout).
Definition with_request_timeout (s : HttpWaitStrategy) (d : Duration) : HttpWaitStrategy :=
  mkHttpWait s.(path) s.(port) s.(method) s.(headers) s.(http_body) s.(auth) s.(response_matcher)
    s.(poll_interval) d.
Definition with_response_matcher (s : HttpWaitStrategy) (f : HttpResponse -> bool) : HttpWaitStrategy :=
  mkHttpWait s.(path) s.(port) s.(method) s.(headers) s.(http_body) s.(auth) (Some f)
    s.(poll_interval) s.(request_timeout).
Definition with_expected_status_code (s : HttpWaitStrategy) (code : Z) : HttpWaitStrategy :=
  with_response_matcher s (fun response => response.(status) =? code).

Definition is_some {A} (o : option A) : bool := match o with Some _ => true | None => false end.

Definition is_reserved_header (s : HttpWaitStrategy) (name : str) : bool :=
  eq_ignore_ascii_case name (lit "Host")
  || eq_ignore_ascii_case name (lit "Connection")
  || (is_some s.(http_body) && eq_ignore_ascii_case name (lit "Content-Length"))
  || (is_some s.(auth) && eq_ignore_ascii_case name (lit "Authorization")).

Definition host_header (host : str) (p : Z) : str :=
  if contains ":" host then lit "[" ++ host ++ lit "]:" ++ show_nat p
  else host ++ lit ":" ++ show_nat p.

(** What the code uses of [shiguredo_http11] to build a request: the checks of
    [Method::new], [Request::new], [HeaderName::new] and [Request::header], and
    [encode], which adds the [Content-Length] of a body. *)
Class HttpEncoder := {
  method_new : str -> result str unit;
  request_new : str -> str -> result str unit;
  header_name_new : str -> result str unit;
  set_header : str -> str -> result str unit;
  encode : HttpRequest -> result str (list byte);
}.

Section Build.
Context `{HttpEncoder} `{Base64}.

Definition request_build {A} (r : result str A) : result HttpWaitError A := map_err RequestBuild r.

(** The loop over the user's headers: reserved names are skipped. *)
Fixpoint user_headers (s : HttpWaitStrategy) (hs acc : list (str * str))
    : result HttpWaitError (list (str * str)) :=
  match hs with
  | [] => Ok acc
  | (name, value) :: hs =>
      if is_reserved_header s name then user_headers s hs acc
      else
        map_err (fun _ => RequestBuild (lit "invalid header name: " ++ name)) (header_name_new name) ;;
        map_err (fun _ => RequestBuild (lit "failed to set header `" ++ name ++ lit "`"))
                (set_header name value) ;;
        user_headers s hs (acc ++ [(name, value)])
  end.

Definition auth_value (a : Auth) : str :=
  match a with
  | Basic username password =>
      lit "Basic " ++ encode_string (username ++ lit ":" ++ password)
  | Bearer token => lit "Bearer " ++ token
  end.

Definition auth_header (s : HttpWaitStrategy) (acc : list (str * str))
    : result HttpWaitError (list (str * str)) :=
  match s.(auth) with
  | Some a =>
      map_err (fun _ => RequestBuild (lit "failed to set Authorization header"))
              (set_header (lit "Authorization") (auth_value a)) ;;
      Ok (acc ++ [(lit "Authorization", auth_value a)])
  | None => Ok acc
  end.

Definition build_request (s : HttpWaitStrategy) (host : str) (p : Z)
    : result HttpWaitError HttpRequest :=
  request_build (method_new s.(method)) ;;
  request_build (request_new s.(method) s.(path)) ;;
  request_build (set_header (lit "Host") (host_header host p)) ;;
  request_build (set_header (lit "Connection") (lit "close")) ;;
  hs ← user_headers s s.(headers) [(lit "Host", host_header host p); (lit "Connection", lit "close")];
  hs ← auth_header s hs;
  Ok (mkRequest s.(method) s.(path) hs s.(http_body)).

Definition build_request_bytes (s : HttpWaitStrategy) (host : str) (p : Z)
    : result HttpWaitError (list byte) :=
  req ← build_request s host p; request_build (encode req).

(** How often a request carries a header. *)
Definition header_count (name : str) (hs : list (str * str)) : nat :=
  length (List.filter (fun kv => eq_ignore_ascii_case kv.1 name) hs).

Lemma header_count_app name a b :
  header_count name (a ++ b) = (header_count name a + header_count name b)%nat.
Proof. unfold header_count. by rewrite List.filter_app, length_app. Qed.

Lemma user_headers_filter s hs acc r :
  user_headers s hs acc = Ok r ->
  r = acc ++ List.filter (fun kv => negb (is_reserved_header s kv.1)) hs.
Proof.
  revert acc. induction hs as [|[n v] hs IH]; cbn; intros acc.
  - intros [= <-]. by rewrite app_nil_r.
  - destruct (is_reserved_header s n); cbn; [apply IH|].
    intros E. inv_ok E. apply IH in E. by rewrite E, <- app_assoc.
Qed.

Definition auth_headers (s : HttpWaitStrategy) : list (str * str) :=
  match s.(auth) with Some a => [(lit "Authorization", auth_value a)] | None => [] end.

Lemma auth_header_app s acc r : auth_header s acc = Ok r -> r = acc ++ auth_headers s.
Proof.
  unfold auth_header, auth_headers. destruct (auth s); intros E.
  - inv_ok E. congruence.
  - rewrite app_nil_r. congruence.
Qed.

Lemma build_request_headers s host p req :
  build_request s host p = Ok req ->
  req.(req_headers) = [(lit "Host", host_header host p); (lit "Connection", lit "close")]
    ++ List.filter (fun kv => negb (is_reserved_header s kv.1)) s.(headers) ++ auth_headers s.
Proof.
  unfold build_request. intros E. inv_ok E.
  match goal with Hu : user_headers _ _ _ = Ok ?u, Ha : auth_header _ ?u = Ok ?h |- _ =>
    apply user_headers_filter in Hu; apply auth_header_app in Ha; subst u h end.
  apply (inj Ok) in E. rewrite <- E. cbn [req_headers]. by rewrite <- app_assoc.
Qed.

Lemma reserved_not_kept s name hs :
  (forall n, eq_ignore_ascii_case n name = true -> is_reserved_header s n = true) ->
  header_count name (List.filter (fun kv => negb (is_reserved_header s kv.1)) hs) = 0%nat.
Proof.
  intros Hr. unfold header_count. induction hs as [|[n v] hs IH]; [done|]. cbn.
  destruct (is_reserved_header s n) eqn:E; cbn; [done|].
  destruct (eq_ignore_ascii_case n name) eqn:En; [|done]. apply Hr in En. congruence.
Qed.
End Build.

(** Whatever headers the user sets, the request of an HTTP wait has one
    [Host] header, the one of the address it is sent to, and one
    [Connection: close]; with credentials it has one [Authorization], theirs,
    and with a body no [Content-Length] of the user's. *)
Theorem build_request_reserved `{HttpEncoder} `{Base64} (s : HttpWaitStrategy) host p req :
  build_request s host p = Ok req ->
  header_count (lit "Host") req.(req_headers) = 1%nat /\
  (lit "Host", host_header host p) ∈ req.(req_headers) /\
  header_count (lit "Connection") req.(req_headers) = 1%nat /\
  (lit "Connection", lit "close") ∈ req.(req_headers) /\
  (forall a, s.(auth) = Some a ->
     header_count (lit "Authorization") req.(req_headers) = 1%nat /\
     (lit "Authorization", auth_value a) ∈ req.(req_headers)) /\
  (is_some s.(http_body) = true -> header_count (lit "Content-Length") req.(req_headers) = 0%nat) /\
  (forall n v, (n, v) ∈ s.(headers) -> is_reserved_header s n = false -> (n, v) ∈ req.(req_headers)).
Proof.
  intros E. apply build_request_headers in E. rewrite E, !header_count_app.
  rewrite !reserved_not_kept
    by (intros n Hn; unfold is_reserved_header; rewrite Hn; rewrite ?orb_true_r; done).
  split_and!.
  - unfold auth_headers. by destruct (auth s).
  - by left.
  - unfold auth_headers. by destruct (auth s).
  - by right; left.
  - intros a Ha. rewrite reserved_not_kept.
    2: { intros n Hn. unfold is_reserved_header. rewrite Ha, Hn. by rewrite !orb_true_r. }
    unfold auth_headers. rewrite Ha. split; [done|]. rewrite !elem_of_app. right. right. by left.
  - intros Hb. rewrite reserved_not_kept.
    2: { intros n Hn. unfold is_reserved_header. rewrite Hb, Hn. by rewrite !orb_true_r. }
    unfold auth_headers. by destruct (auth s).
  - intros n v Hn Hr. rewrite !elem_of_app. right. left.
    apply list_elem_of_In, List.filter_In. split; [by apply list_elem_of_In | cbn; by rewrite Hr].
Qed.

(** The checks and the text of a request, for evaluation: every header is accepted. *)
#[local] Instance PlainEncoder : HttpEncoder := {|
  method_new _ := Ok tt;
  request_new _ _ := Ok tt;
  header_name_new _ := Ok tt;
  set_header _ _ := Ok tt;
  encode req := Ok (req.(req_method) ++ lit " " ++ req.(req_path));
|}.
#[local] Instance PlainBase64 : Base64 := {| encode_string s := s; decode_vec s := Some s |}.

Definition sample_wait : HttpWaitStrategy :=
  with_bearer_auth (with_header (with_header (HttpWaitStrategy_new (lit "/health"))
    (lit "HOST") (lit "evil")) (lit "X-Id") (lit "7")) (lit "t0ken").

Lemma build_request_reserved_witness :
  exists req, build_request sample_wait (lit "::1") 8080 = Ok req /\
    header_count (lit "Host") req.(req_headers) = 1%nat /\
    (lit "Host", lit "[::1]:8080") ∈ req.(req_headers) /\
    (lit "X-Id", lit "7") ∈ req.(req_headers).
Proof.
  assert (exists req, build_request sample_wait (lit "::1") 8080 = Ok req) as [req E]
    by (eexists; vm_compute; reflexivity).
  exists req. split; [exact E|].
  destruct (build_request_reserved sample_wait (lit "::1") 8080 req E) as (H1 & H2 & _ & _ & _ & _ & H3).
  split; [exact H1|]. split; [exact H2|].
  apply H3; [right; left | reflexivity].
Defined.

(** ** The conditions ([mod.rs]) *)

Inductive WaitFor :=
| Nothing
| Log (s : LogWaitStrategy)
| WaitDuration (length : Duration)
| Healthcheck (s : HealthWaitStrategy)
| Http (s : HttpWaitStrategy)
| Exit (s : ExitWaitStrategy).

Definition log (s : LogWaitStrategy) : WaitFor := Log s.
Definition message_on_stdout (message : list byte) : WaitFor := log (LogWaitStrategy_new StdOut message).
Definition message_on_stderr (message : list byte) : WaitFor := log (LogWaitStrategy_new StdErr message).
Definition message_on_either_std (message : list byte) : WaitFor :=
  log (LogWaitStrategy_new BothStd message).
Definition http (s : HttpWaitStrategy) : WaitFor := Http s.
Definition healthcheck : WaitFor := Healthcheck HealthWaitStrategy_new.
Definition exit (s : ExitWaitStrategy) : WaitFor := Exit s.
Definition seconds (length : Z) : WaitFor := WaitDuration (from_secs length).
Definition millis (length : Z) : WaitFor := WaitDuration (from_millis length).
Definition millis_in_env_var (env : Environment) (name : str) : WaitFor :=
  match env name with
  | Some value => match parse_u64 value with
                  | Ok length => WaitDuration (from_millis length)
                  | Err _ => Nothing
                  end
  | None => Nothing
  end.

(** [ready_conditions_require_log] of [async_container.rs]. *)
Definition is_log (c : WaitFor) : bool := match c with Log _ => true | _ => false end.
Definition ready_conditions_require_log (cs : list WaitFor) : bool := existsb is_log cs.
