(* ===== verification/HttpProbe.v ===== *)
(** * The request of an HTTP wait ([src/src/core/wait/http_strategy.rs])

    [send_request]: one attempt to get a response, over what a TCP peer does.  The
    [probe] of a [Host] is what these attempts come to; the loop that repeats them is
    [Container.http_wait_loop]. *)

From S2P Require Import Prelude Errors Http HttpDecode LogStream Exchange Effect Wait.

(** What becomes of the connection, of the request written to it, what is read from
    it, and whether all of it takes longer than the request's time limit. *)
Record Peer := mkPeer {
  connects : result IoError unit;
  takes : list byte -> result IoError unit;
  answers : socket;
  late : bool;
}.

#[export] Instance Box_exchange : ExchangeErrors BoxError := {|
  decoder_full := BoxMsg (lit "decoder buffer full");
  of_decoding := BoxMsg;
  of_socket := BoxIo;
|}.

Definition timed_out : BoxError := BoxIo (mkIoError TimedOut (lit "HTTP request timed out")).

Section Probe.
Context {D : Type} `{ResponseDecoder D}.

Definition send_request_inner (fuel : nat) (s : HttpWaitStrategy) (peer : Peer) (request_bytes : list byte)
    : option (result BoxError HttpResponse) :=
  match map_err BoxIo peer.(connects) with
  | Err e => Some (Err e)
  | Ok _ =>
      match map_err BoxIo (peer.(takes) request_bytes) with
      | Err e => Some (Err e)
      | Ok _ =>
          match read_loop (D := D) fuel
                  (ResponseAccumulator_new s.(Wait.method) (Truncate MAX_HTTP_RESPONSE_BODY_BYTES)) peer.(answers) with
          | None => None
          | Some (Err e) => Some (Err e)
          | Some (Ok acc) =>
              Some (decoded ← map_err BoxMsg (finish acc);
                    Ok (mkHttpResponse decoded.(dr_head).(status_code) decoded.(dr_head).(Http.headers) decoded.(dr_body)))
          end
      end
  end.

Definition send_request (fuel : nat) (s : HttpWaitStrategy) (peer : Peer) (request_bytes : list byte)
    : option (result BoxError HttpResponse) :=
  if s.(request_timeout) =? 0 then Some (Err timed_out)
  else if peer.(late) then Some (Err timed_out)
  else send_request_inner fuel s peer request_bytes.
End Probe.

(** An attempt ends, whatever the peer does, and a response it returns is one that was
    received in time: never an interim one, and with at most the first mebibyte of the
    body that was received.  With a time limit of zero nothing is sent. *)
Theorem send_request_spec {D} `{ResponseDecoderLaws D} fuel s peer request_bytes
    (acc := ResponseAccumulator_new (D := D) s.(Wait.method) (Truncate MAX_HTTP_RESPONSE_BODY_BYTES)) :
  (work acc.(decoder) + (work_byte + 1) * sock_bytes peer.(answers) + work_byte + 1 < fuel)%nat ->
  exists r, send_request (D := D) fuel s peer request_bytes = Some r /\
    match r with
    | Ok response =>
        s.(request_timeout) <> 0 /\ peer.(late) = false /\ peer.(connects) = Ok tt /\
        peer.(takes) request_bytes = Ok tt /\
        ~ (100 <= response.(status) < 200) /\ len response.(body) <= MAX_HTTP_RESPONSE_BODY_BYTES /\
        exists acc' k, read_loop (E := BoxError) fuel acc peer.(answers) = Some (Ok acc') /\
          acc'.(body_kind) = Some k /\
          response.(body) = if has_body k then ztake MAX_HTTP_RESPONSE_BODY_BYTES (received acc'.(decoder)) else []
    | Err _ => True
    end.
Proof.
  intros Hf. unfold send_request. destruct (Z.eqb_spec s.(request_timeout) 0); [by eexists|].
  destruct (late peer) eqn:El; [by eexists|]. unfold send_request_inner.
  destruct (connects peer) as [[]|e] eqn:Ec; [|by eexists]. cbn [map_err].
  destruct (takes peer request_bytes) as [[]|e] eqn:Et; [|by eexists]. cbn [map_err].
  assert (limit_ok (Truncate MAX_HTTP_RESPONSE_BODY_BYTES)) as Hl by (cbn; unfold MAX_HTTP_RESPONSE_BODY_BYTES, USIZE_MAX, U64_MAX; lia).
  destruct (read_to_whole (E := BoxError) fuel acc peer.(answers) (new_midway _ _ Hl) Hf) as (r & Er & Hr).
  fold acc. rewrite Er. destruct r as [acc'|e]; [|by eexists].
  destruct Hr as [(h & k & Eh & Hi & Ek & Hb) Elim]. unfold finish. rewrite Eh. cbn. eexists. split; [done|].
  cbn [status Effect.body]. assert (acc'.(body_buf) = if has_body k then ztake MAX_HTTP_RESPONSE_BODY_BYTES
    (received acc'.(decoder)) else []) as Eb.
  { destruct (has_body k); [|done]. rewrite Elim in Hb. cbn in Hb. by injection Hb. }
  split_and!; try done.
  - unfold is_interim, in_range in Hi. lia.
  - rewrite Eb. destruct (has_body k); [|done]. unfold MAX_HTTP_RESPONSE_BODY_BYTES. llia.
  - exists acc', k. by split_and!.
Qed.
