(* ===== verification/Request.v ===== *)
(** * Container requests ([src/src/core/containers/request.rs],
    [src/src/core/image.rs], [src/src/core/image/exec.rs], [src/src/core/host.rs])

    An image is the record of what its [Image] methods return; the callbacks
    that depend on the running container are functions of its state.  A
    [ContainerRequest] lays the user's settings over the image. *)

From S2P Require Import Prelude BTree Utf8 Ports Errors Env Mounts Healthcheck LogWait Wait.

(** ** Copies into the container ([src/src/core/copy.rs]) *)

Inductive CopyDataSource :=
| File (path : str)
| Data (bytes : list byte).

Record CopyTargetOptions := mkCopyTarget {
  target_path : str;
  target_mode : Z;
  target_uid : Z;
  target_gid : Z;
}.

Definition CopyTargetOptions_new (path : str) : CopyTargetOptions := mkCopyTarget path 420 0 0.
Definition target_with_mode (t : CopyTargetOptions) (m : Z) : CopyTargetOptions :=
  mkCopyTarget t.(target_path) m t.(target_uid) t.(target_gid).
Definition with_uid (t : CopyTargetOptions) (u : Z) : CopyTargetOptions :=
  mkCopyTarget t.(target_path) t.(target_mode) u t.(target_gid).
Definition with_gid (t : CopyTargetOptions) (g : Z) : CopyTargetOptions :=
  mkCopyTarget t.(target_path) t.(target_mode) t.(target_uid) g.

Record CopyToContainer := mkCopyTo {
  copy_source : CopyDataSource;
  copy_target : CopyTargetOptions;
}.

(** ** Exec commands ([image/exec.rs]) *)

Record ExecCommand := mkExec {
  exec_cmd : list str;
  cmd_ready_condition : CmdWaitFor;
  container_ready_conditions : list WaitFor;
  exec_env_vars : list (str * str);
}.

Definition ExecCommand_new (cmd : list str) : ExecCommand := mkExec cmd CmdNothing [] [].
Definition with_container_ready_conditions (c : ExecCommand) (cs : list WaitFor) : ExecCommand :=
  mkExec c.(exec_cmd) c.(cmd_ready_condition) cs c.(exec_env_vars).
Definition with_cmd_ready_condition (c : ExecCommand) (w : CmdWaitFor) : ExecCommand :=
  mkExec c.(exec_cmd) w c.(container_ready_conditions) c.(exec_env_vars).
Definition with_env_vars (c : ExecCommand) (vars : list (str * str)) : ExecCommand :=
  mkExec c.(exec_cmd) c.(cmd_ready_condition) c.(container_ready_conditions)
    (bt_extend c.(exec_env_vars) vars).

(** ** Hosts

    An IP address is the text it prints; [parse_ip] is [IpAddr::from_str]
    followed by [Display]. *)
Inductive HostName := Addr (ip : str) | Domain (name : str).
Definition Host_parse (parse_ip : str -> option str) (s : str) : HostName :=
  match parse_ip s with Some ip => Addr ip | None => Domain s end.
Definition show_Host (h : HostName) : str := match h with Addr ip => ip | Domain s => s end.

(** ** The state of a container ([image.rs]) *)

Record ContainerState := mkContainerState {
  state_id : str;
  state_host : HostName;
  state_ports : Ports;
}.

Definition host_port_ipv4 (s : ContainerState) (internal : ContainerPort) : Result Z :=
  ok_or (map_to_host_port_ipv4 s.(state_ports) internal) (PortNotExposed s.(state_id) internal).
Definition host_port_ipv6 (s : ContainerState) (internal : ContainerPort) : Result Z :=
  ok_or (map_to_host_port_ipv6 s.(state_ports) internal) (PortNotExposed s.(state_id) internal).

Record Image := mkImage {
  name : str;
  tag : str;
  image_ready_conditions : list WaitFor;
  image_env_vars : list (str * str);
  image_mounts : list Mount;
  image_copy_to_sources : list CopyToContainer;
  image_entrypoint : option str;
  image_cmd : list str;
  image_expose_ports : list ContainerPort;
  image_exec_after_start : ContainerState -> Result (list ExecCommand);
  image_exec_before_ready : ContainerState -> Result (list ExecCommand);
}.

(** The defaults of the trait's methods. *)
Definition Image_default (n t : str) (ready : list WaitFor) : Image :=
  mkImage n t ready [] [] [] None [] [] (fun _ => Ok []) (fun _ => Ok []).

(** ** Requests *)

Definition DEFAULT_STARTUP_TIMEOUT : Duration := from_secs 60.

Record PortMapping := mkPortMapping {
  host_port : Z;
  container_port : ContainerPort;
}.

#[export] Instance PortMapping_eq_dec : EqDecision PortMapping.
Proof. solve_decision. Defined.

Inductive ExtraHost := HostAddr (ip : str) | HostGateway.
Definition show_ExtraHost (h : ExtraHost) : str :=
  match h with HostAddr a => a | HostGateway => lit "host-gateway" end.

(** The log consumers are named by their position. *)
Record ContainerRequest := mkContainerRequest {
  image : Image;
  overridden_cmd : list str;
  image_name : option str;
  image_tag : option str;
  container_name : option str;
  hostname : option str;
  network : option str;
  labels : list (str * str);
  req_env_vars : list (str * str);
  hosts : list (str * ExtraHost);
  req_mounts : list Mount;
  health_check : option Healthcheck.Healthcheck;
  req_copy_to_sources : list CopyToContainer;
  ports : option (list PortMapping);
  privileged : bool;
  readonly_rootfs : bool;
  cap_add : option (list str);
  cap_drop : option (list str);
  shm_size : option Z;
  req_ready_conditions : option (list WaitFor);
  startup_timeout : option Duration;
  working_dir : option str;
  user : option str;
  open_stdin : option bool;
  log_consumers : list nat;
  init : bool;
  platform : option str;
  ssh : bool;
  masked_paths : option (list str);
  readonly_paths : option (list str);
  kernel : option str;
}.

(** [impl From<I> for ContainerRequest<I>] *)
Definition ContainerRequest_from (i : Image) : ContainerRequest := {|
  image := i; overridden_cmd := []; image_name := None; image_tag := None;
  container_name := None; hostname := None; network := None; labels := []; req_env_vars := [];
  hosts := []; req_mounts := []; health_check := None; req_copy_to_sources := []; ports := None;
  privileged := false; readonly_rootfs := false; cap_add := None; cap_drop := None;
  shm_size := None; req_ready_conditions := None; startup_timeout := None; working_dir := None;
  user := None; open_stdin := None; log_consumers := []; init := false; platform := None;
  ssh := false; masked_paths := None; readonly_paths := None; kernel := None |}.

Definition env_vars (r : ContainerRequest) : list (str * str) :=
  r.(image).(image_env_vars) ++ r.(req_env_vars).
Definition mounts (r : ContainerRequest) : list Mount := r.(image).(image_mounts) ++ r.(req_mounts).
Definition copy_to_sources (r : ContainerRequest) : list CopyToContainer :=
  r.(image).(image_copy_to_sources) ++ r.(req_copy_to_sources).
Definition entrypoint (r : ContainerRequest) : option str := r.(image).(image_entrypoint).
Definition expose_ports (r : ContainerRequest) : list ContainerPort := r.(image).(image_expose_ports).
Definition exec_after_start (r : ContainerRequest) (cs : ContainerState) : Result (list ExecCommand) :=
  r.(image).(image_exec_after_start) cs.

(** [CmdIter]: the front items, then the back items. *)
Record CmdIter := mkCmdIter { front : list str; back : list str }.
Definition next (it : CmdIter) : option str * CmdIter :=
  match it.(front) with
  | x :: f => (Some x, mkCmdIter f it.(back))
  | [] => match it.(back) with
          | x :: b => (Some x, mkCmdIter [] b)
          | [] => (None, it)
          end
  end.

Definition cmd (r : ContainerRequest) : CmdIter :=
  if bool_decide (r.(overridden_cmd) = []) then mkCmdIter [] r.(image).(image_cmd)
  else mkCmdIter r.(overridden_cmd) [].

(** [it.collect()] *)
Fixpoint collect_fuel (fuel : nat) (it : CmdIter) : list str :=
  match fuel with
  | O => []
  | S f => match next it with (Some x, it) => x :: collect_fuel f it | (None, _) => [] end
  end.
Definition collect (it : CmdIter) : list str :=
  collect_fuel (length it.(front) + length it.(back)) it.

Definition unwrap_or {A} (o : option A) (d : A) : A := match o with Some a => a | None => d end.

Definition descriptor (r : ContainerRequest) : str :=
  unwrap_or r.(image_name) r.(image).(name) ++ lit ":" ++ unwrap_or r.(image_tag) r.(image).(tag).

Definition ready_conditions (r : ContainerRequest) : list WaitFor :=
  unwrap_or r.(req_ready_conditions) r.(image).(image_ready_conditions).

(** [std::mem::take(&mut container_req.log_consumers)] *)
Definition take_log_consumers (r : ContainerRequest) : ContainerRequest := {|
  image := r.(image); overridden_cmd := r.(overridden_cmd); image_name := r.(image_name);
  image_tag := r.(image_tag); container_name := r.(container_name); hostname := r.(hostname);
  network := r.(network); labels := r.(labels); req_env_vars := r.(req_env_vars); hosts := r.(hosts);
  req_mounts := r.(req_mounts); health_check := r.(health_check);
  req_copy_to_sources := r.(req_copy_to_sources); ports := r.(ports); privileged := r.(privileged);
  readonly_rootfs := r.(readonly_rootfs); cap_add := r.(cap_add); cap_drop := r.(cap_drop);
  shm_size := r.(shm_size); req_ready_conditions := r.(req_ready_conditions);
  startup_timeout := r.(startup_timeout); working_dir := r.(working_dir); user := r.(user);
  open_stdin := r.(open_stdin); log_consumers := []; init := r.(init); platform := r.(platform);
  ssh := r.(ssh); masked_paths := r.(masked_paths); readonly_paths := r.(readonly_paths);
  kernel := r.(kernel) |}.

(** The error of [reject_duplicate_mapped_ports]. *)
Definition duplicate_mapping (c : ContainerPort) (previous now : Z) : Error :=
  other (lit "duplicate container port mapping: container port " ++ show_ContainerPort c
         ++ lit " is mapped to both host ports " ++ show_nat previous ++ lit " and " ++ show_nat now).

Fixpoint reject_loop (seen : list (ContainerPort * Z)) (ps : list PortMapping) : Result unit :=
  match ps with
  | [] => Ok tt
  | p :: ps =>
      match bt_get p.(container_port) seen with
      | Some previous => Err (duplicate_mapping p.(container_port) previous p.(host_port))
      | None => reject_loop (bt_insert p.(container_port) p.(host_port) seen) ps
      end
  end.
Definition reject_duplicate_mapped_ports (ps : list PortMapping) : Result unit := reject_loop [] ps.

Lemma collect_fuel_app f it :
  (length it.(front) + length it.(back) <= f)%nat -> collect_fuel f it = it.(front) ++ it.(back).
Proof.
  revert it. induction f as [|f IH]; intros [fr ba] Hf; cbn in *.
  - destruct fr, ba; cbn in *; done || lia.
  - destruct fr as [|x fr]; cbn.
    + destruct ba as [|x ba]; [done|]. cbn in *. rewrite IH; [done | cbn; lia].
    + cbn in *. rewrite IH; [done | cbn; lia].
Qed.

(** The command of a container: the override when it is not empty, else the image's. *)
Lemma collect_cmd r :
  collect (cmd r) = if bool_decide (r.(overridden_cmd) = []) then r.(image).(image_cmd)
                    else r.(overridden_cmd).
Proof.
  unfold collect. rewrite collect_fuel_app by done. unfold cmd.
  case_bool_decide; cbn; [done | by rewrite app_nil_r].
Qed.

Lemma reject_loop_ok seen ps :
  reject_loop seen ps = Ok tt <->
    NoDup (container_port <$> ps) /\ (forall p, p ∈ ps -> bt_get p.(container_port) seen = None).
Proof.
  revert seen. induction ps as [|p ps IH]; intros seen; cbn [reject_loop fmap list_fmap].
  - split; [|done]. intros _. split; [constructor|]. by intros p Hp%elem_of_nil.
  - destruct (bt_get (container_port p) seen) as [v|] eqn:E.
    + split; [done|]. intros [_ H]. specialize (H p ltac:(by left)). congruence.
    + rewrite IH, NoDup_cons. split.
      * intros [Hn H]. split_and!; [|done|].
        -- intros (q & Eq & Hq)%list_elem_of_fmap. specialize (H q Hq).
           rewrite <- Eq, bt_get_insert_eq in H. done.
        -- intros q [->|Hq]%elem_of_cons; [done|]. specialize (H q Hq).
           destruct (decide (container_port q = container_port p)) as [Eq|Hne]; [by rewrite Eq|].
           by rewrite bt_get_insert_ne in H.
      * intros [[Hni Hn] H]. split; [done|]. intros q Hq. rewrite bt_get_insert_ne.
        -- apply H. by right.
        -- intros Eq. apply Hni. apply list_elem_of_fmap. by exists q.
Qed.

Lemma reject_loop_err seen ps e :
  reject_loop seen ps = Err e -> exists p q pre suf, ps = pre ++ q :: suf /\
    e = duplicate_mapping q.(container_port) p q.(host_port).
Proof.
  revert seen. induction ps as [|p ps IH]; intros seen; cbn [reject_loop]; [done|].
  destruct (bt_get (container_port p) seen) as [v|].
  - intros [= <-]. by exists v, p, [], ps.
  - intros H. apply IH in H as (v & q & pre & suf & -> & ->). by exists v, q, (p :: pre), suf.
Qed.

(** Mapped ports are accepted exactly when no container port (number and
    protocol) is mapped twice, and the refusal names a mapping of the request. *)
Theorem reject_duplicate_mapped_ports_iff (ps : list PortMapping) :
  (reject_duplicate_mapped_ports ps = Ok tt <-> NoDup (container_port <$> ps)) /\
  (forall e, reject_duplicate_mapped_ports ps = Err e ->
     exists p q, q ∈ ps /\ e = duplicate_mapping q.(container_port) p q.(host_port)).
Proof.
  unfold reject_duplicate_mapped_ports. split.
  - rewrite reject_loop_ok. split; [by intros []|]. by intros; split.
  - intros e (p & q & pre & suf & -> & ->)%reject_loop_err. exists p, q. split; [|done].
    apply elem_of_app. right. by left.
Qed.
