(* ===== verification/Builder.v ===== *)
(** * Building requests ([src/src/core/image/image_ext.rs],
    [src/src/images/generic.rs])

    The setters that lay a setting over an image or over a request.  Each takes the
    request it is called on by [into()], so that one definition serves both: an image
    is laid over by way of [ContainerRequest_from]. *)

From S2P Require Import Prelude BTree Utf8 Ports Errors Env Mounts Healthcheck LogWait Wait Request.

(** ** Struct update syntax

    [r <| f := v |>] is [ContainerRequest { f: v, ..r }]. *)

Definition rebuild (r : ContainerRequest) : ContainerRequest := {|
  image := r.(image); overridden_cmd := r.(overridden_cmd); image_name := r.(image_name);
  image_tag := r.(image_tag); container_name := r.(container_name); hostname := r.(hostname);
  network := r.(network); labels := r.(labels); req_env_vars := r.(req_env_vars); hosts := r.(hosts);
  req_mounts := r.(req_mounts); health_check := r.(health_check);
  req_copy_to_sources := r.(req_copy_to_sources); ports := r.(ports); privileged := r.(privileged);
  readonly_rootfs := r.(readonly_rootfs); cap_add := r.(cap_add); cap_drop := r.(cap_drop);
  shm_size := r.(shm_size); req_ready_conditions := r.(req_ready_conditions);
  startup_timeout := r.(startup_timeout); working_dir := r.(working_dir); user := r.(user);
  open_stdin := r.(open_stdin); log_consumers := r.(log_consumers); init := r.(init);
  platform := r.(platform); ssh := r.(ssh); masked_paths := r.(masked_paths);
  readonly_paths := r.(readonly_paths); kernel := r.(kernel) |}.

Ltac update_field r field v :=
  let t := eval cbv beta delta [rebuild] in (rebuild r) in
  let t := eval pattern (field r) in t in
  match t with ?f _ => let t := eval cbv beta in (f v) in exact t end.

Declare Scope builder_scope.
Notation "r <| field := v |>" := (ltac:(update_field r field v))
  (at level 1, left associativity, field constr at level 0, only parsing) : builder_scope.
#[local] Open Scope builder_scope.

(** ** [ImageExt] *)

Definition with_cmd (r : ContainerRequest) (cmd : list str) : ContainerRequest :=
  r <| overridden_cmd := cmd |>.
Definition with_name (r : ContainerRequest) (n : str) : ContainerRequest :=
  r <| image_name := Some n |>.
Definition with_tag (r : ContainerRequest) (t : str) : ContainerRequest :=
  r <| image_tag := Some t |>.
Definition with_container_name (r : ContainerRequest) (n : str) : ContainerRequest :=
  r <| container_name := Some n |>.
Definition with_hostname (r : ContainerRequest) (n : str) : ContainerRequest :=
  r <| hostname := Some n |>.
Definition with_network (r : ContainerRequest) (n : str) : ContainerRequest :=
  r <| network := Some n |>.

Definition with_label (r : ContainerRequest) (key value : str) : ContainerRequest :=
  r <| labels := bt_insert key value r.(labels) |>.
Definition with_labels (r : ContainerRequest) (kvs : list (str * str)) : ContainerRequest :=
  r <| labels := bt_extend r.(labels) kvs |>.
Definition with_env_var (r : ContainerRequest) (n value : str) : ContainerRequest :=
  r <| req_env_vars := bt_insert n value r.(req_env_vars) |>.
Definition with_host (r : ContainerRequest) (key : str) (value : ExtraHost) : ContainerRequest :=
  r <| hosts := bt_insert key value r.(hosts) |>.

Definition with_mount (r : ContainerRequest) (m : Mount) : ContainerRequest :=
  r <| req_mounts := r.(req_mounts) ++ [m] |>.
Definition with_copy_to (r : ContainerRequest) (target : CopyTargetOptions) (source : CopyDataSource)
  : ContainerRequest :=
  r <| req_copy_to_sources := r.(req_copy_to_sources) ++ [mkCopyTo source target] |>.
Definition with_mapped_port (r : ContainerRequest) (host_port : Z) (container_port : ContainerPort)
  : ContainerRequest :=
  r <| ports := Some (unwrap_or r.(ports) [] ++ [mkPortMapping host_port container_port]) |>.

Definition with_privileged (r : ContainerRequest) (b : bool) : ContainerRequest :=
  r <| privileged := b |>.
Definition with_readonly_rootfs (r : ContainerRequest) (b : bool) : ContainerRequest :=
  r <| readonly_rootfs := b |>.
Definition with_cap_add (r : ContainerRequest) (capability : str) : ContainerRequest :=
  r <| cap_add := Some (unwrap_or r.(cap_add) [] ++ [capability]) |>.
Definition with_cap_drop (r : ContainerRequest) (capability : str) : ContainerRequest :=
  r <| cap_drop := Some (unwrap_or r.(cap_drop) [] ++ [capability]) |>.
Definition with_shm_size (r : ContainerRequest) (bytes : Z) : ContainerRequest :=
  r <| shm_size := Some bytes |>.
Definition with_startup_timeout (r : ContainerRequest) (d : Duration) : ContainerRequest :=
  r <| startup_timeout := Some d |>.
Definition with_working_dir (r : ContainerRequest) (dir : str) : ContainerRequest :=
  r <| working_dir := Some dir |>.
Definition with_log_consumer (r : ContainerRequest) (consumer : nat) : ContainerRequest :=
  r <| log_consumers := r.(log_consumers) ++ [consumer] |>.
Definition with_user (r : ContainerRequest) (u : str) : ContainerRequest :=
  r <| user := Some u |>.
Definition with_open_stdin (r : ContainerRequest) (b : bool) : ContainerRequest :=
  r <| open_stdin := Some b |>.
Definition with_ready_conditions (r : ContainerRequest) (ws : list WaitFor) : ContainerRequest :=
  r <| req_ready_conditions := Some ws |>.
Definition with_health_check (r : ContainerRequest) (h : Healthcheck.Healthcheck) : ContainerRequest :=
  r <| health_check := Some h |>.
Definition with_init (r : ContainerRequest) : ContainerRequest := r <| init := true |>.
Definition with_platform (r : ContainerRequest) (p : str) : ContainerRequest :=
  r <| platform := Some p |>.
Definition with_ssh (r : ContainerRequest) : ContainerRequest := r <| ssh := true |>.
Definition with_masked_paths (r : ContainerRequest) (paths : list str) : ContainerRequest :=
  r <| masked_paths := Some paths |>.
Definition with_readonly_paths (r : ContainerRequest) (paths : list str) : ContainerRequest :=
  r <| readonly_paths := Some paths |>.
Definition with_kernel (r : ContainerRequest) (kernel_path : str) : ContainerRequest :=
  r <| kernel := Some kernel_path |>.

(** ** [GenericImage] *)

Record GenericImage := mkGenericImage {
  generic_name : str;
  generic_tag : str;
  wait_for : list WaitFor;
  generic_entrypoint : option str;
  exposed_ports : list ContainerPort;
}.

Definition GenericImage_new (n t : str) : GenericImage := mkGenericImage n t [] None [].
Definition with_wait_for (g : GenericImage) (w : WaitFor) : GenericImage :=
  mkGenericImage g.(generic_name) g.(generic_tag) (g.(wait_for) ++ [w]) g.(generic_entrypoint)
    g.(exposed_ports).
Definition with_entrypoint (g : GenericImage) (e : str) : GenericImage :=
  mkGenericImage g.(generic_name) g.(generic_tag) g.(wait_for) (Some e) g.(exposed_ports).
Definition with_exposed_port (g : GenericImage) (p : ContainerPort) : GenericImage :=
  mkGenericImage g.(generic_name) g.(generic_tag) g.(wait_for) g.(generic_entrypoint)
    (g.(exposed_ports) ++ [p]).

(** [impl Image for GenericImage]: what it does not say is the trait's default. *)
Definition GenericImage_image (g : GenericImage) : Image :=
  mkImage g.(generic_name) g.(generic_tag) g.(wait_for) [] [] [] g.(generic_entrypoint) []
    g.(exposed_ports) (fun _ => Ok []) (fun _ => Ok []).

(** ** Chains of calls *)

(** One call of a setter. *)
Inductive Setting :=
| Cmd (cmd : list str) | Name (n : str) | Tag (t : str) | ContainerName (n : str) | Hostname (n : str)
| Network (n : str) | Label (key value : str) | Labels (kvs : list (str * str))
| EnvVar (n value : str) | HostEntry (key : str) (value : ExtraHost) | MountAt (m : Mount)
| CopyTo (target : CopyTargetOptions) (source : CopyDataSource)
| MappedPort (host_port : Z) (container_port : ContainerPort)
| Privileged (b : bool) | ReadonlyRootfs (b : bool) | CapAdd (c : str) | CapDrop (c : str)
| ShmSize (bytes : Z) | StartupTimeout (d : Duration) | WorkingDir (dir : str) | Consumer (n : nat)
| User (u : str) | OpenStdin (b : bool) | ReadyConditions (ws : list WaitFor)
| HealthCheckOf (h : Healthcheck.Healthcheck) | Init | PlatformOf (p : str) | Ssh
| MaskedPaths (paths : list str) | ReadonlyPaths (paths : list str) | KernelAt (path : str).

Definition apply_setting (r : ContainerRequest) (s : Setting) : ContainerRequest :=
  match s with
  | Cmd c => with_cmd r c | Name n => with_name r n | Tag t => with_tag r t
  | ContainerName n => with_container_name r n | Hostname n => with_hostname r n
  | Network n => with_network r n | Label k v => with_label r k v | Labels kvs => with_labels r kvs
  | EnvVar n v => with_env_var r n v | HostEntry k v => with_host r k v | MountAt m => with_mount r m
  | CopyTo t s => with_copy_to r t s | MappedPort h c => with_mapped_port r h c
  | Privileged b => with_privileged r b | ReadonlyRootfs b => with_readonly_rootfs r b
  | CapAdd c => with_cap_add r c | CapDrop c => with_cap_drop r c | ShmSize n => with_shm_size r n
  | StartupTimeout d => with_startup_timeout r d | WorkingDir d => with_working_dir r d
  | Consumer n => with_log_consumer r n | User u => with_user r u | OpenStdin b => with_open_stdin r b
  | ReadyConditions ws => with_ready_conditions r ws | HealthCheckOf h => with_health_check r h
  | Init => with_init r | PlatformOf p => with_platform r p | Ssh => with_ssh r
  | MaskedPaths ps => with_masked_paths r ps | ReadonlyPaths ps => with_readonly_paths r ps
  | KernelAt k => with_kernel r k
  end.

Definition build (i : Image) (ss : list Setting) : ContainerRequest :=
  foldl apply_setting (ContainerRequest_from i) ss.

(** The setter called, up to [with_label] and [with_labels], which set the same field. *)
Definition setter (s : Setting) : nat :=
  match s with
  | Cmd _ => 0 | Name _ => 1 | Tag _ => 2 | ContainerName _ => 3 | Hostname _ => 4 | Network _ => 5
  | Label _ _ | Labels _ => 6 | EnvVar _ _ => 7 | HostEntry _ _ => 8 | MountAt _ => 9 | CopyTo _ _ => 10
  | MappedPort _ _ => 11 | Privileged _ => 12 | ReadonlyRootfs _ => 13 | CapAdd _ => 14 | CapDrop _ => 15
  | ShmSize _ => 16 | StartupTimeout _ => 17 | WorkingDir _ => 18 | Consumer _ => 19 | User _ => 20
  | OpenStdin _ => 21 | ReadyConditions _ => 22 | HealthCheckOf _ => 23 | Init => 24 | PlatformOf _ => 25
  | Ssh => 26 | MaskedPaths _ => 27 | ReadonlyPaths _ => 28 | KernelAt _ => 29
  end%nat.

(** Calls of different setters commute, so that only the order among the calls
    of one setter matters. *)
Lemma settings_commute r s s' :
  setter s <> setter s' -> apply_setting (apply_setting r s) s' = apply_setting (apply_setting r s') s.
Proof. destruct s, s'; try reflexivity; intros []; reflexivity. Qed.

(** What the calls of a chain said of one field, in order, and what they said last. *)
Definition said {A} (f : Setting -> list A) (ss : list Setting) : list A := ss ≫= f.
Definition last_said {A} (f : Setting -> option A) (ss : list Setting) : option A :=
  last (said (fun s => option_list (f s)) ss).

Lemma said_snoc {A} (f : Setting -> list A) ss s : said f (ss ++ [s]) = said f ss ++ f s.
Proof. unfold said. rewrite bind_app. cbn. by rewrite app_nil_r. Qed.

Lemma last_said_snoc {A} (f : Setting -> option A) ss s :
  last_said f (ss ++ [s]) = match f s with Some x => Some x | None => last_said f ss end.
Proof.
  unfold last_said. rewrite said_snoc. destruct (f s); cbn; [apply last_snoc | by rewrite app_nil_r].
Qed.

Lemma build_snoc i ss s : build i (ss ++ [s]) = apply_setting (build i ss) s.
Proof. apply foldl_snoc. Qed.

Lemma bt_collect_app {K V} `{KeyOrder K} (es es' : list (K * V)) :
  bt_collect (es ++ es') = bt_extend (bt_collect es) es'.
Proof. apply fold_left_app. Qed.

(** A list made by pushing to an [Option<Vec<_>>] that starts as [None]. *)
Definition pushed {A} (l : list A) : option (list A) := match l with [] => None | _ => Some l end.
Lemma pushed_snoc {A} (l : list A) x : pushed (l ++ [x]) = Some (unwrap_or (pushed l) [] ++ [x]).
Proof. by destruct l. Qed.

(** Both sides of an equation about a chain grow by the same step. *)
Ltac by_calls ss :=
  induction ss as [|s prev IH] using rev_ind; [reflexivity|];
  rewrite build_snoc, ?said_snoc, ?last_said_snoc, ?bt_collect_app; destruct s; cbn;
  rewrite ?app_nil_r, ?pushed_snoc, <- ?IH; reflexivity.

(** A flag is up when its setter was called. *)
Ltac by_flag ss :=
  induction ss as [|s prev IH] using rev_ind; [set_solver|];
  rewrite build_snoc, elem_of_app, list_elem_of_singleton; destruct s; cbn;
  first [ rewrite IH; split; [by left | by intros [?|?]] | split; [by right | done] ].

Section Chain.
Context (i : Image) (ss : list Setting) (r := build i ss).

Lemma build_image : r.(image) = i.
Proof. subst r. induction ss as [|s prev IH] using rev_ind; [done|]. rewrite build_snoc. by destruct s. Qed.

(** One value per setter: the last. *)
Record last_values : Prop := {
  said_cmd : r.(overridden_cmd) = default [] (last_said (fun s => if s is Cmd c then Some c else None) ss);
  said_name : r.(image_name) = last_said (fun s => if s is Name n then Some n else None) ss;
  said_tag : r.(image_tag) = last_said (fun s => if s is Tag t then Some t else None) ss;
  said_container_name :
    r.(container_name) = last_said (fun s => if s is ContainerName n then Some n else None) ss;
  said_hostname : r.(hostname) = last_said (fun s => if s is Hostname n then Some n else None) ss;
  said_network : r.(network) = last_said (fun s => if s is Network n then Some n else None) ss;
  said_privileged :
    r.(privileged) = default false (last_said (fun s => if s is Privileged b then Some b else None) ss);
  said_readonly_rootfs :
    r.(readonly_rootfs) = default false (last_said (fun s => if s is ReadonlyRootfs b then Some b else None) ss);
  said_shm_size : r.(shm_size) = last_said (fun s => if s is ShmSize n then Some n else None) ss;
  said_startup_timeout :
    r.(startup_timeout) = last_said (fun s => if s is StartupTimeout d then Some d else None) ss;
  said_working_dir : r.(working_dir) = last_said (fun s => if s is WorkingDir d then Some d else None) ss;
  said_user : r.(user) = last_said (fun s => if s is User u then Some u else None) ss;
  said_open_stdin : r.(open_stdin) = last_said (fun s => if s is OpenStdin b then Some b else None) ss;
  said_ready_conditions :
    r.(req_ready_conditions) = last_said (fun s => if s is ReadyConditions ws then Some ws else None) ss;
  said_health_check :
    r.(health_check) = last_said (fun s => if s is HealthCheckOf h then Some h else None) ss;
  said_platform : r.(platform) = last_said (fun s => if s is PlatformOf p then Some p else None) ss;
  said_masked_paths :
    r.(masked_paths) = last_said (fun s => if s is MaskedPaths ps then Some ps else None) ss;
  said_readonly_paths :
    r.(readonly_paths) = last_said (fun s => if s is ReadonlyPaths ps then Some ps else None) ss;
  said_kernel : r.(kernel) = last_said (fun s => if s is KernelAt k then Some k else None) ss;
  said_init : r.(init) = true <-> Init ∈ ss;
  said_ssh : r.(ssh) = true <-> Ssh ∈ ss;
}.

Lemma build_last_values : last_values.
Proof. split; subst r; first [by_calls ss | by_flag ss]. Qed.

(** Maps: the last value of each key. *)
Record last_bindings : Prop := {
  said_labels k : bt_get k r.(labels) = last_binding k
    (said (fun s => match s with Label k v => [(k, v)] | Labels kvs => kvs | _ => [] end) ss);
  said_env k : bt_get k r.(req_env_vars) = last_binding k
    (said (fun s => if s is EnvVar k v then [(k, v)] else []) ss);
  said_hosts k : bt_get k r.(hosts) = last_binding k
    (said (fun s => if s is HostEntry k h then [(k, h)] else []) ss);
}.

Lemma build_last_bindings : last_bindings.
Proof. split; intros k; subst r; rewrite <- bt_get_collect; f_equal; by_calls ss. Qed.

(** Lists: everything, in order. *)
Record in_order : Prop := {
  said_mounts : r.(req_mounts) = said (fun s => if s is MountAt m then [m] else []) ss;
  said_copies : r.(req_copy_to_sources) = said (fun s => if s is CopyTo t d then [mkCopyTo d t] else []) ss;
  said_consumers : r.(log_consumers) = said (fun s => if s is Consumer n then [n] else []) ss;
  said_ports : r.(ports) = pushed (said (fun s => if s is MappedPort h c then [mkPortMapping h c] else []) ss);
  said_cap_add : r.(cap_add) = pushed (said (fun s => if s is CapAdd c then [c] else []) ss);
  said_cap_drop : r.(cap_drop) = pushed (said (fun s => if s is CapDrop c then [c] else []) ss);
}.

Lemma build_in_order : in_order.
Proof. split; subst r; by_calls ss. Qed.

End Chain.

(** C40: What a chain of setters over an image comes to, in any order and with any
    repetitions, field by field: the image itself is untouched; each field that takes one
    value has the value of the last call of its setter, and the field's default where there
    was no call ([last_values], which names all of them; [with_init] and [with_ssh] raise
    their flag); labels, variables and hosts bind each key to its last value
    ([last_bindings]); mounts, copies, log consumers, mapped ports and capabilities are what
    was said, in order ([in_order]).  Over the image, name, tag, ready conditions and a
    command fall back on the image's, an empty command included, and mounts and copies come
    after the image's; and only the order among calls of the same setter matters. *)
Theorem build_spec (i : Image) (ss : list Setting) (r := build i ss) :
  r.(image) = i /\ last_values i ss /\ last_bindings i ss /\ in_order i ss /\
  descriptor r = default i.(name) (last_said (fun s => if s is Name n then Some n else None) ss) ++ lit ":" ++
                 default i.(tag) (last_said (fun s => if s is Tag t then Some t else None) ss) /\
  collect (cmd r) = match last_said (fun s => if s is Cmd c then Some c else None) ss with
                    | Some ((_ :: _) as c) => c | _ => i.(image_cmd) end /\
  ready_conditions r = default i.(image_ready_conditions)
    (last_said (fun s => if s is ReadyConditions ws then Some ws else None) ss) /\
  mounts r = i.(image_mounts) ++ said (fun s => if s is MountAt m then [m] else []) ss /\
  copy_to_sources r = i.(image_copy_to_sources) ++
    said (fun s => if s is CopyTo t d then [mkCopyTo d t] else []) ss /\
  (forall s s', setter s <> setter s' -> build i (ss ++ [s; s']) = build i (ss ++ [s'; s])).
Proof.
  pose proof (build_last_values i ss) as V. pose proof (build_in_order i ss) as L. subst r. split_and!; try done.
  - apply build_image.
  - apply build_last_bindings.
  - unfold descriptor. by rewrite (said_name _ _ V), (said_tag _ _ V), build_image.
  - rewrite collect_cmd, (said_cmd _ _ V), build_image. destruct (last_said _ _) as [[|x c]|]; done.
  - unfold ready_conditions. by rewrite (said_ready_conditions _ _ V), build_image.
  - unfold mounts. by rewrite (said_mounts _ _ L), build_image.
  - unfold copy_to_sources. by rewrite (said_copies _ _ L), build_image.
  - intros s s' Hs. unfold build. rewrite !foldl_app. by apply settings_commute.
Qed.

(** Settings over a generic image, and the same over the request it becomes. *)
Example generic_image_run :
  let g := with_exposed_port (with_entrypoint (with_wait_for (GenericImage_new (lit "nginx") (lit "1"))
             (WaitDuration 1)) (lit "/run")) (Tcp 80) in
  let r := build (GenericImage_image g) [Tag (lit "2"); MappedPort 8080 (Tcp 80); Tag (lit "3");
             Label (lit "a") (lit "1"); Cmd [lit "x"]; Labels [(lit "a", lit "2")]; Cmd []] in
  descriptor r = lit "nginx:3" /\ entrypoint r = Some (lit "/run") /\ expose_ports r = [Tcp 80] /\
  r.(labels) = [(lit "a", lit "2")] /\ r.(ports) = Some [mkPortMapping 8080 (Tcp 80)] /\
  collect (cmd r) = [] /\ ready_conditions r = [WaitDuration 1].
Proof. vm_compute. split_and!; reflexivity. Qed.
