(* ===== verification/DockerApi.v ===== *)
(** * Docker Engine API texts ([src/src/core/client/docker_client.rs],
    [src/src/core/client.rs])

    The pure half of the Docker client: percent encoding, image references, the
    JSON bodies of create and exec, the demultiplexing of an exec's output and
    the reading of responses. *)

From S2P Require Import Prelude BTree Utf8 Ports Errors Mounts Healthcheck Json Request.
From S2P Require LogStream Env Wait.

(** ** Percent encoding *)

Definition hex_upper (d : Z) : byte := as_u8 (if d <? 10 then 48 + d else 55 + d).

Definition unreserved (b : byte) : bool :=
  is_ascii_alphanumeric b || bool_decide (b ∈ lit "-_.~").

Definition percent_byte (b : byte) : str :=
  if unreserved b then [b] else ["%"%byte; hex_upper (u8 b / 16); hex_upper (u8 b mod 16)].

Definition percent_encode (s : str) : str := concat (percent_byte <$> s).

(** RFC 3986 decoding. *)
Fixpoint percent_decode (s : str) : option str :=
  match s with
  | [] => Some []
  | b :: s' =>
      if decide (b = "%"%byte) then
        match s' with
        | h :: l :: r => x ← hex_value h; y ← hex_value l; t ← percent_decode r;
                         Some (as_u8 (16 * x + y) :: t)
        | _ => None
        end
      else t ← percent_decode s'; Some (b :: t)
  end.

(** ** Image references *)

(** [descriptor.rfind('/')]: the last path component, and what is before it. *)
Definition last_component (descriptor : str) : str * str :=
  match rsplit_once "/" descriptor with
  | Some (l, r) => (l ++ lit "/", r)
  | None => ([], descriptor)
  end.

(** [&descriptor[..descriptor.len() - name_tag.len() + name.len()]] *)
Definition split_name_and_tag (descriptor : str) : str * str :=
  let '(_, name_tag) := last_component descriptor in
  match split_once ":" name_tag with
  | None => (descriptor, lit "latest")
  | Some (name, tag) =>
      let from_image := ztake (len descriptor - len name_tag + len name) descriptor in
      (from_image, if bool_decide (tag = []) then lit "latest" else tag)
  end.

Definition split_pull_reference (descriptor : str) : str * str :=
  match split_once "@" descriptor with
  | Some (image_part, digest) =>
      let tag := if bool_decide (digest = []) then lit "latest" else digest in
      let '(from_image, _) := split_name_and_tag image_part in
      (from_image, tag)
  | None => split_name_and_tag descriptor
  end.

(** ** The data of a create request *)

(** [ContainerConfig] of [client.rs]. *)
Record ContainerConfig := mkContainerConfig {
  cfg_image : str;
  cfg_entrypoint : option (list str);
  cfg_cmd : list str;
  cfg_env : list str;
  cfg_ports : list PortMapping;
  cfg_mounts : list Mount;
  cfg_name : option str;
  cfg_labels : list (str * str);
  cfg_privileged : bool;
  cfg_working_dir : option str;
  cfg_user : option str;
  cfg_init : bool;
  cfg_health_check : option Healthcheck.Healthcheck;
  cfg_cap_add : list str;
  cfg_cap_drop : list str;
  cfg_shm_size : option Z;
  cfg_readonly_rootfs : bool;
  cfg_hostname : option str;
  cfg_open_stdin : option bool;
  cfg_network : option str;
  cfg_platform : option str;
  cfg_extra_hosts : list str;
}.

Record PortBinding := mkPortBinding { host_ip : str; binding_port : str }.

Record HostConfig := mkHostConfig {
  port_bindings : list (str * list PortBinding);
  binds : list str;
  hc_privileged : bool;
  hc_init : bool;
  hc_cap_add : list str;
  hc_cap_drop : list str;
  hc_shm_size : option Z;
  hc_readonly_rootfs : bool;
  extra_hosts : list str;
  mount_entries : list str;
}.

Record CreateContainerBody := mkCreateBody {
  cb_image : str;
  cb_entrypoint : option (list str);
  cb_cmd : list str;
  cb_env : list str;
  cb_labels : list (str * str);
  cb_working_dir : option str;
  cb_user : option str;
  host_config : HostConfig;
  exposed_ports : list str;
  cb_healthcheck : option Healthcheck.Healthcheck;
  cb_hostname : option str;
  cb_open_stdin : option bool;
  cb_network : option str;
}.

(** [format!("{}/{}", port.as_u16(), port.as_str())] *)
Definition port_key_text (c : ContainerPort) : str := show_nat (as_u16 c) ++ lit "/" ++ as_str c.

Definition build_port_bindings (ps : list PortMapping) : list (str * list PortBinding) :=
  fold_left (fun m p =>
    bt_insert (port_key_text p.(container_port))
      [mkPortBinding (lit "0.0.0.0") (show_nat p.(host_port))] m) ps [].

Definition build_exposed_ports (ps : list PortMapping) : list str :=
  (fun p => port_key_text p.(container_port)) <$> ps.

(** The entry of one mount: a bind, or an element of [Mounts] as JSON text. *)
Definition volume_entry (source target : str) (read_only : bool) : str :=
  lit "{" ++ escape_json (lit "Type") ++ lit ":" ++ escape_json (lit "volume") ++ lit ","
  ++ escape_json (lit "Source") ++ lit ":" ++ escape_json source ++ lit ","
  ++ escape_json (lit "Target") ++ lit ":" ++ escape_json target ++ lit ","
  ++ escape_json (lit "ReadOnly") ++ lit ":" ++ json_bool read_only ++ lit "}".

Definition tmpfs_entry (target : str) (read_only : bool) (opts : option MountTmpfsOptions) : str :=
  let tmpfs_opts :=
    match opts with
    | Some o =>
        let size := match o.(size_bytes) with
                    | Some size => escape_json (lit "SizeBytes") ++ lit ":" ++ show_Z size
                    | None => [] end in
        match o.(mode) with
        | Some mode => (if bool_decide (size = []) then size else size ++ lit ",")
                       ++ escape_json (lit "Mode") ++ lit ":" ++ show_Z mode
        | None => size
        end
    | None => []
    end in
  lit "{" ++ escape_json (lit "Type") ++ lit ":" ++ escape_json (lit "tmpfs") ++ lit ","
  ++ escape_json (lit "Target") ++ lit ":" ++ escape_json target ++ lit ","
  ++ escape_json (lit "ReadOnly") ++ lit ":" ++ json_bool read_only
  ++ (if bool_decide (tmpfs_opts = []) then []
      else lit "," ++ escape_json (lit "TmpfsOptions") ++ lit ":{" ++ tmpfs_opts ++ lit "}")
  ++ lit "}".

Definition config_error {A} (o : option A) (msg : str) : Result A :=
  ok_or o (Client (Configuration msg)).

(** One round of the loop over the mounts. *)
Definition add_mount (m : Mount) (binds mounts : list str) : Result (list str * list str) :=
  let read_only := bool_decide (m.(access_mode) = ReadOnly) in
  match m.(mount_type) with
  | Bind =>
      source ← config_error m.(source) (lit "bind mount source is required");
      target ← config_error m.(target) (lit "bind mount target is required");
      Ok (binds ++ [source ++ lit ":" ++ target ++ lit ":" ++ show_AccessMode m.(access_mode)], mounts)
  | Volume =>
      source ← config_error m.(source) (lit "volume mount source is required");
      target ← config_error m.(target) (lit "volume mount target is required");
      Ok (binds, mounts ++ [volume_entry source target read_only])
  | Tmpfs =>
      target ← config_error m.(target) (lit "tmpfs mount target is required");
      Ok (binds, mounts ++ [tmpfs_entry target read_only m.(tmpfs_options)])
  end.

Fixpoint add_mounts (ms : list Mount) (binds mounts : list str) : Result (list str * list str) :=
  match ms with
  | [] => Ok (binds, mounts)
  | m :: ms => '(binds, mounts) ← add_mount m binds mounts; add_mounts ms binds mounts
  end.

Definition from_config (config : ContainerConfig) : Result CreateContainerBody :=
  '(bs, ms) ← add_mounts config.(cfg_mounts) [] [];
  Ok {|
    cb_image := config.(cfg_image); cb_entrypoint := config.(cfg_entrypoint);
    cb_cmd := config.(cfg_cmd); cb_env := config.(cfg_env); cb_labels := config.(cfg_labels);
    cb_working_dir := config.(cfg_working_dir); cb_user := config.(cfg_user);
    host_config := {|
      port_bindings := build_port_bindings config.(cfg_ports); binds := bs;
      hc_privileged := config.(cfg_privileged); hc_init := config.(cfg_init);
      hc_cap_add := config.(cfg_cap_add); hc_cap_drop := config.(cfg_cap_drop);
      hc_shm_size := config.(cfg_shm_size); hc_readonly_rootfs := config.(cfg_readonly_rootfs);
      extra_hosts := config.(cfg_extra_hosts); mount_entries := ms |};
    exposed_ports := build_exposed_ports config.(cfg_ports);
    cb_healthcheck := config.(cfg_health_check); cb_hostname := config.(cfg_hostname);
    cb_open_stdin := config.(cfg_open_stdin); cb_network := config.(cfg_network) |}.

(** ** Writing the bodies *)

Definition json_binding (b : PortBinding) : str :=
  lit "{" ++ escape_json (lit "HostIp") ++ lit ":" ++ escape_json b.(host_ip) ++ lit ","
  ++ escape_json (lit "HostPort") ++ lit ":" ++ escape_json b.(binding_port) ++ lit "}".

Definition json_port_bindings (m : list (str * list PortBinding)) : str :=
  lit "{" ++ join (lit ",") ((fun kv => escape_json kv.1 ++ lit ":[" ++
     join (lit ",") (json_binding <$> kv.2) ++ lit "]") <$> m) ++ lit "}".

(** [if !items.is_empty() { push(",\"Key\":"); push(text) }] *)
Definition push_nonempty {A} (key : str) (items : list A) (text : str) : str :=
  if bool_decide (length items = 0%nat) then [] else lit "," ++ escape_json key ++ lit ":" ++ text.

Definition host_config_json_string (h : HostConfig) : str :=
  lit "{" ++ escape_json (lit "Privileged") ++ lit ":" ++ json_bool h.(hc_privileged)
  ++ lit "," ++ escape_json (lit "Init") ++ lit ":" ++ json_bool h.(hc_init)
  ++ lit "," ++ escape_json (lit "ReadonlyRootfs") ++ lit ":" ++ json_bool h.(hc_readonly_rootfs)
  ++ push_nonempty (lit "Binds") h.(binds) (json_array h.(binds))
  ++ push_nonempty (lit "PortBindings") h.(port_bindings) (json_port_bindings h.(port_bindings))
  ++ push_nonempty (lit "CapAdd") h.(hc_cap_add) (json_array h.(hc_cap_add))
  ++ push_nonempty (lit "CapDrop") h.(hc_cap_drop) (json_array h.(hc_cap_drop))
  ++ push_field (lit "ShmSize") show_Z h.(hc_shm_size)
  ++ push_nonempty (lit "ExtraHosts") h.(extra_hosts) (json_array h.(extra_hosts))
  ++ push_nonempty (lit "Mounts") h.(mount_entries)
       (lit "[" ++ join (lit ",") h.(mount_entries) ++ lit "]")
  ++ lit "}".

Definition to_json_string (b : CreateContainerBody) : str :=
  lit "{" ++ escape_json (lit "Image") ++ lit ":" ++ escape_json b.(cb_image)
  ++ match b.(cb_entrypoint) with
     | Some entrypoint => push_nonempty (lit "Entrypoint") entrypoint (json_array entrypoint)
     | None => []
     end
  ++ push_nonempty (lit "Cmd") b.(cb_cmd) (json_array b.(cb_cmd))
  ++ push_nonempty (lit "Env") b.(cb_env) (json_array b.(cb_env))
  ++ push_nonempty (lit "Labels") b.(cb_labels) (json_object b.(cb_labels))
  ++ push_field (lit "WorkingDir") escape_json b.(cb_working_dir)
  ++ push_field (lit "User") escape_json b.(cb_user)
  ++ push_nonempty (lit "ExposedPorts") b.(exposed_ports)
       (lit "{" ++ join (lit ",") ((fun key => escape_json key ++ lit ":{}") <$> b.(exposed_ports)) ++ lit "}")
  ++ push_field (lit "Healthcheck") (fun j => j) (hc ← b.(cb_healthcheck); to_docker_json hc)
  ++ push_field (lit "Hostname") escape_json b.(cb_hostname)
  ++ (if bool_decide (b.(cb_open_stdin) = Some true)
      then lit "," ++ escape_json (lit "OpenStdin") ++ lit ":true" else [])
  ++ match b.(cb_network) with
     | Some network =>
         lit "," ++ escape_json (lit "NetworkingConfig") ++ lit ":{" ++
         escape_json (lit "EndpointsConfig") ++ lit ":{" ++ escape_json network ++ lit ":{}" ++ lit "}}"
     | None => []
     end
  ++ lit "," ++ escape_json (lit "HostConfig") ++ lit ":" ++ host_config_json_string b.(host_config)
  ++ lit "}".

Record ExecConfig := mkExecConfig {
  ec_cmd : list str;
  attach_stdout : bool;
  attach_stderr : bool;
  ec_env : list str;
}.

Definition exec_config_json_string (c : ExecConfig) : str :=
  lit "{" ++ escape_json (lit "AttachStdout") ++ lit ":" ++ json_bool c.(attach_stdout)
  ++ lit "," ++ escape_json (lit "AttachStderr") ++ lit ":" ++ json_bool c.(attach_stderr)
  ++ push_nonempty (lit "Cmd") c.(ec_cmd) (json_array c.(ec_cmd))
  ++ push_nonempty (lit "Env") c.(ec_env) (json_array c.(ec_env))
  ++ lit "}".

Record ExecStartConfig := mkExecStart { detach : bool; tty : bool }.
Definition exec_start_json_string (c : ExecStartConfig) : str :=
  lit "{" ++ escape_json (lit "Detach") ++ lit ":" ++ json_bool c.(detach)
  ++ lit "," ++ escape_json (lit "Tty") ++ lit ":" ++ json_bool c.(tty) ++ lit "}".

(** ** The output of an exec *)

(** [demux_exec_stream]; every round consumes a header, so the length is fuel enough. *)
Fixpoint demux_loop (fuel : nat) (data stdout stderr : list byte) : list byte * list byte :=
  match fuel with
  | O => (stdout, stderr)
  | S f =>
      if len data <? 8 then (stdout, stderr)
      else
        let stream_type := u8 (nth 0 data x00) in
        let payload_len := LogStream.from_be_bytes data in
        let rest := zdrop 8 data in
        let end_ := Z.min payload_len (len rest) in
        let chunk := ztake end_ rest in
        let '(stdout, stderr) :=
          if stream_type =? 1 then (stdout ++ chunk, stderr)
          else if stream_type =? 2 then (stdout, stderr ++ chunk)
          else (stdout, stderr) in
        demux_loop f (zdrop end_ rest) stdout stderr
  end.
Definition demux_exec_stream (data : list byte) : list byte * list byte :=
  demux_loop (length data) data [] [].

(** ** Reading responses *)

Inductive HealthStatus := Starting | Healthy | Unhealthy.
Record ContainerSnapshot := mkSnapshot { running : bool; snapshot_ports : Ports }.
Record HealthProbe := mkProbe { probe_running : bool; health : option HealthStatus }.

(** [resolve_exec_exit_code]: the first state that is not running decides. *)
Definition resolve_exec_exit_code (states : list (bool * option Z)) : option Z :=
  match List.find (fun s => negb s.1) states with
  | Some (_, code) => code
  | None => None
  end.

Section Responses.
Context `{JsonLib}.

Definition json_error {A} (r : result str A) : Result A := map_err (fun e => Client (Json e)) r.

(** [from_utf8(body)] and [RawJson::parse(text)], each failing as [ClientError::Json]. *)
Definition parse_body (body : list byte) : Result Value :=
  text ← json_error (str_from_utf8 body); json_error (json_parse text).

(** [v.to_member(k)?.required()?.try_into()?], each failing as [ClientError::Json]. *)
Definition required_string (v : Value) (k : str) : Result str :=
  w ← json_error (required v k); json_error (to_string w).
Definition required_i64 (v : Value) (k : str) : Result Z :=
  w ← json_error (required v k); json_error (to_i64 w).

Definition unwrap_false (o : option bool) : bool := match o with Some b => b | None => false end.

Definition parse_exec_inspect_state (body : list byte) : Result (bool * option Z) :=
  value ← parse_body body;
  Ok (unwrap_false (optional_bool value (lit "Running")), optional_i64 value (lit "ExitCode")).

Definition parse_daemon_error_message (body : list byte) : option str :=
  text ← from_utf8 body;
  parsed ← to_ok (json_parse text);
  w ← to_ok (required parsed (lit "message"));
  to_ok (to_string w).

Definition classify_archive_404 (id path : str) (body : list byte) : ClientError :=
  match parse_daemon_error_message body with
  | Some msg => if starts_with (lit "Could not find the file ") msg then ContainerPathNotFound path
                else ContainerNotFound id
  | None => ContainerNotFound id
  end.

Definition pull_error_message (descriptor : str) (status : Z) (body : list byte) : str :=
  let plain := lit "failed to pull image " ++ descriptor ++ lit ": " ++ show_nat status in
  match parse_daemon_error_message body with
  | Some (c :: message) => plain ++ lit ": " ++ c :: message
  | _ => plain
  end.

(** [String::try_from(v).ok().filter(|s| !s.is_empty())] of an optional member. *)
Definition nonempty (o : option str) : option str :=
  match o with Some (c :: s) => Some (c :: s) | _ => None end.

(** [text.lines()]: the pieces between line feeds, one carriage return before a
    feed removed, an empty last piece dropped. *)
Definition strip_cr (line : str) : str :=
  match rev line with x0d :: r => rev r | _ => line end.
Fixpoint lines_of (pieces : list str) : list str :=
  match pieces with
  | [] => []
  | [last] => if bool_decide (last = []) then [] else [last]
  | p :: ps => strip_cr p :: lines_of ps
  end.
Definition lines (text : str) : list str := lines_of (split x0a text).

(** The error a line of the pull stream carries. *)
Definition pull_line_error (parsed : Value) : option str :=
  let error_msg := nonempty (optional_string parsed (lit "error")) in
  let detail_msg := nonempty (detail ← optional parsed (lit "errorDetail");
                              optional_string detail (lit "message")) in
  match error_msg with Some m => Some m | None => detail_msg end.

(** [line.trim_end_matches('\r').trim()]: the trim removes the carriage returns too. *)
Definition pull_line (line : str) : str :=
  trim (rev (trim_start_byte x0d (rev line))).

Fixpoint check_pull_lines (ls : list str) : result ClientError unit :=
  match ls with
  | [] => Ok tt
  | l :: ls =>
      let line := pull_line l in
      if bool_decide (line = []) then check_pull_lines ls
      else
        parsed ← map_err Json (json_parse line);
        if negb (is_object parsed) then Err (Json (lit "expected object in pull stream, got " ++ line))
        else match pull_line_error parsed with
             | Some msg => Err (ClientOther msg)
             | None => check_pull_lines ls
             end
  end.

Definition check_pull_stream_errors (body : list byte) : result ClientError unit :=
  text ← map_err Json (str_from_utf8 body); check_pull_lines (lines text).

(** The port a key of [NetworkSettings.Ports] names, and the ports its value binds. *)
Definition parse_port_key (key : str) : option ContainerPort :=
  match split "/" key with
  | [p; proto] =>
      n ← to_ok (parse_u16 p);
      if bool_decide (proto = lit "tcp") then Some (Tcp n)
      else if bool_decide (proto = lit "udp") then Some (Udp n)
      else if bool_decide (proto = lit "sctp") then Some (Sctp n)
      else None
  | _ => None
  end.

Definition binding_host_port (binding : Value) : option Z :=
  s ← optional_string binding (lit "HostPort"); to_ok (parse_u16 s).

Definition add_bindings (ps : Ports) (c : ContainerPort) (bindings : list Value) : Ports :=
  fold_left (fun ps b => match binding_host_port b with
                         | Some h => add_mapping ps c h
                         | None => ps end) bindings ps.

Definition add_port_entry (ps : Ports) (kv : Value * Value) : Ports :=
  match to_ok (to_string kv.1) ≫= parse_port_key with
  | Some c => match to_array kv.2 with
              | Ok bindings => add_bindings ps c bindings
              | Err _ => ps
              end
  | None => ps
  end.

Definition parse_ports (parsed : Value) : Ports :=
  match (ns ← optional parsed (lit "NetworkSettings"); optional ns (lit "Ports")) with
  | None => Ports_default
  | Some ports_json =>
      match to_object ports_json with
      | Ok entries => fold_left add_port_entry entries Ports_default
      | Err _ => Ports_default
      end
  end.

(** The address of the first network, and the environment, of an inspect. *)
Definition bridge_ip_text (parsed : Value) : option str :=
  nonempty
    (ns ← optional parsed (lit "NetworkSettings");
     networks ← optional ns (lit "Networks");
     obj ← to_ok (to_object networks);
     '(_, network) ← head obj;
     optional_string network (lit "IPAddress")).

Definition env_strings (parsed : Value) : list str :=
  match (config ← optional parsed (lit "Config"); env ← optional config (lit "Env");
         to_ok (to_array env)) with
  | Some items => omap (fun v => to_ok (to_string v)) items
  | None => []
  end.

Definition snapshot_of (parsed : Value) : Result ContainerSnapshot :=
  state ← json_error (required parsed (lit "State"));
  Ok (mkSnapshot (unwrap_false (optional_bool state (lit "Running"))) (parse_ports parsed)).

Definition health_status (status : str) : option HealthStatus :=
  if bool_decide (status = lit "starting") then Some Starting
  else if bool_decide (status = lit "healthy") then Some Healthy
  else if bool_decide (status = lit "unhealthy") then Some Unhealthy
  else None.

Definition health_of (parsed : Value) : Result HealthProbe :=
  state ← json_error (required parsed (lit "State"));
  Ok (mkProbe (unwrap_false (optional_bool state (lit "Running")))
        (health ← optional state (lit "Health");
         status ← optional_string health (lit "Status");
         health_status status)).
End Responses.

(** ** Percent encoding can be undone *)

Definition percent_ok (b : byte) : bool :=
  match percent_byte b with
  | [c] => bool_decide (c = b) && negb (bool_decide (b = "%"%byte)) && unreserved c
  | [p; h; l] => bool_decide (p = "%"%byte) && unreserved h && unreserved l &&
      bool_decide ((x ← hex_value h; y ← hex_value l; Some (as_u8 (16 * x + y))) = Some b)
  | _ => false
  end.
Lemma percent_ok_all b : percent_ok b = true.
Proof. apply byte_forall. vm_compute. reflexivity. Qed.

Lemma percent_decode_byte b s t :
  percent_decode s = Some t -> percent_decode (percent_byte b ++ s) = Some (b :: t).
Proof.
  intros Hs. pose proof (percent_ok_all b) as E. unfold percent_ok in E.
  destruct (percent_byte b) as [|c [|h [|l []]]]; try discriminate E.
  - rewrite !andb_true_iff, negb_true_iff, bool_decide_eq_true, bool_decide_eq_false in E.
    destruct E as ((-> & Hb) & _). cbn [app percent_decode]. rewrite decide_False by done.
    by rewrite Hs.
  - rewrite !andb_true_iff, !bool_decide_eq_true in E. destruct E as (((-> & _) & _) & E).
    cbn [app percent_decode]. rewrite decide_True by done.
    destruct (hex_value h), (hex_value l); try discriminate E. cbn -[as_u8 Z.mul] in *.
    rewrite Hs. cbn -[as_u8 Z.mul]. by apply (inj Some) in E as ->.
Qed.

(** A percent-encoded text decodes to what was encoded, so two different
    container names or references never address the same path, and it holds
    nothing but unreserved characters and percent signs: no slash, question
    mark, ampersand, white space or line end can leak into a request line. *)
Theorem percent_encode_spec (s : str) :
  percent_decode (percent_encode s) = Some s /\
  Forall (fun b => unreserved b = true \/ b = "%"%byte) (percent_encode s).
Proof.
  induction s as [|b s [IH1 IH2]]; [by split; [|constructor]|].
  change (percent_encode (b :: s)) with (percent_byte b ++ percent_encode s).
  split; [by apply percent_decode_byte|]. apply Forall_app_2; [|done].
  pose proof (percent_ok_all b) as E. unfold percent_ok in E.
  destruct (percent_byte b) as [|c [|h [|l []]]]; try discriminate E;
    rewrite !andb_true_iff, ?bool_decide_eq_true in E; repeat apply List.Forall_cons;
    try apply List.Forall_nil; intuition.
Qed.

(** ** Image references split where Docker splits them *)

Lemma last_component_app d : let '(p, n) := last_component d in
  d = p ++ n /\ ("/"%byte ∉ n) /\ (p = [] \/ exists l, p = l ++ lit "/").
Proof.
  unfold last_component. destruct (rsplit_once "/" d) as [[l r]|] eqn:E.
  - apply rsplit_once_Some in E as [-> Hr]. rewrite <- app_assoc. split_and!; eauto.
  - apply rsplit_once_None in E. by split_and!; [| |left].
Qed.

(** Both parts of a reference [image:tag]. *)
Lemma split_name_and_tag_spec d image tag :
  split_name_and_tag d = (image, tag) ->
  tag <> [] /\ ("/"%byte ∉ tag) /\
  (d = image ++ ":"%byte :: tag \/ (tag = lit "latest" /\ (d = image \/ d = image ++ lit ":"))) /\
  (":"%byte ∉ (last_component image).2).
Proof.
  unfold split_name_and_tag. pose proof (last_component_app d) as Hd.
  destruct (last_component d) as [p n] eqn:El. destruct Hd as (-> & Hn & Hp).
  assert (forall m, ("/"%byte ∉ m) -> last_component (p ++ m) = (p, m)) as Hlast.
  { intros m Hm. unfold last_component. destruct Hp as [->|[l ->]].
    - cbn. by rewrite (proj2 (rsplit_once_None _ m)).
    - assert (rsplit_once "/" ((l ++ lit "/") ++ m) = Some (l, m)) as ->; [|done].
      apply rsplit_once_Some. by rewrite <- app_assoc. }
  destruct (split_once ":" n) as [[name t]|] eqn:Es.
  - apply split_once_Some in Es as [-> Hc]. apply not_elem_of_app in Hn as [Hn Ht].
    apply not_elem_of_cons in Ht as [_ Ht].
    replace (len (p ++ name ++ ":"%byte :: t) - len (name ++ ":"%byte :: t) + len name)
      with (len (p ++ name)) by llia.
    rewrite app_assoc, ztake_app_le, ztake_ge by lia. intros [= <- <-].
    rewrite Hlast by done. cbn [snd]. case_bool_decide as Et.
    + subst t. split_and!; [done|by apply contains_false| |done].
      right. split; [done|]. right. done.
    + split_and!; [done|done| |done]. left. done.
  - apply split_once_None in Es. intros [= <- <-]. rewrite El. cbn [snd].
    split_and!; [done|by apply contains_false| |done]. right. by split; [|left].
Qed.

(** The reference sent to [POST /images/create] is the descriptor's: a digest
    after the first [@] wins over a tag; otherwise the tag is what follows the
    colon of the last path component (never a registry port), [latest] when it
    is missing or empty; and the image is the rest, with no tag left in it. *)
Theorem split_pull_reference_spec (d image tag : str) :
  split_pull_reference d = (image, tag) ->
  tag <> [] /\ (":"%byte ∉ (last_component image).2) /\
  match split_once "@" d with
  | Some (l, digest) => (digest = [] /\ tag = lit "latest" \/ tag = digest) /\
      (l = image \/ exists t, l = image ++ ":"%byte :: t /\ ("/"%byte ∉ t))
  | None => ("/"%byte ∉ tag) /\
      (d = image ++ ":"%byte :: tag \/ (tag = lit "latest" /\ (d = image \/ d = image ++ lit ":")))
  end.
Proof.
  unfold split_pull_reference. destruct (split_once "@" d) as [[l digest]|].
  - destruct (split_name_and_tag l) as [i t] eqn:E.
    destruct (split_name_and_tag_spec l i t E) as (_ & Hs & Hl & Hc). intros [= <- <-].
    split_and!; [by case_bool_decide | done | case_bool_decide; [by left | by right] |].
    destruct Hl as [->|[_ [->| ->]]]; [right; eauto | by left |].
    right. exists []. split; [done | apply not_elem_of_nil].
  - intros E. destruct (split_name_and_tag_spec d image tag E) as (? & ? & ? & ?). by split_and!.
Qed.

Lemma split_pull_reference_spec_witness :
  split_pull_reference (lit "localhost:5000/app") = (lit "localhost:5000/app", lit "latest") /\
  lit "latest" <> [] /\ (":"%byte ∉ (last_component (lit "localhost:5000/app")).2).
Proof.
  split; [vm_compute; reflexivity|].
  destruct (split_pull_reference_spec (lit "localhost:5000/app") (lit "localhost:5000/app")
    (lit "latest") ltac:(vm_compute; reflexivity)) as (H1 & H2 & _). by split.
Defined.

(** ** The output of an exec *)

Lemma ztake_min {A} n (l : list A) : 0 <= n -> ztake (Z.min n (len l)) l = ztake n l.
Proof.
  intros. destruct (Z.le_ge_cases n (len l)); [by rewrite Z.min_l by lia|].
  rewrite Z.min_r by lia. by rewrite !ztake_ge by lia.
Qed.
Lemma zdrop_min {A} n (l : list A) : 0 <= n -> zdrop (Z.min n (len l)) l = zdrop n l.
Proof.
  intros. destruct (Z.le_ge_cases n (len l)); [by rewrite Z.min_l by lia|].
  rewrite Z.min_r by lia. by rewrite !zdrop_ge by lia.
Qed.

Lemma exec_demux_loop_spec f data o e :
  (length data <= f)%nat ->
  demux_loop f data o e = (o ++ LogStream.stream_bytes 1 data, e ++ LogStream.stream_bytes 2 data).
Proof.
  revert data o e. induction f as [|f IH]; intros data o e Hf.
  - destruct data; [|cbn in Hf; lia]. cbn. by rewrite !app_nil_r.
  - cbn [demux_loop]. rewrite (LogStream.stream_bytes_eq 1), (LogStream.stream_bytes_eq 2).
    destruct (Z.ltb_spec (len data) 8) as [|Hlen]; [by rewrite !app_nil_r|].
    pose proof (LogStream.from_be_bytes_nonneg data) as Hn.
    rewrite ztake_min, zdrop_min by done.
    assert (length (zdrop (LogStream.from_be_bytes data) (zdrop 8 data)) <= f)%nat as Hf'
      by (unfold zdrop; rewrite !length_drop; unfold len in Hlen; lia).
    destruct (Z.eqb_spec (u8 (nth 0 data x00)) 1) as [E1|E1].
    { rewrite E1. cbn [Z.eqb Pos.eqb]. rewrite IH by done. by rewrite <- app_assoc. }
    destruct (Z.eqb_spec (u8 (nth 0 data x00)) 2) as [E2|E2]; rewrite IH by done; cbn [app];
      by rewrite <- ?app_assoc.
Qed.

(** The output of an exec is split as the log sessions split theirs: stdout is
    the payloads of the frames of type 1, stderr those of type 2, in order, a
    truncated last frame included and other types dropped. *)
Lemma demux_exec_stream_eq (data : list byte) :
  demux_exec_stream data = (LogStream.stream_bytes 1 data, LogStream.stream_bytes 2 data).
Proof. unfold demux_exec_stream. by rewrite exec_demux_loop_spec. Qed.
