(* ===== verification/CreateBody.v ===== *)
(** * What a create request says ([src/src/core/client/docker_client.rs])

    The body of [POST /containers/create] is assembled by pushing text.  Here
    it is compared with the JSON object that a container configuration stands
    for: the text reads back as that object, whatever characters the names,
    paths, labels and commands contain. *)

From S2P Require Import Prelude BTree Utf8 Ports Errors Mounts Healthcheck Json Request DockerApi.

Definition strs (l : list str) : json := JArr (JStr <$> l).

(** A member written only when the list is not empty. *)
Definition nonempty_json {A} (key : str) (items : list A) (j : json) : list (str * json) :=
  if bool_decide (length items = 0%nat) then [] else [(key, j)].

Definition bind_text (m : Mount) : option str :=
  match m.(mount_type) with
  | Bind => Some (unwrap_or m.(source) [] ++ lit ":" ++ unwrap_or m.(target) [] ++ lit ":"
                  ++ show_AccessMode m.(access_mode))
  | _ => None
  end.

Definition tmpfs_options_json (o : option MountTmpfsOptions) : list (str * json) :=
  match o with
  | Some o =>
      match field_json (lit "SizeBytes") JNum o.(size_bytes) ++ field_json (lit "Mode") JNum o.(mode) with
      | [] => []
      | ms => [(lit "TmpfsOptions", JObj ms)]
      end
  | None => []
  end.

Definition mount_json (m : Mount) : option json :=
  let target := (lit "Target", JStr (unwrap_or m.(target) [])) in
  let read_only := (lit "ReadOnly", JBool (bool_decide (m.(access_mode) = ReadOnly))) in
  match m.(mount_type) with
  | Bind => None
  | Volume => Some (JObj [(lit "Type", JStr (lit "volume"));
                          (lit "Source", JStr (unwrap_or m.(source) [])); target; read_only])
  | Tmpfs => Some (JObj ([(lit "Type", JStr (lit "tmpfs")); target; read_only]
                         ++ tmpfs_options_json m.(tmpfs_options)))
  end.

(** The parts of a mount its kind requires. *)
Definition mount_complete (m : Mount) : bool :=
  match m.(mount_type) with
  | Tmpfs => Wait.is_some m.(target)
  | _ => Wait.is_some m.(source) && Wait.is_some m.(target)
  end.

Definition binding_json (b : PortBinding) : json :=
  JObj [(lit "HostIp", JStr b.(host_ip)); (lit "HostPort", JStr b.(binding_port))].

Definition host_config_json (c : ContainerConfig) : json :=
  let bindings := build_port_bindings c.(cfg_ports) in
  let bs := omap bind_text c.(cfg_mounts) in
  let ms := omap mount_json c.(cfg_mounts) in
  JObj ([(lit "Privileged", JBool c.(cfg_privileged)); (lit "Init", JBool c.(cfg_init));
         (lit "ReadonlyRootfs", JBool c.(cfg_readonly_rootfs))]
    ++ nonempty_json (lit "Binds") bs (strs bs)
    ++ nonempty_json (lit "PortBindings") bindings
         (JObj ((fun kv => (kv.1, JArr (binding_json <$> kv.2))) <$> bindings))
    ++ nonempty_json (lit "CapAdd") c.(cfg_cap_add) (strs c.(cfg_cap_add))
    ++ nonempty_json (lit "CapDrop") c.(cfg_cap_drop) (strs c.(cfg_cap_drop))
    ++ field_json (lit "ShmSize") JNum c.(cfg_shm_size)
    ++ nonempty_json (lit "ExtraHosts") c.(cfg_extra_hosts) (strs c.(cfg_extra_hosts))
    ++ nonempty_json (lit "Mounts") ms (JArr ms)).

(** The object of a create request. *)
Definition create_json (c : ContainerConfig) : json :=
  JObj ([(lit "Image", JStr c.(cfg_image))]
    ++ match c.(cfg_entrypoint) with
       | Some e => nonempty_json (lit "Entrypoint") e (strs e) | None => [] end
    ++ nonempty_json (lit "Cmd") c.(cfg_cmd) (strs c.(cfg_cmd))
    ++ nonempty_json (lit "Env") c.(cfg_env) (strs c.(cfg_env))
    ++ nonempty_json (lit "Labels") c.(cfg_labels)
         (JObj ((fun kv => (kv.1, JStr kv.2)) <$> c.(cfg_labels)))
    ++ field_json (lit "WorkingDir") JStr c.(cfg_working_dir)
    ++ field_json (lit "User") JStr c.(cfg_user)
    ++ nonempty_json (lit "ExposedPorts") c.(cfg_ports)
         (JObj ((fun p => (port_key_text p.(container_port), JObj [])) <$> c.(cfg_ports)))
    ++ field_json (lit "Healthcheck") healthcheck_json
         (hc ← c.(cfg_health_check); if decide (to_docker_json hc = None) then None else Some hc)
    ++ field_json (lit "Hostname") JStr c.(cfg_hostname)
    ++ (if bool_decide (c.(cfg_open_stdin) = Some true) then [(lit "OpenStdin", JBool true)] else [])
    ++ field_json (lit "NetworkingConfig")
         (fun n => JObj [(lit "EndpointsConfig", JObj [(n, JObj [])])]) c.(cfg_network)
    ++ [(lit "HostConfig", host_config_json c)]).

(** ** The text is the print of the object *)

Lemma push_nonempty_tail {A} key (items : list A) text j :
  text = print j -> push_nonempty key items text = members_tail (nonempty_json key items j).
Proof.
  intros ->. unfold push_nonempty, nonempty_json. case_bool_decide; [done|].
  unfold members_tail. cbn [map concat]. by rewrite app_nil_r.
Qed.

Lemma push_strings_tail key l :
  push_nonempty key l (json_array l) = members_tail (nonempty_json key l (strs l)).
Proof. apply push_nonempty_tail, json_array_print. Qed.

Lemma push_field_json {A} key (show : A -> str) (to : A -> json) field :
  (forall x, field = Some x -> show x = print (to x)) ->
  push_field key show field = members_tail (field_json key to field).
Proof.
  intros H. destruct field as [x|]; [|done]. unfold push_field, field_json, members_tail.
  cbn [map concat]. rewrite app_nil_r, (H x) by done. done.
Qed.

Lemma members_tail_one k j : members_tail [(k, j)] = lit "," ++ escape_json k ++ lit ":" ++ print j.
Proof. unfold members_tail. cbn [map concat]. by rewrite app_nil_r. Qed.

Lemma members_tail_cons k j ms :
  members_tail ((k, j) :: ms) = lit "," ++ escape_json k ++ lit ":" ++ print j ++ members_tail ms.
Proof. unfold members_tail. cbn [map concat]. unfold print_member. cbn [fst snd]. by rewrite <- !app_assoc. Qed.

(** An object from its first member on. *)
Lemma print_obj_cons k j ms :
  print (JObj ((k, j) :: ms)) = lit "{" ++ escape_json k ++ lit ":" ++ print j ++ members_tail ms ++ lit "}".
Proof. rewrite print_obj. unfold print_member. cbn [fst snd]. by rewrite <- !app_assoc. Qed.

Lemma print_arr l : print (JArr l) = lit "[" ++ join (lit ",") (print <$> l) ++ lit "]".
Proof. done. Qed.

Lemma print_obj_map {A} (f : A -> str * json) (g : A -> str) (l : list A) :
  (forall x, print_member (f x) = g x) ->
  print (JObj (f <$> l)) = lit "{" ++ join (lit ",") (g <$> l) ++ lit "}".
Proof.
  intros H. change (print (JObj (f <$> l)))
    with (lit "{" ++ join (lit ",") (map print_member (f <$> l)) ++ lit "}").
  do 3 f_equal. induction l as [|x l IH]; [done|]. cbn [fmap list_fmap map]. by rewrite H, <- IH.
Qed.

Lemma volume_entry_print s t r :
  volume_entry s t r = print (JObj [(lit "Type", JStr (lit "volume")); (lit "Source", JStr s);
                                    (lit "Target", JStr t); (lit "ReadOnly", JBool r)]).
Proof.
  rewrite print_obj_cons, !members_tail_cons. unfold members_tail. cbn [map concat].
  unfold volume_entry. by rewrite app_nil_r, <- !app_assoc.
Qed.

Lemma tmpfs_entry_print t r o :
  tmpfs_entry t r o = print (JObj ([(lit "Type", JStr (lit "tmpfs")); (lit "Target", JStr t);
                                    (lit "ReadOnly", JBool r)] ++ tmpfs_options_json o)).
Proof.
  cbn [app]. rewrite print_obj_cons, !members_tail_cons. unfold tmpfs_entry, tmpfs_options_json.
  destruct o as [[[s|] [m|]]|]; cbn [size_bytes mode field_json app].
  - rewrite bool_decide_eq_false_2 by done. rewrite bool_decide_eq_false_2 by done.
    rewrite members_tail_one, print_obj_cons, members_tail_one. by rewrite <- !app_assoc.
  - rewrite bool_decide_eq_false_2 by done.
    rewrite members_tail_one, print_obj_cons. unfold members_tail. cbn [map concat].
    by rewrite <- !app_assoc.
  - rewrite (bool_decide_eq_true_2 (@nil byte = [])) by done.
    rewrite bool_decide_eq_false_2 by done.
    rewrite members_tail_one, print_obj_cons. unfold members_tail. cbn [map concat].
    by rewrite <- !app_assoc.
  - rewrite bool_decide_eq_true_2 by done. unfold members_tail. cbn [map concat]. by rewrite <- !app_assoc.
  - rewrite bool_decide_eq_true_2 by done. unfold members_tail. cbn [map concat]. by rewrite <- !app_assoc.
Qed.

Lemma add_mount_spec m bs ms :
  match add_mount m bs ms with
  | Ok (bs', ms') => mount_complete m = true /\ bs' = bs ++ omap bind_text [m] /\
                     ms' = ms ++ (print <$> omap mount_json [m])
  | Err e => mount_complete m = false /\ exists s, e = Client (Configuration s)
  end.
Proof.
  unfold add_mount, mount_complete, config_error.
  destruct m as [a [] [s|] [t|] o]; cbn [mount_type source target access_mode tmpfs_options ok_or
    mbind result_bind Wait.is_some andb].
  all: try (split; [reflexivity | eauto]).
  all: cbn [omap list_omap bind_text mount_json mount_type source target access_mode tmpfs_options
    unwrap_or fmap list_fmap option_fmap].
  all: rewrite ?app_nil_r, <- ?volume_entry_print, <- ?tmpfs_entry_print; done.
Qed.

Lemma add_mounts_spec l bs ms :
  match add_mounts l bs ms with
  | Ok (bs', ms') => forallb mount_complete l = true /\ bs' = bs ++ omap bind_text l /\
                     ms' = ms ++ (print <$> omap mount_json l)
  | Err e => forallb mount_complete l = false /\ exists s, e = Client (Configuration s)
  end.
Proof.
  revert bs ms. induction l as [|m l IH]; intros bs ms.
  - cbn. by rewrite !app_nil_r.
  - cbn [add_mounts forallb]. pose proof (add_mount_spec m bs ms) as Hm.
    destruct (add_mount m bs ms) as [[bs1 ms1]|e]; cbn [mbind result_bind].
    + destruct Hm as (Hc & -> & ->). rewrite Hc. cbn [andb].
      specialize (IH (bs ++ omap bind_text [m]) (ms ++ (print <$> omap mount_json [m]))).
      destruct (add_mounts l _ _) as [[bs2 ms2]|e]; [|done].
      destruct IH as (? & -> & ->). split; [done|]. change (m :: l) with ([m] ++ l).
      by rewrite !omap_app, fmap_app, !app_assoc.
    + destruct Hm as [-> Hm]. done.
Qed.

Lemma json_port_bindings_print m :
  json_port_bindings m = print (JObj ((fun kv => (kv.1, JArr (binding_json <$> kv.2))) <$> m)).
Proof.
  unfold json_port_bindings. symmetry. apply print_obj_map. intros [k bs].
  unfold print_member. cbn [fst snd]. rewrite print_arr, <- list_fmap_compose.
  assert (forall b, (print ∘ binding_json) b = json_binding b) as Hb.
  { intros b. unfold compose, binding_json. rewrite print_obj_cons, members_tail_one.
    unfold json_binding. cbn [print]. by rewrite <- !app_assoc. }
  rewrite (list_fmap_ext _ json_binding bs) by (intros; apply Hb).
  change (lit ":[") with (lit ":" ++ lit "["). by rewrite <- !app_assoc.
Qed.

Lemma nonempty_json_map {A B} key (f : A -> B) l j :
  nonempty_json key (f <$> l) j = nonempty_json key l j.
Proof. unfold nonempty_json. by rewrite length_fmap. Qed.

(** The mounts of a body made from a configuration. *)
Lemma from_config_spec c :
  match from_config c with
  | Ok b => forallb mount_complete c.(cfg_mounts) = true /\
            b.(host_config).(binds) = omap bind_text c.(cfg_mounts) /\
            b.(host_config).(mount_entries) = print <$> omap mount_json c.(cfg_mounts)
  | Err e => forallb mount_complete c.(cfg_mounts) = false /\ exists s, e = Client (Configuration s)
  end.
Proof.
  unfold from_config. pose proof (add_mounts_spec c.(cfg_mounts) [] []) as H.
  destruct (add_mounts c.(cfg_mounts) [] []) as [[bs ms]|e]; cbn; [|done]. done.
Qed.

Lemma host_config_print c b :
  from_config c = Ok b -> host_config_json_string b.(host_config) = print (host_config_json c).
Proof.
  intros E. pose proof (from_config_spec c) as Hs. rewrite E in Hs. destruct Hs as (_ & Hb & Hm).
  unfold from_config in E. destruct (add_mounts _ _ _) as [[bs ms]|e]; [|done].
  cbn [mbind result_bind] in E. apply (inj Ok) in E. rewrite <- E in Hb, Hm |- *.
  cbn [host_config binds mount_entries] in Hb, Hm. subst bs ms. clear E b.
  unfold host_config_json_string, host_config_json. cbn [host_config port_bindings binds hc_privileged
    hc_init hc_cap_add hc_cap_drop hc_shm_size hc_readonly_rootfs extra_hosts mount_entries].
  cbn [app].
  rewrite print_obj_cons, !members_tail_cons, !members_tail_app.
  rewrite !push_strings_tail.
  rewrite (push_nonempty_tail _ _ _ _ (json_port_bindings_print _)).
  rewrite (push_field_json _ _ JNum) by done.
  rewrite (push_nonempty_tail _ (print <$> _) _ (JArr (omap mount_json (cfg_mounts c)))) by done.
  rewrite nonempty_json_map. by rewrite <- !app_assoc.
Qed.

(** The four members with a rule of their own. *)
Lemma healthcheck_tail (o : option Healthcheck.Healthcheck) :
  push_field (lit "Healthcheck") (fun j => j) (hc ← o; to_docker_json hc) =
  members_tail (field_json (lit "Healthcheck") healthcheck_json
    (hc ← o; if decide (to_docker_json hc = None) then None else Some hc)).
Proof.
  destruct o as [hc|]; [|done]. cbn [mbind option_bind]. destruct (to_docker_json hc) as [j|] eqn:Ej.
  - rewrite decide_False by done. apply to_docker_json_print in Ej as ->.
    unfold push_field, field_json. by rewrite members_tail_one.
  - by rewrite decide_True.
Qed.

Lemma network_tail (o : option str) :
  match o with
  | Some network =>
      lit "," ++ escape_json (lit "NetworkingConfig") ++ lit ":{" ++
      escape_json (lit "EndpointsConfig") ++ lit ":{" ++ escape_json network ++ lit ":{}" ++ lit "}}"
  | None => []
  end = members_tail (field_json (lit "NetworkingConfig")
          (fun n => JObj [(lit "EndpointsConfig", JObj [(n, JObj [])])]) o).
Proof.
  destruct o as [n|]; [|done]. cbn [field_json].
  rewrite members_tail_one, !print_obj_cons. unfold members_tail. cbn [map concat].
  change (lit ":{") with (lit ":" ++ lit "{"). change (lit ":{}") with (lit ":" ++ lit "{}").
  change (lit "}}") with (lit "}" ++ lit "}"). rewrite <- !app_assoc. done.
Qed.

Lemma stdin_tail (b : bool) :
  (if b then lit "," ++ escape_json (lit "OpenStdin") ++ lit ":true" else []) =
  members_tail (if b then [(lit "OpenStdin", JBool true)] else []).
Proof. destruct b; [|done]. by rewrite members_tail_one. Qed.

Lemma entrypoint_tail (o : option (list str)) :
  match o with
  | Some e => push_nonempty (lit "Entrypoint") e (json_array e) | None => [] end =
  members_tail match o with
               | Some e => nonempty_json (lit "Entrypoint") e (strs e) | None => [] end.
Proof. destruct o; [apply push_strings_tail | done]. Qed.

Lemma exposed_tail (ps : list PortMapping) :
  push_nonempty (lit "ExposedPorts") (build_exposed_ports ps)
    (lit "{" ++ join (lit ",") ((fun key => escape_json key ++ lit ":{}") <$> build_exposed_ports ps)
     ++ lit "}") =
  members_tail (nonempty_json (lit "ExposedPorts") ps
    (JObj ((fun p => (port_key_text p.(container_port), JObj [])) <$> ps))).
Proof.
  rewrite (push_nonempty_tail _ (build_exposed_ports ps) _
    (JObj ((fun p => (port_key_text (container_port p), JObj [])) <$> ps))).
  - unfold build_exposed_ports. by rewrite nonempty_json_map.
  - unfold build_exposed_ports. rewrite <- list_fmap_compose. symmetry. by apply print_obj_map.
Qed.

Lemma to_json_string_print c b : from_config c = Ok b -> to_json_string b = print (create_json c).
Proof.
  intros E. pose proof (host_config_print c b E) as Hh.
  unfold from_config in E. destruct (add_mounts _ _ _) as [[bs ms]|e]; [|done].
  cbn [mbind result_bind] in E. apply (inj Ok) in E.
  unfold to_json_string. rewrite Hh. rewrite <- E. clear Hh E b.
  cbn [cb_image cb_entrypoint cb_cmd cb_env cb_labels cb_working_dir cb_user exposed_ports
    cb_healthcheck cb_hostname cb_open_stdin cb_network].
  unfold create_json. cbn [app]. rewrite print_obj_cons, !members_tail_app, members_tail_one.
  rewrite entrypoint_tail, healthcheck_tail, network_tail, stdin_tail, exposed_tail.
  rewrite !push_strings_tail, !(push_field_json _ escape_json JStr) by done.
  rewrite (push_nonempty_tail _ _ _ _ (json_object_print _)).
  by rewrite <- !app_assoc.
Qed.

(** The body of a create request. *)
Definition create_body (c : ContainerConfig) : Result str := b ← from_config c; Ok (to_json_string b).

(** C37: The body of a create request reads back as the object of the
    configuration, every member with its value and none without one; making it
    fails only when a mount lacks the source or target its kind needs, with a
    configuration error. *)
Theorem create_body_reads_back (c : ContainerConfig) :
  match create_body c with
  | Ok text => forallb mount_complete c.(cfg_mounts) = true /\ read_json text = Some (create_json c)
  | Err e => forallb mount_complete c.(cfg_mounts) = false /\ exists s, e = Client (Configuration s)
  end.
Proof.
  unfold create_body. pose proof (from_config_spec c) as Hs.
  destruct (from_config c) as [b|e] eqn:E; cbn [mbind result_bind]; [|done].
  split; [apply Hs|]. rewrite (to_json_string_print c b E). apply read_json_print.
Qed.

(** ** No mapping is lost *)

Lemma port_key_text_show c : port_key_text c = show_ContainerPort c.
Proof. by destruct c. Qed.

Lemma port_key_text_inj a b :
  port_in_range a -> port_in_range b -> port_key_text a = port_key_text b -> a = b.
Proof.
  rewrite !port_key_text_show. intros Ha Hb E.
  pose proof (parse_show_port a Ha) as Ra. pose proof (parse_show_port b Hb) as Rb. congruence.
Qed.

(** The entry a mapping stands for: its port and protocol, bound to its host port
    on every interface. *)
Definition binding_entry (p : PortMapping) : str * list PortBinding :=
  (port_key_text p.(container_port), [mkPortBinding (lit "0.0.0.0") (show_nat p.(host_port))]).

Lemma build_port_bindings_collect ps : build_port_bindings ps = bt_collect (binding_entry <$> ps).
Proof.
  unfold build_port_bindings, bt_collect, bt_extend. generalize (@nil (str * list PortBinding)) as m.
  induction ps as [|p ps IH]; intros m; [done|]. cbn [fold_left fmap list_fmap]. apply IH.
Qed.

(** The [PortBindings] object has one entry per mapping of an accepted
    request, at its port and protocol, bound to its host port on every
    interface; no mapping overwrites another, and the keys are in order. *)
Theorem build_port_bindings_complete (ps : list PortMapping) :
  reject_duplicate_mapped_ports ps = Ok tt -> Forall (fun p => port_in_range p.(container_port)) ps ->
  bt_sorted (build_port_bindings ps) /\
  forall e, e ∈ build_port_bindings ps <-> exists p, p ∈ ps /\ e = binding_entry p.
Proof.
  intros Hr Hp. apply reject_loop_ok in Hr as [Hn _].
  rewrite build_port_bindings_collect. split; [apply bt_collect_sorted|].
  assert (NoDup (binding_entry <$> ps).*1) as Hk.
  { rewrite <- list_fmap_compose. revert Hn. induction Hp as [|p ps Hp Hps IH]; cbn.
    - intros _. constructor.
    - rewrite !NoDup_cons. intros [Hni Hn]. split; [|by apply IH].
      intros (q & Eq & Hq)%list_elem_of_fmap. apply Hni. apply list_elem_of_fmap. exists q.
      split; [|done]. rewrite Forall_forall in Hps. apply port_key_text_inj; auto. }
  intros [k v]. rewrite <- (bt_get_elem k v) by apply bt_collect_sorted.
  rewrite bt_get_collect, last_binding_NoDup, list_elem_of_fmap by done.
  split; intros (p & ? & ?); exists p; by split_and?.
Qed.

Lemma build_port_bindings_complete_witness :
  let ps := [mkPortMapping 8080 (Tcp 80); mkPortMapping 5300 (Udp 80)] in
  reject_duplicate_mapped_ports ps = Ok tt /\
  (lit "80/udp", [mkPortBinding (lit "0.0.0.0") (lit "5300")]) ∈ build_port_bindings ps.
Proof.
  intros ps. split; [reflexivity|].
  apply (build_port_bindings_complete ps); [reflexivity | repeat constructor; cbv; discriminate |].
  exists (mkPortMapping 5300 (Udp 80)). split; [right; left | reflexivity].
Defined.

(** A request with awkward texts, written and read back. *)
Definition odd_config : ContainerConfig := {|
  cfg_image := lit "app:1"; cfg_entrypoint := None; cfg_cmd := [lit "echo"; [x22; x5c; x0a; x01]];
  cfg_env := []; cfg_ports := [mkPortMapping 0 (Tcp 80)];
  cfg_mounts := [volume_mount (lit "v") (lit "/data")]; cfg_name := None;
  cfg_labels := [(lit "k", lit "v")]; cfg_privileged := false; cfg_working_dir := None;
  cfg_user := None; cfg_init := true; cfg_health_check := Some (cmd_shell (lit "true"));
  cfg_cap_add := []; cfg_cap_drop := []; cfg_shm_size := Some 64; cfg_readonly_rootfs := false;
  cfg_hostname := None; cfg_open_stdin := Some false; cfg_network := Some (lit "n");
  cfg_platform := None; cfg_extra_hosts := [] |}.

Example odd_config_reads_back :
  (text ← to_ok (create_body odd_config); read_json text) = Some (create_json odd_config).
Proof. vm_compute. reflexivity. Qed.
