(* ===== verification/Wire.v ===== *)
(** * Requests as they go over the wire

    What a request of the Docker client may look like: its method, its target and its
    header fields.  A target is read by the grammar of RFC 3986, independently of how the
    client writes it, and must come to a call of the API: as many segments and query
    parameters as the call has, none more.  Every text the client puts into one is
    percent-encoded, a number or base64, so no name, path or answer of the daemon ends the
    part it is in; that is proved operation by operation, as a predicate on the events of a
    program. *)

From S2P Require Import Prelude Json RegistryAuth Effect DockerApi.

(** ** The parts of a target *)

Record Target := mkTarget { segments : list str; query : list (str * str) }.

(** A segment, a key or a value: unreserved characters and percent signs, decoded. *)
Definition piece_byte (b : byte) : bool := unreserved b || bool_decide (b = "%"%byte).
Definition read_piece (s : str) : option str := if forallb piece_byte s then percent_decode s else None.
Definition read_pair (s : str) : option (str * str) :=
  '(k, v) ← split_once "=" s; k ← read_piece k; v ← read_piece v; Some (k, v).
Definition read_path (s : str) : option (list str) :=
  match s with
  | b :: s => if bool_decide (b = "/"%byte) then mapM read_piece (split "/" s) else None
  | [] => None
  end.
Definition read_query (s : str) : option (list (str * str)) := mapM read_pair (split "&" s).
Definition read_target (s : str) : option Target :=
  match split_once "?" s with
  | None => segs ← read_path s; Some (mkTarget segs [])
  | Some (path, q) => segs ← read_path path; ps ← read_query q; Some (mkTarget segs ps)
  end.

(** The calls of the API the crate makes: the method, the segments ([None] is a text of its
    own), and the keys of the query. *)
Definition endpoints : list (str * list (option str) * list str) :=
  let images := Some (lit "images") in
  let containers := Some (lit "containers") in
  let of_container (op : str) := [containers; None; Some op] in
  [(lit "GET", [images; None; Some (lit "json")], []);
   (lit "POST", [images; Some (lit "create")], [lit "fromImage"; lit "tag"]);
   (lit "POST", [images; Some (lit "create")], [lit "fromImage"; lit "tag"; lit "platform"]);
   (lit "POST", [containers; Some (lit "create")], []);
   (lit "POST", [containers; Some (lit "create")], [lit "name"]);
   (lit "POST", [containers; Some (lit "create")], [lit "platform"]);
   (lit "POST", [containers; Some (lit "create")], [lit "name"; lit "platform"]);
   (lit "POST", of_container (lit "start"), []);
   (lit "POST", of_container (lit "stop"), [lit "t"]);
   (lit "POST", of_container (lit "pause"), []);
   (lit "POST", of_container (lit "unpause"), []);
   (lit "POST", of_container (lit "wait"), [lit "condition"]);
   (lit "POST", of_container (lit "exec"), []);
   (lit "GET", of_container (lit "json"), []);
   (lit "GET", of_container (lit "logs"), [lit "stdout"; lit "stderr"; lit "follow"; lit "tail"]);
   (lit "GET", of_container (lit "archive"), [lit "path"]);
   (lit "PUT", of_container (lit "archive"), [lit "path"; lit "copyUIDGID"]);
   (lit "DELETE", [containers; None], [lit "force"]);
   (lit "POST", [Some (lit "exec"); None; Some (lit "start")], []);
   (lit "GET", [Some (lit "exec"); None; Some (lit "json")], [])].

Fixpoint fits (pattern : list (option str)) (segs : list str) : bool :=
  match pattern, segs with
  | [], [] => true
  | p :: pattern, s :: segs =>
      fits pattern segs && match p with Some word => bool_decide (s = word) | None => true end
  | _, _ => false
  end.
Definition on_api (method : str) (t : Target) : bool :=
  existsb (fun '(m, pattern, keys) =>
    bool_decide (m = method) && bool_decide (keys = fst <$> t.(query)) && fits pattern t.(segments)) endpoints.
Definition addressed (method path : str) : bool :=
  match read_target path with Some t => on_api method t | None => false end.

(** ** Well-formed requests *)

(** VCHAR and tchar of RFC 5234 and RFC 9110. *)
Definition visible (b : byte) : bool := in_range 33 126 (u8 b).
Definition tchar (b : byte) : bool := is_ascii_alphanumeric b || bool_decide (b ∈ lit "!#$%&'*+-.^_`|~").

Definition target_ok (path : str) : bool := bool_decide (hd_error path = Some "/"%byte) && forallb visible path.
Definition token_ok (name : str) : bool := negb (bool_decide (name = [])) && forallb tchar name.

(** A field, where [auth] says what the [X-Registry-Auth] may be. *)
Definition field_ok (auth : str -> bool) (h : str * str) : bool :=
  token_ok h.1 && if bool_decide (h.1 = lit "X-Registry-Auth") then auth h.2 else forallb visible h.2.

Definition well_formed (auth : str -> bool) (r : HttpRequest) : bool :=
  bool_decide (r.(req_method) ∈ [lit "GET"; lit "POST"; lit "PUT"; lit "DELETE"]) &&
  target_ok r.(req_path) && addressed r.(req_method) r.(req_path) && forallb (field_ok auth) r.(req_headers).

(** Events whose request, if they are one, is well formed; [orderly] ones delete nothing. *)
Definition sendable (auth : str -> bool) (ev : Event) : bool :=
  match ev with EvRequest r _ => well_formed auth r | _ => true end.
Definition orderly (auth : str -> bool) (ev : Event) : bool := harmless ev && sendable auth ev.

Abbreviation Orderly auth := (Emits (orderly auth)).
Abbreviation Sendable auth := (Emits (sendable auth)).

(** Whatever the configuration of the user holds, its header is one that [auth] allows. *)
Class Authorizes `{JsonLib} `{Base64} (auth : str -> bool) :=
  authorizes env read_to_string descriptor v : x_registry_auth env read_to_string descriptor = Some v -> auth v = true.

Definition anything (_ : str) : bool := true.
#[export] Instance anything_authorizes `{JsonLib} `{Base64} : Authorizes anything.
Proof. done. Qed.

(** The alphabets of RFC 4648, for base64 and base64url. *)
Class Base64Text `(B : Base64) := {
  encoded_text s : Forall (fun b => is_ascii_alphanumeric b = true \/ b ∈ lit "+/-_=") (encode_string s);
}.

(** ** Texts that are visible *)

Lemma text_ok (good : byte -> bool) (s : str) (ok : byte -> bool) :
  forallb (fun b => negb (ok b) || good b) all_bytes = true -> Forall (fun b => ok b = true) s -> forallb good s = true.
Proof.
  intros Hall. induction 1 as [|b s Hb Hs IH]; [done|]. cbn. rewrite IH, andb_true_r.
  pose proof (byte_forall _ Hall b) as Hv. cbn in Hv. by rewrite Hb in Hv.
Qed.

Lemma visible_app s t : forallb visible s = true -> forallb visible t = true -> forallb visible (s ++ t) = true.
Proof. intros Hs Ht. by rewrite forallb_app, Hs, Ht. Qed.
Lemma visible_percent s : forallb visible (percent_encode s) = true.
Proof.
  apply (text_ok visible _ (fun b => unreserved b || bool_decide (b = "%"%byte))); [vm_compute; reflexivity|].
  eapply Forall_impl; [apply percent_encode_spec|]. intros b [Hb|Hb]; cbn; [by rewrite Hb|].
  by rewrite (bool_decide_eq_true_2 _ Hb), orb_true_r.
Qed.
Lemma visible_show_nat n : 0 <= n -> forallb visible (show_nat n) = true.
Proof.
  intros Hn. apply (text_ok visible _ is_digit); [vm_compute; reflexivity|]. by apply show_nat_spec.
Qed.
Lemma visible_show_Z n : forallb visible (show_Z n) = true.
Proof.
  unfold show_Z. destruct (Z.ltb_spec n 0); [|by apply visible_show_nat].
  apply (visible_app ["-"%byte]); [vm_compute; reflexivity|]. apply visible_show_nat. lia.
Qed.
Lemma visible_bool b : forallb visible (json_bool b) = true.
Proof. by destruct b. Qed.
Lemma visible_join sep parts : forallb visible sep = true -> Forall (fun p => forallb visible p = true) parts ->
  forallb visible (join sep parts) = true.
Proof.
  intros Hs. induction 1 as [|p ps Hp Hps IH]; [done|]. cbn. destruct ps as [|q ps]; [done|].
  by repeat apply visible_app.
Qed.
Lemma visible_encoded `{Base64Text} s : forallb visible (encode_string s) = true.
Proof.
  apply (text_ok visible _ (fun b => is_ascii_alphanumeric b || bool_decide (b ∈ lit "+/-_="))); [vm_compute; reflexivity|].
  eapply Forall_impl; [apply encoded_text|]. intros b [Hb|Hb]; cbn; [by rewrite Hb|].
  by rewrite (bool_decide_eq_true_2 _ Hb), orb_true_r.
Qed.

Lemma target_app s t : target_ok s = true -> forallb visible t = true -> target_ok (s ++ t) = true.
Proof.
  unfold target_ok. rewrite !andb_true_iff, !bool_decide_eq_true. intros [Hh Hs] Ht.
  split; [by destruct s|]. by apply visible_app.
Qed.

(** Decides the two of a text that is put together from constants and encoded parts. *)
Ltac visible :=
  repeat match goal with
  | |- forallb visible (match ?x with _ => _ end) = true => destruct x
  | |- forallb visible (_ ++ _) = true => apply visible_app
  | |- forallb visible (percent_encode _) = true => apply visible_percent
  | |- forallb visible (show_Z _) = true => apply visible_show_Z
  | |- forallb visible (json_bool _) = true => apply visible_bool
  | |- target_ok (_ ++ _) = true => apply target_app
  | |- _ = true => assumption
  | |- forallb visible (lit _) = true => vm_compute; reflexivity
  | |- forallb visible [] = true => reflexivity
  | |- target_ok (lit _) = true => vm_compute; reflexivity
  end.

(** ** Targets that read back *)

(** How a target is written. *)
Definition show_pair (p : str * str) : str := percent_encode p.1 ++ lit "=" ++ percent_encode p.2.
Definition show_query (ps : list (str * str)) : str :=
  match ps with [] => [] | _ => lit "?" ++ join (lit "&") (show_pair <$> ps) end.
Definition show_path (segs : list str) : str := lit "/" ++ join (lit "/") (percent_encode <$> segs).

Lemma piece_percent s : Forall (fun b => piece_byte b = true) (percent_encode s).
Proof.
  eapply Forall_impl; [apply percent_encode_spec|]. intros b [Hb|Hb]; unfold piece_byte; [by rewrite Hb|].
  by rewrite (bool_decide_eq_true_2 _ Hb), orb_true_r.
Qed.
Lemma percent_free b s : piece_byte b = false -> b ∉ percent_encode s.
Proof. intros Hb Hin. pose proof (proj1 (Forall_forall _ _) (piece_percent s) b Hin) as Hp. cbn in Hp. congruence. Qed.
Lemma read_piece_percent s : read_piece (percent_encode s) = Some s.
Proof.
  unfold read_piece. rewrite (text_ok piece_byte _ piece_byte); [by apply percent_encode_spec|vm_compute; reflexivity|].
  apply piece_percent.
Qed.

Lemma not_in_join c sep (l : list str) : c ∉ sep -> Forall (fun p => c ∉ p) l -> c ∉ join sep l.
Proof.
  intros Hs. induction 1 as [|p l Hp Hl IH]; [apply not_elem_of_nil|]. cbn. destruct l as [|q l]; [done|].
  rewrite !not_elem_of_app. auto.
Qed.
Lemma show_pair_free c p : piece_byte c = false -> c <> "="%byte -> c ∉ show_pair p.
Proof.
  intros Hc He. unfold show_pair. change (lit "=") with ["="%byte]. rewrite !not_elem_of_app. split_and!; [by apply percent_free| |by apply percent_free].
  by rewrite list_elem_of_singleton.
Qed.
Lemma show_path_free c segs : piece_byte c = false -> c <> "/"%byte -> c ∉ show_path segs.
Proof.
  intros Hc Hs. unfold show_path. change (lit "/") with ["/"%byte]. rewrite not_elem_of_app. split; [by rewrite list_elem_of_singleton|].
  apply not_in_join; [by rewrite list_elem_of_singleton|]. apply Forall_fmap, Forall_true. intros s. by apply percent_free.
Qed.

Lemma read_pair_show p : read_pair (show_pair p) = Some p.
Proof.
  unfold read_pair, show_pair.
  rewrite (proj2 (split_once_Some "=" _ (percent_encode p.1) (percent_encode p.2))).
  - cbn. rewrite !read_piece_percent. by destruct p.
  - split; [done | by apply percent_free].
Qed.
Lemma read_path_show segs : segs <> [] -> read_path (show_path segs) = Some segs.
Proof.
  intros Hs. unfold read_path, show_path. change (lit "/") with ["/"%byte]. cbn [app].
  rewrite bool_decide_eq_true_2 by done. rewrite split_join; [apply mapM_fmap_Some, read_piece_percent|by destruct segs|].
  apply Forall_fmap, Forall_true. intros s. by apply percent_free.
Qed.
Lemma read_query_show p ps : read_query (join (lit "&") (show_pair <$> p :: ps)) = Some (p :: ps).
Proof.
  unfold read_query. change (lit "&") with ["&"%byte]. rewrite split_join; [apply mapM_fmap_Some, read_pair_show|done|].
  apply Forall_fmap, Forall_true. intros q. by apply show_pair_free.
Qed.

(** Reading is the inverse of writing: every text comes back whole, in its place. *)
Lemma read_target_show segs ps : segs <> [] ->
  read_target (show_path segs ++ show_query ps) = Some (mkTarget segs ps).
Proof.
  intros Hs. unfold read_target, show_query. destruct ps as [|p ps].
  - rewrite app_nil_r, (proj2 (split_once_None _ _)) by by apply show_path_free. by rewrite read_path_show.
  - rewrite (proj2 (split_once_Some _ _ (show_path segs) (join (lit "&") (show_pair <$> p :: ps)))).
    + by rewrite read_path_show, read_query_show.
    + split; [done | by apply show_path_free].
Qed.

(** What is written as it is: digits and a sign, and the texts of the API. *)
Lemma percent_unreserved s : forallb unreserved s = true -> percent_encode s = s.
Proof.
  unfold percent_encode. induction s as [|b s IH]; [done|]. cbn. intros [Hb Hs]%andb_prop.
  unfold percent_byte at 1. by rewrite Hb, IH.
Qed.
Lemma percent_show_Z n : percent_encode (show_Z n) = show_Z n.
Proof.
  apply percent_unreserved. unfold show_Z. destruct (Z.ltb_spec n 0).
  - cbn [app forallb]. rewrite (text_ok unreserved _ is_digit); [reflexivity|vm_compute; reflexivity|].
    apply show_nat_spec. lia.
  - apply (text_ok unreserved _ is_digit); [vm_compute; reflexivity|]. by apply show_nat_spec.
Qed.

(** A target that is written so, and what it addresses. *)
Definition written (path : str) (segs : list str) (ps : list (str * str)) : Prop :=
  segs <> [] /\ path = show_path segs ++ show_query ps.
Lemma written_read path segs ps : written path segs ps -> read_target path = Some (mkTarget segs ps).
Proof. intros [Hs ->]. by apply read_target_show. Qed.
Lemma written_addressed method path segs ps :
  written path segs ps -> on_api method (mkTarget segs ps) = true -> addressed method path = true.
Proof. unfold addressed. by intros ->%written_read ->. Qed.

Ltac written :=
  split; [done|]; unfold show_path, show_query, show_pair; cbn [join fmap list_fmap fst snd];
  rewrite ?percent_show_Z, ?app_nil_r, <- ?app_assoc; reflexivity.

(** A header that was made from a configuration is base64. *)
#[export] Instance visible_authorizes `{JsonLib} `{Base64Text} : Authorizes (forallb visible).
Proof.
  intros env read d v. unfold x_registry_auth, extract_auth_entry. intros E.
  repeat match type of E with
  | (?o ≫= _) = Some _ => destruct o as [?|]; [cbn [mbind option_bind] in E | discriminate E]
  | match ?x with _ => _ end = Some _ => destruct x; try discriminate E
  | Some _ = Some _ => injection E as <-; apply visible_encoded
  end.
Qed.

(** ** Programs *)

#[export] Instance orderly_spares `{Host} {A} (m : M A) : Orderly anything m -> Spares m | 50.
Proof. intros Hm. eapply emits_weaken; [exact Hm|]. intros ev E. by apply andb_prop in E as [? _]. Qed.
#[export] Instance orderly_sendable `{Host} auth {A} (m : M A) : Orderly auth m -> Sendable auth m | 50.
Proof. intros Hm. eapply emits_weaken; [exact Hm|]. intros ev E. by apply andb_prop in E as [_ ?]. Qed.
