(* ===== verification/DockerClient.v ===== *)
(** * The Docker Engine client ([src/src/core/client/docker_client.rs])

    [DockerClient]'s operations as programs over a [Host]: the request each
    sends, and how it classifies the response.  [nojson] and [base64ct] are the
    classes [JsonLib] and [Base64]; [parse_ip] is [IpAddr::from_str] with the
    address it prints.  [read_http11_response] and [socket_send] are the
    transport behind the requests. *)

From S2P Require Import Prelude BTree Utf8 Ports Errors Env Http HttpDecode Json RegistryAuth Effect.
From S2P Require Import Request DockerApi CreateBody Wire.
From S2P Require LogStream DockerTar.
From S2P Require Import Exchange.

(** ** The selection of the client *)

Definition DEFAULT_DOCKER_SOCKET : str := lit "/var/run/docker.sock".
Record DockerClient := mkDockerClient { socket_path : str }.
Definition detect : Result DockerClient := Ok (mkDockerClient DEFAULT_DOCKER_SOCKET).

(** [Client] of [src/src/core/client.rs] and [Client::detect], by the [target_os] of the build. *)
Inductive target_os := macos | linux.
Inductive ClientOf := MacOs | Linux (client : DockerClient).
Definition Client_detect (os : target_os) : Result ClientOf :=
  match os with
  | macos => Ok MacOs
  | linux => c ← detect; Ok (Linux c)
  end.

(** The sleeps between the inspections of an exec, in milliseconds. *)
Definition EXEC_EXIT_CODE_BACKOFF_MILLIS : list Z := [10; 50; 200; 500; 1000].

Record DockerExecResult := mkExecResult {
  exec_exit_code : option Z;
  exec_stdout : list byte;
  exec_stderr : list byte;
}.

Definition http11_err {A} (r : result str A) : Result A := map_err (fun e => Client (ClientOther e)) r.

(** ** Requests *)

Definition base_headers : list (str * str) :=
  [(lit "Host", lit "localhost"); (lit "Connection", lit "close")].
Definition body_headers (body : option (list byte * str)) : list (str * str) :=
  match body with
  | Some (b, content_type) =>
      [(lit "Content-Type", content_type); (lit "Content-Length", show_nat (len b))]
  | None => []
  end.

(** The request the two encoders build; [encode] turns it into bytes.  [Requests.v] has the
    encoders in full, and shows that they refuse none of the requests that are sent. *)
Definition encode_docker_api_request_with_headers (method path : str)
    (body : option (list byte * str)) (extra_headers : list (str * str)) : HttpRequest :=
  mkRequest method path (base_headers ++ extra_headers ++ body_headers body) (fst <$> body).
Definition encode_docker_api_request (method path : str) (body : option (list byte * str))
    : HttpRequest :=
  mkRequest method path (base_headers ++ body_headers body) (fst <$> body).

(** ** Targets *)

Definition container_path (id : str) : str := lit "/containers/" ++ percent_encode id.

Definition remove_path (id : str) (force : bool) : str :=
  container_path id ++ lit "?force=" ++ json_bool force.

Definition create_path (config : ContainerConfig) : str :=
  let params :=
    match config.(cfg_name) with Some name => [lit "name=" ++ percent_encode name] | None => [] end
    ++ match config.(cfg_platform) with
       | Some platform => [lit "platform=" ++ percent_encode platform] | None => [] end in
  lit "/containers/create" ++ (if bool_decide (params = []) then [] else lit "?" ++ join (lit "&") params).

Lemma target_container_path id : target_ok (container_path id) = true.
Proof. unfold container_path. visible. Qed.
Lemma target_create_path config : target_ok (create_path config) = true.
Proof.
  unfold create_path. cbv zeta. apply target_app; [reflexivity|]. case_bool_decide; [done|].
  apply visible_app; [reflexivity|]. apply visible_join; [reflexivity|].
  destruct (cfg_name config), (cfg_platform config); repeat constructor; visible.
Qed.

(** Each target as a call of the API: its segments and its query, with every text in its
    place. *)
Definition containers (id : str) (op : list str) : list str := lit "containers" :: id :: op.
Definition create_query (config : ContainerConfig) : list (str * str) :=
  match config.(cfg_name) with Some name => [(lit "name", name)] | None => [] end
  ++ match config.(cfg_platform) with Some platform => [(lit "platform", platform)] | None => [] end.

Lemma written_container id : written (container_path id) (containers id []) [].
Proof. written. Qed.
Lemma written_remove id force : written (remove_path id force) (containers id []) [(lit "force", json_bool force)].
Proof. unfold remove_path, container_path, containers. destruct force; written. Qed.
Lemma written_create config : written (create_path config) [lit "containers"; lit "create"] (create_query config).
Proof. unfold create_path, create_query. destruct (cfg_name config), (cfg_platform config); written. Qed.

Create HintDb targets.
Ltac addressed segs ps :=
  apply (written_addressed _ _ segs ps); [unfold container_path, containers; written | reflexivity].

Lemma addressed_create config : addressed (lit "POST") (create_path config) = true.
Proof.
  eapply written_addressed; [apply written_create|]. unfold create_query.
  by destruct (cfg_name config), (cfg_platform config).
Qed.
Lemma addressed_remove id force : addressed (lit "DELETE") (remove_path id force) = true.
Proof. eapply written_addressed; [apply written_remove | by destruct force]. Qed.
Lemma addressed_pull image tag platform :
  addressed (lit "POST") (lit "/images/create?fromImage=" ++ percent_encode image ++ lit "&tag=" ++ percent_encode tag
    ++ match platform with Some p => lit "&platform=" ++ percent_encode p | None => [] end) = true.
Proof.
  destruct platform as [p|].
  - addressed [lit "images"; lit "create"] [(lit "fromImage", image); (lit "tag", tag); (lit "platform", p)].
  - addressed [lit "images"; lit "create"] [(lit "fromImage", image); (lit "tag", tag)].
Qed.
Lemma addressed_image descriptor :
  addressed (lit "GET") (lit "/images/" ++ percent_encode descriptor ++ lit "/json") = true.
Proof. addressed [lit "images"; descriptor; lit "json"] ([] : list (str * str)). Qed.
Lemma addressed_start id : addressed (lit "POST") (container_path id ++ lit "/start") = true.
Proof. addressed (containers id [lit "start"]) ([] : list (str * str)). Qed.
Lemma addressed_stop id t : addressed (lit "POST") (container_path id ++ lit "/stop?t=" ++ show_Z t) = true.
Proof. addressed (containers id [lit "stop"]) [(lit "t", show_Z t)]. Qed.
Lemma addressed_pause id : addressed (lit "POST") (container_path id ++ lit "/pause") = true.
Proof. addressed (containers id [lit "pause"]) ([] : list (str * str)). Qed.
Lemma addressed_unpause id : addressed (lit "POST") (container_path id ++ lit "/unpause") = true.
Proof. addressed (containers id [lit "unpause"]) ([] : list (str * str)). Qed.
Lemma addressed_wait id : addressed (lit "POST") (container_path id ++ lit "/wait?condition=not-running") = true.
Proof. addressed (containers id [lit "wait"]) [(lit "condition", lit "not-running")]. Qed.
Lemma addressed_exec id : addressed (lit "POST") (container_path id ++ lit "/exec") = true.
Proof. addressed (containers id [lit "exec"]) ([] : list (str * str)). Qed.
Lemma addressed_exec_start exec_id : addressed (lit "POST") (lit "/exec/" ++ percent_encode exec_id ++ lit "/start") = true.
Proof. addressed [lit "exec"; exec_id; lit "start"] ([] : list (str * str)). Qed.
Lemma addressed_exec_inspect exec_id : addressed (lit "GET") (lit "/exec/" ++ percent_encode exec_id ++ lit "/json") = true.
Proof. addressed [lit "exec"; exec_id; lit "json"] ([] : list (str * str)). Qed.
Lemma addressed_inspect id : addressed (lit "GET") (container_path id ++ lit "/json") = true.
Proof. addressed (containers id [lit "json"]) ([] : list (str * str)). Qed.
Lemma addressed_copy_from id path : addressed (lit "GET") (container_path id ++ lit "/archive?path=" ++ percent_encode path) = true.
Proof. addressed (containers id [lit "archive"]) [(lit "path", path)]. Qed.
Lemma addressed_copy_to id dir :
  addressed (lit "PUT") (container_path id ++ lit "/archive?path=" ++ percent_encode dir ++ lit "&copyUIDGID=true") = true.
Proof. addressed (containers id [lit "archive"]) [(lit "path", dir); (lit "copyUIDGID", lit "true")]. Qed.
#[export] Hint Resolve addressed_create addressed_pull addressed_image addressed_start addressed_stop addressed_pause
  addressed_unpause addressed_wait addressed_exec addressed_exec_start addressed_exec_inspect addressed_inspect
  addressed_copy_from addressed_copy_to : targets.

(** Both build well-formed requests, of a target, a content type and headers that are. *)
Definition content_ok (body : option (list byte * str)) : bool :=
  match body with Some (_, content_type) => forallb visible content_type | None => true end.
Lemma json_content (body : option str) : content_ok ((fun b => (b, lit "application/json")) <$> body) = true.
Proof. by destruct body. Qed.

Definition ordinary (method : str) : bool := bool_decide (method ∈ [lit "GET"; lit "POST"; lit "PUT"]).

Lemma fields_ok auth extra_headers body : forallb (field_ok auth) extra_headers = true -> content_ok body = true ->
  forallb (field_ok auth) (base_headers ++ extra_headers ++ body_headers body) = true.
Proof.
  intros He Hb. rewrite !forallb_app, He. destruct body as [[b ct]|]; [|done].
  cbn [content_ok] in Hb. cbn [body_headers forallb]. unfold field_ok. cbn [fst snd].
  rewrite !bool_decide_false by done. by rewrite Hb, visible_show_nat by apply len_nonneg.
Qed.

Lemma registry_fields_ok `{JsonLib} `{Base64} auth `{!Authorizes auth} env read_to_string descriptor :
  forallb (field_ok auth) match x_registry_auth env read_to_string descriptor with
                          | Some v => [(lit "X-Registry-Auth", v)] | None => [] end = true.
Proof.
  destruct (x_registry_auth env read_to_string descriptor) as [v|] eqn:E; [|done]. apply authorizes in E.
  cbn [forallb]. unfold field_ok. cbn [fst snd]. rewrite bool_decide_true by done. by rewrite E.
Qed.

Section Sent.
Context `{Host} (auth : str -> bool).

Lemma orderly_send_with method path body extra_headers limit :
  ordinary method = true -> target_ok path = true -> addressed method path = true -> forallb (field_ok auth) extra_headers = true -> content_ok body = true ->
  Orderly auth (send_request (encode_docker_api_request_with_headers method path body extra_headers) limit).
Proof.
  intros Hm Hp Ha He Hb. apply perform_emits. unfold orderly, harmless, sendable, well_formed, deletes.
  cbn [req_method req_path req_headers encode_docker_api_request_with_headers].
  rewrite Hp, Ha, fields_ok by done. apply bool_decide_eq_true in Hm. rewrite !andb_true_r. apply andb_true_iff. split.
  - apply negb_true_iff, bool_decide_eq_false. intros ->. by repeat apply elem_of_cons in Hm as [?|Hm]; [..|apply elem_of_nil in Hm].
  - apply bool_decide_eq_true. set_solver.
Qed.
Lemma orderly_send method path body limit :
  ordinary method = true -> target_ok path = true -> addressed method path = true -> content_ok body = true ->
  Orderly auth (send_request (encode_docker_api_request method path body) limit).
Proof. intros. by apply (orderly_send_with method path body []). Qed.
End Sent.

Ltac target := visible;
  try lazymatch goal with
  | |- target_ok (container_path _) = true => apply target_container_path
  | |- target_ok (create_path _) = true => apply target_create_path
  | |- target_ok _ = true => assumption
  end.
#[export] Hint Extern 3 (Emits (orderly _) (send_request (encode_docker_api_request _ _ _) _)) =>
  apply orderly_send; [reflexivity | target | auto with targets nocore | first [apply json_content | reflexivity]] : typeclass_instances.
#[export] Hint Extern 3 (Emits (orderly _) (send_request (encode_docker_api_request_with_headers _ _ _ _) _)) =>
  apply orderly_send_with; [reflexivity | target | auto with targets nocore | apply registry_fields_ok; apply _ | apply json_content] : typeclass_instances.

(** ** The transport *)

Section Transport.
Context {D : Type} `{ResponseDecoder D}.
Context (response_of : DecodedResponse -> result str Response).

#[export] Instance Error_exchange : ExchangeErrors Error := {|
  decoder_full := Client (ClientOther (lit "decoder buffer full"));
  of_decoding e := Client (ClientOther e);
  of_socket := Io;
|}.

(** The loop is [Exchange.read_loop]. *)
Definition read_http11_response (fuel : nat) (sock : LogStream.socket) (method : str)
    (limit : BodyLimit) : option (Result Response) :=
  match read_loop fuel (ResponseAccumulator_new method limit) sock with
  | None => None
  | Some (Err e) => Some (Err e)
  | Some (Ok acc) => Some (decoded ← http11_err (finish acc); http11_err (response_of decoded))
  end.

(** [request_with_body_limit] on the socket: encode, connect and write, read.
    [connect] answers for [UnixStream::connect] and [write_all]. *)
Definition socket_send (fuel : nat) (encode : HttpRequest -> result str (list byte))
    (connect : str -> list byte -> result IoError LogStream.socket)
    (self : DockerClient) (req : HttpRequest) (limit : BodyLimit) : option (Result Response) :=
  match http11_err (encode req) with
  | Err e => Some (Err e)
  | Ok bytes => match connect self.(socket_path) bytes with
                | Err e => Some (Err (Io e))
                | Ok sock => read_http11_response fuel sock req.(req_method) limit
                end
  end.
End Transport.

(** A request ends, on whatever the daemon sends, and the response is built from a whole
    one, whose body the limit bounds; nothing is connected to before it is encoded. *)
Lemma socket_send_ends {D} `{ResponseDecoderLaws D} response_of fuel encode connect self req limit :
  limit_ok limit ->
  (forall path bytes sock, connect path bytes = Ok sock ->
    (work (ResponseAccumulator_new (D := D) req.(req_method) limit).(decoder) +
       (work_byte + 1) * LogStream.sock_bytes sock + work_byte + 1 < fuel)%nat) ->
  exists r, socket_send (D := D) response_of fuel encode connect self req limit = Some r /\
    match r with
    | Ok response => exists bytes sock h body,
        encode req = Ok bytes /\ connect self.(socket_path) bytes = Ok sock /\
        response_of (mkDecoded h body) = Ok response /\ ~ (100 <= h.(status_code) < 200)
    | Err _ => True
    end.
Proof.
  intros Hl Hf. unfold socket_send. destruct (encode req) as [bytes|m]; cbn; [|by eexists].
  destruct (connect (socket_path self) bytes) as [sock|e] eqn:Ec; [|by eexists]. unfold read_http11_response.
  destruct (read_to_whole (E := Error) fuel _ sock (new_midway (D := D) req.(req_method) limit Hl) (Hf _ _ _ Ec))
    as (r & -> & Hr).
  destruct r as [s|e]; [|by eexists]. destruct Hr as [Hw _]. apply whole_finish in Hw as (h & Eh & Hi).
  rewrite Eh. cbn. eexists. split; [done|]. destruct (response_of _) as [response|m] eqn:Er; [|done].
  exists bytes, sock, h, s.(body_buf). split_and!; [done..|]. unfold is_interim, in_range in Hi. lia.
Qed.

(** ** The operations *)

Section DockerClient.
Context `{Host} `{JsonLib} `{Base64}.
Context (env : Environment) (read_to_string : str -> option str).
Context (parse_ip : str -> result str str).

Definition request_with_body_limit (method path : str) (body : option str) (limit : BodyLimit)
    : M Response :=
  send_request (encode_docker_api_request method path
                  ((fun b => (b, lit "application/json")) <$> body)) limit.
Definition request (method path : str) (body : option str) : M Response :=
  request_with_body_limit method path body Unlimited.
Definition request_with_extra_headers (method path : str) (body : option str)
    (extra_headers : list (str * str)) (limit : BodyLimit) : M Response :=
  send_request (encode_docker_api_request_with_headers method path
                  ((fun b => (b, lit "application/json")) <$> body) extra_headers) limit.
Definition request_with_content_type (method path : str) (body : list byte) (content_type : str)
    : M Response :=
  send_request (encode_docker_api_request method path (Some (body, content_type))) Unlimited.

Definition client_other {A} (msg : str) : M A := fail (Client (ClientOther msg)).
(** [format!("{what}: {}", response.status_code())] *)
Definition status_text (what : str) (r : Response) : str :=
  what ++ lit ": " ++ show_nat r.(resp_status).
Definition body_or_empty (r : Response) : list byte := unwrap_or r.(resp_body) [].
Definition body_or {A} (o : option A) (msg : str) : M A := lift (ok_or o (Client (ClientOther msg))).

Definition pull_image (descriptor : str) (platform : option str) : M unit :=
  let '(image, tag) := split_pull_reference descriptor in
  let path := lit "/images/create?fromImage=" ++ percent_encode image ++ lit "&tag="
              ++ percent_encode tag
              ++ match platform with Some p => lit "&platform=" ++ percent_encode p | None => [] end in
  let extra_headers := match x_registry_auth env read_to_string descriptor with
                       | Some v => [(lit "X-Registry-Auth", v)] | None => [] end in
  response ← with_err (fun e => Client (ClientOther (lit "failed to receive pull progress for image "
                                          ++ descriptor ++ lit ": " ++ show_Error e)))
    (request_with_extra_headers (lit "POST") path None extra_headers
       (BodyLimit_Error DockerTar.DOCKER_RESPONSE_BODY_LIMIT));
  if 400 <=? response.(resp_status) then
    client_other (pull_error_message descriptor response.(resp_status) (body_or_empty response))
  else lift (map_err Client (check_pull_stream_errors (body_or_empty response))).

Definition resolve_image_descriptor (descriptor : str) : M str :=
  response ← request (lit "GET") (lit "/images/" ++ percent_encode descriptor ++ lit "/json") None;
  if response.(resp_status) =? 200 then mret descriptor
  else if response.(resp_status) =? 404 then fail (Client (ImageNotFound descriptor))
  else client_other (status_text (lit "failed to resolve image " ++ descriptor) response).

Definition create_container (config : ContainerConfig) : M str :=
  let path := create_path config in
  body ← lift (from_config config);
  let body_json := to_json_string body in
  response ← request (lit "POST") path (Some body_json);
  if 400 <=? response.(resp_status) then
    client_other (status_text (lit "failed to create container") response)
  else
    body ← body_or response.(resp_body) (lit "empty response body");
    value ← lift (parse_body body);
    lift (required_string value (lit "Id")).

Definition start_container (id : str) : M unit :=
  response ← request (lit "POST") (container_path id ++ lit "/start") None;
  if 400 <=? response.(resp_status) then
    client_other (status_text (lit "failed to start container") response)
  else mret tt.

Definition stop_seconds (timeout_seconds : option Z) : Z :=
  match timeout_seconds with
  | Some t => if 0 <=? t then t else 30
  | None => 30
  end.

Definition stop (id : str) (timeout_seconds : option Z) : M unit :=
  let t := stop_seconds timeout_seconds in
  response ← request (lit "POST") (container_path id ++ lit "/stop?t=" ++ show_Z t) None;
  if response.(resp_status) =? 404 then mret tt
  else if 400 <=? response.(resp_status) then
    client_other (status_text (lit "failed to stop container") response)
  else mret tt.

Definition pause (id : str) : M unit :=
  response ← request (lit "POST") (container_path id ++ lit "/pause") None;
  if (response.(resp_status) =? 304) || (response.(resp_status) =? 404) then mret tt
  else if 400 <=? response.(resp_status) then
    client_other (status_text (lit "failed to pause container") response)
  else mret tt.

Definition unpause (id : str) : M unit :=
  response ← request (lit "POST") (container_path id ++ lit "/unpause") None;
  if (response.(resp_status) =? 304) || (response.(resp_status) =? 404) then mret tt
  else if 400 <=? response.(resp_status) then
    client_other (status_text (lit "failed to unpause container") response)
  else mret tt.

Definition remove (id : str) (force : bool) : M unit :=
  response ← request (lit "DELETE") (remove_path id force) None;
  if response.(resp_status) =? 404 then mret tt
  else if 400 <=? response.(resp_status) then
    client_other (status_text (lit "failed to remove container") response)
  else mret tt.

(** [remove_blocking]: the same exchange on a socket with timeouts, whose
    expiry is one of the failures a [Host] may answer. *)
Definition remove_blocking (id : str) (force : bool) : M unit :=
  response ← send_request (encode_docker_api_request (lit "DELETE") (remove_path id force) None) Unlimited;
  if response.(resp_status) =? 404 then mret tt
  else if 400 <=? response.(resp_status) then
    client_other (status_text (lit "failed to remove container") response)
  else mret tt.

Definition wait_blocking (id : str) : M Z :=
  response ← send_request (encode_docker_api_request (lit "POST")
               (container_path id ++ lit "/wait?condition=not-running") None) Unlimited;
  if 400 <=? response.(resp_status) then
    client_other (status_text (lit "failed to wait for container") response)
  else
    body ← body_or response.(resp_body) (lit "empty wait response body");
    value ← lift (parse_body body);
    lift (required_i64 value (lit "StatusCode")).

(** The inspections after an exec: one per backoff, and one more. *)
Fixpoint inspect_exec (inspect_path : str) (backoffs : list Z) (states : list (bool * option Z))
    : M (list (bool * option Z)) :=
  response ← request (lit "GET") inspect_path None;
  if 400 <=? response.(resp_status) then
    client_other (status_text (lit "failed to inspect exec") response)
  else
    body ← body_or response.(resp_body) (lit "empty exec inspect body");
    state ← lift (parse_exec_inspect_state body);
    let states := states ++ [state] in
    if negb state.1 then mret states
    else match backoffs with
         | [] => mret states
         | ms :: backoffs => sleep (from_millis ms) ;; inspect_exec inspect_path backoffs states
         end.

Definition exec (id : str) (cmd : list str) (env_ : list str) : M DockerExecResult :=
  let exec_path := container_path id ++ lit "/exec" in
  let exec_config := mkExecConfig cmd true true env_ in
  response ← request (lit "POST") exec_path (Some (exec_config_json_string exec_config));
  if 400 <=? response.(resp_status) then
    client_other (status_text (lit "failed to create exec") response)
  else
    body ← body_or response.(resp_body) (lit "empty exec response body");
    value ← lift (parse_body body);
    exec_id ← lift (required_string value (lit "Id"));
    let start_path := lit "/exec/" ++ percent_encode exec_id ++ lit "/start" in
    response ← request_with_body_limit (lit "POST") start_path
      (Some (exec_start_json_string (mkExecStart false false)))
      (BodyLimit_Error DockerTar.DOCKER_RESPONSE_BODY_LIMIT);
    if 400 <=? response.(resp_status) then
      client_other (status_text (lit "failed to start exec") response)
    else
      stream_body ← body_or response.(resp_body) (lit "empty exec start response body");
      let '(stdout, stderr) := demux_exec_stream stream_body in
      let inspect_path := lit "/exec/" ++ percent_encode exec_id ++ lit "/json" in
      states ← inspect_exec inspect_path EXEC_EXIT_CODE_BACKOFF_MILLIS [];
      mret (mkExecResult (resolve_exec_exit_code states) stdout stderr).

Definition inspect_json (id : str) : M Value :=
  response ← request (lit "GET") (container_path id ++ lit "/json") None;
  if response.(resp_status) =? 404 then fail (Client (ContainerNotFound id))
  else if 400 <=? response.(resp_status) then
    client_other (status_text (lit "failed to inspect container") response)
  else
    body ← body_or response.(resp_body) (lit "empty inspect body");
    lift (parse_body body).

Definition container_state (id : str) : M ContainerSnapshot :=
  parsed ← inspect_json id; lift (snapshot_of parsed).

Definition ports_of (id : str) : M Ports :=
  snapshot ← container_state id; mret snapshot.(snapshot_ports).

Definition bridge_ip_address (id : str) : M str :=
  parsed ← inspect_json id;
  ip_str ← body_or (bridge_ip_text parsed) (lit "no network IP address found for container");
  lift (map_err (fun e => Client (ClientOther (lit "invalid IP address '" ++ ip_str ++ lit "': " ++ e)))
                (parse_ip ip_str)).

Definition container_env (id : str) : M (list str) :=
  parsed ← inspect_json id; mret (env_strings parsed).

Definition container_health (id : str) : M HealthProbe :=
  parsed ← inspect_json id; lift (health_of parsed).

Definition spawn_log_session (id : str) : M nat :=
  perform (EvOpenLogs id) (fun tr => open_logs tr id).

Definition copy_from (id path : str) : M (list byte) :=
  let api_path := container_path id ++ lit "/archive?path=" ++ percent_encode path in
  response ← request_with_body_limit (lit "GET") api_path None
    (BodyLimit_Error DockerTar.DOCKER_RESPONSE_BODY_LIMIT);
  if response.(resp_status) =? 404 then
    fail (Client (classify_archive_404 id path (body_or_empty response)))
  else if 400 <=? response.(resp_status) then
    client_other (status_text (lit "failed to copy from container") response)
  else mret (body_or_empty response).

Definition copy_to (id dir : str) (tar : list byte) : M unit :=
  let api_path := container_path id ++ lit "/archive?path=" ++ percent_encode dir
                  ++ lit "&copyUIDGID=true" in
  response ← request_with_content_type (lit "PUT") api_path tar (lit "application/x-tar");
  if response.(resp_status) =? 404 then fail (Client (ContainerNotFound id))
  else if 400 <=? response.(resp_status) then
    client_other (status_text (lit "failed to copy to container") response)
  else mret tt.

(** The operations are programs that add to the trace and end in time. *)
Ltac client_op op := unfold op, request_with_extra_headers, request_with_content_type, request,
  request_with_body_limit, client_other, body_or; cbv zeta; apply _.

#[export] Instance request_extends m p b : Extends (request m p b).
Proof. client_op @request. Qed.
#[export] Instance request_timely m p b : Timely (request m p b).
Proof. client_op @request. Qed.
#[export] Instance inspect_json_extends id : Extends (inspect_json id).
Proof. client_op @inspect_json. Qed.
#[export] Instance inspect_json_timely id : Timely (inspect_json id).
Proof. client_op @inspect_json. Qed.
#[export] Instance inspect_json_paced n id : Paced n (inspect_json id).
Proof. client_op @inspect_json. Qed.
#[export] Instance container_state_extends id : Extends (container_state id).
Proof. client_op @container_state. Qed.
#[export] Instance container_state_timely id : Timely (container_state id).
Proof. client_op @container_state. Qed.
#[export] Instance container_state_paced n id : Paced n (container_state id).
Proof. client_op @container_state. Qed.
#[export] Instance container_health_extends id : Extends (container_health id).
Proof. client_op @container_health. Qed.
#[export] Instance container_health_timely id : Timely (container_health id).
Proof. client_op @container_health. Qed.
#[export] Instance container_health_paced n id : Paced n (container_health id).
Proof. client_op @container_health. Qed.
#[export] Instance ports_of_extends id : Extends (ports_of id).
Proof. client_op @ports_of. Qed.
#[export] Instance ports_of_timely id : Timely (ports_of id).
Proof. client_op @ports_of. Qed.
#[export] Instance ports_of_paced n id : Paced n (ports_of id).
Proof. client_op @ports_of. Qed.
#[export] Instance container_env_extends id : Extends (container_env id).
Proof. client_op @container_env. Qed.
#[export] Instance start_container_extends id : Extends (start_container id).
Proof. client_op @start_container. Qed.
#[export] Instance stop_extends id t : Extends (stop id t).
Proof. client_op @stop. Qed.
#[export] Instance remove_extends id f : Extends (remove id f).
Proof. client_op @remove. Qed.
#[export] Instance remove_blocking_extends id f : Extends (remove_blocking id f).
Proof. client_op @remove_blocking. Qed.
#[export] Instance create_container_extends c : Extends (create_container c).
Proof. client_op @create_container. Qed.
#[export] Instance copy_to_extends id d t : Extends (copy_to id d t).
Proof. client_op @copy_to. Qed.
#[export] Instance pull_image_extends d p : Extends (pull_image d p).
Proof. client_op @pull_image. Qed.
#[export] Instance resolve_extends d : Extends (resolve_image_descriptor d).
Proof. client_op @resolve_image_descriptor. Qed.
#[export] Instance spawn_log_session_extends id : Extends (spawn_log_session id).
Proof. client_op @spawn_log_session. Qed.
#[export] Instance inspect_exec_extends p bs ss : Extends (inspect_exec p bs ss).
Proof. revert ss. induction bs; intros ss; cbn [inspect_exec]; client_op @id. Qed.
#[export] Instance exec_extends id cmd e : Extends (exec id cmd e).
Proof. client_op @exec. Qed.
#[export] Instance start_container_timely id : Timely (start_container id).
Proof. client_op @start_container. Qed.
#[export] Instance create_container_timely c : Timely (create_container c).
Proof. client_op @create_container. Qed.
#[export] Instance copy_to_timely id d t : Timely (copy_to id d t).
Proof. client_op @copy_to. Qed.
#[export] Instance pull_image_timely d p : Timely (pull_image d p).
Proof. client_op @pull_image. Qed.
#[export] Instance resolve_image_descriptor_timely d : Timely (resolve_image_descriptor d).
Proof. client_op @resolve_image_descriptor. Qed.
#[export] Instance spawn_log_session_timely id : Timely (spawn_log_session id).
Proof. client_op @spawn_log_session. Qed.
#[export] Instance container_env_timely id : Timely (container_env id).
Proof. client_op @container_env. Qed.
#[export] Instance inspect_exec_timely p bs ss : Timely (inspect_exec p bs ss).
Proof. revert ss. induction bs; intros ss; cbn [inspect_exec]; client_op @id. Qed.
#[export] Instance exec_timely id cmd e : Timely (exec id cmd e).
Proof. client_op @exec. Qed.
#[export] Instance remove_timely id f : Timely (remove id f).
Proof. client_op @remove. Qed.
(** But for the removal, they send well-formed requests and delete nothing. *)
Context (auth : str -> bool).

#[export] Instance inspect_json_orderly id : Orderly auth (inspect_json id).
Proof. client_op @inspect_json. Qed.
#[export] Instance container_state_orderly id : Orderly auth (container_state id).
Proof. client_op @container_state. Qed.
#[export] Instance container_health_orderly id : Orderly auth (container_health id).
Proof. client_op @container_health. Qed.
#[export] Instance ports_of_orderly id : Orderly auth (ports_of id).
Proof. client_op @ports_of. Qed.
#[export] Instance start_container_orderly id : Orderly auth (start_container id).
Proof. client_op @start_container. Qed.
#[export] Instance create_container_orderly c : Orderly auth (create_container c).
Proof. client_op @create_container. Qed.
#[export] Instance copy_to_orderly id d t : Orderly auth (copy_to id d t).
Proof. client_op @copy_to. Qed.
#[export] Instance pull_image_orderly `{!Authorizes auth} d p : Orderly auth (pull_image d p).
Proof. client_op @pull_image. Qed.
#[export] Instance resolve_image_descriptor_orderly d : Orderly auth (resolve_image_descriptor d).
Proof. client_op @resolve_image_descriptor. Qed.
#[export] Instance spawn_log_session_orderly id : Orderly auth (spawn_log_session id).
Proof. client_op @spawn_log_session. Qed.
#[export] Instance container_env_orderly id : Orderly auth (container_env id).
Proof. client_op @container_env. Qed.
Lemma inspect_exec_orderly p bs ss : target_ok p = true -> addressed (lit "GET") p = true ->
  Orderly auth (inspect_exec p bs ss).
Proof. intros Hp Ha. revert ss. induction bs; intros ss; cbn [inspect_exec]; client_op @id. Qed.
#[local] Hint Extern 3 (Emits (orderly _) (inspect_exec _ _ _)) => apply inspect_exec_orderly; [target | auto with targets nocore] : typeclass_instances.
#[export] Instance exec_orderly id cmd e : Orderly auth (exec id cmd e).
Proof. client_op @exec. Qed.
#[export] Instance wait_blocking_orderly id : Orderly auth (wait_blocking id).
Proof. client_op @wait_blocking. Qed.
#[export] Instance stop_orderly id t : Orderly auth (stop id t).
Proof. client_op @stop. Qed.
#[export] Instance pause_orderly id : Orderly auth (pause id).
Proof. client_op @pause. Qed.
#[export] Instance unpause_orderly id : Orderly auth (unpause id).
Proof. client_op @unpause. Qed.
#[export] Instance copy_from_orderly id p : Orderly auth (copy_from id p).
Proof. client_op @copy_from. Qed.
End DockerClient.

(** ** The exit code of an exec *)

Definition get_request (path : str) : HttpRequest := encode_docker_api_request (lit "GET") path None.

Definition inspect_events (path : str) (backoffs : list Z) : Trace :=
  mjoin ((fun ms => [EvRequest (get_request path) Unlimited; EvSleep (from_millis ms)]) <$> backoffs)
  ++ [EvRequest (get_request path) Unlimited].

Section Exec.
Context `{Host} `{JsonLib}.

(** The answer to the last inspection of a run. *)
Definition inspected (tr : Trace) (path : str) (state : bool * option Z) : Prop :=
  exists before resp body, tr = before ++ [EvRequest (get_request path) Unlimited] /\
    send before (get_request path) Unlimited = Ok resp /\ resp.(resp_body) = Some body /\
    parse_exec_inspect_state body = Ok state.

Lemma inspected_now tr path resp body (e : Error) state :
  send tr (get_request path) Unlimited = Ok resp -> ok_or resp.(resp_body) e = Ok body ->
  parse_exec_inspect_state body = Ok state ->
  inspected (tr ++ [EvRequest (get_request path) Unlimited]) path state.
Proof. intros ? Hb%ok_or_Ok ?. by exists tr, resp, body. Qed.

Lemma inspect_exec_spec path backoffs states sc tr st tr' :
  inspect_exec path backoffs states sc tr = (Done (Ok st), tr') ->
  exists k pre state, (k <= length backoffs)%nat /\ tr' = tr ++ inspect_events path (take k backoffs) /\
    st = states ++ pre ++ [state] /\ Forall (fun s => s.1 = true) pre /\
    inspected tr' path state /\ (state.1 = true -> k = length backoffs).
Proof.
  revert states tr. induction backoffs as [|ms backoffs IH]; intros states tr E;
    cbn [inspect_exec] in E; unfold request, request_with_body_limit, client_other, body_or in E;
    run_ok E.
  - exists 0%nat, []. eexists. split_and!; [done|done|done|constructor|by eapply inspected_now|done].
  - exists 0%nat, []. eexists. split_and!; [done|done|done|constructor|by eapply inspected_now|done].
  - exists 0%nat, []. eexists. split_and!; [lia|done|done|constructor|by eapply inspected_now|].
    intros Hr. match goal with Hn : negb _ = true |- _ => apply negb_true_iff in Hn; congruence end.
  - apply IH in E as (k & pre & state & Hk & -> & -> & Hpre & Hins & Hlast).
    exists (S k). eexists (_ :: pre), state.
    split_and!; [cbn; lia| | |constructor; [|done]|done|intros Hs; cbn; by rewrite (Hlast Hs)].
    + unfold inspect_events. cbn [take fmap list_fmap mjoin list_join]. by rewrite <- !app_assoc.
    + by rewrite <- !app_assoc.
    + match goal with Hn : negb _ = false |- _ => by apply negb_false_iff in Hn end.
Qed.

Lemma resolve_last pre state :
  Forall (fun s => s.1 = true) pre ->
  resolve_exec_exit_code (pre ++ [state]) = if state.1 : bool then None else state.2.
Proof.
  unfold resolve_exec_exit_code. induction 1 as [|[r c] pre Hr _ IH]; cbn in *.
  - by destruct state as [[] c].
  - by rewrite Hr.
Qed.
End Exec.

Definition exec_create_request (id : str) (cmd env_ : list str) : HttpRequest :=
  encode_docker_api_request (lit "POST") (container_path id ++ lit "/exec")
    (Some (exec_config_json_string (mkExecConfig cmd true true env_), lit "application/json")).
Definition exec_start_request (exec_id : str) : HttpRequest :=
  encode_docker_api_request (lit "POST") (lit "/exec/" ++ percent_encode exec_id ++ lit "/start")
    (Some (exec_start_json_string (mkExecStart false false), lit "application/json")).
Definition exec_inspect_path (exec_id : str) : str := lit "/exec/" ++ percent_encode exec_id ++ lit "/json".

(** C38: An exec that succeeds created and started one exec and inspected it at
    most six times, sleeping the backoffs in between; its output is the two
    streams of the start response; and its exit code is the one of the last
    inspection, absent exactly when even the sixth still said it was running
    (or reported none). *)
Theorem exec_spec `{Host} `{JsonLib} (id : str) (cmd env_ : list str) sc tr r tr' :
  exec id cmd env_ sc tr = (Done (Ok r), tr') ->
  exists exec_id k resp stream state, (k <= 5)%nat /\
    tr' = tr ++ [EvRequest (exec_create_request id cmd env_) Unlimited;
                 EvRequest (exec_start_request exec_id)
                   (BodyLimit_Error DockerTar.DOCKER_RESPONSE_BODY_LIMIT)]
             ++ inspect_events (exec_inspect_path exec_id) (take k EXEC_EXIT_CODE_BACKOFF_MILLIS) /\
    send (tr ++ [EvRequest (exec_create_request id cmd env_) Unlimited]) (exec_start_request exec_id)
      (BodyLimit_Error DockerTar.DOCKER_RESPONSE_BODY_LIMIT) = Ok resp /\
    resp.(resp_body) = Some stream /\
    r.(exec_stdout) = LogStream.stream_bytes 1 stream /\
    r.(exec_stderr) = LogStream.stream_bytes 2 stream /\
    inspected tr' (exec_inspect_path exec_id) state /\
    r.(exec_exit_code) = (if state.1 : bool then None else state.2) /\
    (state.1 = true -> k = 5%nat).
Proof.
  unfold exec. intros E. unfold request, request_with_body_limit, client_other, body_or in E.
  run_ok E.
  pose proof (demux_exec_stream_eq x9) as Hd. rewrite Heqp in Hd. injection Hd as Ho He.
  apply inspect_exec_spec in Hstep5 as (k & pre & state & Hk & -> & -> & Hpre & Hins & Hlast).
  exists x5, k, x7, x9, state. cbn [exec_stdout exec_stderr exec_exit_code app].
  split_and!; [done| |done|by apply ok_or_Ok in Hstep4|done|done|done| |done].
  - by rewrite <- !app_assoc.
  - by apply resolve_last.
Qed.

(** A daemon whose exec reports its exit code at the second inspection. *)
Definition exec_host : Host := script_host
  [answer 201 (print (JObj [(lit "Id", JStr (lit "e1"))]));
   answer 200 ([x01; x00; x00; x00; x00; x00; x00; x02] ++ lit "hi"
               ++ [x02; x00; x00; x00; x00; x00; x00; x01] ++ lit "!");
   answer 200 (print (JObj [(lit "Running", JBool true); (lit "ExitCode", JNull)]));
   answer 200 (print (JObj [(lit "Running", JBool false); (lit "ExitCode", JNum 3)]))].

Definition exec_run : Out DockerExecResult * Trace :=
  @exec exec_host DomJson (lit "c1") [lit "sh"] [] None [].

Lemma exec_spec_witness :
  exists tr', exec_run = (Done (Ok (mkExecResult (Some 3) (lit "hi") (lit "!"))), tr') /\
  exists exec_id k state, (k <= 5)%nat /\ @inspected exec_host _ tr' (exec_inspect_path exec_id) state /\
    Some 3 = (if state.1 : bool then None else state.2) /\ (state.1 = true -> k = 5%nat).
Proof.
  assert (exists tr', exec_run = (Done (Ok (mkExecResult (Some 3) (lit "hi") (lit "!"))), tr'))
    as [tr' E] by (eexists; vm_compute; reflexivity).
  exists tr'. split; [exact E|].
  destruct (@exec_spec exec_host DomJson (lit "c1") [lit "sh"] [] None [] _ tr' E)
    as (exec_id & k & resp & stream & state & Hk & _ & _ & _ & _ & _ & Hi & Hc & Hl).
  exists exec_id, k, state. split; [exact Hk|]. split; [exact Hi|]. split; [exact Hc | exact Hl].
Defined.

(** ** The life cycle of a container *)

(** How a status decides: [fine] ones succeed, others fail from 400 on. *)
Definition classify (fine : Z -> bool) (what : str) (r : Result Response) : Result unit :=
  resp ← r;
  if fine resp.(resp_status) then Ok tt
  else if 400 <=? resp.(resp_status) then Err (Client (ClientOther (status_text what resp)))
  else Ok tt.

Definition post (path : str) : HttpRequest := encode_docker_api_request (lit "POST") path None.
Definition delete (path : str) : HttpRequest := encode_docker_api_request (lit "DELETE") path None.

(** One request, classified; no result once its caller is dropped, with the request sent
    or not. *)
Definition one_request `{Host} (m : M unit) (req : HttpRequest) (fine : Z -> bool) (what : str) : Prop :=
  forall sc tr, m sc tr =
    if cut sc tr (EvRequest req Unlimited) then (Cancelled, cut_at sc tr (EvRequest req Unlimited))
    else (Done (classify fine what (send tr req Unlimited)), tr ++ [EvRequest req Unlimited]).

Definition start_request (id : str) : HttpRequest := post (container_path id ++ lit "/start").
Definition stop_request (id : str) (t : Z) : HttpRequest :=
  post (container_path id ++ lit "/stop?t=" ++ show_Z t).
Definition remove_request (id : str) (force : bool) : HttpRequest := delete (remove_path id force).
Definition not_found (s : Z) : bool := s =? 404.

Ltac solve_one_request op :=
  intros sc tr; unfold op, request, request_with_body_limit, send_request, perform, mbind, M_bind;
  unfold classify, start_request, stop_request, remove_request, not_found, post, delete; cbn [fmap option_fmap option_map];
  cbv beta; match goal with |- context [cut ?sc ?tr ?ev] => destruct (cut sc tr ev) end; [done|];
  match goal with |- context [send ?t ?r ?l] => destruct (send t r l) as [resp|e] end; [|done];
  cbn [mbind result_bind];
  repeat match goal with |- context [if ?b then _ else _] => destruct b end; reflexivity.

Section LifeCycle.
Context `{Host} (id : str).

Lemma start_one : one_request (start_container id) (start_request id) (fun _ => false)
  (lit "failed to start container").
Proof. solve_one_request @start_container. Qed.
Lemma stop_one t : one_request (stop id t) (stop_request id (stop_seconds t)) not_found
  (lit "failed to stop container").
Proof. solve_one_request @stop. Qed.
Lemma pause_one : one_request (pause id) (post (container_path id ++ lit "/pause"))
  (fun s => (s =? 304) || not_found s) (lit "failed to pause container").
Proof. solve_one_request @pause. Qed.
Lemma unpause_one : one_request (unpause id) (post (container_path id ++ lit "/unpause"))
  (fun s => (s =? 304) || not_found s) (lit "failed to unpause container").
Proof. solve_one_request @unpause. Qed.
Lemma remove_one force : one_request (remove id force) (remove_request id force) not_found
  (lit "failed to remove container").
Proof. solve_one_request @remove. Qed.
Lemma remove_blocking_one force : one_request (remove_blocking id force) (remove_request id force)
  not_found (lit "failed to remove container").
Proof. solve_one_request @remove_blocking. Qed.
End LifeCycle.

(** Every life cycle operation is one request whose status decides: a
    container that is already gone (404) is a success for stop, pause, unpause
    and remove, and only for them; one already in the wanted state (304) is one
    for pause and unpause by their own rule; any other status from 400 on fails
    with its number; and the grace period sent to stop is never negative. *)
Theorem lifecycle_requests `{Host} (id : str) :
  one_request (start_container id) (start_request id) (fun _ => false) (lit "failed to start container") /\
  (forall t, one_request (stop id t) (stop_request id (stop_seconds t)) not_found
    (lit "failed to stop container") /\ 0 <= stop_seconds t) /\
  one_request (pause id) (post (container_path id ++ lit "/pause"))
    (fun s => (s =? 304) || not_found s) (lit "failed to pause container") /\
  one_request (unpause id) (post (container_path id ++ lit "/unpause"))
    (fun s => (s =? 304) || not_found s) (lit "failed to unpause container") /\
  (forall force, one_request (remove id force) (remove_request id force) not_found
    (lit "failed to remove container") /\
   one_request (remove_blocking id force) (remove_request id force) not_found
    (lit "failed to remove container")).
Proof.
  split_and!; [apply start_one | | apply pause_one | apply unpause_one
    | intros force; split; [apply remove_one | apply remove_blocking_one]].
  intros t. split; [apply stop_one|]. unfold stop_seconds. destruct t as [t|]; [|done].
  destruct (Z.leb_spec 0 t); lia.
Qed.
