(* ===== verification/LogSession.v ===== *)
(** * Starting a log session ([src/src/core/client/docker_log_stream.rs])

    [spawn_log_session] with the thread it starts: the connection and its time
    limits, the request, the head, the message to the caller that waits, the
    demultiplexing and the guard that ends the streams.  A session is a program
    over what its socket answers; the caller may be gone and the stop flag may be
    set at any time.  Also [OneshotReader], which waits for a fetch. *)

From S2P Require Import Prelude Errors Http LogStream Effect.
From S2P Require Import DockerApi.
From S2P Require DockerClient.

(** ** The system of one session *)

(** The answers of [UnixStream]; [encode_request] is the encoder of the HTTP
    library; [receiver_gone] is whether the caller stopped waiting before the
    session had started; [stop_flag i] is the stop flag at the [i]-th turn. *)
Class SessionSystem := {
  connect : result IoError unit;
  set_read_timeout : option Duration -> result IoError unit;
  set_write_timeout : option Duration -> result IoError unit;
  try_clone : bool;
  encode_request : HttpRequest -> Result (list byte);
  write_all : list byte -> result IoError unit;
  answers : socket;
  receiver_gone : bool;
  stop_flag : nat -> bool;
}.

Definition LOG_SESSION_TIMEOUT : option Duration := Some (from_secs 30).

(** What the thread does, in order. *)
Inductive Action :=
| Connected
| ReadLimit (d : option Duration)
| WriteLimit (d : option Duration)
| Wrote (bytes : list byte)
| HeadRead
| Notified (r : Result unit)
| Demuxed
| Warned (e : Error).

(** [started] is whether the sender of the start message is still there. *)
Record Session := mkSession {
  actions : list Action;
  started : bool;
  logs : DockerLogsHandle;
}.

Definition Session_new : Session := mkSession [] true DockerLogsHandle_new.

(** A step of the thread: [None] is a loop out of fuel. *)
Definition Step (A : Type) := Session -> option (Result A * Session).
#[export] Instance Step_ret : MRet Step := fun A a s => Some (Ok a, s).
#[export] Instance Step_bind : MBind Step := fun A B f m s =>
  match m s with
  | Some (Ok a, s) => f a s
  | Some (Err e, s) => Some (Err e, s)
  | None => None
  end.

Definition raise {A} (e : Error) : Step A := fun s => Some (Err e, s).
Definition act (a : Action) : Step unit := fun s =>
  Some (Ok tt, mkSession (s.(actions) ++ [a]) s.(started) s.(logs)).
(** [r?], where [f] makes the error. *)
Definition try_ {A} (f : IoError -> Error) (r : result IoError A) : Step A :=
  match r with Ok a => mret a | Err e => raise (f e) end.
Definition on_logs (f : DockerLogsHandle -> DockerLogsHandle) : Step unit := fun s =>
  Some (Ok tt, mkSession s.(actions) s.(started) (f s.(logs))).
(** [started.take()] and the send. *)
Definition notify (r : Result unit) : Step unit := fun s =>
  Some (Ok tt, mkSession (s.(actions) ++ [Notified r]) false s.(logs)).

(** [Error::other(e.to_string())] *)
Definition other_text (e : IoError) : Error := other e.(io_msg).

Definition keep_socket (h : DockerLogsHandle) : DockerLogsHandle :=
  mkHandle h.(h_stdout) h.(h_stderr) h.(log_stop) true h.(h_shutdown) h.(demux_done) h.(active_consumers).
(** What the demultiplexing left in the two buffers; the wake-ups it sent are the
    steps of [LogStream]. *)
Definition store_buffers (out err : SharedLogBuffer) (h : DockerLogsHandle) : DockerLogsHandle :=
  mkHandle (mkLogStream out h.(h_stdout).(ls_notify) h.(h_stdout).(ls_terminated))
           (mkLogStream err h.(h_stderr).(ls_notify) h.(h_stderr).(ls_terminated))
           h.(log_stop) h.(shutdown_socket) h.(h_shutdown) h.(demux_done) h.(active_consumers).

Definition logs_path (id : str) : str :=
  lit "/containers/" ++ percent_encode id ++ lit "/logs?stdout=1&stderr=1&follow=true&tail=all".

Section Session.
Context {D : Type} `{ResponseDecoder D} `{SessionSystem}.

Definition log_stream_decoder : D := with_limits (Some U64_MAX).

(** The connection, its time limits and the request. *)
Definition open_stream (id : str) : Step unit :=
  try_ Io connect ;; act Connected ;;
  try_ other_text (set_read_timeout LOG_SESSION_TIMEOUT) ;; act (ReadLimit LOG_SESSION_TIMEOUT) ;;
  try_ other_text (set_write_timeout LOG_SESSION_TIMEOUT) ;; act (WriteLimit LOG_SESSION_TIMEOUT) ;;
  (if try_clone then on_logs keep_socket else mret tt) ;;
  match encode_request (DockerClient.encode_docker_api_request (lit "GET") (logs_path id) None) with
  | Err e => raise e
  | Ok bytes => try_ Io (write_all bytes) ;; act (Wrote bytes)
  end.

Definition read_head (fuel : nat) : Step (D * socket) := fun s =>
  match read_and_validate_head fuel (set_request_method (lit "GET") log_stream_decoder) answers with
  | None => None
  | Some (Err e) => Some (Err e, s)
  | Some (Ok p) => (act HeadRead ;; mret p) s
  end.

(** [demux_loop] on the handle's buffers and its stop flag. *)
Definition demux (fuel : nat) (dec : D) (sock : socket) : Step unit := fun s =>
  match LogStream.demux_loop fuel stop_flag 0 dec FrameDemuxer_new s.(logs).(h_stdout).(ls_buffer)
          s.(logs).(h_stderr).(ls_buffer) sock with
  | None => None
  | Some (Err (e, out, err)) => (act Demuxed ;; on_logs (store_buffers out err) ;; raise e) s
  | Some (Ok (_, _, out, err)) => (act Demuxed ;; on_logs (store_buffers out err)) s
  end.

Definition start_and_demux (fuel : nat) (id : str) : Step unit :=
  open_stream id ;;
  '(dec, sock) ← read_head fuel;
  notify (Ok tt) ;;
  if receiver_gone then mret tt
  else
    try_ other_text (set_read_timeout None) ;; act (ReadLimit None) ;;
    try_ other_text (set_write_timeout None) ;; act (WriteLimit None) ;;
    demux fuel dec sock.

(** The thread: the caller is told of a failure that came before the start, a later
    one is logged, and the guard ends the streams in any case. *)
Definition run_log_session (fuel : nat) (id : str) : option Session :=
  '(r, s) ← start_and_demux fuel id Session_new;
  '(_, s) ← (if s.(started) then
               notify (Err match r with
                           | Err e => e
                           | Ok _ => other (lit "log session failed before startup completed")
                           end)
             else match r with Err e => act (Warned e) | Ok _ => mret tt end) s;
  '(_, s) ← on_logs terminate_all s;
  Some s.

(** What the caller that waits is given: the message that was sent, or the drop of
    the sender. *)
Definition messages (s : Session) : list (Result unit) :=
  omap (fun a => match a with Notified r => Some r | _ => None end) s.(actions).
Definition spawn_log_session (s : Session) : Result unit :=
  match messages s with
  | r :: _ => r
  | [] => Err (other (lit "log session task exited before startup completed"))
  end.
End Session.

(** ** The asynchronous one-shot reader *)

Inductive OneshotState :=
| NotStarted
| Running
| DoneWith (data : list byte) (pos : nat)
| Failed.

(** [fetches] counts the tasks it started. *)
Record OneshotReader := mkOneshot { or_stdout : bool; state : OneshotState; fetches : nat }.
Definition OneshotReader_new (stdout : bool) : OneshotReader := mkOneshot stdout NotStarted 0.

Abbreviation Fetched := (result IoError (list byte * list byte)).

(** [poll_read]: [rx] is what a poll of the channel gives now, [None] when its sender
    is gone; [cap] is the room in the buffer. *)
Fixpoint oneshot_poll (fuel : nat) (rx : Poll (option Fetched)) (cap : nat) (self : OneshotReader)
    : option (Poll (result IoError (list byte)) * OneshotReader) :=
  match fuel with
  | O => None
  | S fuel =>
      let to st := mkOneshot self.(or_stdout) st self.(fetches) in
      match self.(state) with
      | NotStarted => oneshot_poll fuel rx cap (mkOneshot self.(or_stdout) Running (S self.(fetches)))
      | Running =>
          match rx with
          | Pending => Some (Pending, self)
          | Ready (Some (Ok (out, err))) =>
              oneshot_poll fuel rx cap (to (DoneWith (if self.(or_stdout) then out else err) 0))
          | Ready (Some (Err e)) => Some (Ready (Err e), to Failed)
          | Ready None => Some (Ready (Err (io_other (lit "oneshot log fetch task cancelled"))), to Failed)
          end
      | DoneWith data pos =>
          let remaining := drop pos data in
          let n := Nat.min (length remaining) cap in
          Some (Ready (Ok (take n remaining)), to (DoneWith data (pos + n)))
      | Failed => Some (Ready (Err (io_other (lit "oneshot log reader already failed"))), self)
      end
  end.

(** ** What a session does *)

Section Spec.
Context {D : Type} `{ResponseDecoderLaws D} `{SessionSystem}.

(** How the start ends, as one computation. *)
Definition opened (id : str) : Result (list byte) :=
  _ ← map_err Io connect;
  _ ← map_err other_text (set_read_timeout LOG_SESSION_TIMEOUT);
  _ ← map_err other_text (set_write_timeout LOG_SESSION_TIMEOUT);
  bytes ← encode_request (DockerClient.encode_docker_api_request (lit "GET") (logs_path id) None);
  _ ← map_err Io (write_all bytes);
  Ok bytes.
Definition unlimited : Result unit :=
  _ ← map_err other_text (set_read_timeout None);
  map_err other_text (set_write_timeout None).

(** Steps before the start: no message, no head, nothing demultiplexed. *)
Definition plain_action (a : Action) : bool :=
  match a with Notified _ | HeadRead | Demuxed => false | _ => true end.
Definition same_streams (h h' : DockerLogsHandle) : Prop :=
  h'.(h_stdout) = h.(h_stdout) /\ h'.(h_stderr) = h.(h_stderr).

Class Quiet {A} (m : Step A) := quiet s : exists r acts h,
  m s = Some (r, mkSession (s.(actions) ++ acts) s.(started) h) /\ same_streams s.(logs) h /\
  Forall (fun a => plain_action a = true) acts.

#[export] Instance ret_quiet {A} (a : A) : Quiet (mret a).
Proof. intros [acts st h]. exists (Ok a), [], h. by rewrite app_nil_r. Qed.
#[export] Instance raise_quiet {A} e : Quiet (@raise A e).
Proof. intros [acts st h]. exists (Err e), [], h. by rewrite app_nil_r. Qed.
#[export] Instance try_quiet {A} f (r : result IoError A) : Quiet (try_ f r).
Proof. destruct r; apply _. Qed.
#[export] Instance keep_socket_quiet : Quiet (on_logs keep_socket).
Proof. intros [acts st h]. exists (Ok tt), [], (keep_socket h). by rewrite app_nil_r. Qed.
#[export] Instance bind_quiet {A B} (m : Step A) (f : A -> Step B) :
  Quiet m -> (forall a, Quiet (f a)) -> Quiet (m ≫= f).
Proof.
  intros Hm Hf s. destruct (Hm s) as (r & acts & h & E & [Ho He] & Hp). unfold mbind, Step_bind. rewrite E.
  destruct r as [a|e]; [|by exists (Err e), acts, h].
  destruct (Hf a (mkSession (s.(actions) ++ acts) s.(started) h)) as (r & acts' & h' & -> & [Ho' He'] & Hp').
  exists r, (acts ++ acts'), h'. cbn in *. rewrite app_assoc. split_and!; [done| |by apply Forall_app].
  split; [by rewrite Ho'|by rewrite He'].
Qed.
Lemma act_quiet a : plain_action a = true -> Quiet (act a).
Proof. intros Ha [acts st h]. exists (Ok tt), [a], h. split_and!; [done|done|by repeat constructor]. Qed.
#[local] Hint Extern 0 (Quiet (act _)) => (apply act_quiet; reflexivity) : typeclass_instances.

#[export] Instance open_stream_quiet id : Quiet (open_stream id).
Proof. unfold open_stream. destruct try_clone, (encode_request _); apply _. Qed.

Lemma open_stream_run id s : match open_stream id s with
  | Some (Ok _, s') => exists bytes, opened id = Ok bytes /\ s'.(actions) = s.(actions) ++
      [Connected; ReadLimit LOG_SESSION_TIMEOUT; WriteLimit LOG_SESSION_TIMEOUT; Wrote bytes]
  | Some (Err e, _) => opened id = Err e
  | None => False
  end.
Proof.
  unfold open_stream, opened.
  destruct connect as [[]|e]; cbn; [|done].
  destruct (set_read_timeout _) as [[]|e]; cbn; [|done].
  destruct (set_write_timeout _) as [[]|e]; cbn; [|done].
  destruct try_clone, (encode_request _) as [bytes|e]; cbn; try done;
    destruct (write_all bytes) as [[]|e]; cbn; try done; eexists; (split; [reflexivity|]); cbn; by rewrite <- !app_assoc.
Qed.

(** Reading a head ends, and gives up nothing of the body. *)
Lemma head_loop_spec fuel (dec : D) sock :
  received dec = decoded dec -> (need dec sock + work_byte < fuel)%nat ->
  exists r, read_and_validate_head (E := Error) fuel dec sock = Some r /\
    match r with
    | Ok (dec', sock') => received dec' = decoded dec' /\ (need dec' sock' <= need dec sock + work_byte)%nat
    | Err _ => True
    end.
Proof.
  revert dec sock. induction fuel as [|fuel IH]; intros dec sock HF Hf; [lia|]. cbn [read_and_validate_head].
  destruct (read_into _ dec sock) as [[[n dec2] sock2]|e] eqn:Er; [|by eexists].
  apply read_into_spec in Er as ((x & Er & Ed) & Hn & Hneed).
  set (dec3 := if n =? 0 then mark_eof dec2 else dec2).
  assert (received dec3 = decoded dec3 /\
    (work dec3 <= work dec2 + (if (n =? 0)%Z then work_byte else 0))%nat) as [HF3 Hw3].
  { subst dec3. destruct (n =? 0); [|split; [by rewrite Er, Ed, HF|lia]].
    destruct (eof_law dec2) as [(y & -> & ->) Hw]. split; [|done]. by rewrite Er, Ed, HF. }
  destruct (decode_headers dec3) as [[[[h k]|] dec4]|e] eqn:Edh; cbn [map_err]; [| |by eexists];
    apply decode_law in Edh as ((y & Ey & Ey') & Hw4 & _).
  - destruct (validate_head h) as [[]|e]; cbn; [|by eexists]. eexists. split; [done|]. cbn.
    split; [by rewrite Ey, Ey', HF3|]. unfold need in *. destruct (n =? 0); lia.
  - destruct (Z.eqb_spec n 0) as [->|Hn0]; [by eexists|].
    destruct (IH dec4 sock2) as (r & Hr & Hp); [by rewrite Ey, Ey', HF3|unfold need in *; lia|].
    exists r. split; [done|]. destruct r as [[dec' sock']|]; [|done]. destruct Hp. unfold need in *. split; [done|lia].
Qed.

(** [F] is the body the decoder had been given when the demultiplexing of the rest of
    the answers ended. *)
Definition fed_by (fuel : nat) (dec : D) (sock : socket) (F : list byte) : Prop :=
  exists (d : D) dm out err, LogStream.demux_loop (E := Error) fuel stop_flag 0 dec FrameDemuxer_new
    (slb_new DEFAULT_BUFFER_LIMIT) (slb_new DEFAULT_BUFFER_LIMIT) sock = Some (Ok (d, dm, out, err)) /\ F = received d.

(** A session in good order: everything demultiplexed so far is in the buffers. *)
Lemma demux_run fuel (dec : D) sock s :
  received dec = decoded dec -> (need dec sock < fuel)%nat ->
  s.(logs).(h_stdout).(ls_buffer) = slb_new DEFAULT_BUFFER_LIMIT ->
  s.(logs).(h_stderr).(ls_buffer) = slb_new DEFAULT_BUFFER_LIMIT ->
  exists r out err, demux fuel dec sock s =
      Some (r, mkSession (s.(actions) ++ [Demuxed]) s.(started) (store_buffers out err s.(logs))) /\
    (r = Ok tt -> exists F, out.(slb_buf) = lastn DEFAULT_BUFFER_LIMIT (stream_bytes 1 F) /\
       err.(slb_buf) = lastn DEFAULT_BUFFER_LIMIT (stream_bytes 2 F) /\
       ((forall i, stop_flag i = false) -> fed_by fuel dec sock F)).
Proof.
  intros HF Hf Ho He. unfold demux. rewrite Ho, He.
  destruct (demux_loop_spec (E := Error) DEFAULT_BUFFER_LIMIT false ltac:(done) fuel stop_flag 0 [] dec
    FrameDemuxer_new (slb_new DEFAULT_BUFFER_LIMIT) (slb_new DEFAULT_BUFFER_LIMIT) sock) as (r & E & Hp); [done| |].
  - split_and!; [apply demux_wf_new|by rewrite HF|]. exists [], []. split_and!; [by apply holds_new..|done].
  - rewrite E. destruct r as [[[[dec' dm] out] err]|[[e out] err]]; eexists _, out, err; (split; [done|]); [|done].
    intros _. destruct Hp as (F & Hs & HFr). exists F.
    apply session_inv_holds in Hs as [(_ & _ & Hout & _) (_ & _ & Herr & _)].
    split_and!; [done..|]. intros Hn. exists dec', dm, out, err. split; [done|by apply HFr].
Qed.

Lemma step_bind {A B} (m : Step A) (f : A -> Step B) s r s1 : m s = Some (r, s1) ->
  (m ≫= f) s = match r with Ok a => f a s1 | Err e => Some (Err e, s1) end.
Proof. unfold mbind, Step_bind. by intros ->. Qed.

Definition fresh_streams (h : DockerLogsHandle) : Prop :=
  h.(h_stdout).(ls_buffer) = slb_new DEFAULT_BUFFER_LIMIT /\ h.(h_stderr).(ls_buffer) = slb_new DEFAULT_BUFFER_LIMIT.

Definition first_actions (bytes : list byte) : list Action :=
  [Connected; ReadLimit LOG_SESSION_TIMEOUT; WriteLimit LOG_SESSION_TIMEOUT; Wrote bytes; HeadRead; Notified (Ok tt)].

(** What is left of the work once the caller was told. *)
Definition streaming (fuel : nat) (dec : D) (sock : socket) : Step unit :=
  if receiver_gone then mret tt
  else
    try_ other_text (set_read_timeout None) ;; act (ReadLimit None) ;;
    try_ other_text (set_write_timeout None) ;; act (WriteLimit None) ;;
    demux fuel dec sock.

(** The start, on its three ways. *)
Lemma start_and_demux_run fuel id (dec0 := set_request_method (lit "GET") (log_stream_decoder (D := D))) :
  (need dec0 answers + 2 * work_byte < fuel)%nat ->
  match opened id with
  | Err e => exists s, start_and_demux fuel id Session_new = Some (Err e, s) /\ s.(started) = true /\
      fresh_streams s.(logs) /\ Forall (fun a => plain_action a = true) s.(actions)
  | Ok bytes =>
      match read_and_validate_head (E := Error) fuel dec0 answers with
      | None => False
      | Some (Err e) => exists s, start_and_demux fuel id Session_new = Some (Err e, s) /\ s.(started) = true /\
          fresh_streams s.(logs) /\ Forall (fun a => plain_action a = true) s.(actions)
      | Some (Ok (dec, sock)) => exists h, fresh_streams h /\
          received dec = decoded dec /\ (need dec sock < fuel)%nat /\
          start_and_demux fuel id Session_new = streaming fuel dec sock (mkSession (first_actions bytes) false h)
      end
  end.
Proof.
  intros Hf. destruct (open_stream_quiet id Session_new) as (r & acts & h & E & [Ho He] & Hp).
  pose proof (open_stream_run id Session_new) as Hr. rewrite E in Hr. unfold start_and_demux.
  assert (Hfresh : fresh_streams h) by (unfold fresh_streams; by rewrite Ho, He).
  rewrite (step_bind _ _ _ _ _ E). destruct r as [[]|e]; [|rewrite Hr; by eexists].
  destruct Hr as (bytes & -> & Ea). cbn [actions Session_new app] in Ea. subst acts.
  destruct (head_loop_spec fuel dec0 answers) as (r & Eh & Hd).
  { unfold dec0, log_stream_decoder. destruct (method_law (lit "GET") (with_limits (D := D) (Some U64_MAX))) as (-> & -> & _).
    by destruct (new_law (D := D) (Some U64_MAX)) as [-> ->]. }
  { lia. }
  rewrite Eh. unfold mbind at 1, Step_bind at 1, read_head. unfold dec0 in Eh. rewrite Eh.
  destruct r as [[dec sock]|e]; [|by eexists]. destruct Hd as [HF Hn].
  exists h. split_and!; [done|done| |done]. fold dec0 in Hn. lia.
Qed.

Definition no_message (a : Action) : bool := match a with Notified _ => false | _ => true end.

Lemma messages_quiet acts acts' st h : Forall (fun a => no_message a = true) acts' ->
  messages (mkSession (acts ++ acts') st h) = messages (mkSession acts st h).
Proof.
  intros Hq. unfold messages. cbn. rewrite omap_app. rewrite <- (app_nil_r (omap _ acts)) at 2. f_equal.
  induction Hq as [|a l Ha _ IH]; [done|]. by destruct a.
Qed.

Lemma plain_no_message acts :
  Forall (fun a => plain_action a = true) acts -> Forall (fun a => no_message a = true) acts.
Proof. intros Hp. eapply Forall_impl; [exact Hp|]. by intros []. Qed.

(** Both streams as the format defines them, for the body [F] that was fed. *)
Definition shows (F : list byte) (h : DockerLogsHandle) : Prop :=
  h.(h_stdout).(ls_buffer).(slb_buf) = lastn DEFAULT_BUFFER_LIMIT (stream_bytes 1 F) /\
  h.(h_stderr).(ls_buffer).(slb_buf) = lastn DEFAULT_BUFFER_LIMIT (stream_bytes 2 F).

Lemma streaming_run fuel (dec : D) sock s :
  fresh_streams s.(logs) -> received dec = decoded dec -> (need dec sock < fuel)%nat ->
  exists r rest h, streaming fuel dec sock s = Some (r, mkSession (s.(actions) ++ rest) s.(started) h) /\
    Forall (fun a => no_message a = true) rest /\
    if receiver_gone then r = Ok tt /\ rest = [] /\ h = s.(logs)
    else match unlimited with
         | Err e => r = Err e /\ (rest = [] \/ rest = [ReadLimit None])
         | Ok _ => rest = [ReadLimit None; WriteLimit None; Demuxed] /\
             (r = Ok tt -> exists F, shows F h /\ ((forall i, stop_flag i = false) -> fed_by fuel dec sock F))
         end.
Proof.
  intros [Ho He] HF Hf. unfold streaming, unlimited. destruct receiver_gone.
  { exists (Ok tt), [], s.(logs). rewrite app_nil_r. by destruct s. }
  destruct s as [acts st h]. cbn [logs actions started] in *.
  destruct (set_read_timeout None) as [[]|e]; cbn -[demux].
  - destruct (set_write_timeout None) as [[]|e]; cbn -[demux].
    + destruct (demux_run fuel dec sock (mkSession ((acts ++ [ReadLimit None]) ++ [WriteLimit None]) st h) HF Hf Ho He)
        as (r & out & err & E & Hr).
      exists r, [ReadLimit None; WriteLimit None; Demuxed], (store_buffers out err h).
      split_and!; [etrans; [exact E|]; cbn; by rewrite <- !app_assoc|by repeat constructor|done|]. intros ->.
      destruct (Hr eq_refl) as (F & Hout & Herr & HFd). exists F. by split.
    + exists (Err (other_text e)), [ReadLimit None], h. split_and!; [done|by repeat constructor|done|by right].
  - exists (Err (other_text e)), [], h. rewrite app_nil_r. split_and!; [done|constructor|done|by left].
Qed.

(** How the thread ends, from what the work came to. *)
Definition finish (r : Result unit) (s : Session) : Session :=
  mkSession (s.(actions) ++
      if s.(started) then [Notified (Err match r with
                                         | Err e => e
                                         | Ok _ => other (lit "log session failed before startup completed")
                                         end)]
      else match r with Err e => [Warned e] | Ok _ => [] end)
    false (terminate_all s.(logs)).

Lemma run_finish fuel id r s :
  start_and_demux (D := D) fuel id Session_new = Some (r, s) -> run_log_session (D := D) fuel id = Some (finish r s).
Proof.
  intros E. unfold run_log_session, finish. rewrite E. cbn. destruct s as [acts [] h], r as [[]|e]; cbn; try done.
  by rewrite app_nil_r.
Qed.

Definition demux_ended (s : Session) : Prop :=
  LogStream.logs_terminated s.(logs) = true /\
  s.(logs).(h_stdout).(ls_terminated) = true /\ s.(logs).(h_stderr).(ls_terminated) = true.

Lemma finish_early e s : s.(started) = true -> fresh_streams s.(logs) ->
  Forall (fun a => plain_action a = true) s.(actions) ->
  demux_ended (finish (Err e) s) /\ messages (finish (Err e) s) = [Err e] /\
  ~ Demuxed ∈ (finish (Err e) s).(actions) /\ fresh_streams (finish (Err e) s).(logs).
Proof.
  destruct s as [acts st h]. cbn. intros -> Hf Hp. split_and!; try done.
  - unfold messages, finish. cbn. rewrite omap_app. cbn.
    pose proof (messages_quiet [] acts true h (plain_no_message _ Hp)) as Hm. unfold messages in Hm. cbn in Hm.
    by rewrite Hm.
  - cbn. rewrite elem_of_app, list_elem_of_singleton. intros [Hin|]; [|done].
    rewrite Forall_forall in Hp. by specialize (Hp _ Hin).
Qed.

Lemma finish_told fuel dec sock bytes r rest h h' :
  fresh_streams h -> Forall (fun a => no_message a = true) rest ->
  (if receiver_gone then r = Ok tt /\ rest = [] /\ h' = h
   else match unlimited with
        | Err e => r = Err e /\ (rest = [] \/ rest = [ReadLimit None])
        | Ok _ => rest = [ReadLimit None; WriteLimit None; Demuxed] /\
            (r = Ok tt -> exists F, shows F h' /\ ((forall i, stop_flag i = false) -> fed_by fuel dec sock F))
        end) ->
  let s := finish r (mkSession (first_actions bytes ++ rest) false h') in
  LogStream.logs_terminated s.(logs) = true /\
  s.(logs).(h_stdout).(ls_terminated) = true /\ s.(logs).(h_stderr).(ls_terminated) = true /\
  messages s = [Ok tt] /\ spawn_log_session s = Ok tt /\
  (Ok tt : Result unit) = Ok tt /\ exists rest, s.(actions) = first_actions bytes ++ rest /\
    if receiver_gone then rest = [] /\ fresh_streams s.(logs)
    else match unlimited with
         | Err e => rest = [Warned e] \/ rest = [ReadLimit None; Warned e]
         | Ok _ => rest = [ReadLimit None; WriteLimit None; Demuxed] /\
             (exists F, shows F s.(logs) /\ ((forall i, stop_flag i = false) -> fed_by fuel dec sock F)) \/
             exists e, rest = [ReadLimit None; WriteLimit None; Demuxed; Warned e]
         end.
Proof.
  intros Hf Hq Hc s.
  assert (Ha : s.(actions) = first_actions bytes ++ rest ++ match r with Err e => [Warned e] | Ok _ => [] end).
  { unfold s, finish. cbn [started actions]. by rewrite <- app_assoc. }
  assert (Hm : messages s = [Ok tt]).
  { unfold messages. rewrite Ha. change (messages (mkSession (first_actions bytes ++ rest ++
      match r with Err e => [Warned e] | Ok _ => [] end) false h) = [Ok tt]).
    rewrite messages_quiet; [done|]. apply Forall_app. split; [done|]. destruct r; by repeat constructor. }
  split_and!; try done.
  eexists. split; [exact Ha|]. destruct receiver_gone.
  - by destruct Hc as (-> & -> & ->).
  - destruct unlimited as [[]|e].
    + destruct Hc as [-> Hr]. destruct r as [[]|e]; [left; split; [done|by apply Hr]|right; by exists e].
    + destruct Hc as [-> [-> | ->]]; [by left|by right].
Qed.
End Spec.

(** C6: The start and the end of a log session, whatever its socket answers, whether the
    caller still waits and whenever it is stopped.  The thread ends and leaves both
    streams terminated, so that no reader waits for ever.  The caller is told exactly
    once: the error of the first step that failed, before anything was demultiplexed,
    or the success, after the request was written and the head accepted, all of it
    under the time limit.  When the caller is gone nothing more is done; else the limits
    are lifted before the demultiplexing, and a session that ends without error leaves
    in the buffers the last bytes of each stream of the body that was fed, all the
    decoder was given when it was not stopped. *)
Theorem log_session_spec {D} `{ResponseDecoderLaws D} `{SessionSystem} fuel id
    (dec0 := set_request_method (lit "GET") (log_stream_decoder (D := D))) :
  (need dec0 answers + 2 * work_byte < fuel)%nat ->
  exists s r, run_log_session (D := D) fuel id = Some s /\
    LogStream.logs_terminated s.(logs) = true /\
    s.(logs).(h_stdout).(ls_terminated) = true /\ s.(logs).(h_stderr).(ls_terminated) = true /\
    messages s = [r] /\ spawn_log_session s = r /\
    match opened id, read_and_validate_head (E := Error) fuel dec0 answers with
    | Ok bytes, Some (Ok (dec, sock)) => r = Ok tt /\ exists rest, s.(actions) = first_actions bytes ++ rest /\
        if receiver_gone then rest = [] /\ fresh_streams s.(logs)
        else match unlimited with
             | Err e => rest = [Warned e] \/ rest = [ReadLimit None; Warned e]
             | Ok _ => rest = [ReadLimit None; WriteLimit None; Demuxed] /\
                 (exists F, shows F s.(logs) /\ ((forall i, stop_flag i = false) -> fed_by fuel dec sock F)) \/
                 exists e, rest = [ReadLimit None; WriteLimit None; Demuxed; Warned e]
             end
    | Ok _, Some (Err e) | Err e, _ => r = Err e /\ ~ Demuxed ∈ s.(actions) /\ fresh_streams s.(logs)
    | Ok _, None => False
    end.
Proof.
  intros Hf. pose proof (start_and_demux_run fuel id Hf) as Hs. fold dec0 in Hs.
  assert (Hearly : forall e, (exists s, start_and_demux (D := D) fuel id Session_new = Some (Err e, s) /\
    s.(started) = true /\ fresh_streams s.(logs) /\ Forall (fun a => plain_action a = true) s.(actions)) ->
    exists s, run_log_session (D := D) fuel id = Some s /\ demux_ended s /\ messages s = [Err e] /\
      ~ Demuxed ∈ s.(actions) /\ fresh_streams s.(logs)).
  { intros e (s & E & Hst & Hfr & Hp). eexists. rewrite (run_finish _ _ _ _ E). split; [done|].
    by apply finish_early. }
  destruct (opened id) as [bytes|e].
  - destruct (read_and_validate_head (E := Error) fuel dec0 answers) as [[[dec sock]|e]|]; [| |done].
    + destruct Hs as (h & Hh & HF & Hn & Es).
      destruct (streaming_run fuel dec sock (mkSession (first_actions bytes) false h) Hh HF Hn)
        as (r & rest & h' & Er & Hq & Hc). rewrite Er in Es. cbn [actions started logs] in *.
      exists (finish r (mkSession (first_actions bytes ++ rest) false h')), (Ok tt).
      rewrite (run_finish _ _ _ _ Es). split; [done|]. by apply (finish_told fuel dec sock bytes r rest h h').
    + destruct (Hearly e Hs) as (s & Er & Ht & Hm & Hd & Hfr). exists s, (Err e).
      unfold spawn_log_session. rewrite Hm. by destruct Ht as (? & ? & ?).
  - destruct (Hearly e Hs) as (s & Er & Ht & Hm & Hd & Hfr). exists s, (Err e).
    unfold spawn_log_session. rewrite Hm. by destruct Ht as (? & ? & ?).
Qed.

(** ** One-shot readers agree *)

(** Polls one after the other: the answers of those that were ready, with the room
    each had. *)
Fixpoint oneshot_polls (polls : list (Poll (option Fetched) * nat)) (self : OneshotReader)
    : option (list (nat * result IoError (list byte)) * OneshotReader) :=
  match polls with
  | [] => Some ([], self)
  | (rx, cap) :: polls =>
      '(p, self) ← oneshot_poll 3 rx cap self;
      '(rs, self) ← oneshot_polls polls self;
      Some (match p with Ready r => (cap, r) :: rs | Pending => rs end, self)
  end.

Definition outcome (fetched : option Fetched) : Fetched :=
  match fetched with Some r => r | None => Err (io_other (lit "oneshot log fetch task cancelled")) end.

(** The state of the synchronous reader that a state stands for. *)
Definition sync_of (r : OneshotReader) : SyncOneshotReader :=
  match r.(state) with
  | NotStarted | Running => mkSyncOneshot r.(or_stdout) None 0 false
  | DoneWith data pos => mkSyncOneshot r.(or_stdout) (Some data) pos false
  | Failed => mkSyncOneshot r.(or_stdout) None 0 true
  end.

Lemma oneshot_poll_run fetched rx cap self :
  rx = Pending \/ rx = Ready fetched ->
  exists p self', oneshot_poll 3 rx cap self = Some (p, self') /\
    self'.(fetches) = match self.(state) with NotStarted => S self.(fetches) | _ => self.(fetches) end /\
    self'.(state) <> NotStarted /\
    match p with
    | Pending => sync_of self' = sync_of self
    | Ready r => oneshot_read (outcome fetched) cap (sync_of self) = (r, sync_of self')
    end.
Proof.
  intros Hrx. destruct self as [so st n]. destruct st as [| |data pos|]; cbn [oneshot_poll state or_stdout fetches].
  1,2: destruct Hrx as [-> | ->]; [|destruct fetched as [[[out err]|e]|]]; cbn; by eauto 10.
  - by eexists _, _.
  - by eexists _, _.
Qed.

Lemma oneshot_polls_run fetched polls self :
  Forall (fun p => p.1 = Pending \/ p.1 = Ready fetched) polls ->
  exists rs self', oneshot_polls polls self = Some (rs, self') /\
    (self'.(fetches) <= match self.(state) with NotStarted => S self.(fetches) | _ => self.(fetches) end)%nat /\
    rs.*2 = oneshot_reads (outcome fetched) rs.*1 (sync_of self).
Proof.
  intros Hp. revert self. induction Hp as [|[rx cap] polls Hrx _ IH]; intros self; cbn [oneshot_polls].
  - exists [], self. split; [done|]. split; [destruct (state self); lia|done].
  - destruct (oneshot_poll_run fetched rx cap self Hrx) as (p & self1 & -> & Hn & Hst & Hr). cbn.
    destruct (IH self1) as (rs & self' & -> & Hle & Hrs). cbn. eexists _, self'. split; [done|].
    split; [rewrite <- Hn; by destruct (state self1)|].
    destruct p as [r|]; cbn; [by rewrite Hr, Hrs | by rewrite Hrs, Hr].
Qed.

(** However often a one-shot reader is polled before its fetch is over, what its
    polls give is what the synchronous reader gives for the same fetch and the same
    buffers: the stream in order, or, after a fetch that failed or whose task was
    cancelled, its error and then errors; and it fetches at most once. *)
Theorem oneshot_polls_spec fetched polls so :
  Forall (fun p => p.1 = Pending \/ p.1 = Ready fetched) polls ->
  exists rs self', oneshot_polls polls (OneshotReader_new so) = Some (rs, self') /\ (self'.(fetches) <= 1)%nat /\
    rs.*2 = oneshot_reads (outcome fetched) rs.*1 (SyncOneshotReader_new so).
Proof. apply (oneshot_polls_run fetched polls (OneshotReader_new so)). Qed.

Lemma oneshot_polls_spec_witness :
  let polls := [(Pending, 2%nat); (Ready (Some (Ok (lit "out", lit "err"))), 2%nat); (Pending, 5%nat)] in
  exists rs self', oneshot_polls polls (OneshotReader_new false) = Some (rs, self') /\ self'.(fetches) = 1%nat /\
    rs.*2 = [Ok (lit "er"); Ok (lit "r")] /\
    rs.*2 = oneshot_reads (outcome (Some (Ok (lit "out", lit "err")))) rs.*1 (SyncOneshotReader_new false).
Proof.
  intros polls.
  destruct (oneshot_polls_spec (Some (Ok (lit "out", lit "err"))) polls false) as (rs & self' & E & _ & Hr).
  { apply Forall_cons. split; [by left|]. apply Forall_cons. split; [by right|]. apply Forall_cons. split; [by left|constructor]. }
  exists rs, self'. split; [exact E|]. vm_compute in E. injection E as <- <-.
  split; [reflexivity|]. split; [reflexivity|exact Hr].
Defined.

(** ** A run *)

Definition friendly : SessionSystem := {|
  connect := Ok tt; set_read_timeout _ := Ok tt; set_write_timeout _ := Ok tt; try_clone := true;
  encode_request r := Ok (r.(req_method) ++ lit " " ++ r.(req_path)); write_all _ := Ok tt;
  answers := log_socket; receiver_gone := false; stop_flag _ := false |}.

Lemma log_session_spec_witness : exists s,
  @run_log_session PlainDecoder _ friendly 200 (lit "c1") = Some s /\
  s.(logs).(h_stdout).(ls_buffer).(slb_buf) = lit "hi" /\ s.(logs).(h_stderr).(ls_buffer).(slb_buf) = lit "err" /\
  LogStream.logs_terminated s.(logs) = true /\ messages s = [Ok tt].
Proof.
  destruct (@log_session_spec PlainDecoder _ _ friendly 200 (lit "c1")) as (s & r & E & Ht & _ & _ & Hm & _ & Hc).
  { vm_compute. lia. }
  exists s. split; [exact E|]. vm_compute in E. injection E as <-. split; [reflexivity|]. split; [reflexivity|].
  split; [exact Ht|reflexivity].
Defined.
