(* ===== verification/LogReaders.v ===== *)
(** * The logs a handle gives out on Linux

    The readers of [src/src/core/containers/async_container.rs] ([stdout], [stderr] and
    their synchronous twins, [stdout_to_vec], [stderr_to_vec]) over those of
    [src/src/core/client/docker_log_stream.rs], and the one-shot fetch from its
    connection on. *)

From S2P Require Import Prelude Errors Http LogStream LogSession.
From S2P Require Import DockerApi DockerTar.
From S2P Require DockerClient.

(** ** The fetch *)

Definition oneshot_path (id : str) : str :=
  lit "/containers/" ++ percent_encode id ++ lit "/logs?stdout=1&stderr=1&follow=false&tail=all".

Section Fetch.
Context {D : Type} `{ResponseDecoder D} `{SessionSystem}.

(** The connection, its time limits and the request. *)
Definition open_oneshot (id : str) : result IoError unit :=
  _ ← connect;
  _ ← set_read_timeout LOG_SESSION_TIMEOUT;
  _ ← set_write_timeout LOG_SESSION_TIMEOUT;
  bytes ← map_err (fun e => io_other (show_Error e))
            (encode_request (DockerClient.encode_docker_api_request (lit "GET") (oneshot_path id) None));
  write_all bytes.
Definition fetch_logs_oneshot_blocking (fuel : nat) (id : str) : option Fetched :=
  match open_oneshot id with
  | Err e => Some (Err e)
  | Ok _ =>
      match fetch_logs_oneshot (D := D) fuel DOCKER_RESPONSE_BODY_LIMIT answers with
      | None => None
      | Some r => Some ('(_, out, err) ← r; Ok (out, err))
      end
  end.
End Fetch.

(** ** The readers *)

(** What [stdout(follow)] and [stderr(follow)] return, without or with a session. *)
Inductive Reader :=
| Empty
| FollowReader (r : LogReader)
| Oneshot (r : OneshotReader).
Inductive SyncReader :=
| SyncEmpty
| SyncFollow (offset : Z) (warned_skip : bool)
| SyncOneshot (r : SyncOneshotReader).

Definition stdout_reader : LogReader := LogReader_new.
Definition stdout_oneshot : OneshotReader := OneshotReader_new true.
Definition stderr_oneshot : OneshotReader := OneshotReader_new false.

Definition stdout (session follow : bool) : Reader :=
  if session then if follow then FollowReader stdout_reader else Oneshot stdout_oneshot else Empty.
Definition stderr (session follow : bool) : Reader :=
  if session then if follow then FollowReader LogReader_new else Oneshot stderr_oneshot else Empty.
Definition stdout_sync (session follow : bool) : SyncReader :=
  if session then if follow then SyncFollow 0 false else SyncOneshot (SyncOneshotReader_new true) else SyncEmpty.
Definition stderr_sync (session follow : bool) : SyncReader :=
  if session then if follow then SyncFollow 0 false else SyncOneshot (SyncOneshotReader_new false) else SyncEmpty.

(** ** Reading to the end *)

(** What a poll at each time finds: what the fetching task has sent, and the room in
    the buffer. *)
Definition Polls := nat -> Poll (option Fetched) * nat.

(** [AsyncReadExt::read_to_end] *)
Fixpoint read_to_end (fuel t : nat) (env : Polls) (acc : list byte) (self : OneshotReader)
    : option (result IoError (list byte) * OneshotReader) :=
  match fuel with
  | O => None
  | S fuel =>
      '(p, self) ← oneshot_poll 3 (env t).1 (env t).2 self;
      match p with
      | Pending => read_to_end fuel (S t) env acc self
      | Ready (Err e) => Some (Err e, self)
      | Ready (Ok []) => Some (Ok acc, self)
      | Ready (Ok bs) => read_to_end fuel (S t) env (acc ++ bs) self
      end
  end.

Definition to_vec (fuel : nat) (env : Polls) (r : Reader) : option (Result (list byte)) :=
  match r with
  | Oneshot r => '(r, _) ← read_to_end fuel 0 env [] r; Some (map_err Io r)
  | Empty => Some (Ok [])
  | FollowReader _ => None
  end.
Definition stdout_to_vec (fuel : nat) (env : Polls) (session : bool) : option (Result (list byte)) :=
  to_vec fuel env (stdout session false).
Definition stderr_to_vec (fuel : nat) (env : Polls) (session : bool) : option (Result (list byte)) :=
  to_vec fuel env (stderr session false).

(** ** What it comes to *)

(** The task delivers [fetched] at [t0], and every buffer has room. *)
Definition delivers (env : Polls) (t0 : nat) (fetched : option Fetched) : Prop :=
  forall t, (0 < (env t).2)%nat /\ (env t).1 = if (t <? t0)%nat then Pending else Ready fetched.

(** The rest of a stream that is there. *)
Lemma read_to_end_done fuel t env acc so data pos n :
  (forall t, (0 < (env t).2)%nat) -> (pos <= length data)%nat -> (length data - pos < fuel)%nat ->
  exists self, read_to_end fuel t env acc (mkOneshot so (DoneWith data pos) n) = Some (Ok (acc ++ drop pos data), self) /\
    self.(fetches) = n.
Proof.
  intros Hcap. revert t acc pos. induction fuel as [|fuel IH]; intros t acc pos Hp Hf; [lia|].
  cbn [read_to_end oneshot_poll state or_stdout fetches mbind option_bind]. specialize (Hcap t).
  destruct (take _ (drop pos data)) as [|b bs] eqn:Et.
  - assert (length (drop pos data) = 0%nat) as Hl.
    { apply (f_equal length) in Et. rewrite length_take in Et. cbn in Et. lia. }
    eexists. rewrite (nil_length_inv _ Hl), app_nil_r. done.
  - assert (length (b :: bs) = Nat.min (length (drop pos data)) (env t).2) as Hl.
    { rewrite <- Et, length_take. lia. }
    cbn [length] in Hl. rewrite length_drop in *.
    destruct (IH (S t) (acc ++ b :: bs) (pos + Nat.min (length data - pos) (env t).2)%nat) as (self & -> & Hn); [lia..|].
    exists self. split; [|done]. rewrite <- app_assoc. do 4 f_equal.
    rewrite <- Et, <- drop_drop. apply take_drop.
Qed.

(** The number of fetches after a poll. *)
Definition fetched_by (st : OneshotState) (n : nat) : nat := match st with NotStarted => S n | _ => n end.
Definition waiting (st : OneshotState) : Prop := match st with NotStarted | Running => True | _ => False end.
Definition picked (so : bool) (p : list byte * list byte) : list byte := if so then p.1 else p.2.

Definition told (so : bool) (f : Fetched) : result IoError (list byte) :=
  match f with Ok p => Ok (picked so p) | Err e => Err e end.

(** Once the task has delivered, the reader goes on as one that holds the stream, or fails. *)
Lemma read_to_end_delivered fuel t env acc so st n fetched :
  waiting st -> (env t).1 = Ready fetched ->
  match outcome fetched with
  | Ok p => read_to_end (S fuel) t env acc (mkOneshot so st n) =
      read_to_end (S fuel) t env acc (mkOneshot so (DoneWith (picked so p) 0) (fetched_by st n))
  | Err e => exists self, read_to_end (S fuel) t env acc (mkOneshot so st n) = Some (Err e, self) /\
      self.(fetches) = fetched_by st n
  end.
Proof.
  intros Hw Ht. cbn [read_to_end]. rewrite Ht.
  destruct fetched as [[[out err]|e]|], st; try done; cbn [outcome]; cbn; by eexists.
Qed.

Lemma read_to_end_spec fuel t env t0 fetched so st n :
  delivers env t0 fetched -> waiting st ->
  (t0 - t + match outcome fetched with Ok p => length (picked so p) | Err _ => 0 end < fuel)%nat ->
  exists self, read_to_end fuel t env [] (mkOneshot so st n) = Some (told so (outcome fetched), self) /\
    self.(fetches) = fetched_by st n.
Proof.
  intros Hd. revert t st n. induction fuel as [|fuel IH]; intros t st n Hw Hf; [lia|].
  destruct (Nat.ltb_spec t t0) as [Hlt|Hge]; destruct (Hd t) as [_ Ht].
  - rewrite (proj2 (Nat.ltb_lt _ _) Hlt) in Ht.
    assert (read_to_end (S fuel) t env [] (mkOneshot so st n) =
      read_to_end fuel (S t) env [] (mkOneshot so Running (fetched_by st n))) as ->.
    { cbn [read_to_end]. rewrite Ht. by destruct st. }
    destruct (IH (S t) Running (fetched_by st n)) as (self & -> & Hn); [done|lia|]. by exists self.
  - rewrite (proj2 (Nat.ltb_ge _ _) Hge) in Ht.
    pose proof (read_to_end_delivered fuel t env [] so st n fetched Hw Ht) as Hr.
    destruct (outcome fetched) as [p|e]; [|destruct Hr as (self & -> & Hn); by exists self].
    rewrite Hr. destruct (read_to_end_done (S fuel) t env [] so (picked so p) 0 (fetched_by st n)) as (self & -> & Hn);
      [intros t'; apply Hd|lia|lia|]. rewrite drop_0. by exists self.
Qed.

Lemma collect_delivered (so : bool) fuel env t0 r :
  delivers env t0 (Some r) -> (t0 + match r with Ok p => length (picked so p) | Err _ => 0 end < fuel)%nat ->
  (if so then stdout_to_vec else stderr_to_vec) fuel env true = Some (map_err Io (told so r)).
Proof.
  intros Hd Hf. destruct (read_to_end_spec fuel 0 env t0 (Some r) so NotStarted 0 Hd I) as (self & E & _).
  { cbn [outcome]. rewrite Nat.sub_0_r. exact Hf. }
  unfold stdout_to_vec, stderr_to_vec, to_vec, stdout, stderr, stdout_oneshot, stderr_oneshot, OneshotReader_new.
  destruct so; by rewrite E.
Qed.

(** C33: [stdout_to_vec] and [stderr_to_vec] return, however the daemon slices its answer and
    however long the fetch takes: the whole demultiplexed stream of one log response,
    within 64 MiB and with nothing cut, or the error of the fetch.  Without a log
    session they return nothing at all. *)
Theorem to_vec_spec {D} `{ResponseDecoderLaws D} `{SessionSystem} fetch_fuel id (so : bool)
    (dec0 := set_request_method (lit "GET") (with_limits (D := D) (Some U64_MAX)))
    (collect := if so then stdout_to_vec else stderr_to_vec) :
  (need dec0 answers + work_byte < fetch_fuel)%nat ->
  exists r, fetch_logs_oneshot_blocking (D := D) fetch_fuel id = Some r /\
  forall env t0 fuel, delivers env t0 (Some r) ->
    (t0 + match r with Ok p => length (picked so p) | Err _ => 0 end < fuel)%nat ->
    collect fuel env false = Some (Ok []) /\
    exists v, collect fuel env true = Some v /\
    match v with
    | Ok bytes => open_oneshot id = Ok tt /\ len bytes <= DOCKER_RESPONSE_BODY_LIMIT /\
        exists dec out err,
          fetch_logs_oneshot (D := D) fetch_fuel DOCKER_RESPONSE_BODY_LIMIT answers = Some (Ok (dec, out, err)) /\
          bytes = stream_bytes (if so then 1 else 2) (received dec)
    | Err e => exists e', r = Err e' /\ e = Io e'
    end.
Proof.
  intros Hf. unfold fetch_logs_oneshot_blocking.
  destruct (fetch_logs_oneshot_spec (D := D) fetch_fuel DOCKER_RESPONSE_BODY_LIMIT answers) as (r & Er & Hr); [done|done|].
  assert (forall env fuel, collect fuel env false = Some (Ok [])) as Hnone by (intros; subst collect; by destruct so).
  destruct (open_oneshot id) as [[]|e].
  - rewrite Er. eexists. split; [done|]. intros env t0 fuel Hd Hfuel. split; [done|].
    eexists. split; [by apply (collect_delivered so fuel env t0 _ Hd)|].
    destruct r as [[[dec out] err]|e]; cbn; [|by eexists]. destruct Hr as (-> & -> & Ho & He).
    split; [done|]. split; [by destruct so|]. by eexists _, _, _; split; [|destruct so].
  - eexists. split; [done|]. intros env t0 fuel Hd Hfuel. split; [done|].
    eexists. split; [by apply (collect_delivered so fuel env t0 _ Hd)|]. by eexists.
Qed.

(** ** A log in two frames, fetched at the third poll *)

Definition third_poll (r : Fetched) : Polls := fun t => (if (t <? 2)%nat then Pending else Ready (Some r), 1%nat).

Lemma to_vec_spec_witness :
  fetch_logs_oneshot_blocking (D := PlainDecoder) (H0 := friendly) 200 (lit "c1") = Some (Ok (lit "hi", lit "err")) /\
  stderr_to_vec 10 (third_poll (Ok (lit "hi", lit "err"))) true = Some (Ok (lit "err")) /\
  exists dec out err, fetch_logs_oneshot (D := PlainDecoder) 200 DOCKER_RESPONSE_BODY_LIMIT log_socket =
    Some (Ok (dec, out, err)) /\ lit "err" = stream_bytes 2 (received dec).
Proof.
  destruct (@to_vec_spec PlainDecoder _ _ friendly 200 (lit "c1") false) as (r & E & Hr).
  { vm_compute. lia. }
  pose proof E as E'. vm_compute in E'. injection E' as <-. split; [exact E|].
  destruct (Hr (third_poll (Ok (lit "hi", lit "err"))) 2%nat 10%nat) as (_ & v & Ev & Hv).
  { intros t. split; [cbn; lia|reflexivity]. }
  { vm_compute. lia. }
  split; [vm_compute; reflexivity|]. vm_compute in Ev. injection Ev as <-.
  destruct Hv as (_ & _ & dec & out & err & Ed & Es). exists dec, out, err. split; [exact Ed|exact Es].
Defined.
