(* ===== verification/Copy.v ===== *)
(** * Copying into a container ([src/src/runners/async_runner.rs],
    [copy_to_sources_linux])

    Each source becomes one archive, built entry by entry from the host's file
    system and unpacked at the container's root.  The file system is the class
    [FileSystem]: what each path is, lists and holds; the checks of a file's
    size before and during the read are both modelled, since the two answers
    need not agree.  The walk over a host directory keeps a stack of
    directories and runs on fuel. *)

From stdpp Require Import sorting.
From S2P Require Import Prelude BTree Utf8 Errors Effect Request DockerTar DockerClient.

(** ** Paths ([std::path]) *)

Inductive Component := RootDir | CurDir | ParentDir | Normal (s : str).

Definition is_absolute (path : str) : bool := starts_with (lit "/") path.

(** Empty pieces and inner [.] disappear; a leading [.] of a relative path stays. *)
Definition component_of (piece : str) : option Component :=
  if bool_decide (piece = []) || bool_decide (piece = lit ".") then None
  else if bool_decide (piece = lit "..") then Some ParentDir
  else Some (Normal piece).

Definition components (path : str) : list Component :=
  let pieces := split "/" path in
  (if is_absolute path then [RootDir]
   else match pieces with
        | p :: _ => if bool_decide (p = lit ".") then [CurDir] else []
        | [] => []
        end) ++ omap component_of pieces.

Definition file_name (path : str) : option str :=
  match last (components path) with Some (Normal s) => Some s | _ => None end.

(** [path.strip_prefix(root)] of a path made from [root] by [join]s. *)
Definition strip_root (root path : str) : option str :=
  trim_start_byte "/" <$> strip_prefix root path.

(** ** The host's file system *)

Inductive FileType := Directory | RegularFile | Symlink | OtherFile.
Record Metadata := mkMetadata { file_type : FileType; file_len : Z }.

(** [content path]: the bytes that reading the opened file gives before it ends
    or fails. *)
Class FileSystem := {
  symlink_metadata : str -> result IoError Metadata;
  read_dir : str -> result IoError (list (result IoError str));
  open_file : str -> result IoError unit;
  content : str -> list byte * option IoError;
}.

(** What [read_dir] documents of the names it lists. *)
Definition plain_name (n : str) : Prop :=
  n <> [] /\ ("/"%byte ∉ n) /\ n <> lit "." /\ n <> lit "..".
Class FileSystemLaws `(F : FileSystem) := {
  read_dir_names dir names n : read_dir dir = Ok names -> Ok n ∈ names -> plain_name n;
}.

(** ** Errors *)

Definition copy_error (e : CopyToContainerError) : Error := Other (BoxCopyTo e).
Definition name_err (msg : str) : Error := copy_error (PathNameError msg).
Definition size_limit_err (path : str) : Error :=
  copy_error (SizeLimitExceeded DOCKER_RESPONSE_BODY_LIMIT (from_utf8_lossy path)).
Definition io_err {A} (path : str) (r : result IoError A) : Result A :=
  map_err (fun e => copy_error (io_error_with_host_path (from_utf8_lossy path) e)) r.

(** ** The target path *)

Definition make_path_relative (path : str) : Result str :=
  let relative := trim_start_byte "/" path in
  if bool_decide (relative = []) then Err (name_err (lit "copy_to target path must not be root only"))
  else Ok relative.

Definition is_parent_dir (c : Component) : bool := match c with ParentDir => true | _ => false end.

(** The checks of a target, and the path below the root. *)
Definition check_target (target : str) : Result str :=
  if negb (is_absolute target) then Err (name_err (lit "copy_to target path must be absolute"))
  else if ends_with (lit "/") target then
    Err (name_err (lit "copy_to target path must not end with a slash"))
  else if ends_with (lit "/.") target then
    Err (name_err (lit "copy_to target path must not end with a '.'"))
  else if contains_str (lit "//") target then
    Err (name_err (lit "copy_to target path must not contain '//'"))
  else if bool_decide (file_name target = None) then
    Err (name_err (lit "copy_to target path must have a file name"))
  else if existsb is_parent_dir (components target) then
    Err (name_err (lit "copy_to target path must not contain '..'"))
  else make_path_relative target.

(** ** Building the archive *)

Section Build.
Context `{FileSystem}.

Definition add_directory (b : UstarBuilder) (path : str) (uid gid : Z) : Result UstarBuilder :=
  map_err copy_error (append_directory b path 493 uid gid).
Definition add_file (b : UstarBuilder) (path : str) (data : list byte) (mode uid gid : Z)
    : Result UstarBuilder :=
  map_err copy_error (append_file b path data mode uid gid).

(** The loop over the parts before the last one. *)
Fixpoint append_ancestors (b : UstarBuilder) (acc : str) (parts : list str) (uid gid : Z)
    : Result UstarBuilder :=
  match parts with
  | [] => Ok b
  | part :: parts =>
      if bool_decide (part = []) then append_ancestors b acc parts uid gid
      else
        let acc := (if bool_decide (acc = []) then acc else acc ++ lit "/") ++ part in
        b ← add_directory b (acc ++ lit "/") uid gid;
        append_ancestors b acc parts uid gid
  end.
Definition append_ancestor_directories (b : UstarBuilder) (relative : str) (uid gid : Z)
    : Result UstarBuilder :=
  let parts := split "/" relative in
  append_ancestors b [] (take (length parts - 1) parts) uid gid.

Definition check_file_size_limit (path : str) (size : Z) : Result unit :=
  if DOCKER_RESPONSE_BODY_LIMIT <? size then Err (size_limit_err path) else Ok tt.

(** [read_file_limited] and [read_file_limited_async]: one byte more than the
    limit at most. *)
Definition read_file_limited (path : str) : Result (list byte) :=
  _ ← io_err path (open_file path);
  let '(bytes, error) := content path in
  let data := ztake (DOCKER_RESPONSE_BODY_LIMIT + 1) bytes in
  data ← match error with
         | Some e => if len data =? DOCKER_RESPONSE_BODY_LIMIT + 1 then Ok data
                     else io_err path (Err e)
         | None => Ok data
         end;
  if DOCKER_RESPONSE_BODY_LIMIT <? len data then Err (size_limit_err path) else Ok data.

(** The round for one child of a directory; it pushes a directory on the stack. *)
Definition append_child (host_root tar_root : str) (mode uid gid : Z) (path : str)
    (st : UstarBuilder * list str) : Result (UstarBuilder * list str) :=
  let '(b, stack) := st in
  meta ← io_err path (symlink_metadata path);
  rel ← ok_or (strip_root host_root path) (name_err (lit "copy_to walk path escaped source root"));
  rel_str ← ok_or (from_utf8 rel)
    (name_err (lit "copy_to source path under directory is not valid UTF-8"));
  let tar_path := if bool_decide (rel_str = []) then tar_root else tar_root ++ lit "/" ++ rel_str in
  match meta.(file_type) with
  | Symlink => Err (name_err (lit "copy_to source contains a symlink: " ++ from_utf8_lossy path))
  | Directory => b ← add_directory b (tar_path ++ lit "/") uid gid; Ok (b, path :: stack)
  | OtherFile => Err (name_err (lit "copy_to source contains a non-regular file"))
  | RegularFile =>
      _ ← check_file_size_limit path meta.(file_len);
      data ← read_file_limited path;
      b ← add_file b tar_path data mode uid gid;
      Ok (b, stack)
  end.

Fixpoint append_children (host_root tar_root : str) (mode uid gid : Z) (paths : list str)
    (st : UstarBuilder * list str) : Result (UstarBuilder * list str) :=
  match paths with
  | [] => Ok st
  | path :: paths =>
      st ← append_child host_root tar_root mode uid gid path st;
      append_children host_root tar_root mode uid gid paths st
  end.

(** [entries.collect::<io::Result<Vec<_>>>()] *)
Fixpoint sequence {A} (rs : list (result IoError A)) : result IoError (list A) :=
  match rs with
  | [] => Ok []
  | r :: rs => x ← r; xs ← sequence rs; Ok (x :: xs)
  end.

Definition name_le (a b : str) : Prop := str_cmp a b <> Gt.
#[export] Instance name_le_dec a b : Decision (name_le a b).
Proof. unfold name_le. destruct (str_cmp a b); [by left | by left | by right; intros E]. Defined.

(** The round for the directory popped from the stack: its children in reverse order. *)
Definition append_dir (host_root tar_root : str) (mode uid gid : Z) (dir : str)
    (st : UstarBuilder * list str) : Result (UstarBuilder * list str) :=
  entries ← io_err dir (read_dir dir);
  names ← io_err dir (sequence entries);
  append_children host_root tar_root mode uid gid
    (rev (map (path_join dir) (merge_sort name_le names))) st.

Fixpoint walk (fuel : nat) (host_root tar_root : str) (mode uid gid : Z)
    (b : UstarBuilder) (stack : list str) : option (Result UstarBuilder) :=
  match stack with
  | [] => Some (Ok b)
  | dir :: stack =>
      match fuel with
      | O => None
      | S f =>
          match append_dir host_root tar_root mode uid gid dir (b, stack) with
          | Err e => Some (Err e)
          | Ok (b, stack) => walk f host_root tar_root mode uid gid b stack
          end
      end
  end.
Definition append_host_directory (fuel : nat) (b : UstarBuilder) (host_root tar_root : str)
    (mode uid gid : Z) : option (Result UstarBuilder) :=
  walk fuel host_root tar_root mode uid gid b [host_root].

(** The builder of one source, at a checked target. *)
Definition build_source (fuel : nat) (source : CopyDataSource) (relative : str) (mode uid gid : Z)
    : option (Result UstarBuilder) :=
  let b := UstarBuilder_new in
  match source with
  | File path =>
      match io_err path (symlink_metadata path) with
      | Err e => Some (Err e)
      | Ok meta =>
          match meta.(file_type) with
          | Symlink =>
              Some (Err (name_err (lit "copy_to source is a symlink: " ++ from_utf8_lossy path)))
          | Directory =>
              match (b ← append_ancestor_directories b relative uid gid;
                     add_directory b (relative ++ lit "/") uid gid) with
              | Err e => Some (Err e)
              | Ok b => append_host_directory fuel b path relative mode uid gid
              end
          | RegularFile =>
              Some (b ← append_ancestor_directories b relative uid gid;
                    _ ← check_file_size_limit path meta.(file_len);
                    data ← read_file_limited path;
                    add_file b relative data mode uid gid)
          | OtherFile => Some (Err (name_err (lit "copy_to source is not a regular file or directory")))
          end
      end
  | Data data =>
      Some (b ← append_ancestor_directories b relative uid gid;
            add_file b relative data mode uid gid)
  end.

(** The archive of one source. *)
Definition copy_archive (fuel : nat) (src : CopyToContainer) : option (Result (list byte)) :=
  let t := src.(copy_target) in
  match check_target t.(target_path) with
  | Err e => Some (Err e)
  | Ok relative =>
      match build_source fuel src.(copy_source) relative t.(target_mode) t.(target_uid)
              t.(target_gid) with
      | None => None
      | Some r => Some (b ← r; map_err copy_error (finish b))
      end
  end.
End Build.

Definition copy_to_sources_linux `{Host} `{FileSystem} (fuel : nat) (id : str)
    (req : ContainerRequest) : M unit :=
  for_each (fun src =>
    match copy_archive fuel src with
    | None => no_fuel
    | Some r => tar ← lift r; copy_to id (lit "/") tar
    end) (copy_to_sources req).

(** ** What an archive may contain

    The entries of an archive, and the archive as the replay of its entries. *)

Inductive Entry :=
| EDir (path : str) (uid gid : Z)
| EFile (path : str) (data : list byte) (mode uid gid : Z).

Definition put_entry (b : UstarBuilder) (e : Entry) : Result UstarBuilder :=
  match e with
  | EDir path uid gid => add_directory b path uid gid
  | EFile path data mode uid gid => add_file b path data mode uid gid
  end.
Fixpoint replay (b : UstarBuilder) (es : list Entry) : Result UstarBuilder :=
  match es with
  | [] => Ok b
  | e :: es => b ← put_entry b e; replay b es
  end.

(** The path of an entry as its components. *)
Definition entry_at (e : Entry) (cs : list str) : Prop :=
  match e with
  | EDir path _ _ => path = join (lit "/") cs ++ lit "/"
  | EFile path _ _ _ _ => path = join (lit "/") cs
  end.
Definition is_dir (e : Entry) : bool := match e with EDir _ _ _ => true | _ => false end.

Definition safe_piece (c : str) : Prop := c <> [] /\ ("/"%byte ∉ c) /\ c <> lit "..".

(** At the target, below it, or a directory on the way to it. *)
Definition confined (root cs : list str) (e : Entry) : Prop :=
  cs <> [] /\ Forall safe_piece cs /\
  (root `prefix_of` cs \/ (is_dir e = true /\ cs `prefix_of` root)).

Definition has_dir (es : list Entry) (cs : list str) : Prop :=
  exists uid gid, EDir (join (lit "/") cs ++ lit "/") uid gid ∈ es.

(** Every entry is confined, and comes after its parent directory. *)
Inductive well_placed (root : list str) : list Entry -> Prop :=
| placed_nil : well_placed root []
| placed_snoc es e cs x :
    well_placed root es -> entry_at e (cs ++ [x]) -> confined root (cs ++ [x]) e ->
    (cs = [] \/ has_dir es cs) -> well_placed root (es ++ [e]).

Lemma replay_app b es es' : replay b (es ++ es') = (b ← replay b es; replay b es').
Proof.
  revert b. induction es as [|e es IH]; intros b; [done|]. cbn.
  destruct (put_entry b e); cbn; [apply IH | done].
Qed.

Lemma has_dir_app es es' cs : has_dir es cs -> has_dir (es ++ es') cs.
Proof. intros (u & g & H). exists u, g. apply elem_of_app. by left. Qed.

(** A builder that holds such entries. *)
Definition holds_placed (root : list str) (b : UstarBuilder) (es : list Entry) : Prop :=
  replay UstarBuilder_new es = Ok b /\ well_placed root es.

Lemma put_placed root b es e cs x b' :
  holds_placed root b es -> put_entry b e = Ok b' -> entry_at e (cs ++ [x]) ->
  confined root (cs ++ [x]) e -> (cs = [] \/ has_dir es cs) ->
  holds_placed root b' (es ++ [e]).
Proof.
  intros [Hr Hw] Hp He Hc Hd. split.
  - rewrite replay_app, Hr. cbn. by rewrite Hp.
  - by eapply placed_snoc.
Qed.

(** ** The target *)

Lemma join_slash relative : join (lit "/") (split "/" relative) = relative.
Proof. exact (join_split "/" relative). Qed.

Lemma component_of_parent p : component_of p = Some ParentDir <-> p = lit "..".
Proof.
  unfold component_of. split.
  - destruct (bool_decide (p = []) || bool_decide (p = lit ".")); [done|]. by case_bool_decide.
  - by intros ->.
Qed.

Lemma components_parent path : lit ".." ∈ split "/" path -> existsb is_parent_dir (components path) = true.
Proof.
  intros H. apply existsb_exists. exists ParentDir. split; [|done].
  apply list_elem_of_In. unfold components. apply elem_of_app. right.
  apply list_elem_of_omap. exists (lit ".."). split; [done | by apply component_of_parent].
Qed.

Lemma check_target_safe target relative :
  check_target target = Ok relative ->
  target = "/"%byte :: relative /\ Forall safe_piece (split "/" relative).
Proof.
  unfold check_target.
  destruct (is_absolute target) eqn:Ha; cbn [negb]; [|done].
  destruct (ends_with (lit "/") target) eqn:He; [done|].
  destruct (ends_with (lit "/.") target); [done|].
  destruct (contains_str (lit "//") target) eqn:Hc; [done|].
  case_bool_decide; [done|].
  destruct (existsb is_parent_dir (components target)) eqn:Hp; [done|].
  apply starts_with_iff in Ha as [rest ->]. unfold make_path_relative.
  change (lit "/" ++ rest) with ("/"%byte :: rest) in *.
  rewrite <- not_true_iff_false, contains_str_iff in Hc.
  rewrite <- not_true_iff_false, ends_with_iff in He.
  assert (trim_start_byte "/" ("/"%byte :: rest) = rest) as ->.
  { destruct rest as [|x rest]; [done|]. assert (x <> "/"%byte) as Hx.
    { intros ->. apply Hc. by exists [], rest. }
    change (trim_start_byte "/" (x :: rest) = x :: rest). cbn [trim_start_byte].
    by rewrite decide_False. }
  case_bool_decide as Hn; [done|]. intros [= <-]. split; [done|].
  assert (split "/" ("/"%byte :: rest) = [] :: split "/" rest) as Hs by done.
  apply Forall_forall. intros p Hin. split; [|split].
  - intros ->. apply split_nil_piece in Hin as [?|[Hq|[Hq|Hq]]]; [done| | |].
    + apply starts_with_iff in Hq as [k ->]. apply Hc. by exists [], k.
    + apply ends_with_iff in Hq as [k ->]. apply He. by exists ("/"%byte :: k).
    + apply contains_str_iff in Hq as (l & r & ->). apply Hc. by exists ("/"%byte :: l), r.
  - pose proof (split_no_sep "/" rest) as Hf. rewrite Forall_forall in Hf. by apply Hf.
  - intros ->. rewrite components_parent in Hp; [done|]. rewrite Hs. by right.
Qed.

(** ** The directories on the way *)

Lemma join_snoc cs x : cs <> [] -> join (lit "/") (cs ++ [x]) = join (lit "/") cs ++ lit "/" ++ x.
Proof. intros H. by rewrite join_pieces. Qed.

Lemma join_safe_nil cs : Forall safe_piece cs -> join (lit "/") cs = [] -> cs = [].
Proof.
  intros H. destruct H as [|x cs [Hx _]]; [done|]. destruct cs; cbn; [done|].
  by destruct x.
Qed.

Lemma safe_prefix cs root : cs `prefix_of` root -> Forall safe_piece root -> Forall safe_piece cs.
Proof. intros [k ->] H. by apply Forall_app in H as [? _]. Qed.

Lemma add_directory_placed root b es cs x uid gid b' :
  holds_placed root b es -> Forall safe_piece (cs ++ [x]) -> (cs = [] \/ has_dir es cs) ->
  (root `prefix_of` cs ++ [x] \/ cs ++ [x] `prefix_of` root) ->
  add_directory b (join (lit "/") (cs ++ [x]) ++ lit "/") uid gid = Ok b' ->
  let es' := es ++ [EDir (join (lit "/") (cs ++ [x]) ++ lit "/") uid gid] in
  holds_placed root b' es' /\ has_dir es' (cs ++ [x]).
Proof.
  intros Hh Hs Hd Hp Ha es'. split.
  - eapply put_placed; [exact Hh | exact Ha | done | | done].
    split; [by destruct cs|]. split; [done|]. destruct Hp; [by left | by right].
  - exists uid, gid. apply elem_of_app. right. by left.
Qed.

Lemma append_ancestors_placed root uid gid parts b es done rest b' :
  holds_placed root b es -> Forall safe_piece root -> root = done ++ parts ++ rest ->
  (done = [] \/ has_dir es done) ->
  append_ancestors b (join (lit "/") done) parts uid gid = Ok b' ->
  exists es', holds_placed root b' es' /\ (done ++ parts = [] \/ has_dir es' (done ++ parts)).
Proof.
  revert b es done. induction parts as [|p parts IH]; intros b es done Hh Hs Hr Hd; cbn [append_ancestors].
  - intros [= <-]. exists es. by rewrite app_nil_r.
  - assert (Forall safe_piece (done ++ [p])) as Hsp.
    { apply (safe_prefix _ root); [|done]. rewrite Hr. exists (parts ++ rest). by rewrite <- app_assoc. }
    assert (p <> []) as Hp by (apply Forall_app in Hsp as [_ Hsp]; inversion Hsp as [|? ? [? _]]; done).
    rewrite bool_decide_false by done.
    assert ((if bool_decide (join (lit "/") done = []) then join (lit "/") done
             else join (lit "/") done ++ lit "/") ++ p = join (lit "/") (done ++ [p])) as ->.
    { case_bool_decide as Hj.
      - apply join_safe_nil in Hj; [by subst done|]. by apply Forall_app in Hsp as [? _].
      - destruct (decide (done = [])) as [->|Hn]; [done|]. by rewrite join_snoc, <- app_assoc. }
    intros E. apply bind_Ok in E as (b1 & E1 & E).
    eapply add_directory_placed in E1 as [Hh1 Hd1]; [|done|done|done|].
    + destruct (IH b1 _ (done ++ [p]) Hh1 Hs) as (es' & ? & Hd'); [by rewrite Hr, <- app_assoc | by right | done |].
      exists es'. split; [done|]. by rewrite <- app_assoc in Hd'.
    + right. rewrite Hr. exists (parts ++ rest). by rewrite <- app_assoc.
Qed.

Lemma append_ancestor_directories_placed relative uid gid b (root := split "/" relative) :
  Forall safe_piece root -> append_ancestor_directories UstarBuilder_new relative uid gid = Ok b ->
  exists es cs x, root = cs ++ [x] /\ holds_placed root b es /\ (cs = [] \/ has_dir es cs).
Proof.
  intros Hs E. destruct (exists_last (split_nonempty "/" relative)) as (cs & x & Hr).
  fold root in Hr. unfold append_ancestor_directories in E. fold root in E.
  rewrite Hr, length_app in E. cbn [length] in E.
  rewrite Nat.add_sub, take_app_length in E.
  apply (append_ancestors_placed root uid gid cs _ [] [] [x]) in E as (es & ? & ?);
    [by exists es, cs, x | | done | done | by left].
  split; [done | constructor].
Qed.

(** ** The walk *)

Definition below (host : str) (names : list str) : str := fold_left path_join names host.

Lemma below_snoc host names n : below host (names ++ [n]) = path_join (below host names) n.
Proof. unfold below. by rewrite fold_left_app. Qed.

Definition root_sep (host : str) : str :=
  if bool_decide (host = []) || ends_with (lit "/") host then [] else lit "/".

Lemma path_join_sep dir n : path_join dir n = dir ++ root_sep dir ++ n.
Proof.
  unfold path_join, root_sep. case_bool_decide as E; [by subst|]. by destruct (ends_with (lit "/") dir).
Qed.

Lemma root_sep_name l n : plain_name n -> root_sep (l ++ n) = lit "/".
Proof.
  intros (Hn & Hs & _). unfold root_sep. rewrite bool_decide_false by (by destruct l, n).
  destruct (ends_with (lit "/") (l ++ n)) eqn:E; [|done]. exfalso.
  apply ends_with_iff in E as [k E]. destruct (exists_last Hn) as (n' & x & ->).
  rewrite app_assoc in E. apply app_inj_tail in E as [_ ->]. apply Hs.
  apply elem_of_app. right. by left.
Qed.

Lemma below_join host names :
  Forall plain_name names -> names <> [] ->
  below host names = host ++ root_sep host ++ join (lit "/") names.
Proof.
  induction names as [|n names IH] using rev_ind; [done|]. intros Hp _.
  apply Forall_app in Hp as [Hps Hp]. inversion Hp as [|? ? Hn _]; subst.
  rewrite below_snoc, path_join_sep.
  destruct (decide (names = [])) as [->|Hne]; [done|].
  rewrite IH by done. destruct (exists_last Hne) as (names' & m & ->).
  apply Forall_app in Hps as [_ Hm]. inversion Hm as [|? ? Hm' _]; subst.
  rewrite (join_snoc (names' ++ [m])) by (by destruct names').
  assert (exists t, join (lit "/") (names' ++ [m]) = t ++ m) as [t Ht].
  { destruct (decide (names' = [])) as [->|]; [by exists []|].
    rewrite join_snoc by done. exists (join (lit "/") names' ++ lit "/"). by rewrite app_assoc. }
  rewrite Ht at 2. rewrite !app_assoc, (root_sep_name _ m) by done. by rewrite <- !app_assoc.
Qed.

Lemma strip_root_below host names :
  Forall plain_name names -> names <> [] ->
  strip_root host (below host names) = Some (join (lit "/") names).
Proof.
  intros Hp Hn. rewrite below_join by done. unfold strip_root, strip_prefix.
  assert (starts_with host (host ++ root_sep host ++ join (lit "/") names) = true) as ->
    by (apply starts_with_iff; by eexists).
  rewrite drop_app_length. cbn [fmap option_fmap option_map]. f_equal.
  assert (trim_start_byte "/" (join (lit "/") names) = join (lit "/") names) as E.
  { destruct Hp as [|n names (Hne & Hs & _) _]; [done|]. destruct n as [|x n]; [done|].
    apply not_elem_of_cons in Hs as [Hx _].
    destruct names; cbn [join trim_start_byte app]; by rewrite decide_False by done. }
  unfold root_sep. destruct (_ || _); [done|]. apply E.
Qed.

Section Walk.
Context `{FileSystemLaws}.
Context (host : str) (root : list str) (mode uid gid : Z).
Hypothesis root_safe : Forall safe_piece root.
Hypothesis root_some : root <> [].

(** A directory on the stack: its entry is written. *)
Definition pending (es : list Entry) (d : str) : Prop :=
  exists names, d = below host names /\ Forall plain_name names /\ has_dir es (root ++ names).

(** What the walk keeps: the entries written and the stack. *)
Definition walk_inv (st : UstarBuilder * list str) (es : list Entry) : Prop :=
  holds_placed root st.1 es /\ Forall (pending es) st.2.

Lemma pending_app es es' d : pending es d -> pending (es ++ es') d.
Proof. intros (ns & ? & ? & ?). exists ns. split_and!; [done|done|by apply has_dir_app]. Qed.

Lemma plain_safe n : plain_name n -> safe_piece n.
Proof. by intros (? & ? & ? & ?). Qed.

Lemma root_names_safe names : Forall plain_name names -> Forall safe_piece (root ++ names).
Proof. intros Hp. apply Forall_app. split; [done|]. eapply Forall_impl; [exact Hp | exact plain_safe]. Qed.

Lemma tar_path_names names n :
  Forall plain_name (names ++ [n]) ->
  (if bool_decide (join (lit "/") (names ++ [n]) = []) then join (lit "/") root
   else join (lit "/") root ++ lit "/" ++ join (lit "/") (names ++ [n])) = join (lit "/") ((root ++ names) ++ [n]).
Proof.
  intros Hp. rewrite bool_decide_false.
  - by rewrite <- app_assoc, (join_pieces _ root) by (done || by destruct names).
  - intros E. apply join_safe_nil in E; [by destruct names|].
    eapply Forall_impl; [exact Hp | exact plain_safe].
Qed.

Lemma append_child_inv names n st es st' :
  walk_inv st es -> Forall plain_name (names ++ [n]) -> has_dir es (root ++ names) ->
  append_child host (join (lit "/") root) mode uid gid (below host (names ++ [n])) st = Ok st' ->
  exists es', walk_inv st' (es ++ es') /\
    (st'.2 = st.2 \/ exists meta, st'.2 = below host (names ++ [n]) :: st.2 /\
       symlink_metadata (below host (names ++ [n])) = Ok meta /\ meta.(file_type) = Directory).
Proof.
  destruct st as [b stack]. intros [Hh Hs] Hp Hd. unfold append_child.
  rewrite strip_root_below by (done || by destruct names). cbn [ok_or mbind result_bind].
  assert (Forall safe_piece ((root ++ names) ++ [n])) as Hsafe
    by (rewrite <- app_assoc; by apply root_names_safe).
  assert (root `prefix_of` (root ++ names) ++ [n]) as Hpre
    by (exists (names ++ [n]); by rewrite app_assoc).
  intros E. apply bind_Ok in E as (meta & Em & E). apply bind_Ok in E as (rel & Er & E).
  apply ok_or_Ok, from_utf8_Some in Er. subst rel. cbv zeta in E. rewrite (tar_path_names names n Hp) in E.
  destruct (file_type meta) eqn:Et; try done.
  - apply bind_Ok in E as (b1 & E1 & E). apply (inj Ok) in E. subst st'.
    eapply add_directory_placed in E1 as [Hh1 Hd1]; [|done|done|by right|by left].
    eexists. split; [split; [exact Hh1|]|].
    + cbn [snd]. constructor.
      * exists (names ++ [n]). rewrite app_assoc. by split_and!.
      * eapply Forall_impl; [exact Hs|]. intros d. apply pending_app.
    + right. exists meta. cbn. split; [done|]. split; [|done].
      unfold io_err in Em. by destruct (symlink_metadata _) as [m|]; [apply (inj Ok) in Em; subst|].
  - inv_ok E. apply (inj Ok) in E. subst st'.
    match goal with Ha : add_file _ _ ?data _ _ _ = Ok _ |- _ =>
      exists [EFile (join (lit "/") ((root ++ names) ++ [n])) data mode uid gid] end.
    split; [split|by left].
    + eapply put_placed; [exact Hh | cbn [put_entry]; eassumption | done | | by right].
      split; [by destruct (root ++ names)|]. split; [done | by left].
    + eapply Forall_impl; [exact Hs|]. intros d. apply pending_app.
Qed.

Lemma append_children_inv names ns st es st' :
  walk_inv st es -> Forall plain_name names -> Forall plain_name ns -> has_dir es (root ++ names) ->
  append_children host (join (lit "/") root) mode uid gid
    (map (fun n => below host (names ++ [n])) ns) st = Ok st' ->
  exists es', walk_inv st' (es ++ es').
Proof.
  revert st es. induction ns as [|n ns IH]; intros st es Hw Hp Hns Hd; cbn.
  - intros [= <-]. exists []. by rewrite app_nil_r.
  - apply Forall_cons in Hns as [Hn Hns]. intros E. apply bind_Ok in E as (st1 & E1 & E).
    eapply append_child_inv in E1 as (es1 & Hw1 & _); [|done| |done].
    + destruct (IH st1 (es ++ es1)) as (es2 & Hw2); [done..|by apply has_dir_app|done|].
      exists (es1 ++ es2). by rewrite app_assoc.
    + apply Forall_app. split; [done | by constructor].
Qed.

Lemma sequence_names dir entries names :
  read_dir dir = Ok entries -> sequence entries = Ok names -> Forall plain_name names.
Proof.
  intros Hr Hs. assert (forall n, n ∈ names -> Ok n ∈ entries) as Hin.
  { clear Hr. revert names Hs. induction entries as [|r rs IH]; cbn; intros names.
    - intros [= <-] n []%elem_of_nil.
    - intros E. apply bind_Ok in E as (x & -> & E). apply bind_Ok in E as (xs & Ex & E).
      apply (inj Ok) in E. subst names. intros n [->|Hn]%elem_of_cons; [by left | right; by apply (IH xs)]. }
  apply Forall_forall. intros n Hn. eapply read_dir_names; [exact Hr | by apply Hin].
Qed.

Lemma append_dir_inv names b stack es st' :
  walk_inv (b, below host names :: stack) es ->
  append_dir host (join (lit "/") root) mode uid gid (below host names) (b, stack) = Ok st' ->
  Forall plain_name names -> has_dir es (root ++ names) ->
  exists es', walk_inv st' (es ++ es').
Proof.
  intros [Hh Hs] E Hp Hd. apply Forall_cons in Hs as [_ Hs]. unfold append_dir in E.
  apply bind_Ok in E as (entries & Ee & E). apply bind_Ok in E as (ns & En & E).
  unfold io_err in Ee, En. destruct (read_dir (below host names)) as [entries'|] eqn:Er; [|done].
  destruct (sequence entries) as [ns'|] eqn:Es; [|done].
  apply (inj Ok) in Ee, En. subst entries' ns'.
  rewrite <- map_rev in E.
  erewrite map_ext in E by (intros n; symmetry; apply below_snoc). eapply (append_children_inv names) in E as [es' Hw];
    [by exists es' | by split | done | | done].
  apply Forall_rev. rewrite merge_sort_Permutation. by eapply sequence_names.
Qed.

Lemma walk_placed fuel b stack es b' :
  walk_inv (b, stack) es ->
  walk fuel host (join (lit "/") root) mode uid gid b stack = Some (Ok b') ->
  exists es', holds_placed root b' (es ++ es').
Proof.
  revert b stack es. induction fuel as [|f IH]; intros b [|d stack] es Hw; cbn; try done.
  - intros [= <-]. exists []. rewrite app_nil_r. apply Hw.
  - intros [= <-]. exists []. rewrite app_nil_r. apply Hw.
  - destruct (append_dir _ _ _ _ _ d (b, stack)) as [st1|] eqn:E; [|done].
    pose proof Hw as [_ Hs]. apply Forall_cons in Hs as [(names & -> & Hp & Hd) _].
    eapply append_dir_inv in E as [es1 Hw']; [|done..].
    destruct st1 as [b1 st1]. intros Ew. destruct (IH b1 st1 (es ++ es1) Hw' Ew) as [es2 Hw2].
    exists (es1 ++ es2). by rewrite app_assoc.
Qed.
End Walk.

(** ** The archive of a source *)

(** What a source leaves at its target. *)
Definition at_target `{FileSystem} (src : CopyToContainer) (relative : str) (e : Entry) : Prop :=
  let t := src.(copy_target) in
  entry_at e (split "/" relative) /\
  match src.(copy_source) with
  | Data data => e = EFile relative data t.(target_mode) t.(target_uid) t.(target_gid)
  | File path => exists meta, symlink_metadata path = Ok meta /\
      match meta.(file_type) with
      | Directory => is_dir e = true
      | RegularFile => exists data, read_file_limited path = Ok data /\
          e = EFile relative data t.(target_mode) t.(target_uid) t.(target_gid)
      | _ => False
      end
  end.

Section Archive.
Context `{FileSystemLaws}.

Lemma io_err_Ok {A} path (r : result IoError A) a : io_err path r = Ok a -> r = Ok a.
Proof. unfold io_err. by destruct r; intros [= <-]. Qed.

Lemma add_file_placed relative uid gid b0 data mode b (root := split "/" relative) :
  Forall safe_piece root ->
  append_ancestor_directories UstarBuilder_new relative uid gid = Ok b0 ->
  add_file b0 relative data mode uid gid = Ok b ->
  exists es, holds_placed root b es /\ EFile relative data mode uid gid ∈ es.
Proof.
  intros Hs Ea Ef. apply append_ancestor_directories_placed in Ea as (es & cs & x & Hr & Hh & Hd); [|done].
  fold root in Hr, Hh. exists (es ++ [EFile relative data mode uid gid]).
  split; [|apply elem_of_app; right; by left].
  apply (put_placed root b0 es (EFile relative data mode uid gid) cs x b Hh Ef); [| |done].
  - rewrite <- Hr. cbn [entry_at]. unfold root. by rewrite join_slash.
  - rewrite <- Hr. split; [apply split_nonempty|]. split; [done | by left].
Qed.

Lemma build_source_placed fuel src relative b :
  Forall safe_piece (split "/" relative) ->
  build_source fuel src.(copy_source) relative src.(copy_target).(target_mode)
    src.(copy_target).(target_uid) src.(copy_target).(target_gid) = Some (Ok b) ->
  exists es e, holds_placed (split "/" relative) b es /\ e ∈ es /\ at_target src relative e.
Proof.
  intros Hs. unfold build_source, at_target.
  set (mode := target_mode _). set (uid := target_uid _). set (gid := target_gid _).
  destruct (copy_source src) as [path|data].
  - destruct (io_err path (symlink_metadata path)) as [meta|] eqn:Em; [|done].
    apply io_err_Ok in Em. destruct (file_type meta) eqn:Et; [| |done|done].
    + destruct (b ← _; _) as [b1|] eqn:Eb; [|done].
      apply bind_Ok in Eb as (b0 & Ea & Eb).
      apply append_ancestor_directories_placed in Ea as (es & cs & x & Hr & Hh & Hd); [|done].
      rewrite <- (join_slash relative), Hr in Eb at 1. rewrite Hr in Hs, Hh.
      eapply add_directory_placed in Eb as [Hh1 Hd1]; [|done..|by left].
      unfold append_host_directory. rewrite <- (join_slash relative) at 1. rewrite Hr.
      intros Ew. eapply walk_placed in Ew as [es2 Hh2]; [|done|by destruct cs| ].
      * exists ((es ++ [EDir (join (lit "/") (cs ++ [x]) ++ lit "/") uid gid]) ++ es2),
          (EDir (join (lit "/") (cs ++ [x]) ++ lit "/") uid gid). split; [exact Hh2|]. split; [apply elem_of_app; left; apply elem_of_app; right; by left|].
        split; [done|]. exists meta. by rewrite Et.
      * split; [exact Hh1|]. constructor; [|constructor]. exists []. rewrite app_nil_r. by split_and!.
    + intros E. apply (inj Some) in E. apply bind_Ok in E as (b0 & Ea & E).
      apply bind_Ok in E as (u & _ & E). apply bind_Ok in E as (data & Er & E).
      eapply add_file_placed in E as (es & Hh & Hin); [|done..].
      eexists es, _. split; [done|]. split; [exact Hin|]. split; [cbn [entry_at]; by rewrite join_slash|].
      exists meta. rewrite Et. split; [done|]. by exists data.
  - intros E. apply (inj Some) in E. apply bind_Ok in E as (b0 & Ea & E).
    eapply add_file_placed in E as (es & Hh & Hin); [|done..].
    eexists es, _. split; [done|]. split; [exact Hin|]. split; [cbn [entry_at]; by rewrite join_slash | done].
Qed.
End Archive.

(** C27: The archive of a copy is the replay of entries that all lie at the
    target, below it, or on the way to it (the directories above the target, which
    the archive creates): no entry name is absolute, empty in a component, or has a
    [..], whatever the host directory contains; every entry follows its parent
    directory; and the source itself is at the target. *)
Theorem copy_archive_confined `{FileSystemLaws} fuel src bytes :
  copy_archive fuel src = Some (Ok bytes) ->
  exists relative b es e,
    src.(copy_target).(target_path) = "/"%byte :: relative /\
    replay UstarBuilder_new es = Ok b /\ finish b = Ok bytes /\
    well_placed (split "/" relative) es /\ e ∈ es /\ at_target src relative e.
Proof.
  unfold copy_archive. destruct (check_target _) as [relative|] eqn:Et; [|done].
  apply check_target_safe in Et as [Ht Hs].
  destruct (build_source _ _ _ _ _ _) as [[b|]|] eqn:Eb; [|done..].
  intros E. apply (inj Some) in E. cbn in E.
  apply build_source_placed in Eb as (es & e & [Hr Hw] & Hin & Ha); [|done].
  exists relative, b, es, e. split_and!; [done|done| |done..].
  by destruct (finish b); [apply (inj Ok) in E; subst|].
Qed.

(** ** The walk ends *)

Section Termination.
Context `{FileSystem}.

(** The directories below [dir] are nested less than [k] deep.  The walk never
    follows a link, so every directory of a file system has such a depth. *)
Fixpoint shallow (k : nat) (dir : str) : Prop :=
  match k with
  | O => False
  | S k => forall entries n meta, read_dir dir = Ok entries -> Ok n ∈ entries ->
      symlink_metadata (path_join dir n) = Ok meta -> meta.(file_type) = Directory ->
      shallow k (path_join dir n)
  end.

(** A directory pushed on the stack is one that was just looked at. *)
Lemma append_children_pushes host tar_root mode uid gid paths st st' :
  append_children host tar_root mode uid gid paths st = Ok st' ->
  exists dirs, st'.2 = dirs ++ st.2 /\
    Forall (fun d => d ∈ paths /\ exists meta, symlink_metadata d = Ok meta /\ meta.(file_type) = Directory) dirs.
Proof.
  revert st. induction paths as [|p paths IH]; intros [b stack]; cbn [append_children].
  - intros [= <-]. by exists [].
  - intros E. apply bind_Ok in E as (st1 & E1 & E). apply IH in E as (dirs & Hst & Hd).
    assert (Forall (fun d => d ∈ p :: paths /\ exists meta,
              symlink_metadata d = Ok meta /\ meta.(file_type) = Directory) dirs) as Hd'.
    { eapply Forall_impl; [exact Hd|]. intros d [? ?]. split; [by right | done]. }
    unfold append_child in E1. apply bind_Ok in E1 as (meta & Em & E1).
    apply io_err_Ok in Em. apply bind_Ok in E1 as (rel & _ & E1). apply bind_Ok in E1 as (rs & _ & E1).
    destruct (file_type meta) eqn:Et; [| |done|done]; inv_ok E1; apply (inj Ok) in E1; subst st1.
    + exists (dirs ++ [p]). cbn in Hst |- *. split; [by rewrite Hst, <- app_assoc|].
      apply Forall_app. split; [done|]. constructor; [|constructor]. split; [by left | by exists meta].
    + by exists dirs.
Qed.

Lemma append_dir_pushes host tar_root mode uid gid k dir b stack b' stack' :
  shallow (S k) dir -> append_dir host tar_root mode uid gid dir (b, stack) = Ok (b', stack') ->
  exists dirs, stack' = dirs ++ stack /\ Forall (shallow k) dirs.
Proof.
  intros Hs. unfold append_dir. intros E.
  apply bind_Ok in E as (entries & Er & E). apply bind_Ok in E as (names & En & E).
  apply io_err_Ok in Er, En. apply append_children_pushes in E as (dirs & Hst & Hd). cbn in Hst.
  exists dirs. split; [done|]. eapply Forall_impl; [exact Hd|]. cbn.
  intros d [Hin (meta & Em & Et)]. apply list_elem_of_In, in_rev, in_map_iff in Hin as (n & <- & Hn).
  apply list_elem_of_In in Hn. rewrite merge_sort_Permutation in Hn.
  apply (Hs entries n meta); [done| |done|done].
  clear -En Hn. revert names En Hn. induction entries as [|r rs IH]; cbn; intros names.
  - intros [= <-] []%elem_of_nil.
  - intros E. apply bind_Ok in E as (x & -> & E). apply bind_Ok in E as (xs & Ex & E).
    apply (inj Ok) in E. subst names. intros [->|Hn]%elem_of_cons; [by left | right; by apply (IH xs)].
Qed.

(** The walk through some directories on top of a stack ends or goes on below them. *)
Lemma walk_through host tar_root mode uid gid k dirs b rest :
  Forall (shallow k) dirs ->
  exists n, (exists e, forall f, walk (n + f) host tar_root mode uid gid b (dirs ++ rest) = Some (Err e)) \/
    (exists b', forall f, walk (n + f) host tar_root mode uid gid b (dirs ++ rest) =
                          walk f host tar_root mode uid gid b' rest).
Proof.
  revert dirs b rest. induction k as [|k IHk].
  - intros dirs b rest Hd. destruct dirs as [|d dirs]; [|by apply Forall_cons in Hd as [[] _]].
    exists 0%nat. right. by exists b.
  - induction dirs as [|d dirs IH]; intros b rest Hd; [exists 0%nat; right; by exists b|].
    apply Forall_cons in Hd as [Hd Hds].
    destruct (append_dir host tar_root mode uid gid d (b, dirs ++ rest)) as [[b1 st]|e] eqn:E.
    + apply (append_dir_pushes _ _ _ _ _ k) in E as Ep; [|done]. destruct Ep as (subs & -> & Hsubs).
      destruct (IHk subs b1 (dirs ++ rest) Hsubs) as (n1 & [[e He]|[b2 Hb2]]).
      * exists (S n1). left. exists e. intros f. cbn. rewrite E. apply He.
      * destruct (IH b2 rest Hds) as (n2 & [[e He]|[b3 Hb3]]); exists (S (n1 + n2)).
        -- left. exists e. intros f. cbn. rewrite E, <- Nat.add_assoc, Hb2. apply He.
        -- right. exists b3. intros f. cbn. rewrite E, <- Nat.add_assoc, Hb2. apply Hb3.
    + exists 1%nat. left. exists e. intros f. cbn. by rewrite E.
Qed.
End Termination.

(** Copying a source whose directories are nested to a finite depth always
    returns, an archive or an error, and the fuel of the walk does not change
    which. *)
Theorem copy_archive_returns `{FileSystem} (src : CopyToContainer) (k : nat) :
  match src.(copy_source) with File path => shallow k path | Data _ => True end ->
  exists fuel r, forall more, copy_archive (fuel + more) src = Some r.
Proof.
  intros Hs. unfold copy_archive, build_source.
  destruct (check_target _) as [relative|e]; [|by exists 0%nat, (Err e)].
  destruct (copy_source src) as [path|data]; [|exists 0%nat; by eexists].
  destruct (io_err path _) as [meta|]; [|exists 0%nat; by eexists].
  destruct (file_type meta); [|exists 0%nat; by eexists..].
  destruct (b ← _; _) as [b|]; [|exists 0%nat; by eexists]. unfold append_host_directory.
  destruct (walk_through path relative (target_mode (copy_target src)) (target_uid (copy_target src))
              (target_gid (copy_target src)) k [path] b []) as (n & [[e He]|[b' Hb]]);
    [constructor; [done | constructor] | |]; cbn [app] in *; exists n.
  - exists (Err e). intros more. by rewrite He.
  - eexists. intros more. rewrite Hb. by destruct more.
Qed.

(** ** A host directory, copied *)

Definition sample_meta (path : str) : result IoError Metadata :=
  if bool_decide (path ∈ [lit "h"; lit "h/s"]) then Ok (mkMetadata Directory 4096)
  else if bool_decide (path ∈ [lit "h/a"; lit "h/s/b"]) then Ok (mkMetadata RegularFile 2)
  else Err (mkIoError NotFound (lit "No such file or directory")).
Definition sample_dir (path : str) : result IoError (list (result IoError str)) :=
  if bool_decide (path = lit "h") then Ok [Ok (lit "s"); Ok (lit "a")]
  else if bool_decide (path = lit "h/s") then Ok [Ok (lit "b")]
  else Err (mkIoError NotFound (lit "No such file or directory")).
#[export] Instance SampleFS : FileSystem := {|
  symlink_metadata := sample_meta; read_dir := sample_dir;
  open_file _ := Ok tt; content path := (lit "hi", None) |}.

#[export] Instance SampleFS_laws : FileSystemLaws SampleFS.
Proof.
  split. intros dir names n. cbn. unfold sample_dir.
  assert (forall n, n = lit "s" \/ n = lit "a" \/ n = lit "b" -> plain_name n) as Hp.
  { intros m [ -> | [ -> | -> ] ]; (split_and!; [done | apply (bool_decide_unpack _); vm_compute; exact I | done | done]). }
  case_bool_decide; [|case_bool_decide]; intros [= <-] Hn; apply Hp;
    repeat (apply elem_of_cons in Hn as [[= ->]|Hn]; [eauto|]); by apply elem_of_nil in Hn.
Qed.

Definition sample_source : CopyToContainer :=
  mkCopyTo (File (lit "h")) (CopyTargetOptions_new (lit "/t/d")).

Lemma copy_archive_confined_witness :
  exists bytes, copy_archive 3 sample_source = Some (Ok bytes) /\
  exists relative b es e,
    lit "/t/d" = "/"%byte :: relative /\
    replay UstarBuilder_new es = Ok b /\ finish b = Ok bytes /\
    well_placed (split "/" relative) es /\ e ∈ es /\ at_target sample_source relative e.
Proof.
  eexists. split; [vm_compute; reflexivity|].
  apply (copy_archive_confined 3 sample_source). vm_compute. reflexivity.
Defined.

Lemma copy_archive_returns_witness :
  shallow 2 (lit "h") /\ exists fuel r, forall more, copy_archive (fuel + more) sample_source = Some r.
Proof.
  assert (shallow 2 (lit "h")) as Hs.
  { intros entries n meta [= <-] Hn Hm Ht. apply elem_of_cons in Hn as [[= ->]|Hn].
    - intros entries n meta' [= <-] Hn Hm' Ht'.
      apply elem_of_cons in Hn as [[= ->]|[]%elem_of_nil].
      vm_compute in Hm'. injection Hm' as <-. discriminate.
    - apply elem_of_cons in Hn as [[= ->]|[]%elem_of_nil].
      vm_compute in Hm. injection Hm as <-. discriminate. }
  split; [exact Hs|]. apply (copy_archive_returns sample_source 2). exact Hs.
Defined.
