(* ===== verification/WaitState.v ===== *)
(** * Exit codes across restarts ([src/src/core/containers/async_container.rs])

    A container handle shares a [WaitState] with the threads that wait for its
    container to end.  A thread may come back long after it was started, when
    the container has been restarted in between; the generation number decides
    whether its exit code still counts.  Here the state, its two operations, and
    the step relation of the handle, the container and any number of waiting
    threads. *)

From S2P Require Import Prelude.
From S2P Require Effect.

Record WaitState := mkWaitState {
  generation : Z;
  exit_code : option Z;
}.

(** [WaitState::default()] *)
Definition WaitState_default : WaitState := mkWaitState 0 None.

Definition store_if_current (self : WaitState) (g code : Z) : bool * WaitState :=
  if self.(generation) =? g then (true, mkWaitState self.(generation) (Some code))
  else (false, self).

Definition bump (self : WaitState) : Z * WaitState :=
  let g := (self.(generation) + 1) mod 2 ^ 64 in
  (g, mkWaitState g None).

(** ** The threads

    The runs of the container are numbered from 1.  [armed] is the run that was
    in progress when the current generation began; a waiter holds the generation
    it was started with and the run at that time. *)
Record Threads := mkThreads {
  wait_state : WaitState;
  runs : nat;
  finished : list (nat * Z);
  waiters : list (Z * nat);
  armed : nat;
}.

(** After the first start: [new_wait_state], with the container running. *)
Definition Threads_new : Threads := mkThreads WaitState_default 1 [] [] 1.

(** [reset_wait_state_and_respawn] *)
Definition respawn (t : Threads) : Threads :=
  let '(g, ws) := bump t.(wait_state) in
  mkThreads ws t.(runs) t.(finished) ((g, t.(runs)) :: t.(waiters)) t.(runs).

(** [spawn_exit_code_waiter] with the current generation, as after the first
    start and in [exit_code] on macOS. *)
Definition spawn (t : Threads) : Threads :=
  mkThreads t.(wait_state) t.(runs) t.(finished)
    ((t.(wait_state).(generation), t.(runs)) :: t.(waiters)) t.(armed).

(** The end of a waiter whose wait returned [code]. *)
Definition record (t : Threads) (g code : Z) (others : list (Z * nat)) : Threads :=
  mkThreads (store_if_current t.(wait_state) g code).2 t.(runs) t.(finished) others t.(armed).

(** A wait returns the code of a run that ended, the one in progress (or the
    last one) when it began or a later one: on a stopped container it returns at
    once.  A wait that fails, as after a removal, is ignored. *)
Inductive step : Threads -> Threads -> Prop :=
| step_start t :
    step t (mkThreads t.(wait_state) (S t.(runs)) t.(finished) t.(waiters) t.(armed))
| step_exit t code :
    step t (mkThreads t.(wait_state) t.(runs) ((t.(runs), code) :: t.(finished)) t.(waiters) t.(armed))
| step_spawn t : step t (spawn t)
| step_respawn t : step t (respawn t)
| step_record t before g r0 after r code :
    t.(waiters) = before ++ (g, r0) :: after -> (r, code) ∈ t.(finished) -> (r0 <= r)%nat ->
    step t (record t g code (before ++ after))
| step_give_up t before g r0 after :
    t.(waiters) = before ++ (g, r0) :: after ->
    step t (mkThreads t.(wait_state) t.(runs) t.(finished) (before ++ after) t.(armed)).

(** ** The program of a waiter *)

Section Waiter.
Import Effect.
Context `{Host}.

(** The thread of [spawn_exit_code_waiter]: the wait of its system, then what it does to the
    state under the lock. *)
Definition exit_code_waiter (wait : M Z) (g : Z) : M (WaitState -> WaitState) :=
  result ← attempt wait;
  mret match result with
       | Ok code => fun self => (store_if_current self g code).2
       | Err _ => fun self => self
       end.

(** A waiter that ends is a step of the threads, whatever they did in the meantime. *)
Lemma exit_code_waiter_step wait g sc tr result tr' t before r0 after :
  wait sc tr = (Done result, tr') ->
  t.(waiters) = before ++ (g, r0) :: after ->
  (forall code, result = Ok code -> exists r, (r, code) ∈ t.(finished) /\ (r0 <= r)%nat) ->
  exists f, exit_code_waiter wait g sc tr = (Done (Ok f), tr') /\
    step t (mkThreads (f t.(wait_state)) t.(runs) t.(finished) (before ++ after) t.(armed)).
Proof.
  intros Hrun Ew Hf. eexists. split; [unfold exit_code_waiter; by erewrite bind_step by by apply attempt_run|].
  destruct result as [code|e].
  - destruct (Hf code eq_refl) as (r & Hin & Hr). by eapply (step_record t before g r0 after r code).
  - by eapply step_give_up.
Qed.
End Waiter.

(** The number of steps bounds the number of generations, so none comes back. *)
Record inv (n : nat) (t : Threads) : Prop := {
  inv_gen : 0 <= t.(wait_state).(generation) <= Z.of_nat n;
  inv_armed : (t.(armed) <= t.(runs))%nat;
  inv_finished : Forall (fun f => (f.1 <= t.(runs))%nat) t.(finished);
  inv_waiters : Forall (fun w => 0 <= w.1 <= t.(wait_state).(generation) /\
    (w.1 = t.(wait_state).(generation) -> (t.(armed) <= w.2)%nat)) t.(waiters);
  inv_code c : t.(wait_state).(exit_code) = Some c ->
    exists r, (r, c) ∈ t.(finished) /\ (t.(armed) <= r)%nat;
}.

Lemma inv_new n : inv n Threads_new.
Proof. split; cbn; [lia|lia|constructor|constructor|done]. Qed.

Lemma step_inv n t t' : Z.of_nat n + 1 < 2 ^ 64 -> inv n t -> step t t' -> inv (S n) t'.
Proof.
  intros Hn [Hg Ha Hf Hw Hc] Hs.
  destruct Hs as [t|t code|t|t|t before g r0 after r code Ew Hin Hr|t before g r0 after Ew]; cbn.
  - split; cbn; [lia|lia| |done|done]. eapply Forall_impl; [exact Hf|]. cbn. lia.
  - split; cbn; [lia|lia|constructor; [done|done]|done|].
    intros c E. destruct (Hc c E) as (r & ? & ?). exists r. split; [by right | done].
  - split; cbn; [lia|lia|done| |done]. constructor; [cbn; split; lia | done].
  - assert ((generation (wait_state t) + 1) mod 2 ^ 64 = generation (wait_state t) + 1) as Em
      by (apply Z.mod_small; lia).
    unfold respawn, bump. rewrite Em.
    split; cbn; [lia|lia|done| |done]. constructor; [cbn; lia|].
    eapply Forall_impl; [exact Hw|]. cbn. intros w [? _]. split; lia.
  - rewrite Ew in Hw. apply Forall_app in Hw as [Hb Hw]. apply Forall_cons in Hw as [[Hg0 Hw0] Haf].
    cbn in Hg0, Hw0. unfold record, store_if_current.
    destruct (Z.eqb_spec (generation (wait_state t)) g) as [E|_]; [subst g|]; split; cbn; try lia; try done;
      try by apply Forall_app.
    intros c [= <-]. exists r. split; [done|]. specialize (Hw0 eq_refl). lia.
  - rewrite Ew in Hw. apply Forall_app in Hw as [Hb Hw]. apply Forall_cons in Hw as [_ Haf].
    split; cbn; [lia|lia|done|by apply Forall_app|done].
Qed.

Lemma nsteps_inv n t : nsteps step n Threads_new t -> Z.of_nat n < 2 ^ 64 -> inv n t.
Proof.
  revert t. induction n as [|n IH]; intros t H Hb.
  - inversion H; subst. apply inv_new.
  - apply nsteps_inv_r in H as (y & Hy & Hs). apply (step_inv n y); [lia | apply IH; [done | lia] | done].
Qed.

(** C14: The exit code a handle reports is never one of an earlier run: it is the
    code of a run that ended and that was started no earlier than the one the
    current generation was armed for, in every interleaving of starts, exits,
    waiters of any age and restarts (fewer than 2{^64} steps, so that the
    generation counter has not wrapped); and a thread of another generation
    changes nothing. *)
Theorem exit_code_fresh (n : nat) (t : Threads) :
  nsteps step n Threads_new t -> Z.of_nat n < 2 ^ 64 ->
  (forall c, t.(wait_state).(exit_code) = Some c ->
     exists r, (r, c) ∈ t.(finished) /\ (t.(armed) <= r <= t.(runs))%nat) /\
  (forall g code, g <> t.(wait_state).(generation) ->
     store_if_current t.(wait_state) g code = (false, t.(wait_state))) /\
  (forall code, (store_if_current t.(wait_state) t.(wait_state).(generation) code).2.(exit_code) = Some code).
Proof.
  intros Hn Hb. apply nsteps_inv in Hn as [_ _ Hf _ Hc]; [|done]. split_and!.
  - intros c E. destruct (Hc c E) as (r & Hin & ?). exists r. split; [done|].
    rewrite Forall_forall in Hf. specialize (Hf _ Hin). cbn in Hf. lia.
  - intros g code Hg. unfold store_if_current. by rewrite (proj2 (Z.eqb_neq _ _)) by done.
  - intros code. unfold store_if_current. by rewrite Z.eqb_refl.
Qed.

(** A run that ends with code 1, a restart, and the first run's waiter coming
    back only then. *)
Definition restarted : Threads := mkThreads (mkWaitState 1 None) 2 [(1%nat, 1)] [(1, 2%nat)] 2.

Definition before_record : Threads :=
  mkThreads (mkWaitState 1 None) 2 [(1%nat, 1)] [(1, 2%nat); (0, 1%nat)] 2.

Lemma exit_code_fresh_witness :
  nsteps step 5 Threads_new restarted /\ Z.of_nat 5 < 2 ^ 64 /\
  store_if_current restarted.(wait_state) 0 1 = (false, restarted.(wait_state)).
Proof.
  assert (nsteps step 5 Threads_new restarted) as Hn.
  { eapply nsteps_l; [apply step_spawn|]. eapply nsteps_l; [apply (step_exit _ 1)|].
    eapply nsteps_l; [apply step_start|]. eapply nsteps_l; [apply step_respawn|].
    apply nsteps_once. exact (step_record before_record [(1, 2%nat)] 0 1 [] 1 1 eq_refl
      (list_elem_of_here _ _) (le_n 1)). }
  split; [exact Hn|]. split; [reflexivity|].
  apply (exit_code_fresh 5 restarted Hn eq_refl). discriminate.
Defined.
