(* ===== verification/Container.v ===== *)
(** * The container handle ([src/src/core/containers/async_container.rs])

    [ContainerAsync] on Linux, as programs over a [Host]: the wait conditions of
    [src/src/core/wait/], exec, restart with the exchange of the log session,
    stop, removal and [Drop].  The loops that poll run on fuel; what ends them in
    the code is their condition or the time limit they run under, and both are
    modelled.  The state of the waiting threads is [WaitState.v]. *)

From S2P Require Import Prelude Utf8 Ports Errors Env Http HttpDecode Json RegistryAuth Effect Wait.
From S2P Require Import Request DockerApi Wire DockerClient.
From S2P Require LogWait LogLine DockerTar WaitState.

(** Where the log readers of a container read from. *)
Inductive ContainerLogSource :=
| NoLogs
| DockerStream (session : nat).

Record ContainerAsync := mkContainer {
  id : str;
  request : ContainerRequest;
  dropped : bool;
  wait_state : WaitState.WaitState;
  log_source : ContainerLogSource;
  log_consumers : option (list nat);
}.

Record ExecResult := mkExecOutput {
  result_exit_code : option Z;
  stdout : list byte;
  stderr : list byte;
}.

Definition DROP_REMOVE_TIMEOUT : Duration := from_secs 5.

(** [haystack.windows(needle.len()).any(|w| w == needle)] *)
Definition contains_bytes (haystack needle : list byte) : bool :=
  if bool_decide (needle = []) then true else contains_str needle haystack.

(** The entry of an environment list, [None] without an [=]. *)
Definition split_env (s : str) : option (str * str) := split_once "=" s.

Section Container.
Context `{Host} `{JsonLib} `{HttpEncoder} `{Base64}.
Context (env : Environment) (parse_ip : str -> option str).

(** ** Accessors *)

Definition ports (c : ContainerAsync) : M Ports := ports_of c.(id).

Definition get_host_port_ipv4 (c : ContainerAsync) (internal_port : ContainerPort) : M Z :=
  ps ← ports c;
  lift (ok_or (map_to_host_port_ipv4 ps internal_port) (PortNotExposed c.(id) internal_port)).
Definition get_host_port_ipv6 (c : ContainerAsync) (internal_port : ContainerPort) : M Z :=
  ps ← ports c;
  lift (ok_or (map_to_host_port_ipv6 ps internal_port) (PortNotExposed c.(id) internal_port)).

Definition get_host : HostName := Host_parse parse_ip (lit "localhost").
(** [from_str] is [IpAddr::from_str] with the text of its error. *)
Definition get_bridge_ip_address (from_str : str -> result str str) (c : ContainerAsync) : M str :=
  DockerClient.bridge_ip_address from_str c.(id).

(** [container_state]: the snapshot given to an image's callbacks. *)
Definition container_state (c : ContainerAsync) : M ContainerState :=
  snapshot ← DockerClient.container_state c.(id);
  mret (mkContainerState c.(id) get_host snapshot.(snapshot_ports)).

Definition is_running (c : ContainerAsync) : M bool :=
  snapshot ← DockerClient.container_state c.(id); mret snapshot.(running).

Definition log_source_is_none (c : ContainerAsync) : bool :=
  match c.(log_source) with NoLogs => true | DockerStream _ => false end.

Definition logs_terminated_of (c : ContainerAsync) (tr : Trace) : bool :=
  match c.(log_source) with NoLogs => false | DockerStream s => logs_terminated tr s end.

(** The exit code a background wait has recorded, else a look at the container. *)
Definition exit_code (c : ContainerAsync) : M (option Z) :=
  hint ← peek exit_code_hint;
  match hint with
  | Some code => mret (Some code)
  | None => _ ← DockerClient.container_state c.(id); mret None
  end.

(** ** Waiting *)

(** What one round of the log wait sees. *)
Definition log_streams (s : LogLine.LogSource) : list LogLine.LogSource :=
  match s with
  | LogLine.StdOut => [LogLine.StdOut]
  | LogLine.StdErr => [LogLine.StdErr]
  | LogLine.BothStd => [LogLine.StdOut; LogLine.StdErr]
  end.
Definition log_round (c : ContainerAsync) (s : LogWait.LogWaitStrategy) (tr : Trace) : LogWait.Round :=
  LogWait.mkRound
    (match c.(log_source) with
     | NoLogs => (fun _ => Ok []) <$> log_streams s.(LogWait.source)
     | DockerStream session => log_read tr session <$> log_streams s.(LogWait.source)
     end)
    (is_some (exit_code_hint tr) || logs_terminated_of c tr)
    (clock tr).

(** Whether a round read anything; if not, the loop sleeps. *)
Definition progressed (r : LogWait.Round) : bool :=
  existsb (fun x => match x with Ok (_ :: _) => true | _ => false end) r.(LogWait.reads).

Fixpoint log_wait_loop (fuel : nat) (log_round : Trace -> LogWait.Round) (s : LogWait.LogWaitStrategy)
    (st : LogWait.WaitLoop) : M unit :=
  match fuel with
  | O => no_fuel
  | S f =>
      round ← perform EvLogPoll (fun tr => Ok (log_round tr));
      match LogWait.wait_round s round st with
      | LogWait.Done r => lift r
      | LogWait.Continue st =>
          (if progressed round then mret tt else sleep LogWait.POLL_INTERVAL) ;;
          log_wait_loop f log_round s st
      end
  end.
Definition log_wait (fuel : nat) (c : ContainerAsync) (s : LogWait.LogWaitStrategy) : M unit :=
  if bool_decide (s.(LogWait.message) = []) then mret tt
  else log_wait_loop fuel (log_round c s) s (LogWait.WaitLoop_new s).

Fixpoint health_wait (fuel : nat) (c : ContainerAsync) (s : HealthWaitStrategy) (seen_running : bool)
    : M unit :=
  match fuel with
  | O => no_fuel
  | S f =>
      probe ← container_health c.(id);
      let seen_running := probe.(probe_running) || seen_running in
      match probe.(health) with
      | Some Healthy => mret tt
      | Some Unhealthy => fail (WaitContainer (Errors.Unhealthy c.(id)))
      | Some Starting =>
          sleep s.(health_poll_interval) ;; health_wait f c s seen_running
      | None =>
          if seen_running then fail (WaitContainer (HealthCheckNotConfigured c.(id)))
          else sleep s.(health_poll_interval) ;; health_wait f c s seen_running
      end
  end.

(** The verdict on an exit code that was observed. *)
Definition check_exit_code (expected : option Z) (actual : Z) : Result unit :=
  match expected with
  | Some e => if actual =? e then Ok tt
              else Err (WaitContainer (UnexpectedExitCode e (Some actual)))
  | None => Ok tt
  end.

Fixpoint exit_wait (fuel : nat) (c : ContainerAsync) (s : ExitWaitStrategy) : M unit :=
  match fuel with
  | O => no_fuel
  | S f =>
      hint ← peek exit_code_hint;
      match hint with
      | Some actual => lift (check_exit_code s.(expected_code) actual)
      | None =>
          state ← DockerClient.container_state c.(id);
          if negb state.(running) && negb (is_some s.(expected_code)) then mret tt
          else sleep s.(exit_poll_interval) ;; exit_wait f c s
      end
  end.

(** [send_request]: one exchange; a request that runs out of its own time is one
    of the failures [probe] may answer. *)
Definition send_probe (s : HttpWaitStrategy) (host : str) (p : Z) (bytes : list byte)
    : M (result str HttpResponse) :=
  if s.(request_timeout) =? 0 then mret (Err (lit "HTTP request timed out"))
  else perform (EvProbe host p bytes) (fun tr => Ok (probe tr host p bytes)).

Fixpoint http_wait_loop (fuel : nat) (s : HttpWaitStrategy) (matcher : HttpResponse -> bool)
    (host : str) (p : Z) (bytes : list byte) : M unit :=
  match fuel with
  | O => no_fuel
  | S f =>
      response ← send_probe s host p bytes;
      match response with
      | Ok r => if matcher r then mret tt
                else sleep s.(poll_interval) ;; http_wait_loop f s matcher host p bytes
      | Err _ => sleep s.(poll_interval) ;; http_wait_loop f s matcher host p bytes
      end
  end.

Definition http_error (e : HttpWaitError) : Error := WaitContainer (HttpWait e).

(** The host port of a container port: IPv6 for an IPv6 host, else IPv4 and
    IPv6 where that fails. *)
Definition http_host_port (c : ContainerAsync) (container_port : ContainerPort) : M Z :=
  let by_name := r ← attempt (get_host_port_ipv4 c container_port);
                 match r with
                 | Ok p => mret p
                 | Err _ => get_host_port_ipv6 c container_port
                 end in
  match get_host with
  | Addr ip => if contains ":" ip then get_host_port_ipv6 c container_port else by_name
  | Domain _ => by_name
  end.

Definition http_wait (fuel : nat) (c : ContainerAsync) (s : HttpWaitStrategy) : M unit :=
  matcher ← lift (ok_or s.(response_matcher) (http_error NoResponseMatcher));
  container_port ← match s.(port) with
                   | Some p => mret p
                   | None => ps ← ports c;
                             lift (ok_or (first_container_port ps) (http_error NoExposedPortsForHttpWait))
                   end;
  p ← http_host_port c container_port;
  let host := show_Host get_host in
  bytes ← lift (map_err http_error (build_request_bytes s host p));
  http_wait_loop fuel s matcher host p bytes.

(** [WaitFor::wait_until_ready] and [block_until_ready] *)
Definition wait_until_ready (fuel : nat) (c : ContainerAsync) (w : WaitFor) : M unit :=
  match w with
  | Log s => log_wait fuel c s
  | WaitDuration length => sleep length
  | Healthcheck s => health_wait fuel c s false
  | Http s => http_wait fuel c s
  | Exit s => exit_wait fuel c s
  | Nothing => mret tt
  end.
Definition block_until_ready (fuel : nat) (c : ContainerAsync) (ws : list WaitFor) : M unit :=
  for_each (wait_until_ready fuel c) ws.

Definition startup_timeout_of (c : ContainerAsync) : Duration :=
  unwrap_or c.(request).(startup_timeout) DEFAULT_STARTUP_TIMEOUT.

(** The wait under its time limit. *)
Definition ready_within (fuel : nat) (c : ContainerAsync) (d : Duration) (ws : list WaitFor) : M unit :=
  timeout d (WaitContainer (StartupTimeout c.(id) d)) (block_until_ready fuel c ws).

(** ** Exec *)

(** The environment of an exec: the container's, overridden, when the command
    brings variables of its own; else nothing is sent and Docker inherits. *)
Definition exec_env (c : ContainerAsync) (vars : list (str * str)) : M (list str) :=
  match vars with
  | [] => mret []
  | _ => base ← container_env c.(id); mret (fold_env (omap split_env base) vars)
  end.

Definition exec_completed (w : CmdWaitFor) (raw : DockerExecResult) : M unit :=
  match w with
  | StdOutMessage message =>
      if contains_bytes raw.(exec_stdout) message then mret tt
      else fail (other (lit "expected message not found in stdout: " ++ from_utf8_lossy message))
  | StdErrMessage message =>
      if contains_bytes raw.(exec_stderr) message then mret tt
      else fail (other (lit "expected message not found in stderr: " ++ from_utf8_lossy message))
  | CmdExit None => mret tt
  | CmdExit (Some code) =>
      match raw.(exec_exit_code) with
      | Some actual => if actual =? code then mret tt
                       else fail (Errors.Exec (ExitCodeMismatch code actual))
      | None => fail (other (lit "exec exit code is unavailable, cannot verify expected exit code"))
      end
  | CmdDuration length => sleep length
  | CmdNothing => mret tt
  end.

Definition exec (fuel : nat) (c : ContainerAsync) (cmd : ExecCommand) : M ExecResult :=
  if log_source_is_none c && ready_conditions_require_log cmd.(container_ready_conditions) then
    fail (other (lit "log wait requires a log source, but none is available"))
  else
    vars ← exec_env c cmd.(exec_env_vars);
    raw ← DockerClient.exec c.(id) cmd.(exec_cmd) vars;
    ready_within fuel c (startup_timeout_of c) cmd.(container_ready_conditions) ;;
    exec_completed cmd.(cmd_ready_condition) raw ;;
    mret (mkExecOutput raw.(exec_exit_code) raw.(exec_stdout) raw.(exec_stderr)).

(** ** Stop and removal *)

Definition stop_log_delivery (c : ContainerAsync) : M unit :=
  match c.(log_source) with
  | DockerStream s => note (EvStopLogs s)
  | NoLogs => mret tt
  end.

Definition stop_with_timeout (c : ContainerAsync) (timeout_seconds : option Z) : M unit :=
  stop_log_delivery c ;; DockerClient.stop c.(id) timeout_seconds.
Definition stop (c : ContainerAsync) : M unit := stop_with_timeout c None.
Definition pause (c : ContainerAsync) : M unit := DockerClient.pause c.(id).
Definition unpause (c : ContainerAsync) : M unit := DockerClient.unpause c.(id).

Definition set_dropped (c : ContainerAsync) : ContainerAsync :=
  mkContainer c.(id) c.(request) true c.(wait_state) c.(log_source) c.(log_consumers).

(** The poll for the log threads before a removal outside the runtime. *)
Fixpoint await_logs (n : nat) (s : nat) : M unit :=
  match n with
  | O => mret tt
  | S n => is_done ← peek (fun tr => logs_all_done tr s);
           if is_done : bool then mret tt else note (EvSleep (from_millis 50)) ;; await_logs n s
  end.

(** The removal of [Drop::drop], which nothing but a removal or [keep] prevents. *)
Definition drop_remove (c : ContainerAsync) : M unit :=
  if c.(dropped) then mret tt
  else match command env with
       | Remove => _ ← attempt (blocking (DockerClient.remove_blocking c.(id) true)); mret tt
       | Keep => mret tt
       end.

(** [Drop::drop].  Inside the runtime the removal runs on a thread of its own
    and is waited for [DROP_REMOVE_TIMEOUT] at most; outside it runs here. *)
Definition drop (in_runtime : bool) (c : ContainerAsync) : M unit :=
  stop_log_delivery c ;;
  match c.(log_source) with
  | DockerStream s => if in_runtime then mret tt else await_logs 20 s
  | NoLogs => mret tt
  end ;;
  drop_remove c.

(** [rm] and [rm_blocking] own the handle, so it is dropped when they return and when
    their caller is dropped; [dropped] is set only by a removal that succeeded. *)
Definition rm_with (remove : str -> bool -> M unit) (in_runtime : bool) (c : ContainerAsync) : M unit :=
  stop_log_delivery c ;;
  r ← dropping (drop in_runtime c) (attempt (remove c.(id) true));
  match r with
  | Ok _ => drop in_runtime (set_dropped c)
  | Err e => drop in_runtime c ;; fail e
  end.
Definition rm : bool -> ContainerAsync -> M unit := rm_with DockerClient.remove.
Definition rm_blocking : bool -> ContainerAsync -> M unit :=
  rm_with (fun id force => blocking (DockerClient.remove_blocking id force)).

(** ** Restart *)

Definition spawn_consumers (c : option (list nat)) (session : nat) : M unit :=
  match c with Some _ => note (EvConsumers session) | None => mret tt end.

Definition set_log_source (c : ContainerAsync) (s : ContainerLogSource) : ContainerAsync :=
  mkContainer c.(id) c.(request) c.(dropped) c.(wait_state) s c.(log_consumers).

(** The old session stops before the container starts; when the new one cannot
    be opened, the container is stopped again. *)
Definition refresh_log_streams (c : ContainerAsync) : M ContainerAsync :=
  stop_log_delivery c ;;
  start_container c.(id) ;;
  match c.(log_source) with
  | NoLogs => mret c
  | DockerStream _ =>
      r ← attempt (spawn_log_session c.(id));
      match r with
      | Ok session =>
          spawn_consumers c.(log_consumers) session ;; mret (set_log_source c (DockerStream session))
      | Err e => _ ← attempt (DockerClient.stop c.(id) (Some 0)); fail e
      end
  end.

(** The thread that [EvWaiter] starts. *)
Definition spawn_exit_code_waiter (id : str) (generation : Z) : M (WaitState.WaitState -> WaitState.WaitState) :=
  WaitState.exit_code_waiter (DockerClient.wait_blocking id) generation.

Definition reset_wait_state_and_respawn (c : ContainerAsync) : M ContainerAsync :=
  let '(g, ws) := WaitState.bump c.(wait_state) in
  note (EvWaiter g) ;;
  mret (mkContainer c.(id) c.(request) c.(dropped) ws c.(log_source) c.(log_consumers)).

Definition restart (c : ContainerAsync) : M ContainerAsync :=
  state ← DockerClient.container_state c.(id);
  if negb state.(running) then
    c ← refresh_log_streams c; reset_wait_state_and_respawn c
  else mret c.

(** [start]: the handle afterwards and what the call returns; an error of the
    restart leaves the handle as it was. *)
Definition start (fuel : nat) (c : ContainerAsync) : M (ContainerAsync * Result unit) :=
  c ← restart c;
  r ← attempt (state ← container_state c;
               cmds ← lift (exec_after_start c.(request) state);
               for_each (fun cmd => _ ← exec fuel c cmd; mret tt) cmds);
  mret (c, r).

(** ** Copying out *)

Definition copy_from_error (e : CopyFromContainerError) : Error := Other (BoxCopyFrom e).

Definition copy_file_from {A} (c : ContainerAsync) (source : str)
    (copy_from_reader : list byte -> result CopyFromContainerError A) : M A :=
  if bool_decide (source = []) || negb (starts_with (lit "/") source) then
    fail (other (lit "copy_file_from path must be absolute"))
  else
    tar ← copy_from c.(id) source;
    content ← lift (map_err copy_from_error (DockerTar.parse_first_regular_file_from_ustar tar));
    lift (map_err copy_from_error (copy_from_reader content)).
End Container.

(** ** What a wait has seen when it ends *)

Section Observed.
Context `{Host} `{JsonLib} `{HttpEncoder} `{Base64}.
Context (env : Environment) (parse_ip : str -> option str).

Definition inspect_request (id : str) : HttpRequest := get_request (container_path id ++ lit "/json").

(** The last event is an inspection, and [v] what it answered. *)
Definition inspect_said (id : str) (tr : Trace) (v : Value) : Prop :=
  exists before resp body, tr = before ++ [EvRequest (inspect_request id) Unlimited] /\
    send before (inspect_request id) Unlimited = Ok resp /\
    resp.(resp_status) < 400 /\ resp.(resp_body) = Some body /\ parse_body body = Ok v.

(** A wait for [w] that ended well between two traces saw its condition hold. *)
Definition observed (c : ContainerAsync) (w : WaitFor) (tr tr' : Trace) : Prop :=
  match w with
  | Nothing => tr' = tr
  | WaitDuration d => tr' = tr ++ [EvSleep d]
  | Healthcheck _ => exists v probe, inspect_said c.(id) tr' v /\ health_of v = Ok probe /\
      probe.(health) = Some Healthy
  | Exit s =>
      (exists code, exit_code_hint tr' = Some code /\
         (s.(expected_code) = None \/ s.(expected_code) = Some code)) \/
      (s.(expected_code) = None /\ exists v snapshot, inspect_said c.(id) tr' v /\
         snapshot_of v = Ok snapshot /\ snapshot.(running) = false)
  | Http s => exists matcher before host p bytes r, s.(response_matcher) = Some matcher /\
      build_request_bytes s host p = Ok bytes /\ tr' = before ++ [EvProbe host p bytes] /\
      probe before host p bytes = Ok r /\ matcher r = true
  | Log s => exists polls, LogWait.wait_until_ready s (log_round c s <$> polls) = LogWait.Done (Ok tt) /\
      Forall (fun t => tr `prefix_of` t /\ t ++ [EvLogPoll] `prefix_of` tr') polls
  end.

(** The conditions one after the other. *)
Inductive observed_all (c : ContainerAsync) : list WaitFor -> Trace -> Trace -> Prop :=
| observed_nil tr : observed_all c [] tr tr
| observed_cons w ws tr tr1 tr' :
    tr `prefix_of` tr1 -> observed c w tr tr1 -> observed_all c ws tr1 tr' ->
    observed_all c (w :: ws) tr tr'.

(** What an inspection's answer means. *)
Definition inspect_answer (id : str) (r : Response) : Result Value :=
  if r.(resp_status) =? 404 then Err (Client (ContainerNotFound id))
  else if 400 <=? r.(resp_status) then
    Err (Client (ClientOther (status_text (lit "failed to inspect container") r)))
  else
    body ← ok_or r.(resp_body) (Client (ClientOther (lit "empty inspect body")));
    parse_body body.

(** An inspection is one request, whose answer is lost when its caller is dropped. *)
Lemma inspect_json_eq id sc tr :
  inspect_json id sc tr =
    if cut sc tr (EvRequest (inspect_request id) Unlimited)
    then (Cancelled, cut_at sc tr (EvRequest (inspect_request id) Unlimited))
    else (Done (r ← send tr (inspect_request id) Unlimited; inspect_answer id r),
          tr ++ [EvRequest (inspect_request id) Unlimited]).
Proof.
  unfold inspect_json, body_or, client_other, DockerClient.request, request_with_body_limit, send_request,
    perform. unfold mbind at 1, M_bind.
  unfold inspect_request, get_request. cbn [fmap option_fmap option_map].
  destruct (cut sc tr _); [done|].
  destruct (send tr _ _) as [r|e]; [|done]. cbn [mbind result_bind]. unfold inspect_answer.
  destruct (resp_status r =? 404); [done|]. destruct (400 <=? resp_status r); [done|].
  by destruct (resp_body r) as [body|].
Qed.

Lemma inspect_json_said id sc tr v tr' :
  inspect_json id sc tr = (Done (Ok v), tr') -> inspect_said id tr' v.
Proof.
  rewrite inspect_json_eq. destruct (cut sc tr _); [done|].
  destruct (send tr _ _) as [r|] eqn:Es; [|done]. unfold inspect_answer. cbn [mbind result_bind].
  destruct (resp_status r =? 404); [done|]. destruct (Z.leb_spec 400 (resp_status r)); [done|].
  destruct (resp_body r) as [body|] eqn:Eb; [|done]. cbn [ok_or mbind result_bind].
  intros [= Ev <-]. by exists tr, r, body.
Qed.

(** The loops add to the trace, and end in time. *)
#[export] Instance log_wait_loop_extends f c s st : Extends (log_wait_loop f c s st).
Proof. revert st. induction f; intros st; cbn [log_wait_loop]; apply _. Qed.
#[export] Instance log_wait_loop_timely f c s st : Timely (log_wait_loop f c s st).
Proof. revert st. induction f; intros st; cbn [log_wait_loop]; apply _. Qed.
#[export] Instance log_wait_loop_paced f c s st : Paced f (log_wait_loop f c s st).
Proof. revert st. induction f; intros st; cbn [log_wait_loop]; apply _. Qed.
#[export] Instance health_wait_extends f c s seen : Extends (health_wait f c s seen).
Proof. revert seen. induction f; intros seen; cbn [health_wait]; apply _. Qed.
#[export] Instance health_wait_timely f c s seen : Timely (health_wait f c s seen).
Proof. revert seen. induction f; intros seen; cbn [health_wait]; apply _. Qed.
#[export] Instance health_wait_paced f c s seen : Paced f (health_wait f c s seen).
Proof. revert seen. induction f; intros seen; cbn [health_wait]; apply _. Qed.
#[export] Instance exit_wait_extends f c s : Extends (exit_wait f c s).
Proof. induction f; cbn [exit_wait]; apply _. Qed.
#[export] Instance exit_wait_timely f c s : Timely (exit_wait f c s).
Proof. induction f; cbn [exit_wait]; apply _. Qed.
#[export] Instance exit_wait_paced f c s : Paced f (exit_wait f c s).
Proof. induction f; cbn [exit_wait]; apply _. Qed.
#[export] Instance http_wait_loop_extends f s m h p b : Extends (http_wait_loop f s m h p b).
Proof. induction f; cbn [http_wait_loop]; unfold send_probe; apply _. Qed.
#[export] Instance http_wait_loop_timely f s m h p b : Timely (http_wait_loop f s m h p b).
Proof. induction f; cbn [http_wait_loop]; unfold send_probe; apply _. Qed.
#[export] Instance http_wait_loop_paced f s m h p b : Paced f (http_wait_loop f s m h p b).
Proof. induction f; cbn [http_wait_loop]; unfold send_probe; apply _. Qed.
#[export] Instance http_host_port_extends c p : Extends (http_host_port parse_ip c p).
Proof. unfold http_host_port, get_host_port_ipv4, get_host_port_ipv6, ports. cbv zeta. apply _. Qed.
#[export] Instance http_host_port_timely c p : Timely (http_host_port parse_ip c p).
Proof. unfold http_host_port, get_host_port_ipv4, get_host_port_ipv6, ports. cbv zeta. apply _. Qed.
#[export] Instance http_host_port_paced n c p : Paced n (http_host_port parse_ip c p).
Proof. unfold http_host_port, get_host_port_ipv4, get_host_port_ipv6, ports. cbv zeta. apply _. Qed.
#[export] Instance wait_until_ready_extends f c w : Extends (wait_until_ready parse_ip f c w).
Proof. unfold wait_until_ready, log_wait, http_wait, ports. cbv zeta. apply _. Qed.
#[export] Instance wait_until_ready_timely f c w : Timely (wait_until_ready parse_ip f c w).
Proof. unfold wait_until_ready, log_wait, http_wait, ports. cbv zeta. apply _. Qed.
#[export] Instance wait_until_ready_paced f c w : Paced f (wait_until_ready parse_ip f c w).
Proof. unfold wait_until_ready, log_wait, http_wait, ports. cbv zeta. apply _. Qed.

(** Waiting, exec and the rest send well-formed requests and delete nothing. *)
Context (auth : str -> bool).

#[export] Instance log_wait_loop_orderly f c s st : Orderly auth (log_wait_loop f c s st).
Proof. revert st. induction f; intros st; cbn [log_wait_loop]; apply _. Qed.
#[export] Instance health_wait_orderly f c s seen : Orderly auth (health_wait f c s seen).
Proof. revert seen. induction f; intros seen; cbn [health_wait]; apply _. Qed.
#[export] Instance exit_wait_orderly f c s : Orderly auth (exit_wait f c s).
Proof. induction f; cbn [exit_wait]; apply _. Qed.
#[export] Instance http_wait_loop_orderly f s m h p b : Orderly auth (http_wait_loop f s m h p b).
Proof. induction f; cbn [http_wait_loop]; unfold send_probe; apply _. Qed.
#[export] Instance wait_until_ready_orderly f c w : Orderly auth (wait_until_ready parse_ip f c w).
Proof.
  unfold wait_until_ready, log_wait, http_wait, http_host_port, get_host_port_ipv4,
    get_host_port_ipv6, ports. cbv zeta. apply _.
Qed.
#[export] Instance ready_within_orderly f c d ws : Orderly auth (ready_within parse_ip f c d ws).
Proof. unfold ready_within, block_until_ready. apply _. Qed.
#[export] Instance ready_within_timely f c d ws : Timely (ready_within parse_ip f c d ws).
Proof. unfold ready_within. apply _. Qed.
#[export] Instance exec_orderly f c cmd : Orderly auth (exec parse_ip f c cmd).
Proof. unfold exec, exec_env, exec_completed. apply _. Qed.
#[export] Instance exec_timely f c cmd : Timely (exec parse_ip f c cmd).
Proof. unfold exec, exec_env, exec_completed. apply _. Qed.
#[export] Instance handle_state_orderly c : Orderly auth (container_state parse_ip c).
Proof. unfold container_state. apply _. Qed.
#[export] Instance handle_state_timely c : Timely (container_state parse_ip c).
Proof. unfold container_state. apply _. Qed.
#[export] Instance ports_orderly c : Orderly auth (ports c).
Proof. unfold ports. apply _. Qed.
#[export] Instance exit_code_orderly c : Orderly auth (exit_code c).
Proof. unfold exit_code. apply _. Qed.
#[export] Instance restart_orderly c : Orderly auth (restart c).
Proof.
  unfold restart, refresh_log_streams, reset_wait_state_and_respawn, stop_log_delivery, spawn_consumers. apply _.
Qed.
#[export] Instance handle_start_orderly f c : Orderly auth (start parse_ip f c).
Proof. unfold start. apply _. Qed.
#[export] Instance copy_file_from_orderly {A} c source f : Orderly auth (copy_file_from (A := A) c source f).
Proof. unfold copy_file_from. apply _. Qed.

Lemma container_state_said id sc tr snapshot tr' :
  DockerClient.container_state id sc tr = (Done (Ok snapshot), tr') ->
  exists v, inspect_said id tr' v /\ snapshot_of v = Ok snapshot.
Proof.
  unfold DockerClient.container_state. intros E. run_ok E. exists x.
  split; [by eapply inspect_json_said | done].
Qed.

Lemma container_health_said id sc tr probe tr' :
  container_health id sc tr = (Done (Ok probe), tr') ->
  exists v, inspect_said id tr' v /\ health_of v = Ok probe.
Proof.
  unfold container_health. intros E. run_ok E. exists x.
  split; [by eapply inspect_json_said | done].
Qed.

Lemma health_wait_observed fuel c s seen sc tr tr' :
  health_wait fuel c s seen sc tr = (Done (Ok tt), tr') ->
  exists v probe, inspect_said c.(id) tr' v /\ health_of v = Ok probe /\ probe.(health) = Some Healthy.
Proof.
  revert seen tr. induction fuel as [|f IH]; intros seen tr; cbn [health_wait]; [done|].
  intros E. apply bind_ok in E as (probe & tr1 & Ep & E).
  apply container_health_said in Ep as (v & Hv & Hh).
  destruct (health probe) as [[]|] eqn:Ehp; try done.
  - run_ok E. by eapply IH.
  - run_ok E. exists v, probe. by split_and!.
  - destruct (probe_running probe || seen); [done|]. run_ok E. by eapply IH.
Qed.

Lemma exit_wait_observed fuel c s sc tr tr' :
  exit_wait fuel c s sc tr = (Done (Ok tt), tr') -> observed c (Exit s) tr tr'.
Proof.
  unfold observed. revert tr. induction fuel as [|f IH]; intros tr; cbn [exit_wait]; [done|].
  intros E. apply bind_ok in E as (hint & tr1 & Ep & E). apply peek_ok in Ep as [-> ->].
  destruct (exit_code_hint tr) as [actual|] eqn:Eh.
  - apply lift_ok in E as [E ->]. left. exists actual. split; [done|].
    unfold check_exit_code in E. destruct (expected_code s) as [e|]; [|by left].
    destruct (Z.eqb_spec actual e); [right; by subst | done].
  - apply bind_ok in E as (snapshot & tr1 & Es & E).
    apply container_state_said in Es as (v & Hv & Hs).
    destruct (negb (running snapshot) && negb (is_some (expected_code s))) eqn:Eb.
    + apply mret_ok in E as [_ ->]. apply andb_true_iff in Eb as [Hr He]. right.
      split; [by destruct (expected_code s)|]. exists v, snapshot. split_and!; [done|done|].
      by destruct (running snapshot).
    + run_ok E. by eapply IH.
Qed.

Lemma http_wait_loop_observed fuel s matcher host p bytes sc tr tr' :
  http_wait_loop fuel s matcher host p bytes sc tr = (Done (Ok tt), tr') ->
  exists before r, tr' = before ++ [EvProbe host p bytes] /\ probe before host p bytes = Ok r /\
    matcher r = true.
Proof.
  revert tr. induction fuel as [|f IH]; intros tr; cbn [http_wait_loop]; [done|].
  intros E. apply bind_ok in E as (response & tr1 & Ep & E). unfold send_probe in Ep.
  destruct (request_timeout s =? 0).
  - apply mret_ok in Ep as [<- ->]. run_ok E. by eapply IH.
  - apply perform_ok in Ep as (_ & Ep & ->). apply (inj Ok) in Ep.
    destruct response as [r|e]; [destruct (matcher r) eqn:Em|].
    + apply mret_ok in E as [_ ->]. by exists tr, r.
    + run_ok E. by eapply IH.
    + run_ok E. by eapply IH.
Qed.

Lemma log_wait_loop_observed fuel r s st sc tr tr' :
  log_wait_loop fuel r s st sc tr = (Done (Ok tt), tr') ->
  exists polls, LogWait.wait_rounds s (r <$> polls) st = LogWait.Done (Ok tt) /\
    Forall (fun t => tr `prefix_of` t /\ t ++ [EvLogPoll] `prefix_of` tr') polls.
Proof.
  revert st tr. induction fuel as [|f IH]; intros st tr; cbn [log_wait_loop]; [done|].
  intros E. apply bind_ok in E as (round & tr1 & Ep & E).
  apply perform_ok in Ep as (_ & Ep & ->). apply (inj Ok) in Ep. subst round.
  destruct (LogWait.wait_round s (r tr) st) as [st'|res] eqn:Ew.
  - apply bind_ok in E as ([] & tr2 & Es & E).
    assert ((tr ++ [EvLogPoll]) `prefix_of` tr2) as Hp.
    { destruct (progressed (r tr)).
      - apply mret_ok in Es as [_ ->]. done.
      - apply perform_ok in Es as (_ & _ & ->). by apply prefix_app_r. }
    assert (tr2 `prefix_of` tr') as Hp'.
    { pose proof (extends (m := log_wait_loop f r s st') sc tr2) as He. by rewrite E in He. }
    destruct (IH _ _ E) as (polls & Hr & Hf). exists (tr :: polls). split.
    + cbn. by rewrite Ew.
    + constructor.
      * split; [done|]. by etrans.
      * eapply Forall_impl; [exact Hf|]. intros t [Ht ?]. split; [|done].
        etrans; [|exact Ht]. etrans; [|exact Hp]. by apply prefix_app_r.
  - apply lift_ok in E as [-> ->]. exists [tr]. cbn. rewrite Ew. split; [done|].
    constructor; [done | constructor].
Qed.
Lemma wait_until_ready_observed fuel c w sc tr tr' :
  wait_until_ready parse_ip fuel c w sc tr = (Done (Ok tt), tr') -> observed c w tr tr'.
Proof.
  destruct w as [|s|d|s|s|s]; cbn [wait_until_ready].
  - intros E. by apply mret_ok in E as [_ ->].
  - unfold log_wait. intros E. cbn [observed]. unfold LogWait.wait_until_ready.
    case_bool_decide; [by exists []|]. by eapply log_wait_loop_observed.
  - intros E. by apply perform_ok in E as (_ & _ & ->).
  - intros E. by eapply health_wait_observed.
  - unfold http_wait. intros E. apply bind_ok in E as (matcher & tr1 & Em & E).
    apply lift_ok in Em as [Em ->]. apply ok_or_Ok in Em.
    apply bind_ok in E as (cp & tr1 & _ & E). apply bind_ok in E as (p & tr2 & _ & E). cbv zeta in E.
    apply bind_ok in E as (bytes & tr3 & Eb & E). apply lift_ok in Eb as [Eb ->].
    apply http_wait_loop_observed in E as (before & r & -> & Hp & Hr).
    exists matcher, before, (show_Host (get_host parse_ip)), p, bytes, r. split_and!; try done.
    by destruct (build_request_bytes s _ p); [apply (inj Ok) in Eb; subst|].
  - intros E. by eapply exit_wait_observed.
Qed.

Lemma block_until_ready_observed fuel c ws sc tr tr' :
  block_until_ready parse_ip fuel c ws sc tr = (Done (Ok tt), tr') -> observed_all c ws tr tr'.
Proof.
  revert tr. induction ws as [|w ws IH]; intros tr E; cbn in E.
  - apply mret_ok in E as [_ ->]. constructor.
  - apply bind_ok in E as ([] & tr1 & Ew & E). econstructor; [| |by apply IH].
    + pose proof (extends (m := wait_until_ready parse_ip fuel c w) sc tr) as Hp. by rewrite Ew in Hp.
    + by eapply wait_until_ready_observed.
Qed.
End Observed.

(** C13: Waiting for readiness under a time limit [d], against any daemon: a
    success has seen every condition hold, one after the other and in order (the
    messages in the logs, the health check, the accepted response, the exit and
    its code); the timeout error is reported only when [d] has run out since the
    wait began, or is an error of a condition itself; and the wait is never
    cancelled from inside, only with a caller that is dropped before [d] has run out, nor
    does it run out of fuel unless as many events fit in the time as it has fuel. *)
Theorem ready_within_spec `{Host} `{JsonLib} `{HttpEncoder} `{Base64} parse_ip fuel c d ws sc tr :
  match ready_within parse_ip fuel c d ws sc tr with
  | (Done (Ok _), tr') => observed_all c ws tr tr'
  | (Done (Err e), tr') => 
      (e = WaitContainer (StartupTimeout c.(id) d) /\ elapsed tr d tr' = true) \/
      block_until_ready parse_ip fuel c ws (within sc tr d) tr = (Done (Err e), tr')
  | (Cancelled, tr') => expired sc tr' = true /\ elapsed tr d tr' = false
  | (OutOfFuel, _) => fuel = 0%nat \/ exists mid, tr `prefix_of` mid /\
      (length tr + fuel <= S (length mid))%nat /\ elapsed tr d mid = false
  end.
Proof.
  unfold ready_within, timeout.
  destruct (block_until_ready parse_ip fuel c ws (within sc tr d) tr) as [[[[]|e]| |] tr'] eqn:E; try done.
  - by eapply block_until_ready_observed.
  - by right.
  - assert (Timely (block_until_ready parse_ip fuel c ws)) as Ht by (unfold block_until_ready; apply _).
    apply Ht in E. cbn in E. destruct (elapsed tr d tr') eqn:Ee; [by left | done].
  - assert (Paced fuel (block_until_ready parse_ip fuel c ws)) as Hp by (unfold block_until_ready; apply _).
    destruct (Hp (within sc tr d) tr tr' E) as [?|(mid & ? & ? & [? _]%orb_false_iff)]; [by left|].
    right. by exists mid.
Qed.

(** ** Restart *)

Section Restart.
Context `{Host} `{JsonLib}.

Definition stop_events (c : ContainerAsync) : Trace :=
  match c.(log_source) with DockerStream s => [EvStopLogs s] | NoLogs => [] end.
Definition consumer_events (c : ContainerAsync) (session : nat) : Trace :=
  match c.(log_consumers) with Some _ => [EvConsumers session] | None => [] end.

(** What opening the logs again adds, and the source that results. *)
Definition reopened (c : ContainerAsync) (tr : Trace) : result Error (Trace * ContainerLogSource) :=
  match c.(log_source) with
  | NoLogs => Ok ([], NoLogs)
  | DockerStream _ =>
      session ← open_logs tr c.(id);
      Ok ([EvOpenLogs c.(id)] ++ consumer_events c session, DockerStream session)
  end.

Lemma stop_log_delivery_eq c sc tr :
  stop_log_delivery c sc tr = (Done (Ok tt), tr ++ stop_events c).
Proof. unfold stop_log_delivery, stop_events. destruct (log_source c); [by rewrite app_nil_r | done]. Qed.

Lemma spawn_consumers_eq c session sc tr :
  spawn_consumers c.(log_consumers) session sc tr = (Done (Ok tt), tr ++ consumer_events c session).
Proof. unfold spawn_consumers, consumer_events. destruct (log_consumers c); [done | by rewrite app_nil_r]. Qed.

(** The state of the handle after a restart that worked. *)
Definition restarted (c : ContainerAsync) (source : ContainerLogSource) : ContainerAsync :=
  mkContainer c.(id) c.(request) c.(dropped) (WaitState.bump c.(wait_state)).2 source c.(log_consumers).

Lemma refresh_log_streams_spec c sc tr
    (sent := tr ++ stop_events c ++ [EvRequest (start_request c.(id)) Unlimited]) :
  match refresh_log_streams c sc tr with
  | (Done (Ok c'), tr') => exists events source, reopened c sent = Ok (events, source) /\
      tr' = sent ++ events /\ c' = set_log_source c source
  | (Done (Err e), tr') => tr' = sent \/
      (reopened c sent = Err e /\
       tr' = sent ++ [EvOpenLogs c.(id); EvRequest (stop_request c.(id) 0) Unlimited])
  | (Cancelled, _) => is_some sc = true
  | (OutOfFuel, _) => False
  end.
Proof.
  unfold refresh_log_streams. unfold mbind at 1. unfold M_bind at 1. rewrite stop_log_delivery_eq.
  unfold mbind at 1. unfold M_bind at 1. rewrite start_one.
  destruct (cut sc _ _) eqn:Ee; [by destruct sc|].
  rewrite <- app_assoc. fold sent. destruct (classify _ _ _) as [[]|e]; [|by left].
  unfold reopened. destruct (log_source c) as [|s] eqn:Es.
  - exists [], NoLogs. split; [done|]. split; [by rewrite app_nil_r|].
    unfold set_log_source. rewrite <- Es. by destruct c.
  - unfold mbind at 1. unfold M_bind at 1. unfold attempt at 1, spawn_log_session, perform.
    destruct (cut sc sent _) eqn:Ee'; [by destruct sc|].
    destruct (open_logs sent (id c)) as [session|e]; cbn [mbind result_bind].
    + unfold mbind at 1. unfold M_bind at 1. rewrite spawn_consumers_eq.
      eexists _, _. split; [done|]. by rewrite app_assoc.
    + unfold mbind at 1. unfold M_bind at 1. unfold attempt. rewrite stop_one.
      destruct (cut sc (sent ++ _) _) eqn:Ee''; [by destruct sc|].
      right. split; [done|]. by rewrite <- app_assoc.
Qed.

(** Every way an inspection of the state can end. *)
Lemma container_state_cases id sc tr (inspected := tr ++ [EvRequest (inspect_request id) Unlimited]) :
  match DockerClient.container_state id sc tr with
  | (Done (Ok snapshot), tr') => tr' = inspected /\
      exists v, inspect_said id inspected v /\ snapshot_of v = Ok snapshot
  | (Done (Err _), tr') => tr' = inspected
  | (Cancelled, _) => is_some sc = true
  | (OutOfFuel, _) => False
  end.
Proof.
  unfold DockerClient.container_state. unfold mbind, M_bind.
  pose proof (inspect_json_said id sc tr) as Hs. rewrite inspect_json_eq in *.
  destruct (cut sc tr _) eqn:Ee; [by destruct sc|]. fold inspected in Hs |- *.
  destruct (r ← _; _) as [v|e]; [|done]. unfold lift.
  destruct (snapshot_of v) eqn:Ev; [|done]. split; [done|]. exists v. split; [by apply Hs | done].
Qed.
End Restart.

(** C21: Restarting a handle, against any daemon.  A running container is left
    alone.  Otherwise the old log session is stopped before the container is
    started, the new one is opened after, and only then, with the generation
    moved on, is a waiter started, so that it cannot see the exit code of the
    old run.  When the new log session cannot be opened the container is stopped
    again with no grace and the error is returned; every failure leaves the
    handle as it was. *)
Theorem restart_spec `{Host} `{JsonLib} (c : ContainerAsync) sc tr
    (inspected := tr ++ [EvRequest (inspect_request c.(id)) Unlimited])
    (sent := inspected ++ stop_events c ++ [EvRequest (start_request c.(id)) Unlimited]) :
  match restart c sc tr with
  | (Done (Ok c'), tr') =>
      (exists v snapshot, inspect_said c.(id) inspected v /\ snapshot_of v = Ok snapshot /\
         if snapshot.(running) : bool then c' = c /\ tr' = inspected
         else exists events source, reopened c sent = Ok (events, source) /\ c' = restarted c source /\
                tr' = sent ++ events ++ [EvWaiter (c'.(wait_state)).(WaitState.generation)])
  | (Done (Err e), tr') => tr' = inspected \/ tr' = sent \/
      (reopened c sent = Err e /\
       tr' = sent ++ [EvOpenLogs c.(id); EvRequest (stop_request c.(id) 0) Unlimited])
  | (Cancelled, _) => is_some sc = true
  | (OutOfFuel, _) => False
  end.
Proof.
  unfold restart. unfold mbind at 1, M_bind at 1.
  pose proof (container_state_cases c.(id) sc tr) as Hc.
  destruct (DockerClient.container_state c.(id) sc tr) as [[[snapshot|e]| |] tr1]; [|by left|done|done].
  destruct Hc as [-> (v & Hv & Hs)]. fold inspected in Hv |- *.
  destruct (running snapshot) eqn:Er; cbn [negb].
  { exists v, snapshot. rewrite Er. by split_and!. }
  unfold mbind, M_bind. pose proof (refresh_log_streams_spec c sc inspected) as Hr. cbv zeta in Hr.
  fold sent in Hr.
  destruct (refresh_log_streams c sc inspected) as [[[c'|e]| |] tr2]; [|by right|done|done].
  destruct Hr as (events & source & Hr & -> & ->).
  exists v, snapshot. rewrite Er. split_and!; [done|done|].
  exists events, source. split_and!; [done|done|]. cbn. by rewrite <- app_assoc.
Qed.

(** ** Removal *)

Section Removal.
Context `{Host} `{JsonLib}.
Context (env : Environment).

Definition remove_event (c : ContainerAsync) : Event := EvRequest (remove_request c.(id) true) Unlimited.

(** What dropping the handle removes. *)
Definition drop_removal (c : ContainerAsync) : Trace :=
  if c.(dropped) then [] else match command env with Remove => [remove_event c] | Keep => [] end.

Definition log_sleeps (k : nat) : Trace := replicate k (EvSleep (from_millis 50)).

Lemma await_logs_eq n s sc tr :
  exists k, (k <= n)%nat /\ await_logs n s sc tr = (Done (Ok tt), tr ++ log_sleeps k).
Proof.
  revert tr. induction n as [|n IH]; intros tr.
  - exists 0%nat. split; [lia|]. cbn. by rewrite app_nil_r.
  - cbn [await_logs]. unfold mbind, M_bind, peek. destruct (logs_all_done tr s).
    + exists 0%nat. split; [lia|]. cbn. by rewrite app_nil_r.
    + unfold note. destruct (IH (tr ++ [EvSleep (from_millis 50)])) as (k & Hk & E).
      exists (S k). split; [lia|]. rewrite E. cbn. by rewrite <- app_assoc.
Qed.

Lemma drop_remove_eq c sc tr : drop_remove env c sc tr = (Done (Ok tt), tr ++ drop_removal c).
Proof.
  unfold drop_remove, drop_removal. destruct (dropped c); [by rewrite app_nil_r|].
  destruct (command env); [|by rewrite app_nil_r].
  unfold mbind, M_bind, attempt, blocking. by rewrite remove_blocking_one.
Qed.

Lemma drop_eq in_runtime c sc tr :
  exists k, (k <= if in_runtime : bool then 0 else 20)%nat /\
    drop env in_runtime c sc tr =
      (Done (Ok tt), tr ++ stop_events c ++ log_sleeps k ++ drop_removal c).
Proof.
  unfold drop. unfold mbind at 1, M_bind at 1. rewrite stop_log_delivery_eq.
  destruct (log_source c) as [|s] eqn:Es; [|destruct in_runtime].
  - exists 0%nat. split; [destruct in_runtime; lia|].
    unfold mbind, M_bind, mret, M_ret. rewrite drop_remove_eq. by rewrite <- app_assoc.
  - exists 0%nat. split; [lia|].
    unfold mbind, M_bind, mret, M_ret. rewrite drop_remove_eq. by rewrite <- app_assoc.
  - destruct (await_logs_eq 20 s sc (tr ++ stop_events c)) as (k & Hk & E).
    exists k. split; [done|]. unfold mbind, M_bind. rewrite E, drop_remove_eq. by rewrite <- !app_assoc.
Qed.

(** The answer to the removal that an explicit [rm] sends at [tr]. *)
Definition removal_answer (c : ContainerAsync) (tr : Trace) : Result unit :=
  classify not_found (lit "failed to remove container") (send tr (remove_request c.(id) true) Unlimited).

(** An explicit removal: one request, then the drop of the handle it owns. *)
Lemma rm_with_eq remove in_runtime c sc tr (stopped := tr ++ stop_events c) :
  remove c.(id) true sc stopped = (Done (removal_answer c stopped), stopped ++ [remove_event c]) ->
  exists k, (k <= if in_runtime : bool then 0 else 20)%nat /\
    rm_with env remove in_runtime c sc tr =
      (Done (removal_answer c stopped),
       stopped ++ [remove_event c] ++ stop_events c ++ log_sleeps k ++
         match removal_answer c stopped with Ok _ => [] | Err _ => drop_removal c end).
Proof.
  intros E. unfold rm_with. unfold mbind at 1, M_bind at 1. rewrite stop_log_delivery_eq. fold stopped.
  unfold mbind at 1, M_bind at 1. unfold dropping, attempt. rewrite E.
  destruct (removal_answer c stopped) as [[]|e].
  - destruct (drop_eq in_runtime (set_dropped c) sc (stopped ++ [remove_event c])) as (k & Hk & ->).
    exists k. split; [done|]. cbn. by rewrite <- !app_assoc.
  - destruct (drop_eq in_runtime c sc (stopped ++ [remove_event c])) as (k & Hk & Ed).
    exists k. split; [done|]. unfold mbind, M_bind. rewrite Ed. cbn. by rewrite <- !app_assoc.
Qed.

(** The two removals differ in the client they call only. *)
Lemma rm_blocking_rm in_runtime c tr :
  rm_blocking env in_runtime c None tr = rm env in_runtime c None tr.
Proof.
  unfold rm_blocking, rm, rm_with. rewrite !(bind_step _ _ _ _ _ _ (stop_log_delivery_eq c None tr)).
  unfold mbind, M_bind, dropping, attempt, blocking. by rewrite remove_blocking_one, remove_one.
Qed.
End Removal.

(** The removal of a container, against any daemon.  Dropping the handle
    never fails: it stops the log delivery, waits at most twenty polls for the
    log threads and never inside the runtime, and then sends one forced removal
    (event [remove_event]), unless the handle has been removed already or the
    environment says to keep containers.  An explicit [rm] or [rm_blocking]
    sends its removal whatever the environment says and returns its answer
    unchanged; the drop of the handle it owns sends no second removal when the
    first one worked, and tries once more, gated as any drop, when it did not. *)
Theorem removal_contract `{Host} env in_runtime (c : ContainerAsync) tr (stopped := tr ++ stop_events c)
    (answer := removal_answer c stopped) :
  let again := if c.(dropped) then [] else if command env is Remove then [remove_event c] else [] in
  exists k, (k <= if in_runtime : bool then 0 else 20)%nat /\
    drop env in_runtime c None tr = (Done (Ok tt), stopped ++ log_sleeps k ++ again) /\
    exists k', (k' <= if in_runtime then 0 else 20)%nat /\
      let tr' := stopped ++ [remove_event c] ++ stop_events c ++ log_sleeps k' ++
                 match answer with Ok _ => [] | Err _ => again end in
      rm env in_runtime c None tr = (Done answer, tr') /\
      rm_blocking env in_runtime c None tr = (Done answer, tr').
Proof.
  intros again. assert (again = drop_removal env c) as ->.
  { unfold again, drop_removal. by destruct (dropped c), (command env). }
  destruct (drop_eq env in_runtime c None tr) as (k & Hk & Ed).
  exists k. split; [done|]. split; [rewrite Ed; unfold stopped; by rewrite <- app_assoc|].
  destruct (rm_with_eq env DockerClient.remove in_runtime c None tr) as (k' & Hk' & Er);
    [by rewrite remove_one|].
  exists k'. split; [done|]. cbv zeta. rewrite rm_blocking_rm. by split.
Qed.
