(* ===== verification/Runner.v ===== *)
(** * Starting a container ([src/src/runners/async_runner.rs])

    [AsyncRunner] on Linux: the checks of the request, the image, the creation,
    the copies, the start, the log session, the waiter and the ready sequence, in
    the order of the code, with the removal that follows each failure.  The
    creation is a program over a [Host], so a theorem about it holds for a
    daemon that fails at any request. *)

From S2P Require Import Prelude BTree Utf8 Ports Errors Env HttpDecode Json RegistryAuth Effect Rollback Wait Request.
From S2P Require Import DockerApi Wire DockerClient Copy.
From S2P Require WaitState Container.
Import Container(ContainerAsync, mkContainer, ContainerLogSource, NoLogs, DockerStream).
#[export] Existing Instances Container.ready_within_orderly Container.ready_within_timely Container.exec_orderly
  Container.exec_timely Container.handle_state_orderly Container.handle_state_timely.

(** ** The request ([linux_unsupported_request_reason], [build_container_config]) *)

Definition linux_unsupported_request_reason (req : ContainerRequest) : option str :=
  if req.(ssh) then Some (lit "with_ssh() is not implemented on Linux")
  else if is_some req.(masked_paths) then Some (lit "with_masked_paths() is not implemented on Linux")
  else if is_some req.(readonly_paths) then Some (lit "with_readonly_paths() is not implemented on Linux")
  else if is_some req.(kernel) then Some (lit "with_kernel() is not implemented on Linux")
  else None.

(** The loop over the exposed ports: those not mapped yet get host port 0. *)
Fixpoint add_exposed (ps : list PortMapping) (exposed : list ContainerPort) : list PortMapping :=
  match exposed with
  | [] => ps
  | e :: exposed =>
      if existsb (fun p => bool_decide (p.(container_port) = e)) ps then add_exposed ps exposed
      else add_exposed (ps ++ [mkPortMapping 0 e]) exposed
  end.

Definition check_mapped_ports (req : ContainerRequest) : Result unit :=
  match req.(ports) with Some ps => reject_duplicate_mapped_ports ps | None => Ok tt end.

(** [None] is the panic of [expect]. *)
Definition build_container_config (req : ContainerRequest) : option ContainerConfig :=
  match check_mapped_ports req with
  | Err _ => None
  | Ok _ => Some {|
      cfg_image := descriptor req;
      cfg_entrypoint := (fun e => [e]) <$> entrypoint req;
      cfg_cmd := collect (cmd req);
      cfg_env := fold_env (env_vars req) [];
      cfg_ports := add_exposed (unwrap_or req.(ports) []) (expose_ports req);
      cfg_mounts := mounts req;
      cfg_name := req.(container_name);
      cfg_labels := req.(labels);
      cfg_privileged := req.(privileged);
      cfg_working_dir := req.(working_dir);
      cfg_user := req.(user);
      cfg_init := req.(init);
      cfg_health_check := req.(health_check);
      cfg_cap_add := unwrap_or req.(cap_add) [];
      cfg_cap_drop := unwrap_or req.(cap_drop) [];
      cfg_shm_size := req.(shm_size);
      cfg_readonly_rootfs := req.(readonly_rootfs);
      cfg_hostname := req.(hostname);
      cfg_open_stdin := req.(open_stdin);
      cfg_network := req.(network);
      cfg_platform := req.(platform);
      cfg_extra_hosts := (fun h => h.1 ++ lit ":" ++ show_ExtraHost h.2) <$> req.(hosts)
    |}
  end.

Definition linux_log_stream_required (req : ContainerRequest) (ready_conditions : list WaitFor) : bool :=
  existsb is_log ready_conditions || negb (bool_decide (req.(log_consumers) = [])).

Section Runner.
Context `{Host} `{JsonLib} `{HttpEncoder} `{Base64} `{FileSystem}.
Context (env : Environment) (read_to_string : str -> option str) (parse_ip : str -> option str).

(** ** The image *)

Definition resolve_or_pull_linux (descriptor : str) (platform : option str) : M unit :=
  r ← attempt (resolve_image_descriptor descriptor);
  match r with
  | Ok _ => mret tt
  | Err (Client (ImageNotFound _)) =>
      pull_image env read_to_string descriptor platform ;;
      _ ← resolve_image_descriptor descriptor; mret tt
  | Err e => fail e
  end.

Definition pull_image_of (req : ContainerRequest) : M ContainerRequest :=
  pull_image env read_to_string (descriptor req) req.(platform) ;; mret req.

(** ** Rollback *)

Definition rollback_remove (id : str) : M unit :=
  match command env with
  | Remove => _ ← attempt (remove id true); mret tt
  | Keep => mret tt
  end.

(** [if let Err(e) = m.await { rollback_remove(..).await; return Err(e); }] *)
Definition or_rollback (id : str) (m : M unit) : M unit :=
  r ← attempt m;
  match r with
  | Ok _ => mret tt
  | Err e => rollback_remove id ;; fail e
  end.

(** The handle that remains is dropped when the function returns: with [Keep]
    that stops the log delivery, and removes nothing. *)
Definition cleanup_on_ready_failure {A} (c : ContainerAsync) (error : Error) : M A :=
  match command env with
  | Remove => _ ← attempt (Container.rm env true c); fail error
  | Keep => Container.drop env true c ;; fail error
  end.

(** ** Logs and readiness *)

Definition start_linux_log_stream (id : str) (consumers : list nat) (log_required : bool)
    : M (ContainerLogSource * option (list nat)) :=
  r ← attempt (spawn_log_session id);
  match r with
  | Ok session =>
      if negb (bool_decide (consumers = [])) then
        note (EvConsumers session) ;; mret (DockerStream session, Some consumers)
      else mret (DockerStream session, None)
  | Err e => if log_required then rollback_remove id ;; fail e else mret (NoLogs, None)
  end.

Definition exec_all (fuel : nat) (c : ContainerAsync) (cmds : list ExecCommand) : M unit :=
  for_each (fun cmd => _ ← Container.exec parse_ip fuel c cmd; mret tt) cmds.

Definition ready_sequence (fuel : nat) (c : ContainerAsync) (startup_timeout : Duration)
    (ready_conditions : list WaitFor) : M unit :=
  state ← Container.container_state parse_ip c;
  cmds ← lift (c.(Container.request).(image).(image_exec_before_ready) state);
  exec_all fuel c cmds ;;
  Container.ready_within parse_ip fuel c startup_timeout ready_conditions ;;
  state ← Container.container_state parse_ip c;
  cmds ← lift (exec_after_start c.(Container.request) state);
  exec_all fuel c cmds.

(** The handle is dropped with the caller of what it waits for. *)
Definition run_ready_sequence (fuel : nat) (c : ContainerAsync) (startup_timeout : Duration)
    (ready_conditions : list WaitFor) : M ContainerAsync :=
  r ← attempt (dropping (Container.drop env true c) (ready_sequence fuel c startup_timeout ready_conditions));
  match r with
  | Ok _ => mret c
  | Err e => cleanup_on_ready_failure c e
  end.

(** ** [start] *)

(** Up to the container's creation: no removal is due for a failure here. *)
Definition create (req : ContainerRequest) : M str :=
  match linux_unsupported_request_reason req with
  | Some msg => fail (other msg)
  | None =>
      lift (check_mapped_ports req) ;;
      resolve_or_pull_linux (descriptor req) req.(platform) ;;
      match build_container_config req with
      | Some config => create_container config
      | None => fail (other (lit "panic"))
      end
  end.

Definition start (walk_fuel fuel : nat) (req : ContainerRequest) : M ContainerAsync :=
  id ← create req;
  or_rollback id (copy_to_sources_linux walk_fuel id req) ;;
  or_rollback id (start_container id) ;;
  let startup_timeout := unwrap_or req.(startup_timeout) DEFAULT_STARTUP_TIMEOUT in
  let ready_conditions := ready_conditions req in
  let log_required := linux_log_stream_required req ready_conditions in
  '(log_source, stored_consumers) ← start_linux_log_stream id req.(log_consumers) log_required;
  let wait_state := WaitState.WaitState_default in
  note (EvWaiter wait_state.(WaitState.generation)) ;;
  run_ready_sequence fuel
    (mkContainer id (take_log_consumers req) false wait_state log_source stored_consumers)
    startup_timeout ready_conditions.
End Runner.

(** ** The ports of the configuration *)

Lemma existsb_port ps e :
  existsb (fun p => bool_decide (p.(container_port) = e)) ps = true <-> e ∈ container_port <$> ps.
Proof.
  rewrite existsb_exists, list_elem_of_fmap. split.
  - intros (p & Hp%list_elem_of_In & E%bool_decide_eq_true). by exists p.
  - intros (p & -> & Hp%list_elem_of_In). exists p. by rewrite bool_decide_eq_true.
Qed.

Lemma add_exposed_spec ps exposed :
  NoDup (container_port <$> ps) ->
  exists added, add_exposed ps exposed = ps ++ added /\ NoDup (container_port <$> (ps ++ added)) /\
    forall p, p ∈ added <->
      p.(host_port) = 0 /\ p.(container_port) ∈ exposed /\ ~ p.(container_port) ∈ container_port <$> ps.
Proof.
  revert ps. induction exposed as [|e exposed IH]; intros ps Hn; cbn [add_exposed].
  { exists []. rewrite app_nil_r. split_and!; [done|done|]. intros p. split; [by intros ?%elem_of_nil|].
    by intros (_ & ?%elem_of_nil & _). }
  destruct (existsb _ ps) eqn:Ex.
  - apply existsb_port in Ex. destruct (IH ps Hn) as (added & E & Hn' & Ha).
    exists added. split_and!; [done|done|]. intros p. rewrite Ha, elem_of_cons. 
    split; [intros (?&?&?); auto|]. intros (? & [Ee|?] & Hni); [|done]. by rewrite Ee in Hni.
  - assert (~ e ∈ container_port <$> ps) as Hni by (intros ?%existsb_port; congruence).
    destruct (IH (ps ++ [mkPortMapping 0 e])) as (added & E & Hn' & Ha).
    { rewrite fmap_app. apply NoDup_app. split_and!; [done| |by apply NoDup_singleton].
      intros x Hx ->%list_elem_of_singleton. done. }
    exists (mkPortMapping 0 e :: added). rewrite <- app_assoc in *. split_and!; [done|done|].
    intros p. rewrite elem_of_cons, Ha, elem_of_cons, fmap_app, elem_of_app.
    change (container_port <$> [mkPortMapping 0 e]) with [e]. rewrite list_elem_of_singleton.
    split.
    + intros [->|(? & ? & Hp)]; [by auto|]. split_and!; [done|by right|]. intros ?. apply Hp. by left.
    + intros (Hh & He & Hp). destruct (decide (container_port p = e)) as [Ee|Ee].
      * left. destruct p. cbn in *. by subst.
      * right. split_and!; [done| |by intros [?|?]]. by destruct He.
Qed.

(** C39: The configuration of a container can be built for every request that
    passed the check of its mapped ports, so building it never panics after that
    check; and its ports are well formed: the mappings of the request come first
    as they are, each exposed port that is not mapped is added once, with a host
    port chosen by the daemon, nothing else is added, and no container port
    occurs twice. *)
Theorem build_container_config_ports (req : ContainerRequest) :
  (is_some (build_container_config req) = true <-> check_mapped_ports req = Ok tt) /\
  forall config, build_container_config req = Some config ->
    exists added, config.(cfg_ports) = unwrap_or req.(ports) [] ++ added /\
      NoDup (container_port <$> config.(cfg_ports)) /\
      (forall e, e ∈ expose_ports req -> e ∈ container_port <$> config.(cfg_ports)) /\
      forall p, p ∈ added -> p.(host_port) = 0 /\ p.(container_port) ∈ expose_ports req /\
        ~ p.(container_port) ∈ container_port <$> unwrap_or req.(ports) [].
Proof.
  unfold build_container_config. destruct (check_mapped_ports req) as [[]|e] eqn:Ec; [|done].
  split; [done|]. intros config [= <-]. cbn [cfg_ports].
  assert (NoDup (container_port <$> unwrap_or (ports req) [])) as Hn.
  { unfold check_mapped_ports in Ec. destruct (ports req) as [ps|]; [|constructor].
    by apply reject_loop_ok in Ec as [Hn _]. }
  destruct (add_exposed_spec _ (expose_ports req) Hn) as (added & -> & Hn' & Ha).
  exists added. split_and!; [done|done| |by intros p ?%Ha].
  intros e He. rewrite fmap_app, elem_of_app.
  destruct (decide (e ∈ container_port <$> unwrap_or (ports req) [])) as [?|Hni]; [by left|].
  right. apply list_elem_of_fmap. exists (mkPortMapping 0 e). split; [done|]. by apply Ha.
Qed.

(** ** What a start sends *)

Section Sends.
Context `{Host} `{JsonLib} `{HttpEncoder} `{Base64} `{FileSystem}.
Context (env : Environment) (read_to_string : str -> option str) (parse_ip : str -> option str).

Context (auth : str -> bool).

#[export] Instance copy_to_sources_orderly f id req : Orderly auth (copy_to_sources_linux f id req).
Proof. unfold copy_to_sources_linux. apply _. Qed.
#[export] Instance copy_to_sources_timely f id req : Timely (copy_to_sources_linux f id req).
Proof. unfold copy_to_sources_linux. apply _. Qed.
#[export] Instance exec_all_orderly f c cmds : Orderly auth (exec_all parse_ip f c cmds).
Proof. unfold exec_all. apply _. Qed.
#[export] Instance exec_all_timely f c cmds : Timely (exec_all parse_ip f c cmds).
Proof. unfold exec_all. apply _. Qed.
#[export] Instance ready_sequence_orderly f c d ws : Orderly auth (ready_sequence parse_ip f c d ws).
Proof. unfold ready_sequence. apply _. Qed.
#[export] Instance ready_sequence_timely f c d ws : Timely (ready_sequence parse_ip f c d ws).
Proof. unfold ready_sequence. apply _. Qed.
#[export] Instance create_orderly `{!Authorizes auth} req : Orderly auth (create env read_to_string req).
Proof. unfold create, resolve_or_pull_linux. apply _. Qed.
#[export] Instance create_timely req : Timely (create env read_to_string req).
Proof. unfold create, resolve_or_pull_linux. apply _. Qed.

End Sends.

(** ** What is removed *)

Section Removed.
Context `{Host} `{JsonLib} `{HttpEncoder} `{Base64} `{FileSystem}.
Context (env : Environment) (read_to_string : str -> option str) (parse_ip : str -> option str).

Definition removal (id : str) : Event := EvRequest (remove_request id true) Unlimited.

(** What a removal of [id] sent at [tr] was told. *)
Definition removal_refused (tr : Trace) (id : str) : Prop := exists e,
  classify not_found (lit "failed to remove container") (send tr (remove_request id true) Unlimited) = Err e.

(** The events [evs] after a container came to be clean up when a failure is
    reported: with [Keep] they delete nothing; with [Remove] they delete the
    container, and once more only when that was refused. *)
Definition cleaned (tr : Trace) (id : str) (evs : Trace) : Prop :=
  match command env with
  | Keep => deletions evs = []
  | Remove => deletions evs = [removal id] \/
      (deletions evs = [removal id; removal id] /\
       exists before after, evs = before ++ removal id :: after /\ deletions before = [] /\
         removal_refused (tr ++ before) id)
  end.

#[export] Instance cleaned_Cleaning id : Cleaning (fun tr => cleaned tr id).
Proof.
  intros tr evs evs' Hs%deletions_spared. unfold cleaned. rewrite deletions_app, Hs. cbn.
  destruct (command env); [|done].
  intros [E|(E & before & after & -> & Hb & Hr)]; [by left|]. right. split; [done|].
  exists (evs ++ before), after. rewrite deletions_app, Hs, Hb. rewrite <- !app_assoc in *. done.
Qed.

(** A program that runs after the container [id] came to be. *)
Definition guards_id {A} (id : str) : M A -> (A -> Prop) -> Prop := guards (fun tr => cleaned tr id).

(** The removal of [rollback_remove] has no failure of its own. *)
Definition rollback_events (id : str) : Trace :=
  match command env with Remove => [removal id] | Keep => [] end.
Lemma rollback_remove_eq id tr :
  rollback_remove env id None tr = (Done (Ok tt), tr ++ rollback_events id).
Proof.
  unfold rollback_remove, rollback_events. destruct (command env); [|by rewrite app_nil_r].
  unfold mbind, M_bind, attempt. by rewrite remove_one.
Qed.
Lemma guards_rollback {A} id e (Q : A -> Prop) : guards_id id (rollback_remove env id ;; fail e) Q.
Proof.
  apply (guards_fail _ _ _ (fun _ => rollback_events id)); [apply rollback_remove_eq|]. intros tr.
  unfold cleaned, rollback_events. destruct (command env); [by left | done].
Qed.

Lemma guards_or_rollback id m `{!Spares m, !Steady m} : guards_id id (or_rollback env id m) (fun _ => True).
Proof.
  unfold or_rollback. eapply guards_attempt; [apply _..|].
  intros [[]|e]; [by apply guards_ret | apply guards_rollback].
Qed.

Lemma guards_log_stream id consumers required :
  guards_id id (start_linux_log_stream env id consumers required) (fun _ => True).
Proof.
  unfold start_linux_log_stream. eapply guards_attempt; [apply _..|]. intros [session|e].
  - case_bool_decide; cbn; [by apply guards_ret|].
    eapply guards_bind; [apply _|by apply guards_note | intros; by apply guards_ret].
  - destruct required; [apply guards_rollback | by apply guards_ret].
Qed.
Lemma deletions_stop_events c : deletions (Container.stop_events c) = [].
Proof. unfold Container.stop_events. by destruct (Container.log_source c). Qed.
Lemma deletions_log_sleeps k : deletions (Container.log_sleeps k) = [].
Proof. unfold Container.log_sleeps. induction k; [done|]. cbn. done. Qed.

Lemma deletions_rm c k rest :
  deletions (Container.stop_events c ++ removal c.(Container.id) :: Container.stop_events c
             ++ Container.log_sleeps k ++ rest) = removal c.(Container.id) :: deletions rest.
Proof.
  rewrite deletions_app, deletions_stop_events. cbn. f_equal.
  by rewrite !deletions_app, deletions_stop_events, deletions_log_sleeps.
Qed.

Lemma guards_cleanup {A} c e (Q : A -> Prop) :
  guards_id c.(Container.id) (cleanup_on_ready_failure env c e) Q.
Proof.
  unfold cleanup_on_ready_failure. intros tr. destruct (command env) eqn:Ec.
  - destruct (Container.rm_with_eq env DockerClient.remove true c None tr) as (k & _ & E);
      [by rewrite remove_one|].
    unfold Container.rm. rewrite (bind_step _ _ _ _ _ _ (attempt_run _ _ _ _ _ E)). cbn.
    eexists. rewrite <- !app_assoc. split; [done|]. unfold cleaned. rewrite Ec.
    change (Container.remove_event c) with (removal c.(Container.id)). rewrite deletions_rm.
    destruct (Container.removal_answer c _) as [[]|e'] eqn:Ea; [by left|].
    unfold Container.drop_removal. rewrite Ec. destruct (Container.dropped c); [by left|].
    right. split; [done|]. eexists _, _. split; [done|].
    split; [apply deletions_stop_events | by exists e'].
  - destruct (Container.drop_eq env true c None tr) as (k & _ & E).
    rewrite (bind_step _ _ _ _ _ _ E). cbn. eexists. split; [done|]. unfold cleaned. rewrite Ec.
    rewrite !deletions_app, deletions_stop_events, deletions_log_sleeps. cbn.
    unfold Container.drop_removal. rewrite Ec. by destruct (Container.dropped c).
Qed.

Lemma guards_ready fuel c d ws :
  guards_id c.(Container.id) (run_ready_sequence env parse_ip fuel c d ws) (fun c' => c' = c).
Proof.
  unfold run_ready_sequence. eapply guards_dropping; [apply _..|].
  intros [[]|e]; [by apply guards_ret | apply guards_cleanup].
Qed.

(** What follows the creation. *)
Definition launch (walk_fuel fuel : nat) (req : ContainerRequest) (id : str) : M ContainerAsync :=
  or_rollback env id (copy_to_sources_linux walk_fuel id req) ;;
  or_rollback env id (start_container id) ;;
  '(log_source, stored_consumers) ← start_linux_log_stream env id req.(log_consumers)
    (linux_log_stream_required req (ready_conditions req));
  note (EvWaiter 0) ;;
  run_ready_sequence env parse_ip fuel
    (mkContainer id (take_log_consumers req) false WaitState.WaitState_default log_source stored_consumers)
    (unwrap_or req.(startup_timeout) DEFAULT_STARTUP_TIMEOUT) (ready_conditions req).

Lemma guards_launch walk_fuel fuel req id :
  guards_id id (launch walk_fuel fuel req id) (fun c => c.(Container.id) = id /\ c.(Container.dropped) = false).
Proof.
  unfold launch. eapply guards_bind; [apply _|apply guards_or_rollback; apply _ | intros _ _].
  eapply guards_bind; [apply _|apply guards_or_rollback; apply _ | intros _ _].
  eapply guards_bind; [apply _|apply guards_log_stream | intros [source stored] _].
  eapply guards_bind; [apply _|by apply guards_note | intros _ _].
  intros tr. pose proof (guards_ready fuel (mkContainer id (take_log_consumers req) false
    WaitState.WaitState_default source stored) (unwrap_or (startup_timeout req) DEFAULT_STARTUP_TIMEOUT)
    (ready_conditions req) tr) as Hg. cbn in Hg.
  destruct (run_ready_sequence _ _ _ _ _ _ _ _) as [[[c|e]| |] tr']; [|done..].
  by destruct Hg as [-> Hg].
Qed.

(** How a start ends, on every way. *)
Lemma start_ends walk_fuel fuel req tr :
  match start env read_to_string parse_ip walk_fuel fuel req None tr with
  | (Done (Ok c), tr') => exists id created evs, create env read_to_string req None tr = (Done (Ok id), created) /\
      (c.(Container.id) = id /\ c.(Container.dropped) = false) /\ tr' = created ++ evs /\ deletions evs = []
  | (Done (Err e), tr') =>
      (create env read_to_string req None tr = (Done (Err e), tr') /\
         exists evs, tr' = tr ++ evs /\ deletions evs = []) \/
      (exists id created evs, create env read_to_string req None tr = (Done (Ok id), created) /\
         tr' = created ++ evs /\ cleaned created id evs)
  | (Cancelled, _) => False
  | (OutOfFuel, _) => True
  end.
Proof.
  change (start env read_to_string parse_ip walk_fuel fuel req) with
    (create env read_to_string req ≫= launch walk_fuel fuel req).
  apply (guards_start (fun id tr => cleaned tr id) (create env read_to_string req) (launch walk_fuel fuel req)
    (fun _ => True) (fun id c => c.(Container.id) = id /\ c.(Container.dropped) = false)).
  - done.
  - intros id _. apply guards_launch.
Qed.

(** A start that succeeds owns the container it created and has deleted nothing. *)
Lemma start_run_fresh walk_fuel fuel req tr c tr' :
  start env read_to_string parse_ip walk_fuel fuel req None tr = (Done (Ok c), tr') ->
  exists created evs, create env read_to_string req None tr = (Done (Ok c.(Container.id)), created) /\
    tr' = created ++ evs /\ deletions evs = [] /\ c.(Container.dropped) = false.
Proof.
  intros E. pose proof (start_ends walk_fuel fuel req tr) as Hs. rewrite E in Hs.
  destruct Hs as (? & created & evs & Ec & [<- Hd] & -> & He). by exists created, evs.
Qed.
End Removed.

(** C1: No start leaks a container, whatever the daemon answers and whenever it
    fails.  Before the container exists, nothing is deleted.  Once it exists, a
    start that succeeds has deleted nothing, and one that fails returns the
    error after deleting the container it created, and only that one: once, and
    a second time only when the first was refused.  With
    [TESTCONTAINERS_COMMAND=keep] it deletes nothing.  A start is never
    cancelled from inside. *)
Theorem start_no_leak `{Host} `{JsonLib} `{HttpEncoder} `{Base64} `{FileSystem} env read_to_string parse_ip
    walk_fuel fuel (req : ContainerRequest) tr :
  match start env read_to_string parse_ip walk_fuel fuel req None tr with
  | (Done (Ok c), tr') => exists created evs,
      create env read_to_string req None tr = (Done (Ok c.(Container.id)), created) /\
      tr' = created ++ evs /\ deletions evs = []
  | (Done (Err e), tr') =>
      (create env read_to_string req None tr = (Done (Err e), tr') /\
         exists evs, tr' = tr ++ evs /\ deletions evs = []) \/
      (exists id created evs, create env read_to_string req None tr = (Done (Ok id), created) /\
         tr' = created ++ evs /\ cleaned env created id evs)
  | (Cancelled, _) => False
  | (OutOfFuel, _) => True
  end.
Proof.
  pose proof (start_ends env read_to_string parse_ip walk_fuel fuel req tr) as Hs.
  destruct (start env read_to_string parse_ip walk_fuel fuel req None tr) as [[[c|e]| |] tr']; [|exact Hs|done..].
  destruct Hs as (id & created & evs & E & [<- _] & Hs). by exists created, evs.
Qed.

(** ** A start that succeeds *)

Section Success.
Context `{Host} `{JsonLib} `{HttpEncoder} `{Base64} `{FileSystem}.
Context (env : Environment) (read_to_string : str -> option str) (parse_ip : str -> option str).

Lemma or_rollback_ok id m sc tr tr' :
  or_rollback env id m sc tr = (Done (Ok tt), tr') -> m sc tr = (Done (Ok tt), tr').
Proof.
  unfold or_rollback. intros E. apply bind_ok in E as (r & tr1 & E%attempt_inv & E').
  destruct r as [[]|e].
  - apply mret_ok in E' as [_ ->]. done.
  - apply bind_ok in E' as (? & ? & _ & E'). by apply fail_ok in E'.
Qed.

(** The handle's log session, opened right after the container was [started]. *)
Definition log_session (req : ContainerRequest) (c : ContainerAsync) (started logs : Trace) : Prop :=
  match open_logs started c.(Container.id) with
  | Ok session => c.(Container.log_source) = DockerStream session /\
      if bool_decide (req.(log_consumers) = []) then
        c.(Container.log_consumers) = None /\ logs = [EvOpenLogs c.(Container.id)]
      else c.(Container.log_consumers) = Some req.(log_consumers) /\
        logs = [EvOpenLogs c.(Container.id); EvConsumers session]
  | Err _ => c.(Container.log_source) = NoLogs /\ c.(Container.log_consumers) = None /\
      logs = [EvOpenLogs c.(Container.id)] /\
      linux_log_stream_required req (ready_conditions req) = false
  end.

Lemma start_linux_log_stream_ok id consumers required tr source stored tr' :
  start_linux_log_stream env id consumers required None tr = (Done (Ok (source, stored)), tr') ->
  exists logs, tr' = tr ++ logs /\
  match open_logs tr id with
  | Ok session => source = DockerStream session /\
      if bool_decide (consumers = []) then stored = None /\ logs = [EvOpenLogs id]
      else stored = Some consumers /\ logs = [EvOpenLogs id; EvConsumers session]
  | Err _ => source = NoLogs /\ stored = None /\ logs = [EvOpenLogs id] /\ required = false
  end.
Proof.
  unfold start_linux_log_stream, spawn_log_session. intros E.
  apply bind_ok in E as (r & tr1 & E1%attempt_inv & E). unfold perform in E1. cbn [expired] in E1.
  injection E1 as <- <-. destruct (open_logs tr id) as [session|e].
  - case_bool_decide; cbn [negb] in E.
    + apply mret_ok in E as [[= <- <-] ->]. by eexists.
    + apply bind_ok in E as ([] & tr1 & ->%note_ok & E). apply mret_ok in E as [[= <- <-] ->].
      eexists. by rewrite <- app_assoc.
  - destruct required.
    + apply bind_ok in E as (? & ? & _ & E). by apply fail_ok in E.
    + apply mret_ok in E as [[= <- <-] ->]. by eexists.
Qed.

Lemma spares_prefix {A} (m : M A) `{!Spares m} sc tr o tr' : m sc tr = (o, tr') -> tr `prefix_of` tr'.
Proof. intros E. destruct (spares (m := m) sc tr) as (evs & E' & _). rewrite E in E'. by exists evs. Qed.

Lemma ready_sequence_ok fuel c d ws tr tr' :
  ready_sequence parse_ip fuel c d ws None tr = (Done (Ok tt), tr') ->
  exists ready ready', tr `prefix_of` ready /\ Container.observed_all c ws ready ready' /\
    ready' `prefix_of` tr'.
Proof.
  unfold ready_sequence. intros E. apply bind_ok in E as (st & tr1 & E1 & E).
  apply spares_prefix in E1; [|apply _]. apply bind_ok in E as (cmds & tr2 & [_ ->]%lift_ok & E).
  apply bind_ok in E as ([] & tr2 & E2 & E). apply spares_prefix in E2; [|apply _].
  apply bind_ok in E as ([] & tr3 & E3 & E). apply spares_prefix in E; [|apply _].
  unfold Container.ready_within in E3. apply timeout_ok in E3. exists tr2, tr3. split; [by etrans|]. split; [|done].
  by eapply Container.block_until_ready_observed.
Qed.
End Success.

(** C11: A start that succeeds did its steps in order: it created the container,
    copied every source into it before it was started, started it with success,
    opened the log session (and the consumers' delivery) right after, then
    started the waiter for the exit code, and then saw every ready condition hold
    in order.  It may have gone on without logs only where neither a condition
    nor a consumer needs them.  The handle it returns owns that container. *)
Theorem start_order `{Host} `{JsonLib} `{HttpEncoder} `{Base64} `{FileSystem} env read_to_string parse_ip
    walk_fuel fuel (req : ContainerRequest) tr c tr' :
  start env read_to_string parse_ip walk_fuel fuel req None tr = (Done (Ok c), tr') ->
  let id := c.(Container.id) in
  exists created copied logs ready ready',
    create env read_to_string req None tr = (Done (Ok id), created) /\
    copy_to_sources_linux walk_fuel id req None created = (Done (Ok tt), copied) /\
    classify (fun _ => false) (lit "failed to start container")
      (send copied (start_request id) Unlimited) = Ok tt /\
    let started := copied ++ [EvRequest (start_request id) Unlimited] in
    log_session req c started logs /\
    (started ++ logs ++ [EvWaiter 0]) `prefix_of` ready /\
    Container.observed_all c (ready_conditions req) ready ready' /\ ready' `prefix_of` tr' /\
    c.(Container.request) = take_log_consumers req /\ c.(Container.dropped) = false /\
    c.(Container.wait_state) = WaitState.WaitState_default.
Proof.
  intros E. unfold start in E. apply bind_ok in E as (id & created & Ecreate & E).
  apply bind_ok in E as ([] & copied & Ecopy%or_rollback_ok & E).
  apply bind_ok in E as ([] & started & Estart%or_rollback_ok & E). cbv zeta in E.
  apply bind_ok in E as ([source stored] & tr1 & Elogs & E).
  apply start_linux_log_stream_ok in Elogs as (logs & -> & Hlogs).
  apply bind_ok in E as ([] & tr2 & ->%note_ok & E).
  unfold run_ready_sequence in E. apply bind_ok in E as (r & tr3 & Er%attempt_inv%dropping_done & E).
  rewrite start_one in Estart. cbn [expired] in Estart. injection Estart as Hstart <-.
  assert (r = Ok tt /\ tr' = tr3 /\ c = mkContainer id (take_log_consumers req) false
    WaitState.WaitState_default source stored) as (-> & -> & ->).
  { destruct r as [[]|e]; [by apply mret_ok in E as [<- ->]|].
    unfold cleanup_on_ready_failure in E. exfalso. destruct (command env);
      apply bind_ok in E as (? & ? & _ & E); by apply fail_ok in E. }
  apply ready_sequence_ok in Er as (ready & ready' & Hp1 & Hp2 & Hp3).
  exists created, copied, logs, ready, ready'. cbn. split_and!; try done.
  by rewrite app_assoc.
Qed.

(** A request with a file and a log consumer, against a daemon that plays along. *)
Definition sample_request : ContainerRequest :=
  let r := ContainerRequest_from (Image_default (lit "redis") (lit "7") [WaitDuration 1]) in {|
  image := r.(image); overridden_cmd := []; image_name := None; image_tag := None;
  container_name := None; hostname := None; network := None; labels := []; req_env_vars := [];
  hosts := []; req_mounts := []; health_check := None;
  req_copy_to_sources := [mkCopyTo (Data (lit "hi")) (CopyTargetOptions_new (lit "/t"))];
  ports := Some [mkPortMapping 8080 (Tcp 80)];
  privileged := false; readonly_rootfs := false; cap_add := None; cap_drop := None; shm_size := None;
  req_ready_conditions := None; startup_timeout := None; working_dir := None; user := None;
  open_stdin := None; log_consumers := [0%nat]; init := false; platform := None; ssh := false;
  masked_paths := None; readonly_paths := None; kernel := None |}.

Definition start_host : Host := script_host
  [answer 200 []; answer 201 (print (JObj [(lit "Id", JStr (lit "c1"))])); answer 200 [];
   answer 204 [];
   answer 200 (print (JObj [(lit "State", JObj [(lit "Running", JBool true)]);
                            (lit "NetworkSettings", JObj [(lit "Ports", JObj [])])]));
   answer 200 (print (JObj [(lit "State", JObj [(lit "Running", JBool true)]);
                            (lit "NetworkSettings", JObj [(lit "Ports", JObj [])])]))].

#[local] Instance SampleEncoder : HttpEncoder := {|
  method_new _ := Ok tt; request_new _ _ := Ok tt; header_name_new _ := Ok tt; set_header _ _ := Ok tt;
  encode _ := Ok [] |}.
#[local] Instance SampleBase64 : Base64 := {| encode_string s := s; decode_vec s := Some s |}.

Definition start_run : Out ContainerAsync * Trace :=
  @start start_host DomJson SampleEncoder SampleBase64 SampleFS (fun _ => None) (fun _ => None)
    (fun _ => None) 3 3 sample_request None [].

Lemma start_order_witness :
  exists c tr', start_run = (Done (Ok c), tr') /\ length tr' = 10%nat /\
  exists created copied logs ready ready',
    @create start_host DomJson SampleBase64 (fun _ => None) (fun _ => None) sample_request None [] =
      (Done (Ok c.(Container.id)), created) /\
    let started := copied ++ [EvRequest (start_request c.(Container.id)) Unlimited] in
    @log_session start_host sample_request c started logs /\
    (started ++ logs ++ [EvWaiter 0]) `prefix_of` ready /\ ready' `prefix_of` tr'.
Proof.
  assert (exists c tr', start_run = (Done (Ok c), tr') /\ length tr' = 10%nat) as (c & tr' & E & Hl)
    by (do 2 eexists; split; vm_compute; reflexivity).
  exists c, tr'. split; [exact E|]. split; [exact Hl|].
  destruct (@start_order start_host DomJson SampleEncoder SampleBase64 SampleFS (fun _ => None)
    (fun _ => None) (fun _ => None) 3 3 sample_request [] c tr' E)
    as (created & copied & logs & ready & ready' & Hc & _ & _ & Hlog & Hp & _ & Hp' & _).
  exists created, copied, logs, ready, ready'.
  split; [exact Hc|]. split; [exact Hlog|]. split; [exact Hp | exact Hp'].
Defined.
