(* ===== verification/DebugFmt.v ===== *)
(** * What debug output shows

    The [Debug] impls that are written by hand ([HttpWaitStrategy], its [Auth] and its
    headers in [src/src/core/wait/http_strategy.rs], [ContainerRequest] in
    [src/src/core/containers/request.rs], [ExecResult]) with the derived ones they go
    through, over the builders of [std::fmt].  The passwords, tokens, authorization
    headers and bodies of an HTTP wait stay out of them, and nothing else does. *)

From S2P Require Import Prelude Utf8 Ports Errors Env Mounts Healthcheck LogWait LogLine Wait Request Builder.
From S2P Require Container.

(** ** [std::fmt] *)

(** What an impl hands to its formatter. *)
#[warnings="-register-all"]
Inductive Dbg :=
| DNum (n : Z)
| DBool (b : bool)
| DDuration (d : Duration)
| DAddr (ip : str)
| DStr (s : str)
| DStruct (name : str) (fields : list (str * Dbg))
| DTuple (name : str) (args : list Dbg)
| DList (xs : list Dbg)
| DMap (entries : list (Dbg * Dbg)).

(** [PadAdapter]: every line that holds something is indented. *)
Definition LF : byte := x0a.
Fixpoint pad (on_newline : bool) (s : str) : str :=
  match s with
  | [] => []
  | c :: s => (if on_newline then lit "    " else []) ++ c :: pad (Byte.eqb c LF) s
  end.

(** The entries of a struct, tuple, list or map, on a line or one to a line. *)
Definition entries (pretty : bool) (parts : list str) : str :=
  if pretty then mjoin ((fun p => pad true (p ++ [","%byte; LF])) <$> parts) else join (lit ", ") parts.
Definition enclosed (pretty : bool) (open close : str) (parts : list str) : str :=
  match parts with
  | [] => open ++ close
  | _ => if pretty then open ++ [LF] ++ entries true parts ++ close else open ++ entries false parts ++ close
  end.

(** [{:?}], or [{:#?}] when [pretty]; [escape] is the quoted form of a string. *)
Fixpoint show_Dbg (escape : str -> str) (pretty : bool) (d : Dbg) : str :=
  match d with
  | DNum n => show_Z n
  | DBool b => if b then lit "true" else lit "false"
  | DDuration d => show_Duration d
  | DAddr ip => ip
  | DStr s => escape s
  | DStruct name fields =>
      let parts := map (fun f => f.1 ++ lit ": " ++ show_Dbg escape pretty f.2) fields in
      match parts with
      | [] => name
      | _ => if pretty then enclosed true (name ++ lit " {") (lit "}") parts
             else name ++ lit " { " ++ entries false parts ++ lit " }"
      end
  | DTuple name args =>
      let parts := map (show_Dbg escape pretty) args in
      match parts with
      | [] => name
      | _ => enclosed pretty (name ++ lit "(")
               ((if bool_decide (name = []) && (length parts =? 1)%nat && negb pretty then lit "," else []) ++ lit ")") parts
      end
  | DList xs => enclosed pretty (lit "[") (lit "]") (map (show_Dbg escape pretty) xs)
  | DMap es =>
      enclosed pretty (lit "{") (lit "}")
        (map (fun e => show_Dbg escape pretty e.1 ++ lit ": " ++ show_Dbg escape pretty e.2) es)
  end.

(** The impls of the standard library's types. *)
Definition dbg_option {A} (f : A -> Dbg) (o : option A) : Dbg :=
  match o with Some a => DTuple (lit "Some") [f a] | None => DTuple (lit "None") [] end.
Definition dbg_vec {A} (f : A -> Dbg) (xs : list A) : Dbg := DList (f <$> xs).
Definition dbg_btree_map {A} (f : A -> Dbg) (m : list (str * A)) : Dbg := DMap ((fun e => (DStr e.1, f e.2)) <$> m).
Definition dbg_bytes (bs : list byte) : Dbg := dbg_vec (fun b => DNum (Z.of_N (Byte.to_N b))) bs.

(** ** The impls *)

(** [RedactedHeaders] *)
Definition is_authorization (name : str) : bool := eq_ignore_ascii_case name (lit "Authorization").
Definition dbg_RedactedHeaders (headers : list (str * str)) : Dbg :=
  dbg_vec (fun h : str * str => DTuple [] [DStr h.1; DStr (if is_authorization h.1 then lit "***" else h.2)]) headers.

Definition dbg_Auth (a : Auth) : Dbg :=
  match a with
  | Basic username _ => DStruct (lit "Basic") [(lit "username", DStr username); (lit "password", DStr (lit "***"))]
  | Bearer _ => DTuple (lit "Bearer") [DStr (lit "***")]
  end.

Definition dbg_ContainerPort (p : ContainerPort) : Dbg :=
  match p with
  | Tcp n => DTuple (lit "Tcp") [DNum n]
  | Udp n => DTuple (lit "Udp") [DNum n]
  | Sctp n => DTuple (lit "Sctp") [DNum n]
  end.

Definition dbg_HttpWaitStrategy (s : HttpWaitStrategy) : Dbg :=
  DStruct (lit "HttpWaitStrategy")
    [(lit "path", DStr s.(path)); (lit "port", dbg_option dbg_ContainerPort s.(port));
     (lit "method", DStr s.(method)); (lit "headers", dbg_RedactedHeaders s.(headers));
     (lit "body_len", dbg_option (fun b => DNum (len b)) s.(http_body));
     (lit "auth", dbg_option dbg_Auth s.(auth)); (lit "poll_interval", DDuration s.(poll_interval));
     (lit "request_timeout", DDuration s.(request_timeout))].

(** The derived impls an HTTP wait is printed by. *)
Definition dbg_LogSource (s : LogSource) : Dbg :=
  DTuple match s with StdOut => lit "StdOut" | StdErr => lit "StdErr" | BothStd => lit "BothStd" end [].
Definition dbg_LogWaitStrategy (s : LogWaitStrategy) : Dbg :=
  DStruct (lit "LogWaitStrategy")
    [(lit "source", dbg_LogSource s.(LogWait.source)); (lit "message", dbg_bytes s.(LogWait.message));
     (lit "times", DNum s.(LogWait.times))].
Definition dbg_HealthWaitStrategy (s : HealthWaitStrategy) : Dbg :=
  DStruct (lit "HealthWaitStrategy") [(lit "poll_interval", DDuration s.(health_poll_interval))].
Definition dbg_ExitWaitStrategy (s : ExitWaitStrategy) : Dbg :=
  DStruct (lit "ExitWaitStrategy")
    [(lit "expected_code", dbg_option DNum s.(expected_code)); (lit "poll_interval", DDuration s.(exit_poll_interval))].
Definition dbg_WaitFor (w : WaitFor) : Dbg :=
  match w with
  | Nothing => DTuple (lit "Nothing") []
  | Log s => DTuple (lit "Log") [dbg_LogWaitStrategy s]
  | WaitDuration d => DStruct (lit "Duration") [(lit "length", DDuration d)]
  | Wait.Healthcheck s => DTuple (lit "Healthcheck") [dbg_HealthWaitStrategy s]
  | Http s => DTuple (lit "Http") [dbg_HttpWaitStrategy s]
  | Exit s => DTuple (lit "Exit") [dbg_ExitWaitStrategy s]
  end.
Definition dbg_GenericImage (g : GenericImage) : Dbg :=
  DStruct (lit "GenericImage")
    [(lit "name", DStr g.(generic_name)); (lit "tag", DStr g.(generic_tag));
     (lit "wait_for", dbg_vec dbg_WaitFor g.(wait_for)); (lit "entrypoint", dbg_option DStr g.(generic_entrypoint));
     (lit "exposed_ports", dbg_vec dbg_ContainerPort g.(exposed_ports))].

Definition dbg_AccessMode (m : AccessMode) : Dbg :=
  DTuple match m with ReadOnly => lit "ReadOnly" | ReadWrite => lit "ReadWrite" end [].
Definition dbg_MountType (t : MountType) : Dbg :=
  DTuple match t with Bind => lit "Bind" | Volume => lit "Volume" | Tmpfs => lit "Tmpfs" end [].
Definition dbg_MountTmpfsOptions (o : MountTmpfsOptions) : Dbg :=
  DStruct (lit "MountTmpfsOptions")
    [(lit "size_bytes", dbg_option DNum o.(size_bytes)); (lit "mode", dbg_option DNum o.(mode))].
Definition dbg_Mount (m : Mount) : Dbg :=
  DStruct (lit "Mount")
    [(lit "access_mode", dbg_AccessMode m.(access_mode)); (lit "mount_type", dbg_MountType m.(mount_type));
     (lit "source", dbg_option DStr m.(Mounts.source)); (lit "target", dbg_option DStr m.(target));
     (lit "tmpfs_options", dbg_option dbg_MountTmpfsOptions m.(tmpfs_options))].
Definition dbg_Healthcheck (h : Healthcheck.Healthcheck) : Dbg :=
  DStruct (lit "Healthcheck")
    [(lit "test", dbg_vec DStr h.(test)); (lit "interval", dbg_option DDuration h.(interval));
     (lit "timeout", dbg_option DDuration h.(timeout)); (lit "retries", dbg_option DNum h.(retries));
     (lit "start_period", dbg_option DDuration h.(start_period));
     (lit "start_interval", dbg_option DDuration h.(start_interval))].
Definition dbg_ExtraHost (h : ExtraHost) : Dbg :=
  match h with
  | HostAddr ip => DTuple (lit "Addr") [DAddr ip]
  | HostGateway => DTuple (lit "HostGateway") []
  end.
Definition dbg_PortMapping (p : PortMapping) : Dbg :=
  DStruct (lit "PortMapping") [(lit "host_port", DNum p.(host_port)); (lit "container_port", dbg_ContainerPort p.(container_port))].

(** [impl Debug for ContainerRequest<I>]; [dbg_image] is that of [I]. *)
Definition dbg_ContainerRequest (dbg_image : Image -> Dbg) (r : ContainerRequest) : Dbg :=
  DStruct (lit "ContainerRequest")
    [(lit "image", dbg_image r.(image)); (lit "overridden_cmd", dbg_vec DStr r.(overridden_cmd));
     (lit "image_name", dbg_option DStr r.(image_name)); (lit "image_tag", dbg_option DStr r.(image_tag));
     (lit "container_name", dbg_option DStr r.(container_name)); (lit "hostname", dbg_option DStr r.(hostname));
     (lit "network", dbg_option DStr r.(network)); (lit "labels", dbg_btree_map DStr r.(labels));
     (lit "env_vars", dbg_btree_map DStr r.(req_env_vars)); (lit "hosts", dbg_btree_map dbg_ExtraHost r.(hosts));
     (lit "mounts", dbg_vec dbg_Mount r.(req_mounts));
     (lit "health_check", dbg_option dbg_Healthcheck r.(health_check));
     (lit "ports", dbg_option (dbg_vec dbg_PortMapping) r.(ports)); (lit "privileged", DBool r.(privileged));
     (lit "readonly_rootfs", DBool r.(readonly_rootfs)); (lit "cap_add", dbg_option (dbg_vec DStr) r.(cap_add));
     (lit "cap_drop", dbg_option (dbg_vec DStr) r.(cap_drop)); (lit "shm_size", dbg_option DNum r.(shm_size));
     (lit "startup_timeout", dbg_option DDuration r.(startup_timeout));
     (lit "working_dir", dbg_option DStr r.(working_dir)); (lit "user", dbg_option DStr r.(user));
     (lit "open_stdin", dbg_option DBool r.(open_stdin)); (lit "init", DBool r.(init));
     (lit "platform", dbg_option DStr r.(platform)); (lit "ssh", DBool r.(ssh));
     (lit "masked_paths", dbg_option (dbg_vec DStr) r.(masked_paths));
     (lit "readonly_paths", dbg_option (dbg_vec DStr) r.(readonly_paths)); (lit "kernel", dbg_option DStr r.(kernel))].

(** [impl Debug for ContainerAsync<I>], whose [image] is the request. *)
Definition dbg_ContainerAsync (dbg_image : Image -> Dbg) (c : Container.ContainerAsync) : Dbg :=
  DStruct (lit "ContainerAsync")
    [(lit "id", DStr c.(Container.id)); (lit "image", dbg_ContainerRequest dbg_image c.(Container.request));
     (lit "dropped", DBool c.(Container.dropped))].

(** [impl Debug for ExecResult]: its outputs are readers. *)
Definition dbg_ExecResult (r : Container.ExecResult) : Dbg :=
  DStruct (lit "ExecResult") [(lit "exit_code", dbg_option DNum r.(Container.result_exit_code))].

(** ** What can be told apart *)

(** [f] shows exactly what [R] tells apart. *)
Class Shows {A} (f : A -> Dbg) (R : relation A) := shows a b : f a = f b <-> R a b.

#[export] Instance DNum_shows : Shows DNum eq.
Proof. intros a b. split; [by intros [=]|by intros ->]. Qed.
#[export] Instance DBool_shows : Shows DBool eq.
Proof. intros a b. split; [by intros [=]|by intros ->]. Qed.
#[export] Instance DDuration_shows : Shows DDuration eq.
Proof. intros a b. split; [by intros [=]|by intros ->]. Qed.
#[export] Instance DStr_shows : Shows DStr eq.
Proof. intros a b. split; [by intros [=]|by intros ->]. Qed.
#[export] Instance dbg_option_shows {A} (f : A -> Dbg) R : Shows f R -> Shows (dbg_option f) (option_Forall2 R).
Proof.
  intros Hf [a|] [b|]; cbn; split; intros E.
  - constructor. injection E. apply Hf.
  - inversion E as [? ? Hr|]. f_equal. f_equal. by apply Hf.
  - done.
  - inversion E.
  - done.
  - inversion E.
  - constructor.
  - done.
Qed.
#[export] Instance dbg_vec_shows {A} (f : A -> Dbg) R : Shows f R -> Shows (dbg_vec f) (Forall2 R).
Proof.
  intros Hf xs ys. unfold dbg_vec. split.
  - intros [= E]. revert ys E. induction xs as [|x xs IH]; intros [|y ys] E; try done.
    cbn in E. injection E as Ex E. constructor; [by apply Hf|by apply IH].
  - intros Hxs. f_equal. induction Hxs as [|x y xs ys Hx _ IH]; [done|]. cbn. f_equal; [by apply Hf|done].
Qed.
Lemma Forall2_eq_iff {A} (xs ys : list A) : Forall2 eq xs ys <-> xs = ys.
Proof.
  split; [|intros ->; induction ys; by constructor]. induction 1 as [|x y xs ys -> _ ->]; done.
Qed.
Lemma option_Forall2_eq_iff {A} (a b : option A) : option_Forall2 eq a b <-> a = b.
Proof. split; [by intros [? ? ->|]|intros ->; destruct b; by constructor]. Qed.
Lemma option_shows_eq {A} (f : A -> Dbg) : Shows f eq -> Shows (dbg_option f) eq.
Proof. intros Hf a b. rewrite (shows (Shows := dbg_option_shows f eq Hf)). apply option_Forall2_eq_iff. Qed.
Lemma vec_shows_eq {A} (f : A -> Dbg) : Shows f eq -> Shows (dbg_vec f) eq.
Proof. intros Hf a b. rewrite (shows (Shows := dbg_vec_shows f eq Hf)). apply Forall2_eq_iff. Qed.
#[export] Hint Extern 1 (Shows (dbg_option _) eq) => apply option_shows_eq : typeclass_instances.
#[export] Hint Extern 1 (Shows (dbg_vec _) eq) => apply vec_shows_eq : typeclass_instances.

#[export] Instance dbg_bytes_shows : Shows dbg_bytes eq.
Proof.
  unfold dbg_bytes. apply vec_shows_eq. intros a b. split; [|by intros ->]. intros [= E%N2Z.inj].
  pose proof (Byte.of_to_N a) as Ha. pose proof (Byte.of_to_N b) as Hb. rewrite E in Ha. congruence.
Qed.
#[export] Instance dbg_ContainerPort_shows : Shows dbg_ContainerPort eq.
Proof. intros [n|n|n] [m|m|m]; split; try done; (by intros [= ->]) || (by intros [= E]; rewrite E). Qed.
#[export] Instance dbg_LogSource_shows : Shows dbg_LogSource eq.
Proof. intros [] []; split; done. Qed.

(** What is printed of a header, of credentials, of a body. *)
Definition same_header (h h' : str * str) : Prop := h.1 = h'.1 /\ (to_ascii_lowercase h.1 = lit "authorization" \/ h.2 = h'.2).
Definition same_auth (a a' : Auth) : Prop :=
  match a, a' with
  | Basic u _, Basic u' _ => u = u'
  | Bearer _, Bearer _ => True
  | _, _ => False
  end.
Definition same_length (b b' : list byte) : Prop := len b = len b'.

(** Two HTTP waits that differ in their secrets, bodies of the same length, and
    matchers only. *)
Record same_strategy (s s' : HttpWaitStrategy) : Prop := {
  same_path : s.(path) = s'.(path);
  same_port : s.(port) = s'.(port);
  same_method : s.(method) = s'.(method);
  same_headers : Forall2 same_header s.(headers) s'.(headers);
  same_body : option_Forall2 same_length s.(http_body) s'.(http_body);
  same_credentials : option_Forall2 same_auth s.(auth) s'.(auth);
  same_poll_interval : s.(poll_interval) = s'.(poll_interval);
  same_request_timeout : s.(request_timeout) = s'.(request_timeout);
}.
Definition same_wait (w w' : WaitFor) : Prop :=
  match w, w' with Http s, Http s' => same_strategy s s' | _, _ => w = w' end.
Record same_image (g g' : GenericImage) : Prop := {
  same_name : g.(generic_name) = g'.(generic_name);
  same_tag : g.(generic_tag) = g'.(generic_tag);
  same_waits : Forall2 same_wait g.(wait_for) g'.(wait_for);
  same_entrypoint : g.(generic_entrypoint) = g'.(generic_entrypoint);
  same_ports : g.(exposed_ports) = g'.(exposed_ports);
}.

#[export] Instance dbg_RedactedHeaders_shows : Shows dbg_RedactedHeaders (Forall2 same_header).
Proof.
  unfold dbg_RedactedHeaders. apply dbg_vec_shows. intros [k v] [k' v']. unfold same_header. cbn. split.
  - intros [= -> E]. split; [done|]. revert E. unfold is_authorization, eq_ignore_ascii_case.
    case_bool_decide as Ek; [by left|by right].
  - intros [-> [Ek| ->]]; [|done]. unfold is_authorization, eq_ignore_ascii_case. by rewrite bool_decide_true.
Qed.
#[export] Instance dbg_Auth_shows : Shows dbg_Auth same_auth.
Proof. intros [u p|t] [u' p'|t']; cbn; split; try done; [by intros [=]|by intros ->]. Qed.
#[export] Instance body_len_shows : Shows (fun b => DNum (len b)) same_length.
Proof. intros b b'. unfold same_length. split; [by intros [=]|by intros ->]. Qed.

(** A struct is told apart by its fields. *)
Lemma struct_eq name fs fs' : DStruct name fs = DStruct name fs' <-> fs = fs'.
Proof. split; [by intros [=]|by intros ->]. Qed.
Lemma field_eq (k : str) (d d' : Dbg) fs fs' : (k, d) :: fs = (k, d') :: fs' <-> d = d' /\ fs = fs'.
Proof. split; [by intros [=]|by intros [-> ->]]. Qed.
Lemma no_field_eq : ([] : list (str * Dbg)) = [] <-> True.
Proof. done. Qed.
Lemma tuple_eq name d d' : DTuple name [d] = DTuple name [d'] <-> d = d'.
Proof. split; [by intros [=]|by intros ->]. Qed.

#[export] Instance dbg_HttpWaitStrategy_shows : Shows dbg_HttpWaitStrategy same_strategy.
Proof.
  intros s s'. unfold dbg_HttpWaitStrategy. rewrite struct_eq, !field_eq, no_field_eq.
  rewrite !(shows (f := DStr)), !(shows (f := DDuration)), (shows (f := dbg_option dbg_ContainerPort) (R := eq)),
    (shows (f := dbg_RedactedHeaders)), (shows (f := dbg_option dbg_Auth)),
    (shows (f := dbg_option (fun b => DNum (len b)))).
  split; [intros (? & ? & ? & ? & ? & ? & ? & ? & _); by split|by intros []; split_and!].
Qed.
#[export] Instance dbg_LogWaitStrategy_shows : Shows dbg_LogWaitStrategy eq.
Proof.
  intros [so m t] [so' m' t']. unfold dbg_LogWaitStrategy. rewrite struct_eq, !field_eq, no_field_eq. cbn.
  rewrite (shows (f := dbg_LogSource)), (shows (f := dbg_bytes)), (shows (f := DNum)).
  split; [by intros (-> & -> & -> & _)|by intros [=]].
Qed.
#[export] Instance dbg_HealthWaitStrategy_shows : Shows dbg_HealthWaitStrategy eq.
Proof. intros [d] [d']. split; by intros [= ->]. Qed.
#[export] Instance dbg_ExitWaitStrategy_shows : Shows dbg_ExitWaitStrategy eq.
Proof.
  intros [c d] [c' d']. unfold dbg_ExitWaitStrategy. rewrite struct_eq, !field_eq, no_field_eq. cbn.
  rewrite (shows (f := dbg_option DNum) (R := eq)), (shows (f := DDuration)). split; [by intros (-> & -> & _)|by intros [=]].
Qed.
#[export] Instance dbg_WaitFor_shows : Shows dbg_WaitFor same_wait.
Proof.
  intros w w'. destruct w as [|a|a|a|a|a], w' as [|b|b|b|b|b]; cbn; try (split; intros E; discriminate E || done);
    rewrite ?tuple_eq, ?struct_eq, ?field_eq, ?no_field_eq.
  - rewrite (shows (f := dbg_LogWaitStrategy)). split; [by intros ->|by intros [=]].
  - rewrite (shows (f := DDuration)). split; [by intros [-> _]|by intros [=]].
  - rewrite (shows (f := dbg_HealthWaitStrategy)). split; [by intros ->|by intros [=]].
  - by rewrite (shows (f := dbg_HttpWaitStrategy)).
  - rewrite (shows (f := dbg_ExitWaitStrategy)). split; [by intros ->|by intros [=]].
Qed.

(** C29: The debug form of an image hides the secrets of its HTTP waits, and only them:
    two images are printed alike exactly if they differ in nothing but passwords,
    tokens, the values of authorization headers (whatever the case of their names),
    the bytes of bodies of the same length, and the matchers.  So a request or a handle
    that is printed with its image shows no more of them either. *)
Theorem debug_redacts (g g' : GenericImage) :
  (dbg_GenericImage g = dbg_GenericImage g' <-> same_image g g') /\
  forall escape pretty r c, same_image g g' ->
    show_Dbg escape pretty (dbg_ContainerRequest (fun _ => dbg_GenericImage g) r) =
      show_Dbg escape pretty (dbg_ContainerRequest (fun _ => dbg_GenericImage g') r) /\
    show_Dbg escape pretty (dbg_ContainerAsync (fun _ => dbg_GenericImage g) c) =
      show_Dbg escape pretty (dbg_ContainerAsync (fun _ => dbg_GenericImage g') c).
Proof.
  assert (dbg_GenericImage g = dbg_GenericImage g' <-> same_image g g') as Hg.
  { unfold dbg_GenericImage. rewrite struct_eq, !field_eq, no_field_eq.
    rewrite !(shows (f := DStr)), (shows (f := dbg_vec dbg_WaitFor)), (shows (f := dbg_option DStr) (R := eq)),
      (shows (f := dbg_vec dbg_ContainerPort) (R := eq)).
    split; [intros (? & ? & ? & ? & ? & _); by split|by intros []; split_and!]. }
  split; [done|]. intros escape pretty r c Hs%Hg. by rewrite Hs.
Qed.

(** ** An image with secrets *)

Definition secretive (password token : str) (b : list byte) : GenericImage :=
  Builder.with_wait_for (GenericImage_new (lit "nginx") (lit "1"))
    (Http (Wait.with_header (with_body (with_basic_auth (HttpWaitStrategy_new (lit "/")) (lit "user") password) b)
             (lit "authorization") token)).
Definition quoted (s : str) : str := x22 :: s ++ [x22].

Lemma debug_redacts_witness :
  show_Dbg quoted false (dbg_GenericImage (secretive (lit "p1") (lit "t1") (lit "abc"))) =
    lit "GenericImage { name: " ++ quoted (lit "nginx") ++ lit ", tag: " ++ quoted (lit "1") ++
    lit ", wait_for: [Http(HttpWaitStrategy { path: " ++ quoted (lit "/") ++ lit ", port: None, method: " ++
    quoted (lit "GET") ++ lit ", headers: [(" ++ quoted (lit "authorization") ++ lit ", " ++ quoted (lit "***") ++
    lit ")], body_len: Some(3), auth: Some(Basic { username: " ++ quoted (lit "user") ++ lit ", password: " ++
    quoted (lit "***") ++ lit " }), poll_interval: 100ms, request_timeout: 10s })], entrypoint: None, exposed_ports: [] }" /\
  dbg_GenericImage (secretive (lit "p1") (lit "t1") (lit "abc")) =
    dbg_GenericImage (secretive (lit "p2") (lit "t2") (lit "xyz")) /\
  ~ same_image (secretive (lit "p1") (lit "t1") (lit "abc")) (secretive (lit "p1") (lit "t1") (lit "abcd")).
Proof.
  split; [vm_compute; reflexivity|]. split.
  - apply (debug_redacts (secretive (lit "p1") (lit "t1") (lit "abc")) (secretive (lit "p2") (lit "t2") (lit "xyz"))).
    split; try reflexivity. constructor; [|constructor].
    split; try reflexivity.
    + constructor; [|constructor]. split; [reflexivity|]. left. reflexivity.
    + constructor. reflexivity.
    + constructor. reflexivity.
  - intros Hs. apply (debug_redacts (secretive (lit "p1") (lit "t1") (lit "abc"))
      (secretive (lit "p1") (lit "t1") (lit "abcd"))) in Hs. vm_compute in Hs. discriminate Hs.
Defined.

(** [{:#?}] of a nested value. *)
Example pretty_nested :
  show_Dbg quoted true (DStruct (lit "A") [(lit "x", DList [DNum 1]); (lit "y", DTuple (lit "None") [])]) =
  lit "A {" ++ LF :: lit "    x: [" ++ LF :: lit "        1," ++ LF :: lit "    ]," ++ LF :: lit "    y: None," ++ LF :: lit "}".
Proof. vm_compute. reflexivity. Qed.
