(* ===== verification/ImageConfig.v ===== *)
(** * OCI image configurations ([src/src/core/client/image_config.rs])

    The macOS client resolves an image's default command itself: it follows an
    index to a manifest to a configuration.  [nojson] is the class [JsonLib]; the
    blobs come from the interface [ContentStore]; [host_arch] is
    [std::env::consts::ARCH]. *)

From S2P Require Import Prelude Utf8 Errors Json Effect.

Record ImageConfig := mkImageConfig {
  config_entrypoint : option (list str);
  config_cmd : option (list str);
}.

(** ** The command of the init process *)

Definition is_cleared_entrypoint (entrypoint : list str) : bool :=
  match entrypoint with [e] => bool_decide (e = []) | _ => false end.

Definition no_command : Error := other (lit "no command specified: Apple container XPC does not resolve the image's default CMD/ENTRYPOINT and none was provided, use with_cmd() or an Image that provides cmd()").

Definition effective_command (self : ImageConfig) (entrypoint_override : option str)
    (cmd_override : list str) : Result (str * list str) :=
  let entrypoint := match entrypoint_override with
                    | Some [] => None
                    | Some ep => Some [ep]
                    | None => self.(config_entrypoint)
                    end in
  let entrypoint := match entrypoint with
                    | Some ep => if is_cleared_entrypoint ep then None else Some ep
                    | None => None
                    end in
  let cmd := if negb (bool_decide (cmd_override = [])) then Some cmd_override
             else self.(config_cmd) in
  match entrypoint, cmd with
  | Some (exe :: ep), Some (c :: cmd) => Ok (exe, ep ++ c :: cmd)
  | Some (exe :: args), _ => Ok (exe, args)
  | _, Some (exe :: c) => Ok (exe, c)
  | _, _ => Err no_command
  end.

(** Docker's rule: the entry point of the user or else of the image, where a
    single empty string means none, followed by the arguments of the user or
    else of the image. *)
Definition docker_entrypoint (image_ep : option (list str)) (user_ep : option str) : list str :=
  let ep := match user_ep with Some e => [e] | None => default [] image_ep end in
  if bool_decide (ep = [ [] ]) then [] else ep.
Definition docker_arguments (image_cmd : option (list str)) (user_cmd : list str) : list str :=
  match user_cmd with [] => default [] image_cmd | _ => user_cmd end.

Lemma docker_entrypoint_spec image_ep user_ep :
  docker_entrypoint image_ep user_ep =
    default [] (match match user_ep with Some [] => None | Some ep => Some [ep] | None => image_ep end with
                | Some ep => if is_cleared_entrypoint ep then None else Some ep
                | None => None
                end).
Proof.
  unfold docker_entrypoint. destruct user_ep as [[|b ep]|]; [done..|].
  destruct image_ep as [[|[|b e] [|f es]]|]; cbn; done.
Qed.

(** The executable and arguments of the init process are the head and tail of
    Docker's merge of the entry point and the command, and an error is reported
    exactly when that merge is empty. *)
Theorem effective_command_spec (self : ImageConfig) (user_ep : option str) (user_cmd : list str) :
  effective_command self user_ep user_cmd =
    match docker_entrypoint self.(config_entrypoint) user_ep
          ++ docker_arguments self.(config_cmd) user_cmd with
    | [] => Err no_command
    | exe :: args => Ok (exe, args)
    end.
Proof.
  rewrite docker_entrypoint_spec. unfold effective_command. cbv zeta.
  assert (default [] (if negb (bool_decide (user_cmd = [])) then Some user_cmd else self.(config_cmd)) =
    docker_arguments self.(config_cmd) user_cmd) as <- by (by destruct user_cmd).
  destruct (match match user_ep with Some [] => None | Some ep => Some [ep]
                  | None => config_entrypoint self end with
            | Some ep => if is_cleared_entrypoint ep then None else Some ep
            | None => None end) as [[|exe ep]|];
    destruct (if negb (bool_decide (user_cmd = [])) then Some user_cmd else config_cmd self)
      as [[|c cmd]|]; cbn; try done; by rewrite app_nil_r.
Qed.

(** ** Reading descriptors, manifests and configurations *)

Record Descriptor := mkDescriptor { media_type : str; digest : str }.

Section Read.
Context `{JsonLib}.

Definition json_err {A} (what : str) (r : result str A) : Result A :=
  map_err (fun e => Client (Json (what ++ lit ": " ++ e))) r.

(** [to_member(k).and_then(required).and_then(String::try_from)] *)
Definition string_member (v : Value) (k : str) : result str str :=
  w ← required v k; to_string w.

Definition parse_descriptor (desc_raw : str) : Result Descriptor :=
  value ← json_err (lit "invalid descriptor JSON") (json_parse desc_raw);
  media_type ← json_err (lit "descriptor mediaType") (string_member value (lit "mediaType"));
  digest ← json_err (lit "descriptor digest") (string_member value (lit "digest"));
  Ok (mkDescriptor media_type digest).

Definition manifest_digest (item : Value) : Result str :=
  json_err (lit "manifest digest") (string_member item (lit "digest")).

Definition manifest_platform_os_arch (item : Value) : option (str * str) :=
  platform ← optional item (lit "platform");
  os ← optional_string platform (lit "os");
  arch ← optional_string platform (lit "architecture");
  Some (os, arch).
Definition manifest_platform_os (item : Value) : option str :=
  platform ← optional item (lit "platform"); optional_string platform (lit "os").
Definition manifest_platform_architecture (item : Value) : option str :=
  platform ← optional item (lit "platform"); optional_string platform (lit "architecture").
Definition is_attestation_manifest (item : Value) : bool :=
  bool_decide (manifest_platform_architecture item = Some (lit "unknown")).

(** ** Platforms *)

Context (host_arch : str).

Definition host_architecture : str :=
  if bool_decide (host_arch = lit "aarch64") then lit "arm64"
  else if bool_decide (host_arch = lit "x86_64") then lit "amd64"
  else lit "arm64".

Definition platform_os_and_raw_arch (platform : option str) : str * str :=
  match platform with
  | None => (lit "linux", [])
  | Some p => match split "/" p with
              | first :: arch :: _ => (first, arch)
              | [first] => (lit "linux", first)
              | [] => (lit "linux", [])
              end
  end.

Definition target_os_and_architecture (platform : option str) : str * str :=
  let '(os, raw_arch) := platform_os_and_raw_arch platform in
  let arch :=
    if bool_decide (raw_arch = []) then host_architecture
    else if bool_decide (raw_arch ∈ [lit "arm64"; lit "aarch64"]) then lit "arm64"
    else if bool_decide (raw_arch ∈ [lit "amd64"; lit "x86_64"]) then lit "amd64"
    else host_architecture in
  (os, arch).

(** ** The choice of a manifest *)

(** One pass over the manifests: the first that [p] accepts. *)
Fixpoint first_manifest (p : Value -> bool) (manifests : list Value) : option Value :=
  match manifests with
  | [] => None
  | item :: rest => if p item then Some item else first_manifest p rest
  end.

Definition matches (os arch : str) (item : Value) : bool :=
  bool_decide (manifest_platform_os_arch item = Some (os, arch)).
Definition matches_os (os : str) (item : Value) : bool :=
  bool_decide (manifest_platform_os item = Some os) && negb (is_attestation_manifest item).

Definition select_manifest (manifests : list Value) (platform : option str) : Result str :=
  let '(target_os, target_arch) := target_os_and_architecture platform in
  match first_manifest (matches target_os target_arch) manifests with
  | Some item => manifest_digest item
  | None =>
      match platform with
      | Some p => Err (Client (ClientOther (lit "no matching manifest for " ++ p)))
      | None =>
          match first_manifest (matches target_os (lit "arm64")) manifests with
          | Some item => manifest_digest item
          | None =>
              match first_manifest (matches target_os (lit "amd64")) manifests with
              | Some item => manifest_digest item
              | None =>
                  match first_manifest (matches_os target_os) manifests with
                  | Some item => manifest_digest item
                  | None =>
                      first ← ok_or (first_manifest (fun m => negb (is_attestation_manifest m)) manifests)
                                (Client (Json (lit "index has no valid manifests")));
                      manifest_digest first
                  end
              end
          end
      end
  end.

Definition index_manifests (index_bytes : list byte) : Result (list Value) :=
  text ← json_err (lit "index is not UTF-8") (str_from_utf8 index_bytes);
  parsed ← json_err (lit "invalid index JSON") (json_parse text);
  json_err (lit "index manifests") (v ← required parsed (lit "manifests"); to_array v).

Definition select_manifest_digest (index_bytes : list byte) (platform : option str) : Result str :=
  manifests ← index_manifests index_bytes; select_manifest manifests platform.

Definition config_digest_from_manifest (manifest_bytes : list byte) : Result str :=
  text ← json_err (lit "manifest is not UTF-8") (str_from_utf8 manifest_bytes);
  parsed ← json_err (lit "invalid manifest JSON") (json_parse text);
  json_err (lit "manifest config.digest")
    (c ← required parsed (lit "config"); string_member c (lit "digest")).

(** [map(..).collect::<Option<Vec<_>>>()] *)
Definition string_array (v : Value) (k : str) : option (list str) :=
  arr ← optional v k;
  items ← to_ok (to_array arr);
  mapM (fun w => to_ok (to_string w)) items.

Definition parse_image_config (config_bytes : list byte) : Result ImageConfig :=
  text ← json_err (lit "image config is not UTF-8") (str_from_utf8 config_bytes);
  parsed ← json_err (lit "invalid image config JSON") (json_parse text);
  let config := optional parsed (lit "config") in
  Ok (mkImageConfig (c ← config; string_array c (lit "Entrypoint"))
                    (c ← config; string_array c (lit "Cmd"))).
End Read.

(** The blobs of the content store, by digest. *)
Class ContentStore := { content_get : str -> M (list byte) }.

Definition INDEX_TYPES : list str :=
  [lit "application/vnd.oci.image.index.v1+json";
   lit "application/vnd.docker.distribution.manifest.list.v2+json"].
Definition MANIFEST_TYPES : list str :=
  [lit "application/vnd.oci.image.manifest.v1+json";
   lit "application/vnd.docker.distribution.manifest.v2+json"].

Definition resolve_image_config `{JsonLib} `{ContentStore} (host_arch desc_raw : str)
    (platform : option str) : M ImageConfig :=
  desc ← lift (parse_descriptor desc_raw);
  config_digest ←
    (if bool_decide (desc.(media_type) ∈ INDEX_TYPES) then
       index_bytes ← content_get desc.(digest);
       manifest_digest ← lift (select_manifest_digest host_arch index_bytes platform);
       manifest_bytes ← content_get manifest_digest;
       lift (config_digest_from_manifest manifest_bytes)
     else if bool_decide (desc.(media_type) ∈ MANIFEST_TYPES) then
       manifest_bytes ← content_get desc.(digest);
       lift (config_digest_from_manifest manifest_bytes)
     else if bool_decide (desc.(media_type) = lit "application/vnd.oci.image.config.v1+json") then
       mret desc.(digest)
     else fail (Client (ClientOther (lit "unsupported image descriptor mediaType: " ++ desc.(media_type)))));
  config_bytes ← content_get config_digest;
  lift (parse_image_config config_bytes).

(** ** How a manifest is chosen *)

Section Select.
Context `{JsonLib}.
Context (host_arch : str).

(** The preferences when no platform is asked for, best first; a manifest that
    meets none of them is never chosen. *)
Definition preferences (os arch : str) : list (Value -> bool) :=
  [matches os arch; matches os (lit "arm64"); matches os (lit "amd64"); matches_os os;
   fun m => negb (is_attestation_manifest m)].

(** How many preferences come before the first that [item] meets. *)
Fixpoint rank (ps : list (Value -> bool)) (item : Value) : nat :=
  match ps with [] => 0 | p :: ps => if p item then 0 else S (rank ps item) end.

(** [item] is chosen among [items]: no item is better, and none before it is as good. *)
Definition chosen (ps : list (Value -> bool)) (items : list Value) (item : Value) : Prop :=
  (rank ps item < length ps)%nat /\
  exists before after, items = before ++ item :: after /\
    Forall (fun x => rank ps item < rank ps x)%nat before /\
    Forall (fun x => rank ps item <= rank ps x)%nat after.

Fixpoint pick (ps : list (Value -> bool)) (items : list Value) : option Value :=
  match ps with
  | [] => None
  | p :: ps => match first_manifest p items with Some item => Some item | None => pick ps items end
  end.

Lemma first_manifest_Some p items item :
  first_manifest p items = Some item -> p item = true /\ exists before after,
    items = before ++ item :: after /\ Forall (fun x => p x = false) before.
Proof.
  induction items as [|x items IH]; cbn; [done|]. destruct (p x) eqn:E.
  - intros [= ->]. split; [done|]. by exists [], items.
  - intros Hf. destruct (IH Hf) as (Hp & before & after & -> & Hb). split; [done|].
    exists (x :: before), after. by repeat constructor.
Qed.
Lemma first_manifest_None p items : first_manifest p items = None -> Forall (fun x => p x = false) items.
Proof.
  induction items as [|x items IH]; cbn; [by constructor|]. destruct (p x) eqn:E; [done|]. by constructor; auto.
Qed.

Lemma rank_cons_false p ps item : p item = false -> rank (p :: ps) item = S (rank ps item).
Proof. cbn. by intros ->. Qed.

Lemma pick_spec ps items :
  match pick ps items with
  | Some item => chosen ps items item
  | None => Forall (fun x => rank ps x = length ps) items
  end.
Proof.
  induction ps as [|p ps IH]; cbn [pick].
  { by apply Forall_true. }
  destruct (first_manifest p items) as [item|] eqn:Ef.
  - apply first_manifest_Some in Ef as (Hp & before & after & -> & Hb). unfold chosen. cbn.
    rewrite Hp. split; [lia|]. exists before, after. split; [done|]. split.
    + eapply Forall_impl; [exact Hb|]. cbn. intros x ->. lia.
    + apply Forall_true. intros x. lia.
  - apply first_manifest_None in Ef. destruct (pick ps items) as [item|].
    + destruct IH as (Hr & before & after & -> & Hb & Ha).
      apply Forall_app in Ef as [Eb Ei]. apply Forall_cons in Ei as [Ei Ea].
      split; [rewrite rank_cons_false by done; cbn; lia|].
      exists before, after. rewrite rank_cons_false by done. split; [done|]. split.
      * eapply Forall_impl; [apply Forall_and; split; [exact Eb | exact Hb]|]. cbn. intros x [-> ?]. lia.
      * eapply Forall_impl; [apply Forall_and; split; [exact Ea | exact Ha]|]. cbn. intros x [-> ?]. lia.
    + eapply Forall_impl; [apply Forall_and; split; [exact Ef | exact IH]|]. cbn. intros x [-> ->]. done.
Qed.

Lemma rank_full ps x : rank ps x = length ps <-> Forall (fun p => p x = false) ps.
Proof.
  induction ps as [|p ps IH]; cbn; [by split|]. rewrite Forall_cons. destruct (p x).
  - split; [done|]. by intros [? _].
  - rewrite <- IH. split; [intros [= ->] | intros [_ ->]]; done.
Qed.

(** Every architecture asked for is one of the two. *)
Lemma target_architecture platform :
  (target_os_and_architecture host_arch platform).2 = lit "arm64" \/
  (target_os_and_architecture host_arch platform).2 = lit "amd64".
Proof.
  unfold target_os_and_architecture, host_architecture.
  destruct (platform_os_and_raw_arch platform) as [os raw]. cbn [snd]. repeat case_bool_decide; auto.
Qed.

Lemma matches_not_attestation os arch item :
  arch = lit "arm64" \/ arch = lit "amd64" -> matches os arch item = true ->
  is_attestation_manifest item = false.
Proof.
  unfold matches, is_attestation_manifest, manifest_platform_os_arch, manifest_platform_architecture.
  intros Ha E%bool_decide_eq_true. apply bool_decide_eq_false.
  apply bind_Some in E as (pl & -> & E). apply bind_Some in E as (o & _ & E).
  apply bind_Some in E as (a & E' & [= -> ->]%(inj Some)). unfold mbind, option_bind. rewrite E'.
  intros E%(inj Some). by destruct Ha as [-> | ->].
Qed.

Lemma select_manifest_pick manifests platform :
  let t := target_os_and_architecture host_arch platform in
  select_manifest host_arch manifests platform =
    match platform with
    | Some p => match pick [matches t.1 t.2] manifests with
                | Some item => manifest_digest item
                | None => Err (Client (ClientOther (lit "no matching manifest for " ++ p)))
                end
    | None => match pick (preferences t.1 t.2) manifests with
              | Some item => manifest_digest item
              | None => Err (Client (Json (lit "index has no valid manifests")))
              end
    end.
Proof.
  unfold select_manifest. destruct (target_os_and_architecture host_arch platform) as [os arch].
  cbn [pick preferences fst snd]. destruct platform as [p|].
  - by destruct (first_manifest _ manifests).
  - repeat match goal with |- context [first_manifest ?p manifests] => destruct (first_manifest p manifests); [done|] end.
    done.
Qed.
End Select.

(** C25: Which manifest of an index is used.  With a platform, the first manifest
    of exactly that system and architecture, and an error when there is none:
    never one for another architecture.  Without one, the manifest that is best
    by the order of [preferences] and the first among equals: the host's
    architecture, then arm64, then amd64, then any of the system, then any at
    all.  An attestation (architecture "unknown") is never used, and without a
    platform an error means that there was nothing else. *)
Theorem select_manifest_digest_spec `{JsonLib} host_arch index_bytes manifests platform :
  index_manifests index_bytes = Ok manifests ->
  let '(os, arch) := target_os_and_architecture host_arch platform in
  let ps := if platform is Some _ then [matches os arch] else preferences os arch in
  (exists item, chosen ps manifests item /\ is_attestation_manifest item = false /\
     select_manifest_digest host_arch index_bytes platform = manifest_digest item) \/
  (Forall (fun m => rank ps m = length ps) manifests /\
   (platform = None -> Forall (fun m => is_attestation_manifest m = true) manifests) /\
   exists e, select_manifest_digest host_arch index_bytes platform = Err e).
Proof.
  intros Ei. unfold select_manifest_digest. rewrite Ei. cbn [mbind result_bind].
  rewrite select_manifest_pick. pose proof (target_architecture host_arch platform) as Ht.
  destruct (target_os_and_architecture host_arch platform) as [os arch]. cbn [fst snd] in *.
  assert (forall item, matches os arch item = true -> is_attestation_manifest item = false) as Hm
    by (intros; by eapply matches_not_attestation).
  assert (forall item, matches_os os item = true -> is_attestation_manifest item = false) as Ho
    by (intros item [_ ?%negb_true_iff]%andb_true_iff; done).
  destruct platform as [p|].
  - pose proof (pick_spec [matches os arch] manifests) as Hp.
    destruct (pick [matches os arch] manifests) as [item|].
    + left. exists item. split; [done|]. split; [|done]. apply Hm.
      destruct Hp as [Hr _]. cbn in Hr. by destruct (matches os arch item); [|lia].
    + right. split_and!; [done|done|by eexists].
  - pose proof (pick_spec (preferences os arch) manifests) as Hp.
    destruct (pick (preferences os arch) manifests) as [item|].
    + left. exists item. split; [done|]. split; [|done]. destruct Hp as [Hr _].
      unfold preferences in Hr. cbn [rank length] in Hr.
      destruct (matches os arch item) eqn:E1; [by apply Hm|].
      destruct (matches os (lit "arm64") item) eqn:E2; [by eapply matches_not_attestation; [left|]|].
      destruct (matches os (lit "amd64") item) eqn:E3; [by eapply matches_not_attestation; [right|]|].
      destruct (matches_os os item) eqn:E4; [by apply Ho|].
      destruct (is_attestation_manifest item); [cbn in Hr; lia | done].
    + right. split; [done|]. split; [|by eexists]. intros _.
      eapply Forall_impl; [exact Hp|]. cbn beta. intros m Hr%rank_full.
      unfold preferences in Hr. rewrite !Forall_cons in Hr. destruct Hr as (_ & _ & _ & _ & Hr & _).
      by apply negb_false_iff in Hr.
Qed.

(** An index with an attestation first, as [docker buildx] writes it. *)
Definition sample_manifest (d os arch : str) : json :=
  JObj [(lit "digest", JStr d); (lit "platform", JObj [(lit "os", JStr os); (lit "architecture", JStr arch)])].
Definition sample_index : list byte :=
  print (JObj [(lit "manifests", JArr [sample_manifest (lit "d0") (lit "unknown") (lit "unknown");
                                       sample_manifest (lit "d1") (lit "linux") (lit "amd64");
                                       sample_manifest (lit "d2") (lit "linux") (lit "arm64")])]).
Definition sample_manifests : list json :=
  [sample_manifest (lit "d0") (lit "unknown") (lit "unknown");
   sample_manifest (lit "d1") (lit "linux") (lit "amd64");
   sample_manifest (lit "d2") (lit "linux") (lit "arm64")].

Example select_default : select_manifest_digest (lit "aarch64") sample_index None = Ok (lit "d2").
Proof. vm_compute. reflexivity. Qed.
Example select_s390x : select_manifest_digest (lit "x86_64") sample_index (Some (lit "windows/amd64"))
  = Err (Client (ClientOther (lit "no matching manifest for windows/amd64"))).
Proof. vm_compute. reflexivity. Qed.

Lemma select_manifest_digest_spec_witness :
  index_manifests sample_index = Ok sample_manifests /\
  exists item, chosen (preferences (lit "linux") (lit "arm64")) sample_manifests item /\
    is_attestation_manifest item = false /\ manifest_digest item = Ok (lit "d2").
Proof.
  assert (index_manifests sample_index = Ok sample_manifests) as Ei by (vm_compute; reflexivity).
  split; [exact Ei|].
  destruct (@select_manifest_digest_spec DomJson (lit "aarch64") sample_index sample_manifests None Ei)
    as [(item & Hc & Ha & E)|(_ & _ & e & E)].
  - exists item. split; [exact Hc|]. split; [exact Ha|]. rewrite <- E. exact select_default.
  - exfalso. pose proof select_default as E'. rewrite E in E'. discriminate.
Defined.
