(* ===== verification/Watchdog.v ===== *)
(** * The watchdog ([src/src/watchdog.rs], [src/src/core/util.rs])

    Containers are registered with a shell process, the reaper, which removes
    them when its input ends.  Here the process-global state behind [register],
    what is written to each reaper's pipe, and what the reaper's script makes of
    it.  Whether a reaper can be started and a line can be written is decided by
    a [Reapers], any function of what happened before. *)

From S2P Require Import Prelude Utf8.

(** ** Container ids ([util.rs]) *)

Definition id_byte (b : byte) : bool := is_ascii_alphanumeric b || bool_decide (b ∈ lit "_.-").

Definition is_valid_container_id (id : str) : bool :=
  if (len id <? 2) || (63 <? len id) then false
  else match id with
       | b :: rest => if negb (is_ascii_alphanumeric b) then false else forallb id_byte rest
       | [] => false
       end.

(** [unique_suffix]: the process, the clock and the counter. *)
Definition unique_suffix (pid nanos count : Z) : str :=
  show_nat pid ++ lit "-" ++ show_nat nanos ++ lit "-" ++ show_nat count.

(** ** The reaper's script

    [while IFS= read -r id] takes the terminated lines, and the [case] drops the
    empty ones; the second loop removes each that was kept. *)
Definition terminated_lines (input : str) : list str :=
  let pieces := split x0a input in take (length pieces - 1) pieces.
Definition reaper_ids (input : str) : list str :=
  List.filter (fun id => negb (bool_decide (id = []))) (terminated_lines input).

(** ** The state *)

Definition MAX_SPAWN_FAILURES : Z := 3.

(** What happened; a reaper is named by the moment it was started. *)
Inductive Event :=
| Spawned (pipe : nat)
| SpawnFailed
| Wrote (pipe : nat) (id : str)
| WriteFailed (pipe : nat).

Class Reapers := {
  spawn_ok : list Event -> bool;
  write_ok : list Event -> nat -> str -> bool;
}.

Record Watchdog := mkWatchdog {
  reaper : option nat;
  spawn_failures : Z;
  exhausted_warned : bool;
  log : list Event;
}.

Definition Watchdog_new : Watchdog := mkWatchdog None 0 false [].

Definition set_reaper (w : Watchdog) (r : option nat) : Watchdog :=
  mkWatchdog r w.(spawn_failures) w.(exhausted_warned) w.(log).
Definition happened (w : Watchdog) (e : Event) : Watchdog :=
  mkWatchdog w.(reaper) w.(spawn_failures) w.(exhausted_warned) (w.(log) ++ [e]).

(** [SPAWN_FAILURES.fetch_add(1)] *)
Definition add_failure (w : Watchdog) : Watchdog :=
  mkWatchdog w.(reaper) ((w.(spawn_failures) + 1) mod 2 ^ 32) w.(exhausted_warned) w.(log).
Definition warn_exhausted_once (w : Watchdog) : Watchdog :=
  mkWatchdog w.(reaper) w.(spawn_failures) true w.(log).
Definition exhausted (w : Watchdog) : bool := MAX_SPAWN_FAILURES <=? w.(spawn_failures).
Definition warn_if_exhausted (w : Watchdog) : Watchdog :=
  if exhausted w then warn_exhausted_once w else w.

Section Register.
Context `{Reapers}.

Definition try_spawn_reaper (w : Watchdog) : option nat * Watchdog :=
  if spawn_ok w.(log) then
    let pipe := length w.(log) in (Some pipe, happened w (Spawned pipe))
  else (None, happened (add_failure w) SpawnFailed).

Definition write_id (w : Watchdog) (pipe : nat) (id : str) : bool * Watchdog :=
  if write_ok w.(log) pipe id then (true, happened w (Wrote pipe id))
  else (false, happened w (WriteFailed pipe)).

(** The second attempt, after the pipe of an existing reaper turned out dead. *)
Definition respawn (w : Watchdog) (id : str) : Watchdog :=
  let w := set_reaper w None in
  if exhausted w then warn_exhausted_once w
  else
    let '(r, w) := try_spawn_reaper w in
    let w := set_reaper w r in
    match r with
    | Some pipe =>
        let '(ok, w) := write_id w pipe id in
        if ok : bool then w
        else warn_if_exhausted (set_reaper (add_failure w) None)
    | None => warn_if_exhausted w
    end.

Definition write_or_respawn (w : Watchdog) (pipe : nat) (id : str) : Watchdog :=
  let '(ok, w) := write_id w pipe id in if ok : bool then w else respawn w id.

Definition register (w : Watchdog) (id : str) : Watchdog :=
  if negb (is_valid_container_id id) then w
  else
    match w.(reaper) with
    | Some pipe => write_or_respawn w pipe id
    | None =>
        if exhausted w then warn_exhausted_once w
        else
          let '(r, w) := try_spawn_reaper w in
          let w := set_reaper w r in
          match r with
          | Some pipe => write_or_respawn w pipe id
          | None => warn_if_exhausted w
          end
    end.

Definition register_all (ids : list str) : Watchdog := fold_left register ids Watchdog_new.
End Register.

(** ** What a reaper is told *)

Definition written_to (pipe : nat) (e : Event) : option str :=
  match e with Wrote p id => if bool_decide (p = pipe) then Some id else None | _ => None end.
Definition written (pipe : nat) (evs : list Event) : list str := omap (written_to pipe) evs.
(** The bytes on a pipe: [writeln!] of each id. *)
Definition pipe_input (pipe : nat) (evs : list Event) : str :=
  concat ((fun id => id ++ [x0a]) <$> written pipe evs).

Lemma id_byte_plain b : id_byte b = true -> b <> x0a.
Proof. intros Hb ->. vm_compute in Hb. discriminate. Qed.
Lemma alnum_id_byte b : is_ascii_alphanumeric b = true -> id_byte b = true.
Proof. unfold id_byte. by intros ->. Qed.

Lemma valid_id_bytes id : is_valid_container_id id = true -> id <> [] /\ Forall (fun b => id_byte b = true) id.
Proof.
  unfold is_valid_container_id. destruct (_ || _); [done|]. destruct id as [|b id]; [done|].
  destruct (is_ascii_alphanumeric b) eqn:E; [|done]. cbn. intros Hf. split; [done|].
  constructor; [by apply alnum_id_byte|]. by apply Forall_forall; intros x Hx%list_elem_of_In;
    apply (proj1 (List.forallb_forall _ _) Hf).
Qed.

Lemma split_lines (ids : list str) :
  Forall (fun id => x0a ∉ id) ids -> split x0a (concat ((fun id => id ++ [x0a]) <$> ids)) = ids ++ [ [] ].
Proof.
  induction 1 as [|id ids Hid _ IH]; [done|]. cbn [fmap list_fmap concat]. 
  rewrite <- app_assoc. cbn [app]. rewrite split_app, IH, split_solid by done. done.
Qed.

(** The reaper reads back the ids that were written. *)
Lemma reaper_reads ids :
  Forall (fun id => is_valid_container_id id = true) ids ->
  reaper_ids (concat ((fun id => id ++ [x0a]) <$> ids)) = ids.
Proof.
  intros Hv. unfold reaper_ids, terminated_lines. rewrite split_lines.
  - rewrite length_app. cbn [length]. rewrite Nat.add_sub, take_app_length.
    induction Hv as [|id ids [Hne _]%valid_id_bytes _ IH]; [done|]. cbn.
    case_bool_decide; [done|]. cbn. by rewrite IH.
  - eapply Forall_impl; [exact Hv|]. cbn beta. intros id [_ Hb]%valid_id_bytes Hx.
    rewrite Forall_forall in Hb. apply Hb, id_byte_plain in Hx. done.
Qed.

(** ** What holds of the state *)

Definition failed_write (pipe : nat) (evs : list Event) : Prop := WriteFailed pipe ∈ evs.

(** An event that may follow [evs]: a write goes to a pipe that has not failed,
    and is one of a valid id; a pipe fails after it was made. *)
Definition may_follow (ids : list str) (evs : list Event) (e : Event) : Prop :=
  match e with
  | Wrote p id => ~ failed_write p evs /\ id ∈ ids /\ is_valid_container_id id = true
  | WriteFailed p => (p < length evs)%nat
  | Spawned p => p = length evs
  | SpawnFailed => True
  end.

Inductive history (ids : list str) : list Event -> Prop :=
| history_nil : history ids []
| history_snoc evs e : history ids evs -> may_follow ids evs e -> history ids (evs ++ [e]).

Record inv (ids : list str) (w : Watchdog) : Prop := mkInv {
  inv_failures : 0 <= w.(spawn_failures) <= MAX_SPAWN_FAILURES;
  inv_warned : w.(exhausted_warned) = true <-> w.(spawn_failures) = MAX_SPAWN_FAILURES;
  inv_exhausted : w.(spawn_failures) = MAX_SPAWN_FAILURES -> w.(reaper) = None;
  inv_reaper p : w.(reaper) = Some p -> (p < length w.(log))%nat /\ ~ failed_write p w.(log);
  inv_history : history ids w.(log);
}.

Lemma history_failed ids evs p : history ids evs -> failed_write p evs -> (p < length evs)%nat.
Proof.
  unfold failed_write. induction 1 as [|evs e _ IH Hm]; [by intros ?%elem_of_nil|].
  rewrite length_app. intros [Hp|<-%list_elem_of_singleton]%elem_of_app; cbn in *; [specialize (IH Hp)|]; lia.
Qed.

Lemma history_mono ids ids' evs : (forall id, id ∈ ids -> id ∈ ids') -> history ids evs -> history ids' evs.
Proof.
  intros Hs. induction 1 as [|evs e _ IH Hm]; constructor; [done|]. destruct e; cbn in *; intuition.
Qed.

Lemma not_failed_snoc p evs e : ~ failed_write p evs -> e <> WriteFailed p -> ~ failed_write p (evs ++ [e]).
Proof. unfold failed_write. intros Hp He [?|Hq%list_elem_of_singleton]%elem_of_app; [done | by apply He]. Qed.

(** A state between two registrations, or in the middle of one: what is known
    besides the warning, which comes last. *)
Record quiet (ids : list str) (w : Watchdog) : Prop := mkQuiet {
  quiet_failures : 0 <= w.(spawn_failures) < MAX_SPAWN_FAILURES;
  quiet_warned : w.(exhausted_warned) = false;
  quiet_reaper p : w.(reaper) = Some p -> (p < length w.(log))%nat /\ ~ failed_write p w.(log);
  quiet_history : history ids w.(log);
}.

Lemma quiet_inv ids w : quiet ids w -> inv ids w.
Proof. intros [Hf Hw Hr Hh]. split; [lia| |lia|done|done]. rewrite Hw. split; [done|lia]. Qed.

(** A state where nothing was counted, or one failure and no reaper. *)
Lemma failed_inv ids w :
  0 <= w.(spawn_failures) <= MAX_SPAWN_FAILURES -> w.(exhausted_warned) = false -> w.(reaper) = None ->
  history ids w.(log) -> inv ids (warn_if_exhausted w).
Proof.
  intros Hf Hw Hr Hh. unfold warn_if_exhausted, exhausted.
  destruct (Z.leb_spec MAX_SPAWN_FAILURES (spawn_failures w)); split; cbn; rewrite ?Hw, ?Hr; try lia; try done.
  all: split; try done; lia.
Qed.

Section Steps.
Context `{Reapers} (ids : list str) (id : str).
Context (Hid : id ∈ ids) (Hvalid : is_valid_container_id id = true).

(** The second attempt ends in an invariant state and counts at most one failure. *)
Lemma respawn_inv w :
  quiet ids w ->
  inv ids (respawn w id) /\ (respawn w id).(spawn_failures) <= w.(spawn_failures) + 1 /\
  ((exists p, (respawn w id).(reaper) = Some p /\ last (respawn w id).(log) = Some (Wrote p id)) \/
   (respawn w id).(reaper) = None).
Proof.
  intros [Hf Hw _ Hh]. assert (exhausted (set_reaper w None) = false) as Ex
    by (unfold exhausted; cbn; unfold MAX_SPAWN_FAILURES in *; lia).
  unfold respawn. cbv zeta. rewrite Ex. unfold try_spawn_reaper. cbn [log set_reaper].
  assert ((spawn_failures w + 1) mod 2 ^ 32 = spawn_failures w + 1) as Em
    by (apply Z.mod_small; unfold MAX_SPAWN_FAILURES in *; lia).
  assert (history ids (log w ++ [Spawned (length (log w))])) as Hh1 by by constructor.
  assert (~ failed_write (length (log w)) (log w ++ [Spawned (length (log w))])) as Hn.
  { apply not_failed_snoc; [|done]. intros Hp%(history_failed ids); [lia | done]. }
  destruct (spawn_ok (log w)); cbv beta iota.
  - unfold write_id. cbn [log set_reaper happened]. destruct (write_ok _ _ _); cbv beta iota.
    + split; [|split; [cbn; lia | left; eexists; split; [done|]; cbn; apply last_snoc]].
      apply quiet_inv. split; cbn; [done|done| |by repeat constructor].
      intros p [= <-]. rewrite !length_app. cbn. split; [lia|]. by apply not_failed_snoc.
    + split; [|split; [|by right; unfold warn_if_exhausted; case_match]].
      * apply failed_inv; cbn; rewrite ?Em; [lia|done|done|].
        constructor; [done|]. cbn. rewrite length_app. cbn. lia.
      * unfold warn_if_exhausted. case_match; cbn; lia.
  - split; [|split; [|by right; unfold warn_if_exhausted; case_match]].
    + apply failed_inv; cbn; rewrite ?Em; [lia|done|done|]. by constructor.
    + unfold warn_if_exhausted. case_match; cbn; lia.
Qed.

Lemma write_or_respawn_inv w pipe :
  quiet ids w -> w.(reaper) = Some pipe ->
  let w' := write_or_respawn w pipe id in
  inv ids w' /\ w'.(spawn_failures) <= w.(spawn_failures) + 1 /\
  ((exists p, w'.(reaper) = Some p /\ last w'.(log) = Some (Wrote p id)) \/ w'.(reaper) = None).
Proof.
  intros Hq Hr. pose proof Hq as [Hf Hw Hp Hh]. destruct (Hp pipe Hr) as [Hlt Hnf].
  unfold write_or_respawn, write_id. cbv zeta. destruct (write_ok _ _ _); cbv beta iota.
  - split; [|split; [cbn; lia | left; exists pipe; split; [done|]; cbn; apply last_snoc]].
    apply quiet_inv. split; cbn; [done|done| |by constructor].
    intros p E. rewrite length_app. rewrite Hr in E. injection E as <-. split; [lia|]. by apply not_failed_snoc.
  - assert (quiet ids (set_reaper (happened w (WriteFailed pipe)) None)) as Hq'.
    { split; cbn; [done|done|done|]. by constructor. }
    apply respawn_inv in Hq'. exact Hq'.
Qed.
End Steps.

Lemma inv_quiet ids w : inv ids w -> exhausted w = false -> quiet ids w.
Proof.
  unfold exhausted. intros [Hf Hw _ Hr Hh] Ex%Z.leb_gt. split; [lia| |done|done].
  destruct (exhausted_warned w); [|done]. pose proof (proj1 Hw eq_refl). lia.
Qed.

(** What a registration leaves behind. *)
Definition registered `{Reapers} (w : Watchdog) (id : str) : Prop :=
  let w' := register w id in
  w'.(spawn_failures) <= w.(spawn_failures) + 1 /\
  if is_valid_container_id id then
    (exists p, w'.(reaper) = Some p /\ last w'.(log) = Some (Wrote p id)) \/ w'.(reaper) = None
  else w' = w.

Lemma register_inv `{Reapers} ids w id :
  inv ids w -> id ∈ ids -> inv ids (register w id) /\ registered w id.
Proof.
  intros Hi Hid. unfold registered. cbv zeta. unfold register.
  destruct (is_valid_container_id id) eqn:Ev; cbn [negb]; [|split; [done|]; split; [lia|done]].
  destruct (reaper w) as [pipe|] eqn:Er.
  - assert (exhausted w = false) as Ex.
    { destruct Hi as [Hf _ He _ _]. apply Z.leb_gt. destruct (decide (spawn_failures w = MAX_SPAWN_FAILURES)) as [E|];
        [|lia]. apply He in E. congruence. }
    by apply write_or_respawn_inv; [..|apply inv_quiet|].
  - destruct (exhausted w) eqn:Ex.
    + pose proof Hi as [Hf Hw He Hr Hh]. assert (spawn_failures w = MAX_SPAWN_FAILURES) as E
        by (unfold exhausted in Ex; lia).
      split; [|split; [cbn; lia | by right]]. split; cbn; try done.
    + apply inv_quiet in Hi; [|done]. pose proof Hi as [Hf Hw Hr Hh]. unfold try_spawn_reaper.
      destruct (spawn_ok (log w)); cbv beta iota zeta.
      * assert (quiet ids (set_reaper (happened w (Spawned (length (log w)))) (Some (length (log w))))) as Hq.
        { split; cbn; [done|done| |by constructor]. intros p [= <-]. rewrite length_app. cbn. split; [lia|].
          apply not_failed_snoc; [|done]. intros Hp%(history_failed ids); [lia | done]. }
        exact (write_or_respawn_inv ids id Hid Ev _ _ Hq eq_refl).
      * assert ((spawn_failures w + 1) mod 2 ^ 32 = spawn_failures w + 1) as Em
          by (apply Z.mod_small; unfold MAX_SPAWN_FAILURES in *; lia).
        split; [|split; [|right; unfold warn_if_exhausted; by case_match]].
        -- apply failed_inv; cbn; rewrite ?Em; [lia|done|done|]. by constructor.
        -- unfold warn_if_exhausted. case_match; cbn; lia.
Qed.

Lemma register_all_inv `{Reapers} ids : inv ids (register_all ids).
Proof.
  unfold register_all.
  assert (forall done todo w, ids = done ++ todo -> inv ids w -> inv ids (fold_left register todo w)) as Hg.
  { intros d todo. revert d. induction todo as [|id todo IH]; intros d w E Hw; [done|]. cbn.
    apply (IH (d ++ [id])); [by rewrite <- app_assoc|]. apply register_inv; [done|]. subst.
    apply elem_of_app. right. by left. }
  apply (Hg []); [done|]. split; cbn; try done; try lia. constructor.
Qed.

Lemma history_written ids evs pipe :
  history ids evs -> Forall (fun id => is_valid_container_id id = true /\ id ∈ ids) (written pipe evs).
Proof.
  unfold written. induction 1 as [|evs e _ IH Hm]; [constructor|]. rewrite omap_app. apply Forall_app.
  split; [done|]. destruct e as [| |p id|]; cbn; try constructor. case_bool_decide; cbn; [|constructor].
  destruct Hm as (_ & ? & ?). by constructor.
Qed.

Lemma history_silent ids before pipe after :
  history ids (before ++ WriteFailed pipe :: after) -> written pipe after = [].
Proof.
  induction after as [|e after IH] using rev_ind; [done|]. intros Hh.
  replace (before ++ WriteFailed pipe :: after ++ [e]) with ((before ++ WriteFailed pipe :: after) ++ [e]) in Hh
    by (by rewrite <- app_assoc).
  inversion Hh as [E|evs e' Hh' Hm E]; [by destruct before|].
  apply app_inj_tail in E as [-> ->]. unfold written in *. rewrite omap_app, IH by done. cbn.
  destruct e as [| |p id|]; try done. cbn. case_bool_decide; [|done]. subst. destruct Hm as [Hm _]. exfalso.
  apply Hm. apply elem_of_app. right. by left.
Qed.

Lemma register_exhausted `{Reapers} w id :
  w.(reaper) = None -> w.(spawn_failures) = MAX_SPAWN_FAILURES -> w.(exhausted_warned) = true ->
  register w id = w.
Proof.
  destruct w as [r f x l]. cbn. intros -> -> ->. unfold register, exhausted. cbn.
  by destruct (is_valid_container_id id).
Qed.

(** C26: Over any sequence of registrations, whatever starts and writes fail: at
    most three failures are counted, the warning has been given exactly when
    three are, and then there is no reaper and no more is tried.  What a reaper
    removes is exactly what was written to it, ids that were registered and are
    valid, whatever they contain; nothing is written to a pipe after a write to
    it failed.  One registration counts at most one failure, ignores an invalid
    id, and otherwise ends with the id on the pipe of the reaper in use, or with
    no reaper. *)
Theorem registrations `{Reapers} (ids : list str) (id : str) :
  let w := register_all ids in
  0 <= w.(spawn_failures) <= MAX_SPAWN_FAILURES /\
  (w.(exhausted_warned) = true <-> w.(spawn_failures) = MAX_SPAWN_FAILURES) /\
  (w.(spawn_failures) = MAX_SPAWN_FAILURES -> w.(reaper) = None /\ register w id = w) /\
  (forall pipe, reaper_ids (pipe_input pipe w.(log)) = written pipe w.(log) /\
     Forall (fun x => is_valid_container_id x = true /\ x ∈ ids) (written pipe w.(log)) /\
     forall before after, w.(log) = before ++ WriteFailed pipe :: after -> written pipe after = []) /\
  registered w id.
Proof.
  intros w. assert (inv ids w) as Hi by apply register_all_inv.
  pose proof Hi as [Hf Hw He Hr Hh].
  split; [done|]. split; [done|]. split; [|split].
  - intros E. split; [by apply He|]. apply register_exhausted; [by apply He | done | by apply Hw].
  - intros pipe. pose proof (history_written ids (log w) pipe Hh) as Hv. split_and!; [|done|].
    + apply reaper_reads. eapply Forall_impl; [exact Hv|]. by intros x [? _].
    + intros before after E. rewrite E in Hh. by eapply history_silent.
  - apply (register_inv (id :: ids)); [|by left]. split; try done.
    eapply history_mono; [|exact Hh]. intros x Hx. by right.
Qed.
