(* ===== verification/JsonFormat.v ===== *)
(** * Writing JSON with [nojson]

    The XPC payloads are written through [nojson::DisplayJson]: [f.object],
    [f.member] and the [DisplayJson] of strings, numbers, booleans, options and
    lists.  [JsonFormatter] is what those write; [JsonFormatterLaws] is what the
    code relies on: the text denotes the value that was described. *)

From S2P Require Import Prelude Json.

Class JsonFormatter := {
  fmt_object : list (str * str) -> str;
  fmt_array : list str -> str;
  fmt_string : str -> str;
  fmt_int : Z -> str;
  fmt_bool : bool -> str;
  fmt_null : str;
}.

Section Values.
Context `{JsonFormatter}.
Definition fmt_option {A} (f : A -> str) (o : option A) : str :=
  match o with Some a => f a | None => fmt_null end.
Definition fmt_strings (l : list str) : str := fmt_array (fmt_string <$> l).
(** A [BTreeMap] or [HashMap] of strings. *)
Definition fmt_map (m : list (str * str)) : str := fmt_object ((fun kv => (kv.1, fmt_string kv.2)) <$> m).
Definition empty_obj : str := fmt_object [].
End Values.

Class JsonFormatterLaws (F : JsonFormatter) := {
  denotes : str -> json -> Prop;
  object_denotes ms js :
    Forall2 (fun m j => m.1 = j.1 /\ denotes m.2 j.2) ms js -> denotes (fmt_object ms) (JObj js);
  array_denotes ts js : Forall2 denotes ts js -> denotes (fmt_array ts) (JArr js);
  string_denotes s : denotes (fmt_string s) (JStr s);
  int_denotes n : denotes (fmt_int n) (JNum n);
  bool_denotes b : denotes (fmt_bool b) (JBool b);
  null_denotes : denotes fmt_null JNull;
}.

Create HintDb json.
#[export] Hint Resolve object_denotes array_denotes string_denotes int_denotes bool_denotes null_denotes : json.
#[export] Hint Constructors Forall2 : json.

Section Denote.
Context `{F : JsonFormatter} `{!JsonFormatterLaws F}.

Lemma strings_denotes l : denotes (fmt_strings l) (JArr (JStr <$> l)).
Proof. apply array_denotes. induction l; cbn; constructor; [apply string_denotes | done]. Qed.
Lemma map_denotes m : denotes (fmt_map m) (JObj ((fun kv => (kv.1, JStr kv.2)) <$> m)).
Proof. apply object_denotes. induction m as [|kv m IH]; cbn; constructor; [split; [done | apply string_denotes] | done]. Qed.
Lemma option_denotes {A} (f : A -> str) (g : A -> json) o :
  (forall a, denotes (f a) (g a)) -> denotes (fmt_option f o) (match o with Some a => g a | None => JNull end).
Proof. intros Hf. destruct o; [apply Hf | apply null_denotes]. Qed.
Lemma empty_denotes : denotes empty_obj (JObj []).
Proof. apply object_denotes. constructor. Qed.
End Denote.
#[export] Hint Resolve strings_denotes map_denotes option_denotes empty_denotes : json.

(** The compact text is such a formatter. *)
#[export] Instance CompactFormatter : JsonFormatter := {|
  fmt_object ms := lit "{" ++ join (lit ",") ((fun m => escape_json m.1 ++ lit ":" ++ m.2) <$> ms) ++ lit "}";
  fmt_array ts := lit "[" ++ join (lit ",") ts ++ lit "]";
  fmt_string s := escape_json s;
  fmt_int n := show_Z n;
  fmt_bool b := json_bool b;
  fmt_null := lit "null";
|}.

#[export] Program Instance CompactFormatter_laws : JsonFormatterLaws CompactFormatter :=
  {| denotes := fun t j => t = print j |}.
Next Obligation.
  intros ms js Hf. cbn [fmt_object CompactFormatter print]. f_equal. f_equal. f_equal.
  induction Hf as [|[k t] [k' j] ms js [Hk Ht] _ IH]; [done|]. cbn in *. by subst; rewrite IH.
Qed.
Next Obligation.
  intros ts js Hf. cbn [fmt_array CompactFormatter print]. f_equal. f_equal. f_equal.
  induction Hf as [|t j ts js Ht _ IH]; [done|]. cbn. by subst.
Qed.
Next Obligation. done. Qed.
Next Obligation. done. Qed.
Next Obligation. done. Qed.
Next Obligation. done. Qed.
