(* ===== verification/Xpc.v ===== *)
(** * XPC messages ([src/src/xpc/conn.rs])

    [XpcConn::send] and the reading of replies.  The bridge in C and the system
    service behind it are the [Host]: an answer is whatever they come to.  A
    connection is known by its service. *)

From S2P Require Import Prelude Utf8 Errors Json JsonFormat Effect ImageConfig.

Definition ERROR_KEY : str := lit "com.apple.container.xpc.error".
Definition SERVICE_NAME : str := lit "com.apple.container.apiserver".
Definition IMAGE_SERVICE : str := lit "com.apple.container.core.container-core-images".
Definition DEFAULT_TIMEOUT : Duration := from_secs 60.
Definition LONG_TIMEOUT : Duration := from_secs 86400.

Fixpoint assoc {A} (key : str) (kvs : list (str * A)) : option A :=
  match kvs with
  | [] => None
  | (k, v) :: kvs => if bool_decide (k = key) then Some v else assoc key kvs
  end.

(** [RawReply::data]: absent and empty are the same. *)
Definition data (r : RawReply) (key : str) : option (list byte) :=
  match assoc key r.(reply_data) with Some [] => None | d => d end.

(** The bytes of a C string before its terminator, as UTF-8. *)
Definition c_bytes (s : list byte) : list byte := hd [] (split x00 s).
Definition string (r : RawReply) (key : str) : option str :=
  s ← assoc key r.(reply_strings); from_utf8 (c_bytes s).

Definition try_int64 (r : RawReply) (key : str) : Result Z :=
  ok_or (assoc key r.(reply_int64)) (Client (Xpc (lit "missing or non-int64 key: " ++ key))).

(** The first two descriptors of the [logs] array. *)
Definition log_fds (r : RawReply) : list Z := take 2 r.(reply_fds).

Definition error_desc (d : list byte) : str := from_utf8_lossy (c_bytes d).

Section Reply.
Context `{JsonLib}.

Definition parse_xpc_error_response (d : list byte) : ClientError :=
  match from_utf8 d with
  | None => Xpc (lit "XPC error unparseable (response is not UTF-8)")
  | Some text =>
      match json_parse text with
      | Err _ => Xpc (lit "XPC error unparseable")
      | Ok j =>
          let code := default [] (to_ok (string_member j (lit "code"))) in
          let msg := default [] (to_ok (string_member j (lit "message"))) in
          Xpc (lit "XPC error " ++ code ++ lit ": " ++ msg)
      end
  end.

Definition json_error_of (r : RawReply) : option ClientError := parse_xpc_error_response <$> data r ERROR_KEY.

(** The reply of a message, from what the bridge came to. *)
Definition reply_of (a : XpcAnswer) : Result RawReply :=
  match a with
  | NoDictionary => Err (Client (Xpc (lit "failed to create XPC dictionary")))
  | NoDescriptor => Err (Client (Xpc (lit "failed to set file descriptor in XPC dictionary")))
  | NoReply => Err (Client XpcTimeout)
  | XpcErrorObject d => Err (Client (Xpc (default [] (error_desc <$> d))))
  | XpcReply r => match json_error_of r with Some e => Err (Client e) | None => Ok r end
  end.
End Reply.

(** [CString::new] of the string values. *)
Definition has_nul (e : str * KeyValue) : bool :=
  match e.2 with KString s => contains x00 s | _ => false end.

Section Conn.
Context `{Host} `{JsonLib}.

Definition connect (service : str) : M unit :=
  invoke (EvConnect service) (fun tr => if xpc_connect tr service then Ok tt else Err (Client XpcConnect)).

Definition send_with_timeout (conn route : str) (entries : list (str * KeyValue)) (timeout : Duration)
    : M RawReply :=
  if contains x00 route then fail (Client (Xpc (lit "route contains NUL")))
  else if existsb has_nul entries then fail (Client (Xpc (lit "string value contains NUL")))
  else
    let m := mkXpcMessage conn route entries timeout in
    invoke (EvXpc m) (fun tr => reply_of (xpc tr m)).

Definition send (conn route : str) (entries : list (str * KeyValue)) : M RawReply :=
  send_with_timeout conn route entries DEFAULT_TIMEOUT.

Definition call {A} (service : str) (f : str -> M A) : M A :=
  spawn_blocking (connect service ;; f service).
End Conn.

(** [Filters] *)
Definition filters_json `{JsonFormatter} (ids : list str) (labels : list (str * str)) : str :=
  fmt_object [(lit "ids", fmt_strings ids); (lit "labels", fmt_map labels)].

(** ** Laws *)

Section Laws.
Context `{Host} `{JsonLib}.

#[export] Instance connect_extends service : Extends (connect service).
Proof. apply _. Qed.
#[export] Instance send_with_timeout_extends conn route es t : Extends (send_with_timeout conn route es t).
Proof. unfold send_with_timeout. repeat case_match; apply _. Qed.
#[export] Instance send_extends conn route es : Extends (send conn route es).
Proof. apply _. Qed.
#[export] Instance call_extends {A} service (f : str -> M A) : Extends (f service) -> Extends (call service f).
Proof. intros Hf. unfold call. apply _. Qed.

(** Blocking code is not cancelled, and only a [containerDelete] deletes. *)
#[export] Instance connect_timely service : Timely (connect service).
Proof. apply _. Qed.
#[export] Instance send_with_timeout_timely conn route es t : Timely (send_with_timeout conn route es t).
Proof. unfold send_with_timeout. apply _. Qed.
#[export] Instance send_timely conn route es : Timely (send conn route es).
Proof. apply _. Qed.
#[export] Instance call_timely {A} service (f : str -> M A) : Timely (f service) -> Timely (call service f).
Proof. intros Hf. unfold call. apply _. Qed.

(** The messages of the crate that neither remove a container nor give descriptors, and
    the pipes of an exec. *)
Definition service_event (ev : Event) : bool :=
  match ev with
  | EvConnect _ | EvReadFile _ | EvPipe _ => true
  | EvXpc m => negb (bool_decide (m.(xpc_route) = lit "containerDelete"))
               && negb (bool_decide (m.(xpc_route) = lit "containerLogs"))
  | _ => false
  end.
(** The messages of a route satisfy a test. *)
Class Allows (P : Event -> bool) (route : str) :=
  allows conn es t : P (EvXpc (mkXpcMessage conn route es t)) = true.

#[export] Instance send_with_timeout_emits P conn route es t :
  Allows P route -> Emits P (send_with_timeout conn route es t).
Proof.
  intros Hr. unfold send_with_timeout. do 2 (case_match; [apply _|]). apply invoke_emits, Hr.
Qed.
#[export] Instance send_emits P conn route es : Allows P route -> Emits P (send conn route es).
Proof. unfold send. apply _. Qed.
#[export] Instance call_emits {A} P service (f : str -> M A) :
  Emits P (connect service) -> Emits P (f service) -> Emits P (call service f).
Proof. intros ? Hf. unfold call. apply _. Qed.

Lemma connect_Ok service sc tr tr' :
  connect service sc tr = (Done (Ok tt), tr') -> tr' = tr ++ [EvConnect service] /\ xpc_connect tr service = true.
Proof.
  unfold connect, invoke. case_match eqn:E; intros [= <-]; done.
Qed.

(** A message that was answered. *)
Lemma send_with_timeout_Ok conn route es t sc tr r tr' :
  send_with_timeout conn route es t sc tr = (Done (Ok r), tr') ->
  tr' = tr ++ [EvXpc (mkXpcMessage conn route es t)] /\
  reply_of (xpc tr (mkXpcMessage conn route es t)) = Ok r /\ Forall (fun e => has_nul e = false) es.
Proof.
  unfold send_with_timeout. case_match; [done|]. destruct (existsb has_nul es) eqn:E; [done|].
  unfold invoke. intros [= E' <-]. split_and!; [done|done|].
  apply Forall_forall. intros e He. apply not_true_is_false. intros Ht.
  apply not_true_iff_false in E. apply E, List.existsb_exists. exists e. by rewrite <- list_elem_of_In.
Qed.

(** A call that returned a value. *)
Lemma call_Ok {A} service (f : str -> M A) sc tr a tr' :
  call service f sc tr = (Done (Ok a), tr') ->
  f service None (tr ++ [EvConnect service]) = (Done (Ok a), tr').
Proof.
  unfold call. intros E%spawn_blocking_done.
  apply bind_Done in E as [(u & tr1 & Ec & E)|[(?&?&?)|[(?&?)|(?&?)]]]; try done.
  destruct u. by apply connect_Ok in Ec as [-> _].
Qed.
End Laws.

(** An operation that only talks to the service. *)
Class Serves {A} (m : M A) := serves : Emits service_event m.
Lemma serves_emits {A} P (m : M A) : Serves m -> (forall ev, service_event ev = true -> P ev = true) -> Emits P m.
Proof. apply emits_weaken. Qed.
#[export] Instance serves_service {A} (m : M A) : Serves m -> Emits service_event m.
Proof. done. Qed.
#[export] Instance serves_spares {A} (m : M A) : Serves m -> Spares m.
Proof. intros Hm. apply (serves_emits _ _ Hm). intros [] E; try done. by apply andb_true_iff in E as [E _]. Qed.

#[export] Hint Extern 4 (Emits _ (connect _)) => apply invoke_emits; reflexivity : typeclass_instances.
#[export] Hint Extern 0 (Allows _ _) => intros ???; vm_compute; reflexivity : typeclass_instances.

(** A service that is there and answers each message by itself. *)
Definition service_host (answers : XpcMessage -> XpcAnswer) : Host := {|
  Effect.send _ _ _ := Err (other (lit "connection refused"));
  open_logs _ _ := Ok 0%nat;
  probe _ _ _ _ := Err (lit "connection refused");
  elapsed _ _ _ := false;
  in_flight _ := false;
  log_read _ _ _ := Ok [];
  logs_terminated _ _ := false;
  logs_all_done _ _ := true;
  exit_code_hint _ := None;
  clock _ := 0;
  xpc_connect _ _ := true;
  xpc _ m := answers m;
  read_file _ _ := Err (mkIoError NotFound (lit "No such file or directory"));
  file_op _ _ := Ok tt;
  is_dir _ _ := false;
  is_file _ _ := false;
  wait_generation _ := 0;
|}.

(** A reply with data under one key, and an error of the service. *)
Definition data_reply (key d : str) : XpcAnswer := XpcReply (mkRawReply [(key, d)] [] [] []).
Definition error_reply (code msg : str) : XpcAnswer :=
  data_reply ERROR_KEY (print (JObj [(lit "code", JStr code); (lit "message", JStr msg)])).
