(* ===== verification/XpcObject.v ===== *)
(** * What the bridge reads of an XPC object ([src/src/xpc_bridge.c], [src/src/xpc/conn.rs])

    The functions of the bridge that look into a reply, over any libxpc, and the methods of
    [RawReply] over them, with the memory they take; and that they are the readers of
    [Xpc.v] over the contents of the reply. *)

From S2P Require Import Prelude Utf8 Errors Json Effect.
From S2P Require Xpc.

(** ** libxpc *)

(** The types the bridge tells apart. *)
Inductive XpcType := XPC_TYPE_ERROR | XPC_TYPE_INT64 | XPC_TYPE_ARRAY | OtherType.

(** The functions of libxpc that are called, and [malloc].  A text or a block of data is the
    bytes there, a null pointer [None]. *)
Class LibXpc := {
  xpc_object : Type;
  xpc_get_type : xpc_object -> XpcType;
  xpc_dictionary_get_value : xpc_object -> str -> option xpc_object;
  xpc_dictionary_get_string : xpc_object -> str -> option (list byte);
  xpc_dictionary_get_data : xpc_object -> str -> option (list byte);
  xpc_int64_get_value : xpc_object -> Z;
  xpc_array_get_count : xpc_object -> nat;
  xpc_array_dup_fd : xpc_object -> nat -> Z;
  _xpc_error_key_description : str;
  malloc : Z -> bool;
}.

#[export] Instance XpcType_eq_dec : EqDecision XpcType.
Proof. solve_decision. Defined.

(** ** The functions in C *)

Section Bridge.
Context `{LibXpc}.

(** The copy, if it could be made, and the length it reports. *)
Definition xpc_bridge_copy_data (dict : xpc_object) (key : str) : option (list byte) * Z :=
  match xpc_dictionary_get_data dict key with
  | None | Some [] => (None, 0)
  | Some data => (if malloc (len data) then Some data else None, len data)
  end.

Definition xpc_bridge_get_string (dict : xpc_object) (key : str) : option (list byte) :=
  xpc_dictionary_get_string dict key.

Definition xpc_bridge_get_int64_checked (dict : xpc_object) (key : str) : option Z :=
  val ← xpc_dictionary_get_value dict key;
  if decide (xpc_get_type val = XPC_TYPE_INT64) then Some (xpc_int64_get_value val) else None.

Definition xpc_bridge_is_error (obj : xpc_object) : bool := bool_decide (xpc_get_type obj = XPC_TYPE_ERROR).

(** [strlcpy(buf, desc, buf_len)], with [buf_len] the length of the buffer: at most all but one
    byte, and the terminator. *)
Definition strlcpy (buf desc : list byte) : list byte :=
  match length buf with
  | O => buf
  | S room =>
      let copied := take room (Xpc.c_bytes desc) in
      copied ++ [x00] ++ drop (S (length copied)) buf
  end.

Definition xpc_bridge_get_error_description (obj : xpc_object) (buf : list byte) : option (list byte) :=
  if xpc_bridge_is_error obj then
    desc ← xpc_dictionary_get_string obj _xpc_error_key_description;
    Some (strlcpy buf desc)
  else None.

Fixpoint dup_fds (arr : xpc_object) (i n : nat) (fds : list Z) : list Z :=
  match n with
  | O => fds
  | S n => dup_fds arr (S i) n (<[i := xpc_array_dup_fd arr i]> fds)
  end.
Definition xpc_bridge_get_log_fds (reply : xpc_object) (fds : list Z) : Z * list Z :=
  match xpc_dictionary_get_value reply (lit "logs") with
  | Some arr =>
      if decide (xpc_get_type arr = XPC_TYPE_ARRAY) then
        let count := Nat.min (xpc_array_get_count arr) (length fds) in
        (Z.of_nat count, dup_fds arr 0 count fds)
      else (-1, fds)
  | None => (-1, fds)
  end.

(** ** [RawReply] *)

(** With the blocks of memory that are taken and not given back. *)
Definition data (self : xpc_object) (key : str) : option (list byte) * Z :=
  let '(p, n) := xpc_bridge_copy_data self key in
  let taken := match p with Some _ => 1 | None => 0 end in
  match p with
  | Some bytes => if n =? 0 then (None, taken) else (Some (ztake n bytes), taken - 1)
  | None => (None, taken)
  end.

Definition string (self : xpc_object) (key : str) : option str :=
  p ← xpc_bridge_get_string self key; from_utf8 (Xpc.c_bytes p).

Definition try_int64 (self : xpc_object) (key : str) : Result Z :=
  ok_or (xpc_bridge_get_int64_checked self key) (Client (Errors.Xpc (lit "missing or non-int64 key: " ++ key))).

Definition log_fds (self : xpc_object) : list Z :=
  let '(n, fds) := xpc_bridge_get_log_fds self (replicate 2 0) in
  if n <=? 0 then [] else ztake n fds.

Definition is_error (self : xpc_object) : bool := xpc_bridge_is_error self.

Definition ERROR_BUFFER : nat := 1024.
Definition error_desc (self : xpc_object) : option str :=
  buf ← xpc_bridge_get_error_description self (replicate ERROR_BUFFER x00);
  let stop := default (length buf) (fst <$> list_find (x00 =.) buf) in
  Some (from_utf8_lossy (take stop buf)).

Definition json_error `{JsonLib} (self : xpc_object) : option ClientError :=
  Xpc.parse_xpc_error_response <$> (data self Xpc.ERROR_KEY).1.
End Bridge.

(** ** What a reply holds *)

Section Contents.
Context `{LibXpc}.

(** What is found under the given keys, by one of the functions of the bridge. *)
Definition found {A} (get : str -> option A) (keys : list str) : list (str * A) :=
  omap (fun k => pair k <$> get k) keys.

Definition raw_reply (keys : list str) (obj : xpc_object) : RawReply := mkRawReply
  (found (fun k => (xpc_bridge_copy_data obj k).1) keys)
  (found (xpc_bridge_get_string obj) keys)
  (found (xpc_bridge_get_int64_checked obj) keys)
  (match xpc_dictionary_get_value obj (lit "logs") with
   | Some arr =>
       if decide (xpc_get_type arr = XPC_TYPE_ARRAY)
       then xpc_array_dup_fd arr <$> seq 0 (Nat.min (xpc_array_get_count arr) 2) else []
   | None => []
   end).

(** The description of an error, as far as there is room for it. *)
Definition described (obj : xpc_object) : option (list byte) :=
  take (ERROR_BUFFER - 1) ∘ Xpc.c_bytes <$> xpc_dictionary_get_string obj _xpc_error_key_description.

Lemma assoc_missing {A} (get : str -> option A) keys k : get k = None -> Xpc.assoc k (found get keys) = None.
Proof.
  intros E. induction keys as [|k' keys IH]; [done|]. unfold found. cbn. change (omap _ keys) with (found get keys).
  destruct (get k') as [v|] eqn:E'; cbn; [|done]. rewrite bool_decide_false; [done|]. intros ->. congruence.
Qed.
Lemma assoc_found {A} (get : str -> option A) keys k : k ∈ keys -> Xpc.assoc k (found get keys) = get k.
Proof.
  intros Hin. induction keys as [|k' keys IH]; [by apply not_elem_of_nil in Hin|].
  unfold found. cbn. change (omap _ keys) with (found get keys).
  destruct (decide (k' = k)) as [->|Hk].
  - destruct (get k) as [v|] eqn:E; cbn; [by rewrite bool_decide_true|]. by apply assoc_missing.
  - apply elem_of_cons in Hin as [?|Hin]; [congruence|].
    destruct (get k') as [v|]; cbn; [rewrite bool_decide_false by done|]; by apply IH.
Qed.

(** ** Reading *)

Lemma copy_data_len obj key :
  match xpc_bridge_copy_data obj key with (Some d, n) => d <> [] /\ n = len d | (None, _) => True end.
Proof.
  unfold xpc_bridge_copy_data. destruct (xpc_dictionary_get_data obj key) as [[|b d]|]; [done| |done]. by destruct (malloc _).
Qed.

Lemma data_reads keys obj key : key ∈ keys -> data obj key = (Xpc.data (raw_reply keys obj) key, 0).
Proof.
  intros Hin. unfold data, Xpc.data, raw_reply. cbn [reply_data]. rewrite assoc_found by done.
  pose proof (copy_data_len obj key) as Hc. destruct (xpc_bridge_copy_data obj key) as [[d|] n]; cbn [fst]; [|done].
  destruct Hc as [Hd ->]. destruct d as [|b d]; [done|]. rewrite (proj2 (Z.eqb_neq _ 0)) by (rewrite len_cons; pose proof (len_nonneg d); lia).
  by rewrite ztake_ge by lia.
Qed.

Lemma dup_fds_spec arr n fds : forall done : list Z,
  (n <= length fds)%nat ->
  dup_fds arr (length done) n (done ++ fds) = done ++ (xpc_array_dup_fd arr <$> seq (length done) n) ++ drop n fds.
Proof.
  revert fds. induction n as [|n IH]; intros fds dn Hn; [done|].
  destruct fds as [|fd fds]; cbn in Hn; [lia|]. cbn [dup_fds].
  rewrite insert_app_r_alt, Nat.sub_diag by done. cbn [insert list_insert].
  specialize (IH fds (dn ++ [xpc_array_dup_fd arr (length dn)])).
  rewrite length_app, <- !app_assoc in IH. cbn in IH. replace (length dn + 1)%nat with (S (length dn)) in IH by lia.
  rewrite IH by lia. done.
Qed.

Lemma log_fds_reads keys obj : log_fds obj = Xpc.log_fds (raw_reply keys obj).
Proof.
  unfold log_fds, Xpc.log_fds, raw_reply, xpc_bridge_get_log_fds. cbn [reply_fds].
  destruct (xpc_dictionary_get_value obj (lit "logs")) as [arr|]; [|done]. case_decide; [|done].
  cbn [length replicate]. set (n := Nat.min (xpc_array_get_count arr) 2). assert (n <= 2)%nat as Hn by lia.
  pose proof (dup_fds_spec arr n [0; 0] [] Hn) as Hd. cbn [app length] in Hd. rewrite Hd.
  rewrite (take_ge (_ <$> _)) by (rewrite length_fmap, length_seq; lia).
  case_match; [by replace n with 0%nat by lia|].
  unfold ztake. rewrite Nat2Z.id, take_app_length' by (by rewrite length_fmap, length_seq). done.
Qed.

Lemma c_bytes_no_nul s : x00 ∉ Xpc.c_bytes s.
Proof.
  unfold Xpc.c_bytes. pose proof (split_no_sep x00 s) as Hs. destruct (split x00 s) as [|p ps]; [apply not_elem_of_nil|].
  by apply Forall_cons in Hs as [? _].
Qed.
Lemma c_bytes_solid s : x00 ∉ s -> Xpc.c_bytes s = s.
Proof. intros ?. unfold Xpc.c_bytes. by rewrite split_solid. Qed.

Lemma strlcpy_reads (n : nat) desc : (0 < n)%nat ->
  let buf := strlcpy (replicate n x00) desc in
  length buf = n /\
  take (default (length buf) (fst <$> list_find (x00 =.) buf)) buf = take (n - 1) (Xpc.c_bytes desc).
Proof.
  destruct n as [|room]; [lia|]. intros _.
  unfold strlcpy. rewrite length_replicate, Nat.sub_1_r. cbn [Nat.pred]. cbn zeta iota. set (copied := take room (Xpc.c_bytes desc)).
  assert (x00 ∉ copied) as Hn by (intros Hin; apply elem_of_take in Hin as (i & Hi & _);
    by apply (c_bytes_no_nul desc); eapply list_elem_of_lookup_2).
  assert (length copied <= room)%nat as Hl by (subst copied; rewrite length_take; lia).
  split. { rewrite !length_app, length_drop, length_replicate. cbn. lia. }
  rewrite list_find_app_r.
  - cbn [app list_find]. rewrite decide_True by done. cbn. apply take_app_length.
  - apply list_find_None, Forall_forall. by intros x Hx <-.
Qed.

Lemma error_desc_reads obj : is_error obj = true ->
  error_desc obj = Xpc.error_desc <$> described obj.
Proof.
  unfold is_error, error_desc, xpc_bridge_get_error_description, described. intros ->.
  destruct (xpc_dictionary_get_string obj _xpc_error_key_description) as [desc|]; [|done]. cbn [mbind option_bind fmap option_map].
  destruct (strlcpy_reads ERROR_BUFFER desc) as [_ ->]; [unfold ERROR_BUFFER; lia|].
  transitivity (Some (Xpc.error_desc (take (ERROR_BUFFER - 1) (Xpc.c_bytes desc)))); [|done].
  unfold Xpc.error_desc. rewrite (c_bytes_solid (take _ _)); [done|]. intros Hin. apply elem_of_take in Hin as (i & Hi & _).
  by eapply c_bytes_no_nul, list_elem_of_lookup_2.
Qed.

(** A reader of the one finds what a reader of the other finds, and leaves no memory taken. *)
Definition reads_as (keys : list str) (obj : xpc_object) (r : RawReply) : Prop :=
  log_fds obj = Xpc.log_fds r /\
  forall key, key ∈ keys ->
    data obj key = (Xpc.data r key, 0) /\ string obj key = Xpc.string r key /\
    try_int64 obj key = Xpc.try_int64 r key.

Lemma raw_reply_reads keys obj : reads_as keys obj (raw_reply keys obj).
Proof.
  split; [apply log_fds_reads|]. intros key Hin. split; [by apply data_reads|].
  unfold string, Xpc.string, try_int64, Xpc.try_int64, raw_reply. cbn. by rewrite !assoc_found by done.
Qed.

Lemma json_error_reads `{JsonLib} keys obj : Xpc.ERROR_KEY ∈ keys ->
  json_error obj = Xpc.json_error_of (raw_reply keys obj).
Proof. intros Hin. unfold json_error, Xpc.json_error_of. by rewrite (data_reads keys) by done. Qed.
End Contents.
