(* ===== verification/Bridge.v ===== *)
(** * The C bridge to XPC ([src/src/xpc_bridge.c], [src/src/xpc/conn.rs])

    [XpcConn::send_with_timeout] as its calls of the bridge, with the objects it owns,
    and the context that the caller of [xpc_bridge_send_message_with_reply_sync] shares
    with the reply block; and a connection from its creation to its drop.
    [Xpc.send_with_timeout] is what the first comes to; a [Host] answers with the class of
    the outcome. *)

From S2P Require Import Prelude Errors Effect Json XpcObject Xpc.

(** ** The reply context *)

(** Where the waiting caller is: in [dispatch_semaphore_wait], woken, before
    [atomic_fetch_sub], the last one to leave, gone.  The reply block: not called yet,
    its result stored, signalled, and the same ends. *)
Inductive WaiterAt := WWait | WTake | WUnref | WFree | WDone.
Inductive BlockAt := BStart | BSignal | BUnref | BFree | BDone.

(** [xpc_bridge_reply_ctx] with its two users.  [held] is whether [result] holds the
    reply; [owned] counts the references to the reply that are ours; [out] is whether
    the caller was given it; [freed] counts [dispatch_release] with [free]; [touched] is
    whether the context was used after that. *)
Record Ctx := mkCtx {
  refs : Z;
  held : bool;
  signals : nat;
  waiter : WaiterAt;
  block : BlockAt;
  owned : Z;
  out : bool;
  woken : bool;
  freed : nat;
  touched : bool;
}.

Definition ctx_new : Ctx := mkCtx 2 false 0 WWait BStart 0 false false 0 false.

(** Any use of the context. *)
Definition use (c : Ctx) : bool := c.(touched) || (0 <? c.(freed))%nat.

(** [xpc_bridge_reply_ctx_unref]: the decrement, and what the last one does. *)
Definition last_ref (c : Ctx) : bool := c.(refs) =? 1.

(** The steps of the two threads; [replied] is whether the block was given an object. *)
Inductive ctx_step (replied : bool) : Ctx -> Ctx -> Prop :=
| step_store c : c.(block) = BStart ->
    ctx_step replied c (mkCtx c.(refs) replied c.(signals) c.(waiter) BSignal
      (c.(owned) + if replied then 1 else 0) c.(out) c.(woken) c.(freed) (use c))
| step_signal c : c.(block) = BSignal ->
    ctx_step replied c (mkCtx c.(refs) c.(held) (S c.(signals)) c.(waiter) BUnref
      c.(owned) c.(out) c.(woken) c.(freed) (use c))
| step_block_unref c : c.(block) = BUnref ->
    ctx_step replied c (mkCtx (c.(refs) - 1) c.(held) c.(signals) c.(waiter) (if last_ref c then BFree else BDone)
      c.(owned) c.(out) c.(woken) c.(freed) (use c))
| step_block_free c : c.(block) = BFree ->
    ctx_step replied c (mkCtx c.(refs) false c.(signals) c.(waiter) BDone
      (c.(owned) - if c.(held) then 1 else 0) c.(out) c.(woken) (S c.(freed)) (use c))
| step_wake c : c.(waiter) = WWait -> (0 < c.(signals))%nat ->
    ctx_step replied c (mkCtx c.(refs) c.(held) (pred c.(signals)) WTake c.(block)
      c.(owned) c.(out) true c.(freed) (use c))
| step_timeout c : c.(waiter) = WWait ->
    ctx_step replied c (mkCtx c.(refs) c.(held) c.(signals) WUnref c.(block)
      c.(owned) c.(out) c.(woken) c.(freed) (use c))
| step_take c : c.(waiter) = WTake ->
    ctx_step replied c (mkCtx c.(refs) false c.(signals) WUnref c.(block)
      c.(owned) c.(held) c.(woken) c.(freed) (use c))
| step_waiter_unref c : c.(waiter) = WUnref ->
    ctx_step replied c (mkCtx (c.(refs) - 1) c.(held) c.(signals) (if last_ref c then WFree else WDone) c.(block)
      c.(owned) c.(out) c.(woken) c.(freed) (use c))
| step_waiter_free c : c.(waiter) = WFree ->
    ctx_step replied c (mkCtx c.(refs) false c.(signals) WDone c.(block)
      (c.(owned) - if c.(held) then 1 else 0) c.(out) c.(woken) (S c.(freed)) (use c)).

(** Who still holds a reference, and who was the last to give one up. *)
Definition waiter_holds (c : Ctx) : bool := match c.(waiter) with WWait | WTake | WUnref => true | _ => false end.
Definition block_holds (c : Ctx) : bool := match c.(block) with BStart | BSignal | BUnref => true | _ => false end.
Definition b2n (b : bool) : nat := if b then 1 else 0.
Definition freeing (c : Ctx) : nat :=
  (b2n match c.(waiter) with WFree => true | _ => false end + b2n match c.(block) with BFree => true | _ => false end)%nat.
Definition stored (c : Ctx) : bool := match c.(block) with BStart => false | _ => true end.
Definition past (c : Ctx) : bool := match c.(waiter) with WWait | WTake => false | _ => true end.

Record ctx_inv (replied : bool) (c : Ctx) : Prop := {
  inv_refs : c.(refs) = Z.of_nat (b2n (waiter_holds c) + b2n (block_holds c));
  inv_freed : (c.(freed) + freeing c + b2n (waiter_holds c || block_holds c) = 1)%nat;
  inv_untouched : c.(touched) = false;
  inv_owned : c.(owned) = Z.of_nat (b2n c.(held) + b2n c.(out));
  inv_held : c.(held) = true -> replied = true /\ stored c = true /\ c.(freed) = 0%nat;
  inv_out : c.(out) = true -> c.(woken) = true /\ c.(held) = false /\ past c = true;
  inv_woken : c.(woken) = true -> stored c = true /\
    if past c then c.(out) = replied else c.(held) = replied;
  inv_signals : (0 < c.(signals))%nat -> stored c = true /\ c.(block) <> BSignal;
  inv_waiting : c.(waiter) = WWait -> c.(woken) = false /\ (stored c = true -> c.(held) = replied);
  inv_take : c.(waiter) = WTake -> c.(woken) = true;
}.

Lemma ctx_inv_new replied : ctx_inv replied ctx_new.
Proof. split; cbn; try done; lia. Qed.
Lemma ctx_inv_step replied c c' : ctx_inv replied c -> ctx_step replied c c' -> ctx_inv replied c'.
Proof.
  intros [H1 H2 H3 H4 H5 H6 H7 H8 H9 H10] Hs.
  destruct Hs as [[rf hd sg w b ow o wk fr t] E|[rf hd sg w b ow o wk fr t] E|[rf hd sg w b ow o wk fr t] E
    |[rf hd sg w b ow o wk fr t] E|[rf hd sg w b ow o wk fr t] E E'|[rf hd sg w b ow o wk fr t] E
    |[rf hd sg w b ow o wk fr t] E|[rf hd sg w b ow o wk fr t] E|[rf hd sg w b ow o wk fr t] E];
    unfold waiter_holds, block_holds, freeing, stored, past, use, last_ref, b2n in *; cbn in *; subst.
  all: destruct hd, o, wk, replied; try (destruct w); try (destruct b); cbn in *;
    try (destruct (H5 eq_refl) as (? & ? & ?)); try (destruct (H7 eq_refl)); try (destruct (H6 eq_refl) as (? & ? & ?));
    try (destruct (H9 eq_refl) as [? H9']); try (specialize (H9' eq_refl)); try (specialize (H10 eq_refl));
    try discriminate; try lia.
  all: assert (fr = 0%nat) as -> by lia; change (Z.of_nat 0) with 0; change (Z.of_nat 1) with 1; change (Z.of_nat 2) with 2.
  all: split; unfold waiter_holds, block_holds, freeing, stored, past, b2n; cbn;
    try (first [done | lia | intros; first [done | lia | destruct H8; [lia|done]]]).
Qed.

(** ** Everything that can happen *)

Inductive reachable (replied : bool) : Ctx -> Prop :=
| reach_new : reachable replied ctx_new
| reach_step c c' : reachable replied c -> ctx_step replied c c' -> reachable replied c'.

Lemma context_inv replied c : reachable replied c -> ctx_inv replied c.
Proof. induction 1; [apply ctx_inv_new|by eapply ctx_inv_step]. Qed.

(** C34: The context of a message is used by its two threads in any order, with a timeout
    at any moment, and: it is never used after it was freed, freed at most once, and
    once both are gone exactly once; the caller is given the reply exactly if it did not
    time out and there is one; and when both are gone the only reference to the reply
    is the caller's, or none. *)
Theorem reply_context replied c : reachable replied c ->
  c.(touched) = false /\ (c.(freed) <= 1)%nat /\
  (c.(out) = true -> 1 <= c.(owned)) /\
  (c.(waiter) = WDone -> c.(out) = c.(woken) && replied) /\
  (c.(waiter) = WDone -> c.(block) = BDone ->
    c.(freed) = 1%nat /\ c.(owned) = if c.(out) then 1 else 0) /\
  ((c.(waiter) = WDone /\ c.(block) = BDone) \/ exists c', ctx_step replied c c').
Proof.
  intros Hr. apply context_inv in Hr. destruct Hr as [H1 H2 H3 H4 H5 H6 H7 H8 H9 H10].
  split; [done|]. split; [lia|].
  destruct c as [rf hd sg w b ow o wk fr t]. unfold waiter_holds, block_holds, freeing, stored, past, b2n in *. cbn in *.
  split; [intros ->; rewrite H4; destruct hd; lia|].
  split. { intros ->. destruct wk; cbn; [by destruct (H7 eq_refl) as [_ ->]|]. destruct o; [|done]. by destruct (H6 eq_refl). }
  split.
  - intros -> ->. cbn in H2. split; [lia|]. rewrite H4. destruct hd; [|by destruct o]. destruct (H5 eq_refl) as (_ & _ & ->). lia.
  - destruct b; try (right; eexists; (by eapply step_store) || (by eapply step_signal) || (by eapply step_block_unref) || (by eapply step_block_free)).
    destruct w; [| | | |by left]; right; eexists;
      (by eapply step_timeout) || (by eapply step_take) || (by eapply step_waiter_unref) || (by eapply step_waiter_free).
Qed.

(** A timeout, and the reply that comes after it. *)
Lemma reply_context_witness : exists c, reachable true c /\ c.(waiter) = WDone /\ c.(block) = BDone /\
  c.(out) = false /\ c.(freed) = 1%nat /\ c.(owned) = 0.
Proof.
  assert (exists c, reachable true c /\ c.(waiter) = WDone /\ c.(block) = BDone /\ c.(out) = false) as (c & Hr & Hw & Hb & Ho).
  { eexists. split.
    - eapply reach_step; [eapply reach_step; [eapply reach_step; [eapply reach_step; [eapply reach_step; [eapply reach_step;
        [apply reach_new|]|]|]|]|]|].
      + apply step_timeout. reflexivity.
      + apply step_waiter_unref. reflexivity.
      + apply step_store. reflexivity.
      + apply step_signal. reflexivity.
      + apply step_block_unref. reflexivity.
      + apply step_block_free. reflexivity.
    - split; [reflexivity|]. split; reflexivity. }
  exists c. split; [exact Hr|]. split; [exact Hw|]. split; [exact Hb|]. split; [exact Ho|].
  destruct (reply_context true c Hr) as (_ & _ & _ & _ & Hend & _). destruct (Hend Hw Hb) as [Hf Hown].
  split; [exact Hf|]. rewrite Ho in Hown. exact Hown.
Defined.

(** ** One message *)

Definition ROUTE_KEY : str := lit "com.apple.container.xpc.route".

(** What the C functions answer: whether there is a dictionary, whether a descriptor can
    be put into it, and the object of [xpc_bridge_send_message_with_reply_sync], if any. *)
Record Bridge `{LibXpc} := mkBridge {
  makes_dictionary : bool;
  set_fd : str -> Z -> bool;
  sync : str -> list (str * KeyValue) -> Z -> option xpc_object;
}.

(** The calls of the bridge, with what they came to. *)
Inductive BridgeCall :=
| CreateDictionary (made : bool)
| SetValue (key : str) (v : KeyValue) (ok : bool)
| SendSync (timeout_ns : Z) (replied : bool)
| ReleaseMsg
| ReleaseReply.

Definition set_value `{LibXpc} (b : Bridge) (e : str * KeyValue) : bool :=
  match e.2 with KFd fd => b.(set_fd) e.1 fd | _ => true end.
(** The setters, up to the first that fails. *)
Fixpoint set_entries `{LibXpc} (b : Bridge) (entries : list (str * KeyValue)) : list BridgeCall * bool :=
  match entries with
  | [] => ([], true)
  | e :: es =>
      if set_value b e then let '(calls, ok) := set_entries b es in (SetValue e.1 e.2 true :: calls, ok)
      else ([SetValue e.1 e.2 false], false)
  end.

Definition timeout_ns (d : Duration) : Z := Z.min U64_MAX d.
(** The offset given to [dispatch_time]. *)
Definition dispatch_offset (ns : Z) : Z := if ns =? 0 then 0 else Z.min ns (2 ^ 63 - 1).

Section Message.
Context `{LibXpc} `{JsonLib}.

(** What is made of the object, released unless it is returned. *)
Definition read_reply (raw : option xpc_object) : list BridgeCall * Result xpc_object :=
  match raw with
  | None => ([], Err (Client XpcTimeout))
  | Some reply =>
      if is_error reply then
        ([ReleaseReply], Err (Client (Errors.Xpc (default [] (XpcObject.error_desc reply)))))
      else match json_error reply with
           | Some e => ([ReleaseReply], Err (Client e))
           | None => ([], Ok reply)
           end
  end.

Definition xpc_error {A} (msg : str) : Result A := Err (Client (Errors.Xpc msg)).
(** [XpcConn::send_with_timeout] *)
Definition send_with_timeout (b : Bridge) (route : str) (entries : list (str * KeyValue)) (timeout : Duration)
    : list BridgeCall * Result xpc_object :=
  if contains x00 route then ([], xpc_error (lit "route contains NUL"))
  else if existsb has_nul entries then ([], xpc_error (lit "string value contains NUL"))
  else if negb b.(makes_dictionary) then ([CreateDictionary false], xpc_error (lit "failed to create XPC dictionary"))
  else
    let '(set, ok) := set_entries b entries in
    let built := CreateDictionary true :: SetValue ROUTE_KEY (KString route) true :: set in
    if ok then
      let raw := b.(sync) route entries (timeout_ns timeout) in
      let '(read, r) := read_reply raw in
      (built ++ [SendSync (timeout_ns timeout) (bool_decide (is_Some raw)); ReleaseMsg] ++ read, r)
    else (built ++ [ReleaseMsg], xpc_error (lit "failed to set file descriptor in XPC dictionary")).

(** ** What a [Host] answers for it

    The reply is known by what is found in it under the [keys] that are read. *)

Definition answer (b : Bridge) (keys : list str) (m : XpcMessage) : XpcAnswer :=
  if negb b.(makes_dictionary) then NoDictionary
  else if negb (set_entries b m.(xpc_entries)).2 then NoDescriptor
  else match b.(sync) m.(xpc_route) m.(xpc_entries) (timeout_ns m.(xpc_timeout)) with
       | None => NoReply
       | Some obj => if is_error obj then XpcErrorObject (described obj) else XpcReply (raw_reply keys obj)
       end.

Lemma read_reply_Ok raw obj : (read_reply raw).2 = Ok obj -> raw = Some obj /\ (read_reply raw).1 = [].
Proof. destruct raw as [o|]; [|done]. cbn. destruct (is_error o); [done|]. destruct (json_error o); [done|]. by intros [= ->]. Qed.
Lemma read_reply_reads keys raw : ERROR_KEY ∈ keys ->
  reply_of match raw with
           | None => NoReply
           | Some obj => if is_error obj then XpcErrorObject (described obj) else XpcReply (raw_reply keys obj)
           end = raw_reply keys <$> (read_reply raw).2.
Proof.
  intros Hk. destruct raw as [obj|]; [|done]. cbn. destruct (is_error obj) eqn:E; cbn; [by rewrite error_desc_reads|].
  rewrite (json_error_reads keys) by done. by destruct (json_error_of _).
Qed.
End Message.

(** ** Who owns the objects *)

(** Whether there is a message, whether it was sent, and whether there is a reply. *)
Record Objects := mkObjects { message : bool; sent : bool; reply : bool }.
Definition obj_step (o : Objects) (c : BridgeCall) : option Objects :=
  match c with
  | CreateDictionary made => if o.(message) then None else Some (mkObjects made o.(sent) o.(reply))
  | SetValue _ _ _ => if o.(message) && negb o.(sent) then Some o else None
  | SendSync _ replied => if o.(message) && negb o.(sent) then Some (mkObjects true true replied) else None
  | ReleaseMsg => if o.(message) then Some (mkObjects false o.(sent) o.(reply)) else None
  | ReleaseReply => if o.(reply) then Some (mkObjects o.(message) o.(sent) false) else None
  end.
Fixpoint obj_run (o : Objects) (calls : list BridgeCall) : option Objects :=
  match calls with
  | [] => Some o
  | c :: calls => o ← obj_step o c; obj_run o calls
  end.

Lemma obj_run_app o calls calls' : obj_run o (calls ++ calls') = (o ← obj_run o calls; obj_run o calls').
Proof. revert o. induction calls as [|c calls IH]; intros o; [done|]. cbn. destruct (obj_step o c); [apply IH|done]. Qed.
Lemma obj_run_set `{LibXpc} b entries : obj_run (mkObjects true false false) (set_entries b entries).1 = Some (mkObjects true false false).
Proof.
  induction entries as [|e es IH]; [done|]. cbn. destruct (set_value b e); [|done].
  destruct (set_entries b es) as [calls ok]. exact IH.
Qed.

(** Whether the message was sent. *)
Definition is_send (c : BridgeCall) : bool := match c with SendSync _ _ => true | _ => false end.
Definition is_sent (calls : list BridgeCall) : bool := existsb is_send calls.

Lemma set_not_sent `{LibXpc} b entries : is_sent (set_entries b entries).1 = false.
Proof.
  unfold is_sent. induction entries as [|e es IH]; [done|]. cbn. destruct (set_value b e); [|done].
  destruct (set_entries b es) as [calls ok]. exact IH.
Qed.
Lemma is_sent_app calls calls' : is_sent (calls ++ calls') = is_sent calls || is_sent calls'.
Proof. apply existsb_app. Qed.

Lemma obj_run_read `{LibXpc} `{JsonLib} raw :
  obj_run (mkObjects false true (bool_decide (is_Some raw))) (read_reply raw).1 =
    Some (mkObjects false true (is_ok (read_reply raw).2)) /\
  is_sent (read_reply raw).1 = false.
Proof. destruct raw as [obj|]; [|done]. cbn. destruct (is_error obj); [done|]. by destruct (json_error obj). Qed.

(** C24: A message sent through the bridge does what [Xpc.send_with_timeout] says of it, for the
    answer its calls come to, the reply as the bridge reads it included: the readers find in
    it what the model's readers find and leave no memory taken.  On every path the caller
    owns its objects: the dictionary is released once, after its last use and whatever
    fails, the reply once unless it is returned; and no time limit, however long, becomes
    negative or longer. *)
Theorem send_refines `{Host} `{LibXpc} `{JsonLib} b keys conn route entries timeout sc tr :
  ERROR_KEY ∈ keys ->
  (forall m, xpc tr m = answer b keys m) ->
  let '(calls, r) := send_with_timeout b route entries timeout in
  (exists evs, Xpc.send_with_timeout conn route entries timeout sc tr = (Done (raw_reply keys <$> r), tr ++ evs) /\
    (calls = [] <-> evs = [])) /\
  (forall obj, r = Ok obj -> reads_as keys obj (raw_reply keys obj)) /\
  obj_run (mkObjects false false false) calls = Some (mkObjects false (is_sent calls) (is_ok r)) /\
  (0 <= timeout -> 0 <= dispatch_offset (timeout_ns timeout) <= timeout).
Proof.
  intros Hk Hx. unfold send_with_timeout, Xpc.send_with_timeout.
  assert (0 <= timeout -> 0 <= dispatch_offset (timeout_ns timeout) <= timeout) as Ht.
  { intros ?. unfold dispatch_offset, timeout_ns, U64_MAX. case_match; lia. }
  destruct (contains x00 route); [by split_and!; [exists []; rewrite app_nil_r|..]|].
  destruct (existsb has_nul entries); [by split_and!; [exists []; rewrite app_nil_r|..]|].
  unfold invoke. rewrite Hx. unfold answer. cbn [xpc_entries xpc_route Effect.xpc_timeout].
  destruct (makes_dictionary b); cbn [negb]; [|by split_and!; [eexists|..]].
  pose proof (obj_run_set b entries) as Hset. pose proof (set_not_sent b entries) as Hnot.
  destruct (set_entries b entries) as [set ok]. cbn [fst snd] in *.
  destruct ok; cbn [negb].
  - set (raw := sync b route entries (timeout_ns timeout)).
    pose proof (read_reply_reads keys raw Hk) as Hr. pose proof (obj_run_read raw) as [Ho Hs].
    destruct (read_reply raw) as [read r]. cbn [fst snd] in *.
    split_and!; [rewrite Hr; by eexists|intros obj _; apply raw_reply_reads| |done].
    cbn [app obj_run obj_step message mbind option_bind andb negb sent reply].
    rewrite obj_run_app, Hset. cbn [app obj_run obj_step message mbind option_bind andb negb sent reply].
    rewrite Ho. cbn. by rewrite is_sent_app, Hnot.
  - split_and!; [by eexists|done| |done].
    cbn [app obj_run obj_step message mbind option_bind andb negb sent reply].
    rewrite obj_run_app, Hset. cbn. by rewrite is_sent_app, Hnot.
Qed.

(** ** A connection *)

(** The calls on a connection; [OnConnection] are those of one message. *)
Inductive ConnCall :=
| CreateMachService (made : bool)
| SetEventHandler
| Activate
| OnConnection (calls : list BridgeCall)
| CancelConnection
| ReleaseConnection.

Definition xpc_bridge_create_connection (made : bool) : list ConnCall :=
  if made then [CreateMachService true; SetEventHandler; Activate] else [CreateMachService false].
Definition drop_XpcConn : list ConnCall := [CancelConnection; ReleaseConnection].
Definition drop_RawReply : list BridgeCall := [ReleaseReply].

(** A message whose reply is read and dropped. *)
Definition exchanged `{LibXpc} `{JsonLib} (b : Bridge) (m : str * list (str * KeyValue) * Duration) : list BridgeCall :=
  let '(route, entries, timeout) := m in
  let '(calls, r) := send_with_timeout b route entries timeout in
  if is_ok r then calls ++ drop_RawReply else calls.

(** [XpcClient::call]: the connection, any messages on it, its drop. *)
Definition call `{LibXpc} `{JsonLib} (b : Bridge) (made : bool) (messages : list (str * list (str * KeyValue) * Duration))
    : list ConnCall * Result unit :=
  let calls := xpc_bridge_create_connection made in
  if made then (calls ++ ((OnConnection ∘ exchanged b) <$> messages) ++ drop_XpcConn, Ok tt)
  else (calls, Err (Client XpcConnect)).

(** What libxpc asks: a handler before the activation, messages only on an active connection,
    its last reference dropped only when it was cancelled; and no object left over. *)
Inductive Connection := Absent | Created | Handled | Active | Canceled.
Definition conn_step (c : Connection) (e : ConnCall) : option Connection :=
  match c, e with
  | Absent, CreateMachService made => Some (if made then Created else Absent)
  | Created, SetEventHandler => Some Handled
  | Handled, Activate => Some Active
  | Active, OnConnection calls =>
      o ← obj_run (mkObjects false false false) calls;
      if negb o.(message) && negb o.(reply) then Some Active else None
  | Active, CancelConnection => Some Canceled
  | Canceled, ReleaseConnection => Some Absent
  | _, _ => None
  end.
Fixpoint conn_run (c : Connection) (es : list ConnCall) : option Connection :=
  match es with
  | [] => Some c
  | e :: es => c ← conn_step c e; conn_run c es
  end.

Lemma exchanged_run `{LibXpc} `{JsonLib} b m :
  exists sent, obj_run (mkObjects false false false) (exchanged b m) = Some (mkObjects false sent false).
Proof.
  destruct m as [[route entries] timeout]. unfold exchanged, send_with_timeout.
  destruct (contains x00 route); [by eexists|]. destruct (existsb has_nul entries); [by eexists|].
  destruct (makes_dictionary b); [|by eexists]. cbn [negb].
  pose proof (obj_run_set b entries) as Hset. destruct (set_entries b entries) as [set ok]. cbn [fst] in Hset.
  destruct ok.
  - set (raw := sync b route entries (timeout_ns timeout)). pose proof (obj_run_read raw) as [Ho _].
    destruct (read_reply raw) as [read r]. cbn [fst snd] in Ho. exists true. destruct r as [obj|e]; cbn [is_ok].
    all: rewrite <- ?app_assoc; cbn [app obj_run obj_step message mbind option_bind andb negb sent reply];
      rewrite obj_run_app, Hset; cbn [app obj_run obj_step message mbind option_bind andb negb sent reply];
      rewrite ?obj_run_app, Ho; done.
  - exists false. cbn. by rewrite obj_run_app, Hset.
Qed.

(** A call uses its connection as libxpc asks, and leaves nothing of it and of its messages. *)
Lemma call_released `{LibXpc} `{JsonLib} b made messages : conn_run Absent (call b made messages).1 = Some Absent.
Proof.
  destruct made; [|done]. cbn. induction messages as [|m messages IH]; [done|]. cbn.
  destruct (exchanged_run b m) as (sent & ->). exact IH.
Qed.

(** Objects as data, for the examples: a number, descriptors, an error with its
    description, or a dictionary of texts, data and numbers with its descriptors. *)
Inductive Object :=
| Int64 (z : Z)
| Fds (fds : list Z)
| ErrorObject (description : list byte)
| Dictionary (texts datas : list (str * list byte)) (ints : list (str * Z)) (logs : list Z).

#[local] Instance DataXpc : LibXpc := {|
  xpc_object := Object;
  xpc_get_type o := match o with
    | Int64 _ => XPC_TYPE_INT64 | Fds _ => XPC_TYPE_ARRAY | ErrorObject _ => XPC_TYPE_ERROR | _ => OtherType end;
  xpc_dictionary_get_value o k := match o with
    | Dictionary _ _ ints logs => if bool_decide (k = lit "logs") then Some (Fds logs) else Int64 <$> assoc k ints
    | _ => None end;
  xpc_dictionary_get_string o k := match o with
    | Dictionary ts _ _ _ => assoc k ts | ErrorObject d => if bool_decide (k = lit "XPCErrorDescription") then Some d else None
    | _ => None end;
  xpc_dictionary_get_data o k := match o with Dictionary _ ds _ _ => assoc k ds | _ => None end;
  xpc_int64_get_value o := match o with Int64 z => z | _ => 0 end;
  xpc_array_get_count o := match o with Fds fds => length fds | _ => 0%nat end;
  xpc_array_dup_fd o i := match o with Fds fds => default (-1) (fds !! i) | _ => -1 end;
  _xpc_error_key_description := lit "XPCErrorDescription";
  malloc _ := true;
|}.

(** A descriptor that cannot be put into the message; a reply; an error too long for the buffer. *)
Definition refusing_fd : Bridge := mkBridge _ true (fun _ fd => fd =? 3)
  (fun _ _ _ => Some (Dictionary [] [] [(lit "exitCode", 7)] [5; 6; 8])).
Definition sample_keys : list str := [ERROR_KEY; lit "exitCode"].

Lemma error_truncated : XpcObject.error_desc (ErrorObject (replicate 2000 "a"%byte)) = Some (replicate 1023 "a"%byte).
Proof. vm_compute. reflexivity. Qed.

Lemma send_refines_witness :
  @send_with_timeout _ DomJson refusing_fd (lit "r") [(lit "a", KFd 3); (lit "b", KFd 4)] 1000 =
    ([CreateDictionary true; SetValue ROUTE_KEY (KString (lit "r")) true; SetValue (lit "a") (KFd 3) true;
      SetValue (lit "b") (KFd 4) false; ReleaseMsg],
     xpc_error (lit "failed to set file descriptor in XPC dictionary")) /\
  (exists obj, @send_with_timeout _ DomJson refusing_fd (lit "r") [(lit "a", KFd 3)] 1000 =
     ([CreateDictionary true; SetValue ROUTE_KEY (KString (lit "r")) true; SetValue (lit "a") (KFd 3) true;
       SendSync 1000 true; ReleaseMsg], Ok obj) /\
   Xpc.log_fds (raw_reply sample_keys obj) = [5; 6] /\ Xpc.try_int64 (raw_reply sample_keys obj) (lit "exitCode") = Ok 7 /\
   reads_as sample_keys obj (raw_reply sample_keys obj)) /\
  obj_run (mkObjects false false false)
    (@send_with_timeout _ DomJson refusing_fd (lit "r") [(lit "a", KFd 3)] 1000).1 = Some (mkObjects false true true) /\
  0 <= dispatch_offset (timeout_ns 1000) <= 1000.
Proof.
  pose proof (@send_refines (service_host (@answer _ refusing_fd sample_keys)) _ DomJson refusing_fd sample_keys
    (lit "s") (lit "r") [(lit "a", KFd 3)] 1000 None [] (list_elem_of_here _ _) (fun m => eq_refl)) as Hs.
  destruct (@send_with_timeout _ DomJson refusing_fd (lit "r") [(lit "a", KFd 3)] 1000) as [calls r] eqn:E.
  destruct Hs as (_ & Hr & Ho & Ht). vm_compute in E. injection E as <- <-.
  split; [vm_compute; reflexivity|]. split.
  - eexists. split; [reflexivity|]. split; [vm_compute; reflexivity|]. split; [vm_compute; reflexivity|].
    apply Hr. reflexivity.
  - split; [exact Ho|]. apply Ht. lia.
Defined.
