(* ===== verification/XpcClient.v ===== *)
(** * The Apple container client ([src/src/core/client/xpc_client.rs])

    [XpcClient]'s operations as programs over a [Host]: the messages each sends
    and how it reads the replies, with the payloads written through
    [JsonFormatter].  The pipes of an exec and what arrives on them are the
    class [ExecPipes]. *)

From S2P Require Import Prelude BTree Utf8 Ports Errors Mounts Json JsonFormat Effect Request DockerApi.
From S2P Require Import ImageConfig Xpc.

(** ** Names and texts *)

Definition xpc_timeout_for_grace (grace_seconds : Z) : Duration :=
  Z.max DEFAULT_TIMEOUT
    (Z.min (from_secs (Z.min U64_MAX (grace_seconds + 30))) LONG_TIMEOUT).

Definition normalize_image_reference (image : str) : str :=
  match split_once "/" image with
  | None => lit "docker.io/library/" ++ image
  | Some (first, _) =>
      if contains "." first || contains ":" first || bool_decide (first = lit "localhost") then image
      else lit "docker.io/" ++ image
  end.

Definition volume_name_byte (b : byte) : bool := is_ascii_alphanumeric b || bool_decide (b ∈ lit "_.-").
Definition is_valid_volume_name (name : str) : bool :=
  if bool_decide (name = []) || (255 <? len name) then false
  else match name with
       | c :: chars => if is_ascii_alphanumeric c then forallb volume_name_byte chars else false
       | [] => false
       end.

Definition is_file_url_path_byte (b : byte) : bool :=
  is_ascii_alphanumeric b || bool_decide (b ∈ lit "!$&'()*+,-./:;=@_~").
Definition file_url_byte (b : byte) : str :=
  if is_file_url_path_byte b then [b] else ["%"%byte; hex_upper (u8 b / 16); hex_upper (u8 b mod 16)].
Definition file_url_string (path : str) : str := lit "file://" ++ concat (file_url_byte <$> path).

(** ** Errors *)

Definition is_not_found_error (e : Error) : bool :=
  match e with
  | Client (ContainerNotFound _) => true
  | Client (Xpc msg) => starts_with (lit "XPC error notFound") msg
  | _ => false
  end.
Definition is_volume_already_exists_error (e : Error) : bool :=
  match e with Client (Xpc msg) => contains_str (lit "already exists") msg | _ => false end.

(** ** Payloads *)

Section Payloads.
Context `{JsonFormatter}.

Definition stop_options (signal : str) (timeout : Z) : str :=
  fmt_object [(lit "signal", fmt_string signal); (lit "timeoutInSeconds", fmt_int timeout)].
Definition create_opts (auto_remove : bool) : str :=
  fmt_object [(lit "autoRemove", fmt_bool auto_remove); (lit "rootFsOverride", fmt_null)].
Definition oci_platform_json (architecture : str) : str :=
  fmt_object [(lit "os", fmt_string (lit "linux")); (lit "architecture", fmt_string architecture)].

Definition DEFAULT_KERNEL_ARGS : list str := [lit "console=hvc0"; lit "tsc=reliable"; lit "panic=0"].
Definition kernel_json (kernel_path : str) : str :=
  fmt_object
    [(lit "path", fmt_string (file_url_string kernel_path));
     (lit "platform", oci_platform_json (lit "arm64"));
     (lit "commandLine", fmt_object [(lit "kernelArgs", fmt_strings DEFAULT_KERNEL_ARGS);
                                     (lit "initArgs", fmt_strings [])])].

Definition user_id (uid gid : Z) : str :=
  fmt_object [(lit "id", fmt_object [(lit "uid", fmt_int uid); (lit "gid", fmt_int gid)])].
Definition proc_cfg (executable : str) (arguments environment : list str) (working_directory : str) : str :=
  fmt_object
    [(lit "executable", fmt_string executable); (lit "arguments", fmt_strings arguments);
     (lit "environment", fmt_strings environment); (lit "workingDirectory", fmt_string working_directory);
     (lit "terminal", fmt_bool false); (lit "user", user_id 0 0);
     (lit "supplementalGroups", fmt_array []); (lit "rlimits", fmt_array [])].
End Payloads.

(** ** Reading replies *)

(** [v.extract().text()]: the text of a value where it stood. *)
Class JsonText `{JsonLib} := { text_of : Value -> str }.

Record VolumeResolution := mkResolution { volume_source : str; volume_format : str }.

Section Read.
Context `{JsonLib}.

Definition client_json {A} (what : str) (r : result str A) : Result A :=
  map_err (fun e => Client (Json (what ++ e))) r.

Definition parse_container_list (d : list byte) (id : str) : Result Value :=
  if bool_decide (d = []) then Err (Client (ContainerNotFound id))
  else
    text ← client_json (lit "containerList response is not UTF-8: ") (str_from_utf8 d);
    client_json [] (json_parse text).

(** The first entry of a container list. *)
Definition first_container (d : list byte) (id : str) : Result Value :=
  parsed ← parse_container_list d id;
  arr ← client_json [] (to_array parsed);
  ok_or (head arr) (Client (ContainerNotFound id)).

Definition parse_volume_configuration (d : list byte) : Result VolumeResolution :=
  text ← client_json (lit "volume configuration is not UTF-8: ") (str_from_utf8 d);
  v ← client_json [] (json_parse text);
  source ← client_json (lit "volume configuration missing or invalid source: ") (string_member v (lit "source"));
  format ← client_json (lit "volume configuration missing or invalid format: ") (string_member v (lit "format"));
  Ok (mkResolution source format).

(** The loop over the listed images. *)
Fixpoint match_image_loop `{!JsonText} (image docker_ref : str) (items : list Value)
    : result ClientError str :=
  match items with
  | [] => Err (ImageNotFound image)
  | item :: items =>
      let ref_str := optional_string item (lit "reference") in
      if negb (bool_decide (ref_str = Some image) || bool_decide (ref_str = Some docker_ref)) then
        match_image_loop image docker_ref items
      else match required item (lit "descriptor") with
           | Ok desc => Ok (text_of desc)
           | Err _ => Err (ClientOther (lit "image " ++ image
                                        ++ lit ": matched reference but descriptor is missing"))
           end
  end.

Definition match_image_descriptor `{!JsonText} (d : list byte) (image : str) : result ClientError str :=
  if bool_decide (d = []) then Err (ImageNotFound image)
  else
    text ← map_err (fun e => Json (lit "imageDescriptions is not UTF-8: " ++ e)) (str_from_utf8 d);
    parsed ← map_err Json (json_parse text);
    arr ← map_err Json (to_array parsed);
    match_image_loop image (normalize_image_reference image) arr.

(** [optional(k).and_then(|v| u16::try_from(v).ok())] *)
Definition optional_u16 (v : Value) (k : str) : option Z :=
  n ← optional_i64 v k; if in_range 0 U16_MAX n then Some n else None.

Definition port_of (proto : str) (p : Z) : ContainerPort :=
  if bool_decide (proto = lit "udp") then Udp p
  else if bool_decide (proto = lit "sctp") then Sctp p
  else Tcp p.

(** One entry of [publishedPorts]; [is_ipv6] is whether a text parses as an [Ipv6Addr]. *)
Definition add_published (is_ipv6 : str -> bool) (ps : Ports) (p : Value) : Ports :=
  let container_port := default 0 (optional_u16 p (lit "containerPort")) in
  let host_port := default 0 (optional_u16 p (lit "hostPort")) in
  let proto := default (lit "tcp") (optional_string p (lit "proto")) in
  let host_address := default [] (optional_string p (lit "hostAddress")) in
  let container_port := port_of proto container_port in
  if (host_port =? 0) || (as_u16 container_port =? 0) then ps
  else if is_ipv6 host_address then add_ipv6_mapping ps container_port host_port
  else add_mapping ps container_port host_port.

Definition parse_published_ports (is_ipv6 : str -> bool) (item : Value) : Ports :=
  match (config ← optional item (lit "configuration");
         published_ports ← optional config (lit "publishedPorts");
         to_ok (to_array published_ports)) with
  | Some arr => fold_left (add_published is_ipv6) arr Ports_default
  | None => Ports_default
  end.

(** The address of the first network, without its prefix length. *)
Definition network_address_of (parse_ip : str -> result str str) (key label : str) (item : Value)
    : Result str :=
  networks ← ok_or (v ← optional item (lit "networks"); to_ok (to_array v))
               (Client (ClientOther (lit "no network attachments")));
  first ← ok_or (head networks) (Client (ClientOther (lit "no network attachments")));
  addr_str ← client_json [] (string_member first key);
  let addr_only := match split_once "/" addr_str with Some (addr, _) => addr | None => addr_str end in
  map_err (fun e => Client (ClientOther (lit "invalid " ++ label ++ lit " address: " ++ e)))
    (parse_ip addr_only).
End Read.

(** ** The output of an exec *)

Definition EXEC_READER_JOIN_TIMEOUT : Duration := from_secs 5.
Definition MAX_OUTPUT_SIZE : Z := 64 * 1024 * 1024.

Definition show_hex_digit (d : Z) : byte := as_u8 (if d <? 10 then 48 + d else 87 + d).
Fixpoint show_hex_digits (fuel : nat) (n : Z) (acc : str) : str :=
  match fuel with
  | O => acc
  | S f => let acc := show_hex_digit (n mod 16) :: acc in
           if n / 16 =? 0 then acc else show_hex_digits f (n / 16) acc
  end.
(** [{:#x}] of a 16-bit value. *)
Definition show_hex (n : Z) : str := lit "0x" ++ show_hex_digits 4 n [].

Definition POLLIN : Z := 1.
Definition POLLERR : Z := 8.
Definition POLLHUP : Z := 16.
Definition POLLNVAL : Z := 32.
Definition has_event (revents mask : Z) : bool := negb (Z.land revents mask =? 0).

(** One turn of the reading loop: whether the flag was set, how [poll] ended,
    and what the read gave where there was one, no bytes being the end of the
    file. *)
Inductive PollResult :=
| PollFailed (e : IoError)
| PollTimedOut
| PollReady (revents : Z) (r : result IoError (list byte)).
Record Turn := mkTurn { cancelled : bool; polled : PollResult }.

Definition is_interrupted (e : IoError) : bool := bool_decide (e.(io_kind) = Interrupted).

Definition output_too_long : IoError :=
  mkIoError OutOfMemory (lit "output exceeds " ++ show_nat MAX_OUTPUT_SIZE ++ lit " bytes limit").

(** The result once it is there; [None] while the loop still runs. *)
Fixpoint read_file_to_vec_cancellable (turns : list Turn) (buf : list byte)
    : option (result IoError (option (list byte))) :=
  match turns with
  | [] => None
  | t :: turns =>
      if t.(cancelled) then Some (Ok None)
      else match t.(polled) with
           | PollFailed e => if is_interrupted e then read_file_to_vec_cancellable turns buf else Some (Err e)
           | PollTimedOut => read_file_to_vec_cancellable turns buf
           | PollReady revents r =>
               if has_event revents (Z.lor POLLERR POLLNVAL) then
                 Some (Err (io_other (lit "poll on exec output pipe failed with revents " ++ show_hex revents)))
               else if has_event revents (Z.lor POLLIN POLLHUP) then
                 match r with
                 | Ok [] => Some (Ok (Some buf))
                 | Ok chunk =>
                     let buf := buf ++ chunk in
                     if MAX_OUTPUT_SIZE <? len buf then Some (Err output_too_long)
                     else read_file_to_vec_cancellable turns buf
                 | Err e => if is_interrupted e then read_file_to_vec_cancellable turns buf else Some (Err e)
                 end
               else read_file_to_vec_cancellable turns buf
           end
  end.

(** What a reading thread sends, and what the channel gives. *)
Definition Output := result IoError (option (list byte)).
Inductive Received :=
| FromStdout (r : Output)
| FromStderr (r : Output)
| RecvTimeout.

Definition describe_missing (has_stdout has_stderr : bool) : str :=
  match has_stdout, has_stderr with
  | false, false => lit "stdout/stderr"
  | false, true => lit "stdout"
  | true, _ => lit "stderr"
  end.

(** The first loop; the end of the list is a channel without senders. *)
Inductive Joined :=
| JoinedBoth (out err : Output)
| JoinTimedOut (has_out has_err : bool)
| JoinDisconnected (has_out has_err : bool).

Fixpoint receive_both (msgs : list Received) (out err : option Output) : Joined :=
  match out, err with
  | Some o, Some e => JoinedBoth o e
  | _, _ =>
      match msgs with
      | FromStdout r :: msgs => receive_both msgs (Some r) err
      | FromStderr r :: msgs => receive_both msgs out (Some r)
      | RecvTimeout :: _ => JoinTimedOut (bool_decide (is_Some out)) (bool_decide (is_Some err))
      | [] => JoinDisconnected (bool_decide (is_Some out)) (bool_decide (is_Some err))
      end
  end.

Definition stream_bytes (name : str) (r : Output) : Result (list byte) :=
  match r with
  | Ok (Some b) => Ok b
  | Ok None => Err (Client (ClientOther (lit "exec " ++ name ++ lit " reader was cancelled unexpectedly")))
  | Err e => Err (Client (ClientOther (lit "read " ++ name ++ lit " failed: " ++ e.(io_msg))))
  end.

(** The output of both streams, and whether the readers were told to stop. *)
Definition join_exec_readers (msgs : list Received) (timeout : Duration)
    : Result (list byte * list byte) * bool :=
  match receive_both msgs None None with
  | JoinedBoth out err =>
      ((o ← stream_bytes (lit "stdout") out; e ← stream_bytes (lit "stderr") err; Ok (o, e)), false)
  | JoinTimedOut has_out has_err =>
      (Err (Client (ClientOther (lit "read " ++ describe_missing has_out has_err ++ lit " timed out after "
             ++ show_nat (timeout / 1000000) ++ lit "ms"))), true)
  | JoinDisconnected has_out has_err =>
      (Err (Client (ClientOther (lit "exec reader thread for " ++ describe_missing has_out has_err
             ++ lit " terminated without sending result"))), false)
  end.

(** The pipes of an exec: the descriptors [pipe(2)] gives, whether [fcntl] marks one
    close-on-exec, and what the readers deliver after a trace. *)
Class ExecPipes := {
  pipe : Trace -> option (Z * Z);
  set_cloexec : Trace -> Z -> bool;
  received : Trace -> list Received;
}.

Record XpcExecResult := mkXpcExec {
  xpc_exit_code : option Z;
  xpc_stdout : list byte;
  xpc_stderr : list byte;
}.

(** ** Paths *)

Definition absolutize_host_path (cwd : result str str) (path : str) : Result str :=
  if starts_with (lit "/") path then Ok path
  else
    cwd ← map_err (fun e => Client (ClientOther (lit "failed to resolve current directory: " ++ e))) cwd;
    Ok (path_join cwd path).
Definition host_path_for_xpc (path : str) : Result str :=
  ok_or (from_utf8 path)
    (Client (ClientOther (lit "host path is not valid UTF-8: " ++ from_utf8_lossy path))).

(** ** Operations *)

Section XpcClient.
Context `{Host} `{JsonLib} `{!JsonText} `{JsonFormatter} `{ExecPipes}.
Context (is_ipv6 : str -> bool) (parse_ip : str -> result str str) (cwd : result str str).
Context (debug : str -> str).

Definition id_entry (id : str) : str * KeyValue := (lit "id", KString id).
Definition process_entry (pid : str) : str * KeyValue := (lit "processIdentifier", KString pid).

Definition wait_blocking (id process_id : str) (timeout : Duration) : M Z :=
  connect SERVICE_NAME ;;
  reply ← send_with_timeout SERVICE_NAME (lit "containerWait") [id_entry id; process_entry process_id] timeout;
  lift (try_int64 reply (lit "exitCode")).

Definition ignore_not_found {A} (m : M A) : M unit :=
  result ← attempt m;
  match result with
  | Ok _ => mret tt
  | Err e => if is_not_found_error e then mret tt else fail e
  end.

Definition stop_plan (timeout_seconds : option Z) : str * Z :=
  match timeout_seconds with
  | Some t => if t =? 0 then (lit "SIGKILL", 0)
              else if t <? 0 then (lit "SIGTERM", 2 ^ 31 - 1)
              else (lit "SIGTERM", t)
  | None => (lit "SIGTERM", 30)
  end.
Definition stop (id : str) (timeout_seconds : option Z) : M unit :=
  let '(signal, timeout) := stop_plan timeout_seconds in
  call SERVICE_NAME (fun conn =>
    ignore_not_found
      (send_with_timeout conn (lit "containerStop")
         [id_entry id; (lit "stopOptions", KData (stop_options signal timeout))]
         (xpc_timeout_for_grace timeout))).

Definition copy_in (id source destination : str) (mode : Z) : M unit :=
  source ← lift (absolutize_host_path cwd source);
  source ← lift (host_path_for_xpc source);
  call SERVICE_NAME (fun conn =>
    _ ← send conn (lit "containerCopyIn")
      [id_entry id; (lit "sourcePath", KString source); (lit "destinationPath", KString destination);
       (lit "fileMode", KUInt64 mode); (lit "createParents", KBool true)];
    mret tt).

Definition copy_out (id source destination : str) : M unit :=
  source ← lift (host_path_for_xpc source);
  destination ← lift (absolutize_host_path cwd destination);
  destination ← lift (host_path_for_xpc destination);
  call SERVICE_NAME (fun conn =>
    _ ← send conn (lit "containerCopyOut")
      [id_entry id; (lit "sourcePath", KString source); (lit "destinationPath", KString destination);
       (lit "createParents", KBool true)];
    mret tt).

Definition remove_blocking (id : str) (force : bool) : M unit :=
  connect SERVICE_NAME ;;
  ignore_not_found (send SERVICE_NAME (lit "containerDelete") [id_entry id; (lit "forceDelete", KBool force)]).
Definition remove (id : str) (force : bool) : M unit := spawn_blocking (remove_blocking id force).

Definition close_valid_fds (fds : list Z) : M unit :=
  for_each (fun fd => if 0 <=? fd then note (EvCloseFd fd) else mret tt) fds.
Definition logs (id : str) : M (Z * Z) :=
  call SERVICE_NAME (fun conn =>
    reply ← send conn (lit "containerLogs") [id_entry id];
    match log_fds reply with
    | [a; b] =>
        if (a <? 0) || (b <? 0) then
          close_valid_fds [a; b] ;;
          fail (Client (ClientOther (lit "containerLogs returned an invalid fd")))
        else mret (a, b)
    | fds => close_valid_fds fds ;;
             fail (Client (ClientOther (lit "containerLogs did not return enough fds")))
    end).

Definition resolve_volume (name : str) : M VolumeResolution :=
  if negb (is_valid_volume_name name) then
    fail (Client (ClientOther (lit "invalid volume name " ++ debug name
      ++ lit ": must match ^[A-Za-z0-9][A-Za-z0-9_.-]*$ and be at most 255 characters")))
  else
    call SERVICE_NAME (fun conn =>
      reply ← attempt (send conn (lit "volumeCreate")
                         [(lit "volumeName", KString name); (lit "volumeDriver", KString (lit "local"))]);
      d ← match reply with
          | Ok r => mret (data r (lit "volume"))
          | Err e =>
              if is_volume_already_exists_error e then
                r ← send conn (lit "volumeInspect") [(lit "volumeName", KString name)];
                mret (data r (lit "volume"))
              else fail e
          end;
      d ← lift (ok_or d (Client (ClientOther (lit "volume '" ++ name ++ lit "' resolution did not return volume"))));
      lift (parse_volume_configuration d)).

Definition with_first_container {A} (id : str) (f : Value -> Result A) : M A :=
  connect SERVICE_NAME ;;
  reply ← send SERVICE_NAME (lit "containerList") [(lit "listFilters", KData (filters_json [id] []))];
  item ← lift (first_container (default [] (data reply (lit "containers"))) id);
  lift (f item).

Definition snapshot_of_item (item : Value) : ContainerSnapshot :=
  let state := default (lit "unknown") (to_ok (string_member item (lit "status"))) in
  mkSnapshot (bool_decide (state = lit "running")) (parse_published_ports is_ipv6 item).
Definition container_state (id : str) : M ContainerSnapshot :=
  spawn_blocking (with_first_container id (fun item => Ok (snapshot_of_item item))).
Definition network_address (id key label : str) : M str :=
  spawn_blocking (with_first_container id (network_address_of parse_ip key label)).
Definition bridge_ip_address (id : str) : M str := network_address id (lit "ipv4Address") (lit "bridge ip").
Definition gateway_ip_address (id : str) : M str := network_address id (lit "ipv4Gateway") (lit "gateway ip").
Definition ports (id : str) : M Ports := snapshot ← container_state id; mret snapshot.(snapshot_ports).

(** Both ends of the pipe are closed where one of them cannot be marked. *)
Fixpoint mark_all (fds pipe_ends : list Z) : M unit :=
  match fds with
  | [] => mret tt
  | fd :: fds =>
      marked ← peek (fun tr => set_cloexec tr fd);
      if marked : bool then note (EvPipe (CloseOnExec fd)) ;; mark_all fds pipe_ends
      else for_each (fun fd => note (EvPipe (ClosePipe fd))) pipe_ends ;;
           fail (Client (ClientOther (lit "failed to set FD_CLOEXEC on pipe")))
  end.
Definition create_pipe : M (Z * Z) :=
  made ← peek pipe;
  '(read_end, write_end) ← lift (ok_or made (Client (ClientOther (lit "failed to create pipe"))));
  note (EvPipe (MakePipe read_end write_end)) ;;
  mark_all [read_end; write_end] [read_end; write_end] ;;
  mret (read_end, write_end).

(** [File]s that are alive during [m]: an error drops them, the last one first. *)
Definition owning {A} (files : list Z) (m : M A) : M A :=
  on_err ((fun fd => EvPipe (ClosePipe fd)) <$> rev files) m.

(** [suffix] is what [unique_suffix] makes. *)
Definition exec (id : str) (cmd environment : list str) (suffix : str) : M XpcExecResult :=
  match cmd with
  | [] => fail (Client (ClientOther (lit "exec requires at least one argument")))
  | executable :: arguments =>
      let pid := lit "exec-" ++ suffix in
      call SERVICE_NAME (fun conn =>
        '(out_read, out_write) ← create_pipe;
        '(err_read, err_write) ← owning [out_read; out_write] create_pipe;
        _ ← owning [out_read; out_write; err_read; err_write]
              (send conn (lit "containerCreateProcess")
                 [id_entry id; process_entry pid;
                  (lit "processConfig", KData (proc_cfg executable arguments environment (lit "/")));
                  (lit "stdout", KFd out_write); (lit "stderr", KFd err_write)]);
        note (EvPipe (ClosePipe out_write)) ;;
        note (EvPipe (ClosePipe err_write)) ;;
        _ ← owning [out_read; err_read]
              (send conn (lit "containerStartProcess") [id_entry id; process_entry pid]);
        note (EvPipe (ReadByThread out_read)) ;;
        note (EvPipe (ReadByThread err_read)) ;;
        reply ← on_err [EvPipe CancelReaders]
                  (send_with_timeout conn (lit "containerWait") [id_entry id; process_entry pid] LONG_TIMEOUT);
        msgs ← peek received;
        let '(joined, cancelled) := join_exec_readers msgs EXEC_READER_JOIN_TIMEOUT in
        (if cancelled then note (EvPipe CancelReaders) else mret tt) ;;
        '(stdout, stderr) ← lift joined;
        exit_code ← lift (try_int64 reply (lit "exitCode"));
        mret (mkXpcExec (Some exit_code) stdout stderr))
  end.

Definition pull_image (image : str) (platform_arch : option str) : M unit :=
  let image := normalize_image_reference image in
  call IMAGE_SERVICE (fun conn =>
    let args := [(lit "imageReference", KString image); (lit "insecureFlag", KBool false);
                 (lit "maxConcurrentDownloads", KInt64 3)]
                ++ match platform_arch with
                   | Some arch => [(lit "ociPlatform", KData (oci_platform_json arch))]
                   | None => []
                   end in
    _ ← send_with_timeout conn (lit "imagePull") args LONG_TIMEOUT; mret tt).

Definition get_default_kernel : M (list byte) :=
  call SERVICE_NAME (fun conn =>
    reply ← send conn (lit "getDefaultKernel") [(lit "systemPlatform", KData (oci_platform_json (lit "arm64")))];
    lift (ok_or (data reply (lit "kernel")) (Client (ClientOther (lit "no kernel"))))).

Definition resolve_image_descriptor (image : str) : M str :=
  call IMAGE_SERVICE (fun conn =>
    reply ← send conn (lit "imageList") [];
    lift (map_err Client (match_image_descriptor (default [] (data reply (lit "imageDescriptions"))) image))).

Definition content_get (digest : str) : M (list byte) :=
  call IMAGE_SERVICE (fun conn =>
    reply ← send conn (lit "contentGet") [(lit "digest", KString digest)];
    path ← lift (ok_or (string reply (lit "contentPath"))
                   (Client (ClientOther (lit "contentGet did not return contentPath"))));
    invoke (EvReadFile path) (fun tr =>
      map_err (fun e => Client (ClientOther (lit "failed to read content for " ++ digest ++ lit " at "
                                             ++ path ++ lit ": " ++ e.(io_msg)))) (read_file tr path))).

Definition create_container (container_cfg : str) (kernel : list byte) : M unit :=
  call SERVICE_NAME (fun conn =>
    _ ← send conn (lit "containerCreate")
          [(lit "containerConfig", KData container_cfg); (lit "kernel", KData kernel);
           (lit "containerOptions", KData (create_opts false))];
    mret tt).
Definition bootstrap_container (id : str) : M unit :=
  call SERVICE_NAME (fun conn =>
    _ ← send conn (lit "containerBootstrap") [id_entry id; (lit "dynamicEnv", KData (lit "{}"))]; mret tt).
Definition start_process (id : str) : M unit :=
  call SERVICE_NAME (fun conn =>
    _ ← send conn (lit "containerStartProcess") [id_entry id; process_entry id]; mret tt).

(** The volumes of a request, each name once, in order. *)
Definition volume_names (req : ContainerRequest) : list str :=
  (bt_collect ((fun n => (n, tt)) <$>
     omap (fun m => match m.(mount_type) with Volume => m.(source) | _ => None end) (mounts req))).*1.
Fixpoint resolve_names (names : list str) (resolutions : list (str * VolumeResolution))
    : M (list (str * VolumeResolution)) :=
  match names with
  | [] => mret resolutions
  | name :: names =>
      resolution ← with_err (fun e => other (lit "failed to resolve volume '" ++ name ++ lit "': " ++ show_Error e))
                     (resolve_volume name);
      resolve_names names (resolutions ++ [(name, resolution)])
  end.
Definition resolve_volumes (req : ContainerRequest) : M (list (str * VolumeResolution)) :=
  resolve_names (volume_names req) [].
End XpcClient.

(** ** Volumes *)

Section Volumes.
Context `{Host} `{JsonLib} (debug : str -> str).

(** The service answered about the volume [name] with [r]. *)
Definition reported (tr : Trace) (name : str) (r : VolumeResolution) : Prop :=
  exists before m reply d, (before ++ [EvXpc m]) `prefix_of` tr /\
    m.(xpc_route) ∈ [lit "volumeCreate"; lit "volumeInspect"] /\
    (lit "volumeName", KString name) ∈ m.(xpc_entries) /\
    reply_of (xpc before m) = Ok reply /\ data reply (lit "volume") = Some d /\
    parse_volume_configuration d = Ok r.

Lemma reported_mono tr tr' name r : tr `prefix_of` tr' -> reported tr name r -> reported tr' name r.
Proof. intros Hp (before & m & reply & d & Hb & Hrest). exists before, m, reply, d. split; [by etrans|done]. Qed.

#[export] Instance resolve_volume_extends name : Extends (resolve_volume debug name).
Proof. unfold resolve_volume. repeat case_match; apply _. Qed.

Lemma reported_of conn route name t before reply d r :
  route ∈ [lit "volumeCreate"; lit "volumeInspect"] ->
  let m := mkXpcMessage conn route ((lit "volumeName", KString name) :: t) DEFAULT_TIMEOUT in
  reply_of (xpc before m) = Ok reply ->
  ok_or (data reply (lit "volume")) (Client (ClientOther (lit "volume '" ++ name
    ++ lit "' resolution did not return volume"))) = Ok d ->
  parse_volume_configuration d = Ok r -> reported (before ++ [EvXpc m]) name r.
Proof.
  intros Hr m Hm Hd%ok_or_Ok Hp. exists before, m, reply, d. split_and!; try done. by left.
Qed.

Lemma resolve_volume_Ok name sc tr r tr' :
  resolve_volume debug name sc tr = (Done (Ok r), tr') -> is_valid_volume_name name = true /\ reported tr' name r.
Proof.
  unfold resolve_volume. destruct (is_valid_volume_name name); [|done]. cbn [negb].
  intros (answer & tr1 & E1 & (d & tr2 & E2 & E)%bind_ok)%call_Ok%bind_ok. split; [done|].
  apply (proj1 (attempt_ok _ _ _ _ _)) in E1.
  apply bind_ok in E as (d' & tr3 & [Ed ->]%lift_ok & [Ep ->]%lift_ok).
  destruct answer as [reply|e].
  - apply send_with_timeout_Ok in E1 as (-> & Er & _). apply mret_ok in E2 as [<- ->].
    eapply reported_of; [by left|done..].
  - destruct (is_volume_already_exists_error e); [|done].
    apply bind_ok in E2 as (reply & tr4 & (-> & Er & _)%send_with_timeout_Ok & [<- ->]%mret_ok).
    eapply reported_of; [by right; left|done..].
Qed.

Definition resolved (tr : Trace) (e : str * VolumeResolution) : Prop :=
  is_valid_volume_name e.1 = true /\ reported tr e.1 e.2.

Lemma resolve_names_Ok names dn sc tr rs tr' :
  Forall (resolved tr) dn -> resolve_names debug names dn sc tr = (Done (Ok rs), tr') ->
  Forall (resolved tr') rs /\ rs.*1 = dn.*1 ++ names.
Proof.
  revert dn tr. induction names as [|n names IH]; intros dn tr Hd; cbn [resolve_names].
  - intros [<- ->]%mret_ok. by rewrite app_nil_r.
  - intros (r & tr1 & E1%with_err_ok & E)%bind_ok.
    pose proof (extends (m := resolve_volume debug n) sc tr) as Hx. rewrite E1 in Hx.
    apply resolve_volume_Ok in E1 as [Hv Hr].
    apply IH in E as (Hf & Hk).
    + by rewrite fmap_app, <- app_assoc in Hk.
    + apply Forall_app. split; [|by repeat constructor].
      eapply Forall_impl; [exact Hd|]. intros e [? ?]. split; [done|]. by eapply reported_mono.
Qed.

Lemma volume_names_elem req m name :
  m ∈ mounts req -> m.(mount_type) = Volume -> m.(source) = Some name -> name ∈ volume_names req.
Proof.
  intros Hm Ht Hs. unfold volume_names. set (es := _ <$> omap _ _).
  assert (name ∈ es.*1) as He.
  { unfold es. rewrite <- list_fmap_compose. apply list_elem_of_fmap. exists name. split; [done|].
    apply list_elem_of_omap. exists m. by rewrite Ht. }
  destruct (last_binding name es) as [[]|] eqn:El; [|by apply last_binding_None in El].
  rewrite <- bt_get_collect in El. apply bt_get_in in El. by apply (list_elem_of_fmap_2 fst) in El.
Qed.

(** Every volume a request mounts has its resolution, the one the service reported. *)
Lemma resolve_volumes_Ok req sc tr rs tr' m name :
  resolve_volumes debug req sc tr = (Done (Ok rs), tr') ->
  m ∈ mounts req -> m.(mount_type) = Volume -> m.(source) = Some name ->
  exists r, bt_get name rs = Some r /\ resolved tr' (name, r).
Proof.
  intros E Hm Ht Hs. apply resolve_names_Ok in E as [Hf Hk]; [|constructor].
  pose proof (volume_names_elem _ _ _ Hm Ht Hs) as Hn. cbn in Hk. rewrite <- Hk in Hn.
  destruct (bt_get_key _ _ Hn) as [r Hr]. exists r. split; [done|].
  rewrite Forall_forall in Hf. by apply Hf, bt_get_in.
Qed.
End Volumes.

(** ** Operations that only talk to the service *)

#[export] Hint Opaque wait_blocking stop copy_in copy_out logs resolve_volume container_state
  network_address exec pull_image mark_all create_pipe owning : typeclass_instances.

Section Harmless.
Context `{Host} `{JsonLib} `{!JsonText} `{JsonFormatter} `{ExecPipes}.

Ltac solve_op := repeat case_match; apply _.

#[export] Instance wait_blocking_serves id pid t : Serves (wait_blocking id pid t).
Proof. unfold Serves. unfold wait_blocking. solve_op. Qed.
#[export] Instance wait_blocking_timely id pid t : Timely (wait_blocking id pid t).
Proof. unfold wait_blocking. solve_op. Qed.
#[export] Instance stop_serves id t : Serves (stop id t).
Proof. unfold Serves. unfold stop, ignore_not_found. destruct (stop_plan t). apply _. Qed.
#[export] Instance stop_timely id t : Timely (stop id t).
Proof. unfold stop, ignore_not_found. destruct (stop_plan t). apply _. Qed.
#[export] Instance copy_in_serves cwd id s d mode : Serves (copy_in cwd id s d mode).
Proof. unfold Serves. unfold copy_in. solve_op. Qed.
#[export] Instance copy_in_timely cwd id s d mode : Timely (copy_in cwd id s d mode).
Proof. unfold copy_in. solve_op. Qed.
#[export] Instance copy_out_serves cwd id s d : Serves (copy_out cwd id s d).
Proof. unfold Serves. unfold copy_out. solve_op. Qed.
#[export] Instance copy_out_timely cwd id s d : Timely (copy_out cwd id s d).
Proof. unfold copy_out. solve_op. Qed.
#[export] Instance logs_spares id : Spares (logs id).
Proof. unfold logs, close_valid_fds. apply _. Qed.
#[export] Instance logs_timely id : Timely (logs id).
Proof. unfold logs, close_valid_fds. apply _. Qed.
#[export] Instance resolve_volume_serves debug name : Serves (resolve_volume debug name).
Proof. unfold Serves. unfold resolve_volume. solve_op. Qed.
#[export] Instance resolve_volume_timely debug name : Timely (resolve_volume debug name).
Proof. unfold resolve_volume. solve_op. Qed.
#[export] Instance resolve_names_serves debug names rs : Serves (resolve_names debug names rs).
Proof. unfold Serves. revert rs. induction names; intros rs; cbn [resolve_names]; apply _. Qed.
#[export] Instance resolve_names_timely debug names rs : Timely (resolve_names debug names rs).
Proof. revert rs. induction names; intros rs; cbn [resolve_names]; apply _. Qed.
#[export] Instance container_state_serves is_ipv6 id : Serves (container_state is_ipv6 id).
Proof. unfold Serves. unfold container_state, with_first_container. apply _. Qed.
#[export] Instance container_state_timely is_ipv6 id : Timely (container_state is_ipv6 id).
Proof. unfold container_state, with_first_container. apply _. Qed.
#[export] Instance network_address_serves parse_ip id k l : Serves (network_address parse_ip id k l).
Proof. unfold Serves. unfold network_address, with_first_container. apply _. Qed.
#[export] Instance network_address_timely parse_ip id k l : Timely (network_address parse_ip id k l).
Proof. unfold network_address, with_first_container. apply _. Qed.
#[export] Instance mark_all_serves fds ends : Serves (mark_all fds ends).
Proof. unfold Serves. induction fds; cbn [mark_all]; solve_op. Qed.
#[export] Instance mark_all_timely fds ends : Timely (mark_all fds ends).
Proof. induction fds; cbn [mark_all]; solve_op. Qed.
#[export] Instance create_pipe_serves : Serves create_pipe.
Proof. unfold Serves. unfold create_pipe. solve_op. Qed.
#[export] Instance create_pipe_timely : Timely create_pipe.
Proof. unfold create_pipe. solve_op. Qed.
Lemma owning_emits {A} P files (m : M A) :
  (forall fd, P (EvPipe (ClosePipe fd)) = true) -> Emits P m -> Emits P (owning files m).
Proof.
  intros Hp Hm. unfold owning. apply on_err_emits; [|done]. apply Forall_fmap, Forall_true. intros fd. apply Hp.
Qed.
#[export] Instance owning_timely {A} files (m : M A) : Timely m -> Timely (owning files m).
Proof. apply on_err_timely. Qed.
#[local] Hint Extern 4 (Emits _ (owning _ _)) => apply owning_emits; [reflexivity|] : typeclass_instances.
#[export] Instance exec_serves id cmd env suffix : Serves (exec id cmd env suffix).
Proof. unfold Serves. unfold exec. solve_op. Qed.
#[export] Instance exec_timely id cmd env suffix : Timely (exec id cmd env suffix).
Proof. unfold exec. solve_op. Qed.
#[export] Instance pull_image_serves image arch : Serves (pull_image image arch).
Proof. unfold Serves. unfold pull_image. solve_op. Qed.
#[export] Instance pull_image_timely image arch : Timely (pull_image image arch).
Proof. unfold pull_image. solve_op. Qed.
#[export] Instance get_default_kernel_serves : Serves get_default_kernel.
Proof. unfold Serves. unfold get_default_kernel. apply _. Qed.
#[export] Instance get_default_kernel_timely : Timely get_default_kernel.
Proof. unfold get_default_kernel. apply _. Qed.
#[export] Instance resolve_image_descriptor_serves image : Serves (resolve_image_descriptor image).
Proof. unfold Serves. unfold resolve_image_descriptor. apply _. Qed.
#[export] Instance resolve_image_descriptor_timely image : Timely (resolve_image_descriptor image).
Proof. unfold resolve_image_descriptor. apply _. Qed.
#[export] Instance content_get_serves digest : Serves (content_get digest).
Proof. unfold Serves. unfold content_get. apply _. Qed.
#[export] Instance content_get_timely digest : Timely (content_get digest).
Proof. unfold content_get. apply _. Qed.
#[export] Instance create_container_serves cfg kernel : Serves (create_container cfg kernel).
Proof. unfold Serves. unfold create_container. apply _. Qed.
#[export] Instance create_container_timely cfg kernel : Timely (create_container cfg kernel).
Proof. unfold create_container. apply _. Qed.
#[export] Instance bootstrap_container_serves id : Serves (bootstrap_container id).
Proof. unfold Serves. unfold bootstrap_container. apply _. Qed.
#[export] Instance bootstrap_container_timely id : Timely (bootstrap_container id).
Proof. unfold bootstrap_container. apply _. Qed.
#[export] Instance start_process_serves id : Serves (start_process id).
Proof. unfold Serves. unfold start_process. apply _. Qed.
#[export] Instance start_process_timely id : Timely (start_process id).
Proof. unfold start_process. apply _. Qed.
End Harmless.

(** ** Removal *)

Section Removal.
Context `{Host} `{JsonLib}.

Definition removal (id : str) : Event :=
  EvXpc (mkXpcMessage SERVICE_NAME (lit "containerDelete")
    [(lit "id", KString id); (lit "forceDelete", KBool true)] DEFAULT_TIMEOUT).

(** What a forced removal of [id] at [tr] sends, and its answer: a container
    that does not exist counts as removed. *)
Definition removal_events (tr : Trace) (id : str) : Trace :=
  EvConnect SERVICE_NAME :: if xpc_connect tr SERVICE_NAME then [removal id] else [].
Definition removal_answer (tr : Trace) (id : str) : Result unit :=
  if xpc_connect tr SERVICE_NAME then
    match removal id with
    | EvXpc m => match reply_of (xpc (tr ++ [EvConnect SERVICE_NAME]) m) with
                 | Ok _ => Ok tt
                 | Err e => if is_not_found_error e then Ok tt else Err e
                 end
    | _ => Ok tt
    end
  else Err (Client XpcConnect).

Lemma remove_blocking_eq id tr : contains x00 id = false ->
  remove_blocking id true None tr = (Done (removal_answer tr id), tr ++ removal_events tr id).
Proof.
  intros Hid. unfold remove_blocking, removal_answer, removal_events, connect, removal.
  unfold mbind, M_bind, invoke. destruct (xpc_connect tr SERVICE_NAME); [|done].
  unfold ignore_not_found, send, send_with_timeout, id_entry. unfold mbind, M_bind, attempt.
  assert (existsb has_nul [(lit "id", KString id); (lit "forceDelete", KBool true)] = false) as ->
    by (cbn; by rewrite Hid).
  change (contains x00 (lit "containerDelete")) with false. unfold invoke.
  rewrite <- app_assoc. destruct (reply_of _) as [r|e]; [done|].
  by destruct (is_not_found_error e).
Qed.
Lemma remove_eq id tr : contains x00 id = false ->
  remove id true None tr = (Done (removal_answer tr id), tr ++ removal_events tr id).
Proof. intros Hid. unfold remove. by rewrite spawn_blocking_None, remove_blocking_eq. Qed.
End Removal.
