(* ===== verification/Pipes.v ===== *)
(** * Who owns the pipes of an exec ([XpcClient.exec], [src/src/core/client/xpc_client.rs])

    An automaton follows the ends of the pipes through a trace: it accepts only what an
    owner may do.  Every run of [exec] is accepted, and leaves nothing open but the read
    ends that its two threads own, which are told to stop where nobody waits for them.
    The runs are followed by the weakest preconditions of the programs. *)

From S2P Require Import Prelude Errors Effect Json JsonFormat Xpc.
From S2P Require XpcClient.

#[local] Existing Instances XpcClient.exec_timely.

(** ** The automaton *)

(** An end this process owns: its descriptor, whether it is a write end, and whether it
    is closed in a child process. *)
Record End := mkEnd { end_fd : Z; writes : bool; cloexec : bool }.

(** The ends that are open here, the descriptors the threads were given, and whether
    the threads were told to stop. *)
Record Owned := mkOwned { ends : list End; reading : list Z; stopped : bool }.

Definition end_of (fd : Z) (o : Owned) : option End := List.find (fun e => e.(end_fd) =? fd) o.(ends).
Definition without (fd : Z) (o : Owned) : list End := List.filter (fun e => negb (e.(end_fd) =? fd)) o.(ends).
Definition mark (fd : Z) (e : End) : End :=
  if e.(end_fd) =? fd then mkEnd fd e.(writes) true else e.

Definition pipe_step (o : Owned) (op : PipeOp) : option Owned :=
  match op with
  | MakePipe r w => Some (mkOwned (o.(ends) ++ [mkEnd r false false; mkEnd w true false]) o.(reading) o.(stopped))
  | CloseOnExec fd =>
      e ← end_of fd o; Some (mkOwned (mark fd <$> o.(ends)) o.(reading) o.(stopped))
  | ClosePipe fd => e ← end_of fd o; Some (mkOwned (without fd o) o.(reading) o.(stopped))
  | ReadByThread fd =>
      e ← end_of fd o;
      if e.(writes) then None else Some (mkOwned (without fd o) (o.(reading) ++ [fd]) o.(stopped))
  | CancelReaders => Some (mkOwned o.(ends) o.(reading) true)
  end.

(** A descriptor is sent only while it is open here and closed in children, and a
    process is started only when no write end is left here: its output ends. *)
Definition sendable (o : Owned) (e : str * KeyValue) : bool :=
  match e.2 with KFd fd => from_option cloexec false (end_of fd o) | _ => true end.
Definition own_step (o : Owned) (ev : Event) : option Owned :=
  match ev with
  | EvPipe op => pipe_step o op
  | EvXpc m =>
      if forallb (sendable o) m.(xpc_entries)
         && (negb (bool_decide (m.(xpc_route) = lit "containerStartProcess")) || negb (existsb writes o.(ends)))
      then Some o else None
  | _ => Some o
  end.
Fixpoint own_run (o : Owned) (evs : Trace) : option Owned :=
  match evs with
  | [] => Some o
  | ev :: evs => o ← own_step o ev; own_run o evs
  end.
Definition nothing : Owned := mkOwned [] [] false.

Lemma own_run_app o evs evs' : own_run o (evs ++ evs') = (o ← own_run o evs; own_run o evs').
Proof. revert o. induction evs as [|ev evs IH]; intros o; [done|]. cbn. destruct (own_step o ev); [apply IH|done]. Qed.

(** The ends a whole trace has made that are not closed nor given to a thread. *)
Definition track (open : list Z) (ev : Event) : list Z :=
  match ev with
  | EvPipe (MakePipe r w) => open ++ [r; w]
  | EvPipe (ClosePipe fd) | EvPipe (ReadByThread fd) => List.filter (fun fd' => negb (fd' =? fd)) open
  | _ => open
  end.
Definition open_ends (tr : Trace) : list Z := foldl track [] tr.

(** [pipe(2)] gives two descriptors that are not open. *)
Class FreshPipes `{XpcClient.ExecPipes} :=
  pipe_fresh tr r w : XpcClient.pipe tr = Some (r, w) -> r <> w /\ (r ∉ open_ends tr) /\ (w ∉ open_ends tr).

Lemma track_mono open o ev o' : own_step o ev = Some o' ->
  end_fd <$> o.(ends) ⊆ open -> end_fd <$> o'.(ends) ⊆ track open ev.
Proof.
  assert (forall fd, end_fd <$> o.(ends) ⊆ open ->
    end_fd <$> without fd o ⊆ List.filter (fun fd' => negb (fd' =? fd)) open) as Hw.
  { intros fd Hs x Hx. apply list_elem_of_fmap in Hx as (e & -> & He). unfold without in He.
    apply list_elem_of_In, List.filter_In in He as [He Hn]. apply list_elem_of_In, List.filter_In. split; [|done].
    apply list_elem_of_In, Hs, list_elem_of_fmap_2. by apply list_elem_of_In. }
  destruct ev as [| | | | | | | | | | | | |[r w|fd|fd|fd|]| |]; cbn; intros E Hs; try (by injection E as <-).
  - by case_match; simplify_eq.
  - injection E as <-. cbn. rewrite fmap_app. cbn. set_solver.
  - destruct (end_of fd o); [|done]. injection E as <-. cbn. intros x Hx. apply Hs.
    rewrite <- list_fmap_compose in Hx. apply list_elem_of_fmap in Hx as (e' & -> & He).
    unfold compose, mark. destruct (Z.eqb_spec (end_fd e') fd) as [<-|]; cbn; by apply list_elem_of_fmap_2.
  - destruct (end_of fd o); [|done]. injection E as <-. by apply Hw.
  - destruct (end_of fd o) as [en|]; [|done]. cbn in E. destruct (writes en); [done|]. injection E as <-. by apply Hw.
Qed.
Lemma run_open open o evs o' : own_run o evs = Some o' ->
  end_fd <$> o.(ends) ⊆ open -> end_fd <$> o'.(ends) ⊆ foldl track open evs.
Proof.
  revert open o. induction evs as [|ev evs IH]; intros open o E Hs; [by injection E as <-|].
  cbn in E. destruct (own_step o ev) as [o1|] eqn:E1; [|done]. cbn. apply (IH _ o1); [done|by eapply track_mono].
Qed.

(** ** Weakest preconditions *)

Section Runs.
Context `{Host} `{JsonLib} `{XpcClient.ExecPipes}.
Context (tr0 : Trace).

Definition reaches (tr : Trace) (o : Owned) : Prop := exists evs, tr = tr0 ++ evs /\ own_run nothing evs = Some o.

(** From [o] at [tr], [m] ends with [Q] of its result, what is owned then, and the trace. *)
Definition wp {A} (m : M A) (Q : Result A -> Owned -> Trace -> Prop) (o : Owned) (tr : Trace) : Prop :=
  reaches tr o -> exists r o' tr', m None tr = (Done r, tr') /\ reaches tr' o' /\ Q r o' tr'.

Lemma reaches_app tr o evs o' : reaches tr o -> own_run o evs = Some o' -> reaches (tr ++ evs) o'.
Proof.
  intros (evs0 & -> & E) E'. exists (evs0 ++ evs). split; [by rewrite app_assoc|]. by rewrite own_run_app, E.
Qed.
Lemma reaches_snoc tr o ev o' : reaches tr o -> own_step o ev = Some o' -> reaches (tr ++ [ev]) o'.
Proof. intros Hr E. apply (reaches_app _ o); [done|]. cbn. by rewrite E. Qed.

Lemma wp_ret {A} (a : A) Q o tr : Q (Ok a) o tr -> wp (mret a) Q o tr.
Proof. intros HQ Hr. by exists (Ok a), o, tr. Qed.
Lemma wp_lift {A} (r : Result A) Q o tr : Q r o tr -> wp (lift r) Q o tr.
Proof. intros HQ Hr. by exists r, o, tr. Qed.
Lemma wp_peek {A} (f : Trace -> A) Q o tr : Q (Ok (f tr)) o tr -> wp (peek f) Q o tr.
Proof. intros HQ Hr. by exists (Ok (f tr)), o, tr. Qed.
Lemma wp_bind {A B} (m : M A) (f : A -> M B) Q o tr :
  wp m (fun r o tr => match r with Ok a => wp (f a) Q o tr | Err e => Q (Err e) o tr end) o tr -> wp (m ≫= f) Q o tr.
Proof.
  intros Hm Hr. destruct (Hm Hr) as ([a|e] & o1 & tr1 & E & Hr1 & HQ).
  - destruct (HQ Hr1) as (r & o2 & tr2 & E2 & ?). exists r, o2, tr2. by rewrite (bind_step _ _ _ _ _ _ E).
  - exists (Err e), o1, tr1. by rewrite (bind_stop _ _ _ _ _ _ E).
Qed.
Lemma wp_note ev Q o tr o' : own_step o ev = Some o' -> Q (Ok tt) o' (tr ++ [ev]) -> wp (note ev) Q o tr.
Proof. intros E HQ Hr. exists (Ok tt), o', (tr ++ [ev]). split; [done|]. split; [by eapply reaches_snoc|done]. Qed.
Lemma wp_notes {A} ev ev' (m : M A) Q o o' tr :
  own_run o [ev; ev'] = Some o' -> (forall tr', wp m Q o' tr') -> wp (note ev ;; note ev' ;; m) Q o tr.
Proof.
  cbn [own_run]. intros E HQ. destruct (own_step o ev) as [o1|] eqn:E1; [|done]. cbn in E.
  destruct (own_step o1 ev') as [o2|] eqn:E2; [|done]. injection E as <-.
  apply wp_bind. eapply wp_note; [done|]. apply wp_bind. eapply wp_note; [done|]. apply HQ.
Qed.
Lemma wp_invoke {A} ev (f : Trace -> Result A) Q o tr :
  own_step o ev = Some o -> Q (f tr) o (tr ++ [ev]) -> wp (invoke ev f) Q o tr.
Proof. intros E HQ Hr. exists (f tr), o, (tr ++ [ev]). split; [done|]. split; [by eapply reaches_snoc|done]. Qed.
Lemma wp_on_err {A} evs (m : M A) Q o tr :
  wp m (fun r o tr => match r with
                      | Ok _ => Q r o tr
                      | Err _ => exists o', own_run o evs = Some o' /\ Q r o' (tr ++ evs)
                      end) o tr -> wp (on_err evs m) Q o tr.
Proof.
  intros Hm Hr. destruct (Hm Hr) as (r & o1 & tr1 & E & Hr1 & HQ). unfold on_err. rewrite E. destruct r as [a|e].
  - by exists (Ok a), o1, tr1.
  - destruct HQ as (o2 & E2 & HQ). exists (Err e), o2, (tr1 ++ evs). split; [done|]. split; [by eapply reaches_app|done].
Qed.
Lemma wp_send conn route es t Q o tr :
  own_step o (EvXpc (mkXpcMessage conn route es t)) = Some o -> (forall r tr', Q r o tr') ->
  wp (send_with_timeout conn route es t) Q o tr.
Proof.
  intros E HQ. unfold send_with_timeout. case_match; [by apply wp_lift|]. case_match; [by apply wp_lift|].
  by apply wp_invoke.
Qed.

(** ** Making a pipe *)

(** [o] and the new ends [es]. *)
Definition add (es : list End) (o : Owned) : Owned := mkOwned (o.(ends) ++ es) o.(reading) o.(stopped).
Definition new_end (o : Owned) (fd : Z) : Prop := fd ∉ end_fd <$> o.(ends).

Lemma add_nil o : add [] o = o.
Proof. destruct o. unfold add. cbn. by rewrite app_nil_r. Qed.
Lemma end_of_add fd es o : new_end o fd -> end_of fd (add es o) = List.find (fun e => e.(end_fd) =? fd) es.
Proof.
  destruct o as [l rd st]. unfold end_of, new_end. cbn. induction l as [|e l IH]; intros Hn; [done|].
  cbn in *. rewrite not_elem_of_cons in Hn. destruct Hn as [Hn ?]. rewrite (proj2 (Z.eqb_neq _ _)) by done. by apply IH.
Qed.
Lemma without_others fd (l es : list End) : fd ∉ end_fd <$> l ->
  List.filter (fun e => negb (e.(end_fd) =? fd)) (l ++ es) = l ++ List.filter (fun e => negb (e.(end_fd) =? fd)) es.
Proof.
  induction l as [|e l IH]; intros Hn; [done|]. cbn in *. rewrite not_elem_of_cons in Hn. destruct Hn as [Hn ?].
  rewrite (proj2 (Z.eqb_neq _ _)) by done. cbn. f_equal. by apply IH.
Qed.
Lemma mark_others fd (l : list End) : fd ∉ end_fd <$> l -> mark fd <$> l = l.
Proof.
  induction l as [|e l IH]; intros Hn; [done|]. cbn in *. rewrite not_elem_of_cons in Hn. destruct Hn as [Hn ?].
  rewrite IH by done. unfold mark. by rewrite (proj2 (Z.eqb_neq _ _)).
Qed.
Lemma close_add fd es o e : new_end o fd -> List.find (fun e => e.(end_fd) =? fd) es = Some e ->
  own_step (add es o) (EvPipe (ClosePipe fd)) = Some (add (List.filter (fun e => negb (e.(end_fd) =? fd)) es) o).
Proof.
  intros Hn He. cbn [own_step pipe_step]. rewrite end_of_add, He by done. cbn [mbind option_bind].
  unfold without, add. cbn [ends reading stopped]. by rewrite without_others.
Qed.
Lemma mark_add fd es o e : new_end o fd -> List.find (fun e => e.(end_fd) =? fd) es = Some e ->
  own_step (add es o) (EvPipe (CloseOnExec fd)) = Some (add (mark fd <$> es) o).
Proof.
  intros Hn He. cbn [own_step pipe_step]. rewrite end_of_add, He by done. cbn [mbind option_bind].
  unfold add. cbn [ends reading stopped]. by rewrite fmap_app, mark_others.
Qed.

Definition made (r w : Z) (o : Owned) : Owned := add [mkEnd r false true; mkEnd w true true] o.

Lemma wp_reaches {A} (m : M A) Q o tr : (reaches tr o -> wp m Q o tr) -> wp m Q o tr.
Proof. intros Hm Hr. by apply Hm. Qed.

Lemma fresh_ends `{!FreshPipes} tr o r w :
  reaches tr o -> XpcClient.pipe tr = Some (r, w) -> r <> w /\ new_end o r /\ new_end o w.
Proof.
  intros (evs & -> & E) Hp. apply pipe_fresh in Hp as (Hne & Hr & Hw). unfold open_ends in Hr, Hw. rewrite foldl_app in Hr, Hw.
  assert (end_fd <$> ends o ⊆ foldl track (foldl track [] tr0) evs) as Hs by (eapply run_open; [done|set_solver]).
  split_and!; [done|by intros ?%Hs..].
Qed.

(** A pipe that cannot be marked is closed. *)
Lemma wp_mark_failed (r w : Z) (mr mw : bool) Q o tr : r <> w -> new_end o r -> new_end o w ->
  (forall e tr', Q (Err e) o tr') ->
  wp (for_each (fun fd => note (EvPipe (ClosePipe fd))) [r; w] ;;
      fail (A := unit) (Client (ClientOther (lit "failed to set FD_CLOEXEC on pipe")))) Q
    (add [mkEnd r false mr; mkEnd w true mw] o) tr.
Proof.
  intros Hne Hr Hw HQ. assert (Z.eqb r w = false /\ Z.eqb w r = false) as [Erw Ewr] by (split; apply Z.eqb_neq; congruence).
  cbn [for_each]. apply wp_bind, wp_bind. eapply wp_note; [eapply close_add; [done|cbn; by rewrite Z.eqb_refl]|].
  cbn [List.filter end_fd]. rewrite Z.eqb_refl, Ewr. cbn [negb].
  apply wp_bind. eapply wp_note; [eapply close_add; [done|cbn; by rewrite Z.eqb_refl]|].
  cbn [List.filter end_fd]. rewrite Z.eqb_refl, add_nil. cbn [negb]. by apply wp_ret, wp_lift.
Qed.

Lemma wp_create_pipe `{!FreshPipes} Q o tr :
  (forall r w tr', r <> w -> new_end o r -> new_end o w -> Q (Ok (r, w)) (made r w o) tr') ->
  (forall e tr', Q (Err e) o tr') ->
  wp XpcClient.create_pipe Q o tr.
Proof.
  intros Hok Herr. apply wp_reaches. intros Hr. unfold XpcClient.create_pipe. apply wp_bind, wp_peek.
  destruct (XpcClient.pipe tr) as [[r w]|] eqn:Ep; cbn [ok_or]; apply wp_bind, wp_lift; [|apply Herr].
  destruct (fresh_ends _ _ _ _ Hr Ep) as (Hne & Hfr & Hfw).
  assert (Z.eqb r w = false /\ Z.eqb w r = false) as [Erw Ewr] by (split; apply Z.eqb_neq; congruence).
  apply wp_bind. eapply wp_note; [done|]. fold (add [mkEnd r false false; mkEnd w true false] o).
  apply wp_bind. cbn [XpcClient.mark_all]. apply wp_bind, wp_peek.
  destruct (XpcClient.set_cloexec _ r); [|by apply wp_mark_failed].
  apply wp_bind. eapply wp_note; [eapply mark_add; [done|cbn; by rewrite Z.eqb_refl]|].
  cbn [fmap list_fmap]. unfold mark at 1 2. cbn [end_fd writes]. rewrite Z.eqb_refl, Ewr.
  apply wp_bind, wp_peek. destruct (XpcClient.set_cloexec _ w); [|by apply wp_mark_failed].
  apply wp_bind. eapply wp_note; [eapply mark_add; [done|cbn; by rewrite Erw, Z.eqb_refl]|].
  cbn [fmap list_fmap]. unfold mark at 1 2. cbn [end_fd writes]. rewrite Erw, Z.eqb_refl.
  apply wp_ret, wp_ret. by apply Hok.
Qed.
End Runs.

(** ** An exec *)

(** Both threads have sent their output, or are gone. *)
Definition readers_done (msgs : list XpcClient.Received) : bool :=
  match XpcClient.receive_both msgs None None with XpcClient.JoinTimedOut _ _ => false | _ => true end.

Lemma join_readers msgs t joined cancelled : XpcClient.join_exec_readers msgs t = (joined, cancelled) ->
  if cancelled then exists e, joined = Err e else readers_done msgs = true.
Proof.
  unfold XpcClient.join_exec_readers, readers_done. destruct (XpcClient.receive_both msgs None None); intros [= <- <-];
    by try eexists.
Qed.

(** Nothing stays open here, and threads that nobody waits for were told to stop. *)
Definition settled `{XpcClient.ExecPipes} {A} (r : Result A) (o : Owned) (tr : Trace) : Prop :=
  o.(ends) = [] /\
  match r with
  | Ok _ => length o.(reading) = 2%nat /\ o.(stopped) = false /\ readers_done (XpcClient.received tr) = true
  | Err _ => o.(reading) = [] \/ o.(stopped) = true \/ readers_done (XpcClient.received tr) = true
  end.

(** Both pipes, and what is left of them after the write ends are closed. *)
Definition both (r1 w1 r2 w2 : Z) : Owned :=
  mkOwned [mkEnd r1 false true; mkEnd w1 true true; mkEnd r2 false true; mkEnd w2 true true] [] false.
Definition read_ends (r1 r2 : Z) : Owned := mkOwned [mkEnd r1 false true; mkEnd r2 false true] [] false.

Section Ends.
Context (r1 w1 r2 w2 : Z) (Hd : NoDup [r1; w1; r2; w2]).

Lemma distinct : r1 <> w1 /\ r1 <> r2 /\ r1 <> w2 /\ w1 <> r2 /\ w1 <> w2 /\ r2 <> w2.
Proof. repeat (apply NoDup_cons in Hd as [? Hd]). set_solver. Qed.
End Ends.

(** A run of the automaton on the ends of the pipes, by which of them are equal. *)
Ltac own_eqb Hd :=
  destruct (distinct _ _ _ _ Hd) as (? & ? & ? & ? & ? & ?);
  cbn; unfold end_of, without; cbn;
  repeat (match goal with
          | |- context [Z.eqb ?a ?b] => destruct (Z.eqb_spec a b); [try congruence|try congruence]
          end; cbn).

Lemma first_dropped r w : r <> w ->
  own_run (made r w nothing) ((fun fd => EvPipe (ClosePipe fd)) <$> rev [r; w]) = Some nothing.
Proof.
  intros Hne. cbn. unfold end_of, without. cbn. rewrite (proj2 (Z.eqb_neq r w)), !Z.eqb_refl by done. cbn.
  rewrite ?(proj2 (Z.eqb_neq r w)), ?Z.eqb_refl by done. done.
Qed.

Section Ends.
Context (r1 w1 r2 w2 : Z) (Hd : NoDup [r1; w1; r2; w2]).

Lemma both_dropped : own_run (both r1 w1 r2 w2) ((fun fd => EvPipe (ClosePipe fd)) <$> rev [r1; w1; r2; w2]) = Some nothing.
Proof. own_eqb Hd. done. Qed.
Lemma write_ends_closed :
  own_run (both r1 w1 r2 w2) [EvPipe (ClosePipe w1); EvPipe (ClosePipe w2)] = Some (read_ends r1 r2).
Proof. own_eqb Hd. done. Qed.
Lemma read_ends_dropped :
  own_run (read_ends r1 r2) ((fun fd => EvPipe (ClosePipe fd)) <$> rev [r1; r2]) = Some nothing.
Proof. own_eqb Hd. done. Qed.
Lemma read_ends_given :
  own_run (read_ends r1 r2) [EvPipe (ReadByThread r1); EvPipe (ReadByThread r2)] = Some (mkOwned [] [r1; r2] false).
Proof. own_eqb Hd. done. Qed.
Lemma both_sent service t es : forallb (sendable (both r1 w1 r2 w2)) es = true ->
  own_step (both r1 w1 r2 w2)
    (EvXpc (mkXpcMessage service (lit "containerCreateProcess")
              (es ++ [(lit "stdout", KFd w1); (lit "stderr", KFd w2)]) t)) = Some (both r1 w1 r2 w2).
Proof.
  intros Hes. cbn [own_step xpc_entries xpc_route]. rewrite forallb_app, Hes, bool_decide_eq_false_2 by discriminate.
  unfold sendable. own_eqb Hd. done.
Qed.
End Ends.

Section Exec.
Context `{Host} `{JsonLib} `{JsonFormatter} `{XpcClient.ExecPipes} `{!FreshPipes}.
Context (tr0 : Trace).

Lemma exec_wp id cmd environment suffix tr :
  wp tr0 (XpcClient.exec id cmd environment suffix) settled nothing tr.
Proof.
  unfold XpcClient.exec. destruct cmd as [|executable arguments]; [by apply wp_lift; split; [|left]|].
  unfold call. intros Hr. setoid_rewrite spawn_blocking_None. revert Hr.
  match goal with |- reaches _ _ _ -> exists r o' tr', ?m None tr = _ /\ _ /\ _ => change (wp tr0 m settled nothing tr) end.
  apply wp_bind, wp_invoke; [done|]. destruct (xpc_connect tr SERVICE_NAME); [|by split; [|left]].
  apply wp_bind. apply wp_create_pipe; [exact _|intros out_read out_write tr1 Hne1 _ _|by split; [|left]].
  apply wp_bind. unfold XpcClient.owning at 1. apply wp_on_err.
  apply wp_create_pipe; [exact _|intros err_read err_write tr2 Hne2 Hr2 Hw2|intros e tr2].
  2: { exists nothing. split; [by apply first_dropped|by split; [|left]]. }
  assert (NoDup [out_read; out_write; err_read; err_write]) as Hd.
  { unfold new_end in *. cbn in Hr2, Hw2. repeat (apply NoDup_cons; split; [set_solver|]). apply NoDup_nil_2. }
  change (made err_read err_write (made out_read out_write nothing)) with (both out_read out_write err_read err_write).
  apply wp_bind. unfold XpcClient.owning at 1. apply wp_on_err, wp_send.
  { apply (both_sent _ _ _ _ Hd _ _ [_; _; _]). done. }
  intros [created|e] tr3; [|by exists nothing; split; [by apply both_dropped|split; [|left]]].
  eapply wp_notes; [by apply write_ends_closed|]. intros tr4.
  apply wp_bind. unfold XpcClient.owning at 1. apply wp_on_err, wp_send; [done|].
  intros [started|e] tr5; [|by exists nothing; split; [by eapply read_ends_dropped|split; [|left]]].
  eapply wp_notes; [by eapply read_ends_given|]. intros tr6.
  apply wp_bind, wp_on_err, wp_send; [done|].
  intros [reply|e] tr7; [|by eexists; split; [|split; [|right; left]]].
  apply wp_bind, wp_peek. destruct (XpcClient.join_exec_readers _ _) as [joined cancelled] eqn:Ej.
  apply join_readers in Ej. apply wp_bind. destruct cancelled.
  - destruct Ej as [e ->]. eapply wp_note; [done|]. apply wp_bind, wp_lift. by split; [|right; left].
  - apply wp_ret, wp_bind, wp_lift. destruct joined as [[out err]|e]; [|by split; [|right; right]].
    apply wp_bind, wp_lift. destruct (try_int64 _ _); [by apply wp_ret|by split; [|right; right]].
Qed.
End Exec.

(** C7: An exec owns the pipes it makes.  Whatever fails, [pipe], [fcntl], a message, the
    wait or the reading: every end is closed once, or given to the one thread that reads
    it, which is a read end; a descriptor is sent only while it is open and closed in
    children; both write ends are closed when the process is started, so that its output
    ends; and threads whose output nobody waits for were told to stop.  A caller that is
    dropped changes nothing of this: the exec did not begin, or its thread ends it. *)
Theorem exec_pipes_owned `{Host} `{JsonLib} `{JsonFormatter} `{XpcClient.ExecPipes} `{!FreshPipes}
    id cmd environment suffix sc tr :
  exists out evs owned, XpcClient.exec id cmd environment suffix sc tr = (out, tr ++ evs) /\
    own_run nothing evs = Some owned /\
    match out with
    | Done r => settled r owned (tr ++ evs)
    | Cancelled => (evs = [] /\ expired sc tr = true) \/
        (expired sc (tr ++ evs) = true /\ exists r : Result XpcClient.XpcExecResult, settled r owned (tr ++ evs))
    | OutOfFuel => False
    end.
Proof.
  destruct (exec_wp tr id cmd environment suffix tr) as (r & o & tr' & E & (evs & -> & Er) & Hs).
  { exists []. by rewrite app_nil_r. }
  assert (XpcClient.exec id cmd environment suffix sc tr = (Done r, tr ++ evs) \/
    (expired sc tr = true /\ XpcClient.exec id cmd environment suffix sc tr = (Cancelled, tr)) \/
    (expired sc (tr ++ evs) = true /\ XpcClient.exec id cmd environment suffix sc tr = (Cancelled, tr ++ evs)))
    as [Esc|[[Ex Esc]|[Ex Esc]]].
  { unfold XpcClient.exec in *. destruct cmd; [by left|]. by apply spawn_blocking_cases. }
  - by exists (Done r), evs, o.
  - exists Cancelled, [], nothing. rewrite app_nil_r. by split_and!; [|..|left].
  - exists Cancelled, evs, o. split_and!; [done..|]. right. by split; [|exists r].
Qed.

(** ** A process that writes to both pipes *)

(** [pipe(2)] with the descriptors above all that are open. *)
Definition next_fd (tr : Trace) : Z := 1 + foldr Z.max 2 (open_ends tr).
Lemma next_fd_above tr fd : fd ∈ open_ends tr -> fd < next_fd tr.
Proof.
  unfold next_fd. induction (open_ends tr) as [|x l IH]; cbn; [by intros ?%elem_of_nil|].
  intros [->|Hx]%elem_of_cons; [lia|]. apply IH in Hx. lia.
Qed.
#[local] Instance lowest_pipes : XpcClient.ExecPipes := {|
  XpcClient.pipe tr := Some (next_fd tr, next_fd tr + 1);
  XpcClient.set_cloexec _ _ := true;
  XpcClient.received _ := [XpcClient.FromStdout (Ok (Some (lit "out"))); XpcClient.FromStderr (Ok (Some (lit "err")))];
|}.
#[local] Instance lowest_fresh : FreshPipes.
Proof. intros tr r w [= <- <-]. split_and!; [lia|intros ?%next_fd_above; lia..]. Qed.
#[local] Instance exiting_service : Host :=
  service_host (fun m => XpcReply (mkRawReply [] [] [(lit "exitCode", 7)] [])).

Lemma exec_pipes_owned_witness : exists evs owned,
  @XpcClient.exec exiting_service DomJson CompactFormatter lowest_pipes (lit "c1") [lit "ls"] [] (lit "1") None [] =
    (Done (Ok (XpcClient.mkXpcExec (Some 7) (lit "out") (lit "err"))), evs) /\
  own_run nothing evs = Some owned /\ owned.(ends) = [] /\ owned.(reading) = [3; 5] /\ length evs = 14%nat.
Proof.
  destruct (@exec_pipes_owned exiting_service DomJson CompactFormatter lowest_pipes lowest_fresh (lit "c1") [lit "ls"] []
    (lit "1") None []) as (out & evs & owned & E & Er & Hs).
  cbn [app] in *. pose proof E as E'. vm_compute in E'. injection E' as <- <-. exists
    (@XpcClient.exec exiting_service DomJson CompactFormatter lowest_pipes (lit "c1") [lit "ls"] [] (lit "1") None []).2, owned.
  vm_compute in Er. injection Er as <-. split; [vm_compute; reflexivity|]. destruct Hs as [He _].
  split; [vm_compute; reflexivity|]. split; [exact He|]. split; vm_compute; reflexivity.
Defined.
