(* ===== verification/ContainerCfg.v ===== *)
(** * Container settings for the Apple service
    ([src/src/core/client/container_cfg.rs])

    [build_config] turns a request into a [ContainerCfg], choosing host ports
    with the operating system ([FreePorts], asked one call after another), and
    the [fmt_*] functions are the [DisplayJson] of its parts. *)

From stdpp Require Import gmap.
From Stdlib Require Import SpecFloat.
From S2P Require Import Prelude BTree Utf8 Ports Errors Env Mounts Json JsonFormat Effect Request.
From S2P Require Import ImageConfig.
From S2P Require Xpc XpcClient.

Definition normalize_platform (platform : option str) : str * bool * option str :=
  match platform with
  | Some p =>
      if bool_decide (p = lit "linux/amd64" \/ p = lit "amd64") then
        (lit "amd64", true, Some (lit "linux/amd64"))
      else if bool_decide (p = lit "linux/arm64" \/ p = lit "arm64") then
        (lit "arm64", false, Some (lit "linux/arm64"))
      else (lit "arm64", false, None)
  | None => (lit "arm64", false, None)
  end.

(** ** Ports *)

Record PortCfg := mkPortCfg {
  host_address : str;
  cfg_host_port : Z;
  cfg_container_port : Z;
  proto : str;
}.

Definition is_sctp (c : ContainerPort) : bool := match c with Sctp _ => true | _ => false end.

Definition reject_sctp_ports (req : ContainerRequest) : Result unit :=
  let mapped_has_sctp :=
    match req.(ports) with
    | Some ps => existsb (fun p => is_sctp p.(container_port)) ps
    | None => false
    end in
  let exposed_has_sctp := existsb is_sctp (expose_ports req) in
  if mapped_has_sctp || exposed_has_sctp then
    Err (other (lit "SCTP port publishing is not supported on Apple container"))
  else Ok tt.

(** What the operating system answers to a bind to port 0 of the port's
    protocol, the [n]-th time it is asked. *)
Class FreePorts := { bind_zero : nat -> ContainerPort -> result str Z }.

(** How often the system was asked, and the set of the ports that are taken. *)
Record Allocation := mkAllocation { asked : nat; taken : gset Z }.

Section Allocate.
Context `{FreePorts}.

Definition allocate_free_host_port (n : nat) (port : ContainerPort) : Result Z :=
  map_err (fun e => other (lit "failed to allocate free host port: " ++ e)) (bind_zero n port).

Definition RETRIES : nat := 64.

Fixpoint allocate_loop (retries : nat) (port : ContainerPort) (a : Allocation) : Result (Z * Allocation) :=
  match retries with
  | O => Err (other (lit "failed to allocate a unique free host port after retries"))
  | S retries =>
      candidate ← allocate_free_host_port a.(asked) port;
      if decide (candidate ∈ a.(taken)) then
        allocate_loop retries port (mkAllocation (S a.(asked)) a.(taken))
      else Ok (candidate, mkAllocation (S a.(asked)) ({[candidate]} ∪ a.(taken)))
  end.
Definition allocate_unique_free_host_port (port : ContainerPort) (a : Allocation) : Result (Z * Allocation) :=
  allocate_loop RETRIES port a.

Definition port_cfg (host_port : Z) (c : ContainerPort) : PortCfg :=
  mkPortCfg (lit "0.0.0.0") host_port (as_u16 c) (as_str c).

Definition duplicate_host_port (p : PortMapping) : Error :=
  other (lit "duplicate host port mapping for container port " ++ show_ContainerPort p.(container_port)
         ++ lit ": host port " ++ show_nat p.(host_port) ++ lit " is already mapped").

(** The host port of a mapping. *)
Definition mapped_host_port (p : PortMapping) (a : Allocation) : Result (Z * Allocation) :=
  if p.(host_port) =? 0 then allocate_unique_free_host_port p.(container_port) a
  else if decide (p.(host_port) ∈ a.(taken)) then Err (duplicate_host_port p)
  else Ok (p.(host_port), mkAllocation a.(asked) ({[p.(host_port)]} ∪ a.(taken))).

(** The mappings of the request. *)
Fixpoint mapped_ports (ps : list PortMapping) (a : Allocation) : Result (list PortCfg * Allocation) :=
  match ps with
  | [] => Ok ([], a)
  | p :: ps =>
      '(host_port, a) ← mapped_host_port p a;
      '(cfgs, a) ← mapped_ports ps a;
      Ok (port_cfg host_port p.(container_port) :: cfgs, a)
  end.

(** [p.container_port == exposed.as_u16() && p.proto == proto] *)
Definition same_port (exposed : ContainerPort) (p : PortCfg) : bool :=
  (p.(cfg_container_port) =? as_u16 exposed) && bool_decide (p.(proto) = as_str exposed).

(** The loop over the exposed ports. *)
Fixpoint exposed_ports (es : list ContainerPort) (cfgs : list PortCfg) (a : Allocation)
    : Result (list PortCfg) :=
  match es with
  | [] => Ok cfgs
  | e :: es =>
      if existsb (same_port e) cfgs then exposed_ports es cfgs a
      else
        '(host_port, a) ← allocate_unique_free_host_port e a;
        exposed_ports es (cfgs ++ [port_cfg host_port e]) a
  end.

Definition publish_ports (req : ContainerRequest) : Result (list PortCfg) :=
  '(cfgs, a) ← match req.(ports) with
               | Some ps => mapped_ports ps (mkAllocation 0 ∅)
               | None => Ok ([], mkAllocation 0 ∅)
               end;
  exposed_ports (expose_ports req) cfgs a.
End Allocate.

(** ** The date of creation: an [f64], by the reference arithmetic of binary64 *)

Definition f64_of_int (n : Z) : spec_float := binary_normalize 53 1024 n 0 false.
Definition f64_sub : spec_float -> spec_float -> spec_float := SFsub 53 1024.
Definition as_secs_f64 (d : Duration) : spec_float :=
  SFadd 53 1024 (f64_of_int (d / 1000000000))
    (SFdiv 53 1024 (f64_of_int (d mod 1000000000)) (f64_of_int 1000000000)).
Definition SWIFT_REFERENCE_DATE_UNIX_SECS : spec_float := f64_of_int 978307200.
Definition unix_secs_to_swift_reference_date (unix_secs : spec_float) : spec_float :=
  f64_sub unix_secs SWIFT_REFERENCE_DATE_UNIX_SECS.

(** ** Users *)

Inductive ProcessUser :=
| Id (uid gid : Z)
| Raw (user_string : str).

Definition parse_user (user : option str) : Result ProcessUser :=
  match user with
  | None => Ok (Id 0 0)
  | Some user =>
      if bool_decide (user = []) then Ok (Id 0 0)
      else
        let '(uid_str, gid_str) := match split_once ":" user with
                                   | Some (u, g) => (u, Some g)
                                   | None => (user, None)
                                   end in
        match parse_u32 uid_str with
        | Ok uid =>
            gid ← match gid_str with
                  | None | Some [] => Ok 0
                  | Some s => map_err (fun _ => other (lit "invalid gid in user string: " ++ user)) (parse_u32 s)
                  end;
            Ok (Id uid gid)
        | Err _ => Ok (Raw user)
        end
  end.

(** ** Mounts *)

Record MountCfg := mkMountCfg {
  cfg_source : str;
  destination : str;
  fs_type : str;
  volume_name : option str;
  volume_format : option str;
  options : list str;
}.

(** [{:o}] of an [i64], negative ones in two's complement. *)
Fixpoint show_octal_digits (fuel : nat) (n : Z) (acc : str) : str :=
  match fuel with
  | O => acc
  | S f => let acc := digit_byte (n mod 8) :: acc in
           if n / 8 =? 0 then acc else show_octal_digits f (n / 8) acc
  end.
Definition show_octal (n : Z) : str := show_octal_digits 22 (n mod 2 ^ 64) [].

Definition mount_source (m : Mount) (volume_resolutions : list (str * XpcClient.VolumeResolution))
    : str * str * option str * option str :=
  match m.(mount_type) with
  | Bind => (default [] m.(source), lit "virtiofs", None, None)
  | Volume =>
      let name := default [] m.(source) in
      let resolution := bt_get name volume_resolutions in
      (default [] (XpcClient.volume_source <$> resolution), lit "volume", Some name,
       XpcClient.volume_format <$> resolution)
  | Tmpfs => (lit "tmpfs", lit "tmpfs", None, None)
  end.

Definition tmpfs_opts (m : Mount) : list str :=
  match m.(mount_type), m.(tmpfs_options) with
  | Tmpfs, Some tmpfs =>
      match tmpfs.(size_bytes) with Some size => [lit "size=" ++ show_Z size] | None => [] end
      ++ match tmpfs.(mode) with Some mode => [lit "mode=" ++ show_octal mode] | None => [] end
  | _, _ => []
  end.

Definition mount_cfg (volume_resolutions : list (str * XpcClient.VolumeResolution)) (m : Mount) : MountCfg :=
  let '(source, fs_type, volume_name, volume_format) := mount_source m volume_resolutions in
  mkMountCfg source (default [] m.(target)) fs_type volume_name volume_format
    ((if bool_decide (m.(access_mode) = ReadOnly) then lit "ro" else lit "rw") :: tmpfs_opts m).

(** ** The settings *)

Record ContainerCfg := mkContainerCfg {
  cfg_id : str;
  cfg_hostname : str;
  image_ref : str;
  image_descriptor : str;
  cfg_mounts : list MountCfg;
  cfg_ports : list PortCfg;
  init_exe : str;
  init_args : list str;
  init_env : list str;
  working_directory : str;
  use_init : bool;
  cfg_cap_add : list str;
  cfg_cap_drop : list str;
  cfg_shm_size : option Z;
  cfg_user : ProcessUser;
  cfg_network : str;
  architecture : str;
  rosetta : bool;
  cfg_ssh : bool;
  read_only : bool;
  cfg_labels : list (str * str);
  cpus : Z;
  creation_date : spec_float;
  terminal : bool;
  cfg_masked_paths : option (list str);
  cfg_readonly_paths : option (list str);
}.

(** The settings, from what can fail: the command, the ports and the user;
    [since_epoch] is what [SystemTime::now().duration_since(UNIX_EPOCH)] gives. *)
Definition settings (since_epoch : option Duration) (req : ContainerRequest) (id desc_raw : str)
    (volume_resolutions : list (str * XpcClient.VolumeResolution)) (exe : str) (arguments : list str)
    (published : list PortCfg) (user : ProcessUser) : ContainerCfg :=
  let '(architecture, rosetta, _) := normalize_platform req.(platform) in
  {| cfg_id := id;
     cfg_hostname := match req.(hostname) with
                     | Some h => h
                     | None => default id req.(container_name)
                     end;
     image_ref := XpcClient.normalize_image_reference (descriptor req); image_descriptor := desc_raw;
     cfg_mounts := mount_cfg volume_resolutions <$> mounts req; cfg_ports := published;
     init_exe := exe; init_args := arguments; init_env := fold_env (env_vars req) [];
     working_directory := default (lit "/") req.(working_dir); use_init := req.(init);
     cfg_cap_add := if req.(privileged) then [lit "ALL"] else default [] req.(cap_add);
     cfg_cap_drop := default [] req.(cap_drop); cfg_shm_size := req.(shm_size); cfg_user := user;
     cfg_network := default (lit "default") req.(network); architecture := architecture;
     rosetta := rosetta; cfg_ssh := req.(ssh); read_only := req.(readonly_rootfs);
     cfg_labels := req.(labels); cpus := 4;
     creation_date := match since_epoch with
                      | Some d => unix_secs_to_swift_reference_date (as_secs_f64 d)
                      | None => S754_zero false
                      end;
     terminal := default false req.(open_stdin);
     cfg_masked_paths := req.(masked_paths); cfg_readonly_paths := req.(readonly_paths) |}.

Definition check_mapped_ports (req : ContainerRequest) : Result unit :=
  match req.(ports) with Some ps => reject_duplicate_mapped_ports ps | None => Ok tt end.

Definition build_config `{FreePorts} (since_epoch : option Duration) (req : ContainerRequest)
    (id desc_raw : str) (image_config : ImageConfig)
    (volume_resolutions : list (str * XpcClient.VolumeResolution)) : Result ContainerCfg :=
  '(exe, arguments) ← effective_command image_config (entrypoint req) (collect (cmd req));
  _ ← reject_sctp_ports req;
  _ ← check_mapped_ports req;
  published ← publish_ports req;
  user ← parse_user req.(user);
  Ok (settings since_epoch req id desc_raw volume_resolutions exe arguments published user).

(** ** [DisplayJson]; [fmt_f64] is the [DisplayJson] of an [f64] *)

Inductive FsTypeObj :=
| FsVirtiofs
| FsVolume (name format : str)
| FsTmpfs.

(** The match of [MountCfg]'s [fmt] on its [fs_type]. *)
Definition fs_type_obj (m : MountCfg) : FsTypeObj :=
  if bool_decide (m.(fs_type) = lit "virtiofs") then FsVirtiofs
  else if bool_decide (m.(fs_type) = lit "volume") then
    FsVolume (default [] m.(volume_name)) (default [] m.(volume_format))
  else FsTmpfs.

Section Fmt.
Context `{JsonFormatter} (fmt_f64 : spec_float -> str).

Definition fmt_KeyedEmptyObj (key : str) : str := fmt_object [(key, empty_obj)].
Definition fmt_VolType (name format : str) : str :=
  fmt_object [(lit "name", fmt_string name); (lit "format", fmt_string format);
              (lit "cache", fmt_KeyedEmptyObj (lit "auto")); (lit "sync", fmt_KeyedEmptyObj (lit "fsync"))].
Definition fmt_FsTypeObj (t : FsTypeObj) : str :=
  match t with
  | FsVirtiofs => fmt_object [(lit "virtiofs", empty_obj)]
  | FsVolume name format => fmt_object [(lit "volume", fmt_VolType name format)]
  | FsTmpfs => fmt_object [(lit "tmpfs", empty_obj)]
  end.
Definition fmt_MountCfg (m : MountCfg) : str :=
  fmt_object [(lit "type", fmt_FsTypeObj (fs_type_obj m)); (lit "source", fmt_string m.(cfg_source));
              (lit "destination", fmt_string m.(destination)); (lit "options", fmt_strings m.(options))].

Definition fmt_PortCfg (p : PortCfg) : str :=
  fmt_object [(lit "hostAddress", fmt_string p.(host_address)); (lit "hostPort", fmt_int p.(cfg_host_port));
              (lit "containerPort", fmt_int p.(cfg_container_port)); (lit "proto", fmt_string p.(proto));
              (lit "count", fmt_int 1)].

Definition fmt_ProcessUser (u : ProcessUser) : str :=
  match u with
  | Id uid gid =>
      fmt_object [(lit "id", fmt_object [(lit "uid", fmt_int uid); (lit "gid", fmt_int gid)])]
  | Raw user_string =>
      fmt_object [(lit "raw", fmt_object [(lit "userString", fmt_string user_string)])]
  end.

Definition fmt_InitProcessCfg (c : ContainerCfg) : str :=
  fmt_object
    [(lit "executable", fmt_string c.(init_exe)); (lit "arguments", fmt_strings c.(init_args));
     (lit "environment", fmt_strings c.(init_env)); (lit "workingDirectory", fmt_string c.(working_directory));
     (lit "terminal", fmt_bool c.(terminal)); (lit "user", fmt_ProcessUser c.(cfg_user));
     (lit "supplementalGroups", fmt_array []); (lit "rlimits", fmt_array [])].

(** [ImageCfg]; the descriptor is the raw text ([RawJsonStr]). *)
Definition fmt_ImageCfg (reference descriptor_raw : str) : str :=
  fmt_object [(lit "reference", fmt_string reference); (lit "descriptor", descriptor_raw)].
Definition fmt_ContainerPlatform (architecture : str) : str :=
  fmt_object [(lit "os", fmt_string (lit "linux")); (lit "architecture", fmt_string architecture);
              (lit "variant", fmt_null)].
Definition fmt_ResourcesCfg (cpus : Z) : str :=
  fmt_object [(lit "cpus", fmt_int cpus); (lit "memoryInBytes", fmt_int (1024 * 1024 * 1024));
              (lit "storage", fmt_null); (lit "cpuOverhead", fmt_int 1)].
Definition fmt_NetOpts (hostname : str) (mtu : Z) : str :=
  fmt_object [(lit "hostname", fmt_string hostname); (lit "mtu", fmt_int mtu)].
Definition fmt_NetworkCfg (network hostname : str) : str :=
  fmt_object [(lit "network", fmt_string network); (lit "options", fmt_NetOpts hostname 1280)].
Definition fmt_DnsCfg (nameservers options search_domains : list str) : str :=
  fmt_object [(lit "nameservers", fmt_strings nameservers); (lit "options", fmt_strings options);
              (lit "searchDomains", fmt_strings search_domains)].

Definition fmt_ContainerCfg (c : ContainerCfg) : str :=
  fmt_object
    [(lit "id", fmt_string c.(cfg_id));
     (lit "image", fmt_ImageCfg c.(image_ref) c.(image_descriptor));
     (lit "mounts", fmt_array (fmt_MountCfg <$> c.(cfg_mounts)));
     (lit "publishedPorts", fmt_array (fmt_PortCfg <$> c.(cfg_ports)));
     (lit "publishedSockets", fmt_array []);
     (lit "labels", fmt_map c.(cfg_labels));
     (lit "sysctls", fmt_map []);
     (lit "networks", fmt_array [fmt_NetworkCfg c.(cfg_network) c.(cfg_hostname)]);
     (lit "dns", fmt_DnsCfg [] [] []);
     (lit "rosetta", fmt_bool c.(rosetta));
     (lit "initProcess", fmt_InitProcessCfg c);
     (lit "platform", fmt_ContainerPlatform c.(architecture));
     (lit "resources", fmt_ResourcesCfg c.(cpus));
     (lit "runtimeHandler", fmt_string (lit "container-runtime-linux"));
     (lit "virtualization", fmt_bool false);
     (lit "ssh", fmt_bool c.(cfg_ssh));
     (lit "readOnly", fmt_bool c.(read_only));
     (lit "useInit", fmt_bool c.(use_init));
     (lit "capAdd", fmt_strings c.(cfg_cap_add));
     (lit "capDrop", fmt_strings c.(cfg_cap_drop));
     (lit "shmSize", fmt_option fmt_int c.(cfg_shm_size));
     (lit "maskedPaths", fmt_option fmt_strings c.(cfg_masked_paths));
     (lit "readonlyPaths", fmt_option fmt_strings c.(cfg_readonly_paths));
     (lit "stopSignal", fmt_null);
     (lit "creationDate", fmt_f64 c.(creation_date))].
End Fmt.

(** ** Published ports *)

(** What a port is known by to the service: its number and its protocol. *)
Definition published (p : PortCfg) : Z * str := (p.(cfg_container_port), p.(proto)).
Definition wire (c : ContainerPort) : Z * str := (as_u16 c, as_str c).

#[export] Instance wire_inj : Inj (=) (=) wire.
Proof. intros [] [] E; injection E; congruence. Qed.

Lemma same_port_any e cfgs : existsb (same_port e) cfgs = true <-> wire e ∈ published <$> cfgs.
Proof.
  rewrite List.existsb_exists, list_elem_of_fmap. unfold same_port, published, wire. split.
  - intros (p & Hp & [H1%Z.eqb_eq H2%bool_decide_eq_true]%andb_true_iff). exists p.
    rewrite list_elem_of_In. by rewrite H1, H2.
  - intros (p & [= H1 H2] & Hp). exists p. rewrite <- list_elem_of_In. split; [done|].
    rewrite H1, H2, Z.eqb_refl. by apply bool_decide_eq_true.
Qed.

Section PortLemmas.
Context `{FreePorts}.

(** The system gives ports of the ephemeral range, never 0. *)
Definition system_ports : Prop := forall n c p, bind_zero n c = Ok p -> 0 < p <= U16_MAX.

Lemma allocate_loop_spec r c a p a' :
  allocate_loop r c a = Ok (p, a') ->
  not (p ∈ a.(taken)) /\ a'.(taken) = {[p]} ∪ a.(taken) /\ exists n, bind_zero n c = Ok p.
Proof.
  revert a. induction r as [|r IH]; intros a; cbn [allocate_loop]; [done|].
  unfold allocate_free_host_port. destruct (bind_zero (asked a) c) as [q|] eqn:Eq; [|done].
  cbn [map_err mbind result_bind]. destruct (decide (q ∈ taken a)) as [Hin|Hni].
  - by intros ?%IH.
  - intros E. apply (inj Ok) in E. simplify_eq. split_and!; [done|done|by eexists].
Qed.

Lemma allocate_unique_spec c a p a' :
  system_ports -> allocate_unique_free_host_port c a = Ok (p, a') ->
  not (p ∈ a.(taken)) /\ a'.(taken) = {[p]} ∪ a.(taken) /\ 0 < p <= U16_MAX.
Proof.
  unfold allocate_unique_free_host_port. generalize RETRIES. intros r Hsys.
  intros (? & ? & n & Hn)%allocate_loop_spec. split_and!; [done|done|by eapply Hsys..].
Qed.

(** A host port of the settings can be bound. *)
Definition port_ok (p : PortCfg) : Prop := 0 < p.(cfg_host_port) <= U16_MAX.

(** The port of one mapping. *)
Lemma mapped_host_port_spec p a h a' :
  system_ports -> 0 <= p.(host_port) <= U16_MAX -> mapped_host_port p a = Ok (h, a') ->
  not (h ∈ a.(taken)) /\ a'.(taken) = {[h]} ∪ a.(taken) /\ 0 < h <= U16_MAX /\
  (p.(host_port) <> 0 -> h = p.(host_port)).
Proof.
  intros Hsys Hp. unfold mapped_host_port. destruct (Z.eqb_spec (host_port p) 0) as [E0|Hne].
  - intros (? & ? & ? & ?)%allocate_unique_spec; [|done]. by split_and!.
  - destruct (decide (host_port p ∈ taken a)); [done|]. intros E. apply (inj Ok) in E. simplify_eq.
    split_and!; [done|done|lia|lia|done].
Qed.

(** The invariant of the two loops: the host ports in the settings are taken,
    once each, and none is taken twice. *)
Definition accounted (cfgs : list PortCfg) (before after : gset Z) : Prop :=
  NoDup (cfg_host_port <$> cfgs) /\ Forall port_ok cfgs /\
  after = list_to_set (cfg_host_port <$> cfgs) ∪ before /\
  forall h, h ∈ cfg_host_port <$> cfgs -> h ∉ before.

Lemma accounted_nil t : accounted [] t t.
Proof. split_and!; [constructor|constructor|set_solver|by intros ? ?%elem_of_nil]. Qed.

Lemma accounted_cons p cfgs t t' :
  cfg_host_port p ∉ t -> port_ok p -> accounted cfgs ({[cfg_host_port p]} ∪ t) t' ->
  accounted (p :: cfgs) t t'.
Proof.
  intros Hp Hok (Hn & Hf & -> & Hb). unfold accounted. rewrite fmap_cons. split_and!.
  - constructor; [|done]. intros []%Hb. by apply elem_of_union_l, elem_of_singleton.
  - by constructor.
  - rewrite list_to_set_cons. clear. set_solver.
  - intros h [->|[]%Hb%not_elem_of_union]%elem_of_cons; done.
Qed.

Lemma accounted_snoc p cfgs t t' :
  cfg_host_port p ∉ t' -> port_ok p -> accounted cfgs t t' ->
  accounted (cfgs ++ [p]) t ({[cfg_host_port p]} ∪ t').
Proof.
  intros Hp Hok (Hn & Hf & -> & Hb). apply not_elem_of_union in Hp as [Hc Ht].
  rewrite elem_of_list_to_set in Hc. unfold accounted. rewrite fmap_app. split_and!.
  - apply NoDup_app. split_and!; [done| |apply NoDup_singleton].
    intros h Hh Hs%list_elem_of_singleton. by subst.
  - apply Forall_app. split; [done|]. by constructor.
  - rewrite list_to_set_app_L. cbn. clear. set_solver.
  - intros h [Hh|Hs%list_elem_of_singleton]%elem_of_app; [by apply Hb|by subst].
Qed.

(** The mapped ports: as many as mappings, each for its container port, with
    the host port of the mapping where it names one. *)
Definition follows (m : PortMapping) (p : PortCfg) : Prop :=
  published p = wire m.(container_port) /\ (m.(host_port) <> 0 -> p.(cfg_host_port) = m.(host_port)).

Lemma mapped_ports_spec ps a cfgs a' :
  system_ports -> Forall (fun p => 0 <= p.(host_port) <= U16_MAX) ps ->
  mapped_ports ps a = Ok (cfgs, a') ->
  Forall2 follows ps cfgs /\ accounted cfgs a.(taken) a'.(taken).
Proof.
  intros Hsys Hr. revert a cfgs a'. induction Hr as [|p ps Hp _ IH]; intros a cfgs a'; cbn [mapped_ports].
  { intros E. apply (inj Ok) in E. simplify_eq. split; [constructor|]. apply accounted_nil. }
  intros ([h a1] & Eh & ([cs a2] & Em & E)%bind_Ok)%bind_Ok. apply (inj Ok) in E. simplify_eq.
  apply mapped_host_port_spec in Eh as (Hni & Ht & Hok & Hh); [|done..].
  apply IH in Em as (Hf & Ha). split; [by constructor|].
  apply accounted_cons; [done|done|]. cbn. by rewrite <- Ht.
Qed.

(** The exposed ports: those not there yet are added, in order, each once. *)
Lemma exposed_ports_spec es cfgs a res t :
  system_ports -> accounted cfgs t a.(taken) -> NoDup (published <$> cfgs) ->
  exposed_ports es cfgs a = Ok res ->
  exists added t', res = cfgs ++ added /\ accounted res t t' /\ NoDup (published <$> res) /\
    (forall e, e ∈ es -> wire e ∈ published <$> res) /\
    forall p, p ∈ added -> published p ∈ wire <$> es.
Proof.
  intros Hsys. revert cfgs a. induction es as [|e es IH]; intros cfgs a Ha Hn; cbn [exposed_ports].
  { intros E. apply (inj Ok) in E. simplify_eq. exists [], (taken a). rewrite app_nil_r.
    split_and!; [done|done|done|by intros ? ?%elem_of_nil..]. }
  destruct (existsb (same_port e) cfgs) eqn:Ee.
  - apply same_port_any in Ee. intros (added & t' & -> & Ha' & Hn' & Hes & Had)%IH; [|done..].
    exists added, t'. split_and!; [done|done|done| |].
    + intros e' [->|He']%elem_of_cons; [|by apply Hes]. rewrite fmap_app. by apply elem_of_app; left.
    + intros p Hp%Had. by right.
  - intros ([h a1] & Eh & E)%bind_Ok.
    apply allocate_unique_spec in Eh as (Hni & Ht & Hok); [|done].
    assert (wire e ∉ published <$> cfgs) as Hnew by (by intros ?%same_port_any; congruence).
    apply IH in E as (added & t' & -> & Ha' & Hn' & Hes & Had).
    + exists (port_cfg h e :: added), t'. rewrite <- app_assoc in *.
      split_and!; [done|done|done| |].
      * intros e' [->|He']%elem_of_cons; [|by apply Hes]. rewrite fmap_app. apply elem_of_app. right. by left.
      * intros p [->|Hp%Had]%elem_of_cons; [by left|by right].
    + rewrite Ht. by apply accounted_snoc.
    + rewrite fmap_app. apply NoDup_app. split_and!; [done| |apply NoDup_singleton].
      intros x Hx Hs%list_elem_of_singleton. by subst x.
Qed.
End PortLemmas.

(** ** What the service is told *)

(** The JSON value of a request, read off the request itself. *)
Section RequestJson.
Context (volume_resolutions : list (str * XpcClient.VolumeResolution)).

Definition json_strings (l : list str) : json := JArr (JStr <$> l).
Definition json_opt {A} (f : A -> json) (o : option A) : json := match o with Some a => f a | None => JNull end.
Definition keyed (key : str) : json := JObj [(key, JObj [])].

Definition mount_type_json (m : Mount) : json :=
  match m.(mount_type) with
  | Bind => keyed (lit "virtiofs")
  | Tmpfs => keyed (lit "tmpfs")
  | Volume =>
      let name := default [] m.(source) in
      JObj [(lit "volume", JObj
        [(lit "name", JStr name);
         (lit "format", JStr (default [] (XpcClient.volume_format <$> bt_get name volume_resolutions)));
         (lit "cache", keyed (lit "auto")); (lit "sync", keyed (lit "fsync"))])]
  end.
Definition mount_source_json (m : Mount) : json :=
  match m.(mount_type) with
  | Bind => JStr (default [] m.(source))
  | Tmpfs => JStr (lit "tmpfs")
  | Volume => JStr (default [] (XpcClient.volume_source <$> bt_get (default [] m.(source)) volume_resolutions))
  end.
Definition mount_json (m : Mount) : json :=
  JObj [(lit "type", mount_type_json m); (lit "source", mount_source_json m);
        (lit "destination", JStr (default [] m.(target)));
        (lit "options", json_strings (show_AccessMode m.(access_mode) :: tmpfs_opts m))].

Definition port_json (p : PortCfg) : json :=
  JObj [(lit "hostAddress", JStr p.(host_address)); (lit "hostPort", JNum p.(cfg_host_port));
        (lit "containerPort", JNum p.(cfg_container_port)); (lit "proto", JStr p.(proto));
        (lit "count", JNum 1)].

Definition user_json (u : ProcessUser) : json :=
  match u with
  | Id uid gid => JObj [(lit "id", JObj [(lit "uid", JNum uid); (lit "gid", JNum gid)])]
  | Raw s => JObj [(lit "raw", JObj [(lit "userString", JStr s)])]
  end.

(** The guest runs under Rosetta exactly when an amd64 platform is asked for. *)
Definition wants_amd64 (req : ContainerRequest) : bool :=
  bool_decide (req.(platform) ∈ [Some (lit "linux/amd64"); Some (lit "amd64")]).

Definition request_json (req : ContainerRequest) (id exe : str) (args : list str) (ps : list PortCfg)
    (u : ProcessUser) (descriptor date : json) : json :=
  JObj
    [(lit "id", JStr id);
     (lit "image", JObj [(lit "reference", JStr (XpcClient.normalize_image_reference (Request.descriptor req)));
                         (lit "descriptor", descriptor)]);
     (lit "mounts", JArr (mount_json <$> mounts req));
     (lit "publishedPorts", JArr (port_json <$> ps));
     (lit "publishedSockets", JArr []);
     (lit "labels", JObj ((fun kv => (kv.1, JStr kv.2)) <$> req.(labels)));
     (lit "sysctls", JObj []);
     (lit "networks", JArr [JObj
        [(lit "network", JStr (default (lit "default") req.(network)));
         (lit "options", JObj
            [(lit "hostname", JStr (default (default id req.(container_name)) req.(hostname)));
             (lit "mtu", JNum 1280)])]]);
     (lit "dns", JObj [(lit "nameservers", JArr []); (lit "options", JArr []); (lit "searchDomains", JArr [])]);
     (lit "rosetta", JBool (wants_amd64 req));
     (lit "initProcess", JObj
        [(lit "executable", JStr exe); (lit "arguments", json_strings args);
         (lit "environment", json_strings (fold_env (env_vars req) []));
         (lit "workingDirectory", JStr (default (lit "/") req.(working_dir)));
         (lit "terminal", JBool (default false req.(open_stdin))); (lit "user", user_json u);
         (lit "supplementalGroups", JArr []); (lit "rlimits", JArr [])]);
     (lit "platform", JObj
        [(lit "os", JStr (lit "linux"));
         (lit "architecture", JStr (if wants_amd64 req then lit "amd64" else lit "arm64"));
         (lit "variant", JNull)]);
     (lit "resources", JObj [(lit "cpus", JNum 4); (lit "memoryInBytes", JNum (2 ^ 30));
                             (lit "storage", JNull); (lit "cpuOverhead", JNum 1)]);
     (lit "runtimeHandler", JStr (lit "container-runtime-linux"));
     (lit "virtualization", JBool false);
     (lit "ssh", JBool req.(ssh));
     (lit "readOnly", JBool req.(readonly_rootfs));
     (lit "useInit", JBool req.(init));
     (lit "capAdd", json_strings (if req.(privileged) then [lit "ALL"] else default [] req.(cap_add)));
     (lit "capDrop", json_strings (default [] req.(cap_drop)));
     (lit "shmSize", json_opt JNum req.(shm_size));
     (lit "maskedPaths", json_opt json_strings req.(masked_paths));
     (lit "readonlyPaths", json_opt json_strings req.(readonly_paths));
     (lit "stopSignal", JNull);
     (lit "creationDate", date)].
End RequestJson.

Lemma normalize_platform_amd64 (req : ContainerRequest) :
  (normalize_platform req.(platform)).1 =
    (if wants_amd64 req then lit "amd64" else lit "arm64", wants_amd64 req).
Proof.
  unfold normalize_platform, wants_amd64.
  assert (forall p, Some p ∈ [Some (lit "linux/amd64"); Some (lit "amd64")] <->
                    p = lit "linux/amd64" \/ p = lit "amd64") as E.
  { intros p. rewrite !elem_of_cons, elem_of_nil. split; [intros [[=]|[[=]|[]]]; auto|intros [->| ->]; auto]. }
  destruct (platform req) as [p|]; [|done]. rewrite (bool_decide_ext _ _ (E p)).
  case_bool_decide; [done|]. by case_bool_decide.
Qed.

Section Denotes.
Context `{F : JsonFormatter} `{!JsonFormatterLaws F}.

(** Lists of objects. *)
Lemma array_of_denotes {A} (f : A -> str) (g : A -> json) l :
  (forall a, denotes (f a) (g a)) -> denotes (fmt_array (f <$> l)) (JArr (g <$> l)).
Proof. intros Hf. apply array_denotes. induction l; cbn; constructor; auto. Qed.

Lemma member_denotes k t j (ms : list (str * str)) (js : list (str * json)) :
  denotes t j -> Forall2 (fun m j => m.1 = j.1 /\ denotes m.2 j.2) ms js ->
  Forall2 (fun m j => m.1 = j.1 /\ denotes m.2 j.2) ((k, t) :: ms) ((k, j) :: js).
Proof. by constructor. Qed.
End Denotes.

(** An object, member by member. *)
Ltac denote := repeat first
  [ apply member_denotes | apply Forall2_nil_2 | apply empty_denotes | apply strings_denotes
  | apply (map_denotes []) | apply map_denotes | apply object_denotes
  | apply string_denotes | apply int_denotes | apply bool_denotes | apply null_denotes
  | (apply (array_denotes [] []); by constructor) | assumption ].

Section Payload.
Context `{F : JsonFormatter} `{!JsonFormatterLaws F} `{FreePorts}.
Context (fmt_f64 : spec_float -> str).

Lemma mount_denotes vr m : denotes (fmt_MountCfg (mount_cfg vr m)) (mount_json vr m).
Proof.
  unfold mount_cfg, mount_source, fmt_MountCfg, mount_json, mount_type_json, mount_source_json.
  destruct m as [am [] s t o]; cbn [mount_type source target access_mode fs_type cfg_source destination options];
    denote; by destruct am; apply strings_denotes.
Qed.
Lemma port_denotes p : denotes (fmt_PortCfg p) (port_json p).
Proof. unfold fmt_PortCfg, port_json. denote. Qed.
Lemma user_denotes u : denotes (fmt_ProcessUser u) (user_json u).
Proof. destruct u; cbn; denote. Qed.
Lemma init_denotes c :
  denotes (fmt_InitProcessCfg c)
    (JObj [(lit "executable", JStr c.(init_exe)); (lit "arguments", json_strings c.(init_args));
           (lit "environment", json_strings c.(init_env));
           (lit "workingDirectory", JStr c.(working_directory));
           (lit "terminal", JBool c.(terminal)); (lit "user", user_json c.(cfg_user));
           (lit "supplementalGroups", JArr []); (lit "rlimits", JArr [])]).
Proof. unfold fmt_InitProcessCfg, json_strings. denote. apply user_denotes. Qed.

Lemma settings_denotes since req id desc_raw vr exe args ps u desc date :
  denotes desc_raw desc ->
  denotes (fmt_f64 (settings since req id desc_raw vr exe args ps u).(creation_date)) date ->
  denotes (fmt_ContainerCfg fmt_f64 (settings since req id desc_raw vr exe args ps u))
    (request_json vr req id exe args ps u desc date).
Proof.
  intros Hd Hf. pose proof (normalize_platform_amd64 req) as E.
  unfold settings, fmt_ContainerCfg, request_json in *.
  destruct (normalize_platform (platform req)) as [[arch ros] rest]. cbn in E. injection E as -> ->.
  cbn [cfg_id cfg_hostname image_ref image_descriptor cfg_mounts cfg_ports init_exe init_args init_env
       working_directory use_init cfg_cap_add cfg_cap_drop cfg_shm_size cfg_user cfg_network architecture
       rosetta cfg_ssh read_only cfg_labels cpus creation_date terminal cfg_masked_paths
       cfg_readonly_paths] in *.
  denote.
  - rewrite <- list_fmap_compose. apply array_of_denotes, mount_denotes.
  - apply array_of_denotes, port_denotes.
  - apply array_denotes. constructor; [|constructor]. denote.
  - apply user_denotes.
  - apply option_denotes. intros. denote.
  - apply (option_denotes fmt_strings json_strings). intros. denote.
  - apply (option_denotes fmt_strings json_strings). intros. denote.
Qed.
End Payload.

(** ** Correctness *)

Lemma build_config_inv `{FreePorts} since req id desc_raw ic vr cfg :
  build_config since req id desc_raw ic vr = Ok cfg ->
  exists exe args ps u, effective_command ic (entrypoint req) (collect (cmd req)) = Ok (exe, args) /\
    reject_sctp_ports req = Ok tt /\ check_mapped_ports req = Ok tt /\
    publish_ports req = Ok ps /\ parse_user req.(user) = Ok u /\
    cfg = settings since req id desc_raw vr exe args ps u.
Proof.
  unfold build_config.
  intros ([exe args] & Ee & ([] & Es & ([] & Ec & (ps & Ep & (u & Eu & E)%bind_Ok)%bind_Ok)%bind_Ok)%bind_Ok)%bind_Ok.
  apply (inj Ok) in E as <-. eauto 10.
Qed.

Lemma settings_ports since req id desc_raw vr exe args ps u :
  cfg_ports (settings since req id desc_raw vr exe args ps u) = ps.
Proof. unfold settings. by destruct (normalize_platform (platform req)) as [[arch ros] rest]. Qed.

(** The container ports a request maps or exposes. *)
Definition mappings (req : ContainerRequest) : list PortMapping := default [] req.(ports).

Lemma existsb_false {A} (p : A -> bool) xs : existsb p xs = false <-> Forall (fun x => p x = false) xs.
Proof.
  induction xs as [|x xs IH]; cbn; [done|]. by rewrite orb_false_iff, Forall_cons, IH.
Qed.

Lemma reject_sctp_ports_iff req :
  reject_sctp_ports req = Ok tt <->
  Forall (fun c => is_sctp c = false) ((container_port <$> mappings req) ++ expose_ports req).
Proof.
  rewrite Forall_app, Forall_fmap. change (_ ∘ _) with (fun p => is_sctp (container_port p) = false).
  rewrite <- (existsb_false is_sctp), <- (existsb_false (fun p => is_sctp (container_port p))), <- orb_false_iff.
  unfold reject_sctp_ports, mappings. destruct (ports req) as [ps|]; cbn [default from_option id];
    (case_match eqn:E; [split; [done|]; cbn in *; congruence | done]).
Qed.
Lemma reject_sctp_ports_ok req :
  reject_sctp_ports req = Ok tt ->
  Forall (fun c => is_sctp c = false) ((container_port <$> mappings req) ++ expose_ports req).
Proof. apply reject_sctp_ports_iff. Qed.

Lemma follows_published ms cfgs :
  Forall2 follows ms cfgs -> published <$> cfgs = wire <$> (container_port <$> ms).
Proof. induction 1 as [|m p ms ps [E _] _ IH]; [done|]. rewrite !fmap_cons. by rewrite E, IH. Qed.

Lemma check_mapped_ports_iff req : check_mapped_ports req = Ok tt <-> NoDup (container_port <$> mappings req).
Proof.
  unfold check_mapped_ports, mappings. destruct (ports req) as [ps|]; [|by split; [constructor|]].
  unfold reject_duplicate_mapped_ports. rewrite reject_loop_ok. split; [by intros []|]. by intros Hn; split.
Qed.
Lemma check_mapped_ports_ok req :
  check_mapped_ports req = Ok tt -> NoDup (container_port <$> mappings req).
Proof. apply check_mapped_ports_iff. Qed.

(** C22: The ports published on the Apple service are well formed: no host port
    is published twice and each can be bound, no container port is published
    twice and none of them is SCTP; every mapping of the request is there, at
    the host port it names where it names one; every exposed port is there; and
    nothing else is. *)
Theorem build_config_ports `{FreePorts} since req id desc_raw ic vr cfg :
  system_ports -> Forall (fun m => 0 <= m.(host_port) <= U16_MAX) (mappings req) ->
  build_config since req id desc_raw ic vr = Ok cfg ->
  NoDup (cfg_host_port <$> cfg.(cfg_ports)) /\ Forall port_ok cfg.(cfg_ports) /\
  NoDup (published <$> cfg.(cfg_ports)) /\
  Forall (fun p => p.(proto) <> lit "sctp") cfg.(cfg_ports) /\
  exists mapped added, cfg.(cfg_ports) = mapped ++ added /\ Forall2 follows (mappings req) mapped /\
    (forall e, e ∈ expose_ports req -> wire e ∈ published <$> cfg.(cfg_ports)) /\
    forall p, p ∈ added -> published p ∈ wire <$> expose_ports req.
Proof.
  intros Hsys Hr (exe & args & ps & u & _ & Hs & Hc & Ep & _ & ->)%build_config_inv.
  rewrite settings_ports. apply reject_sctp_ports_ok in Hs. apply check_mapped_ports_ok in Hc.
  unfold publish_ports in Ep. apply bind_Ok in Ep as ([cfgs a] & Em & Ep).
  assert (Forall2 follows (mappings req) cfgs /\ accounted cfgs ∅ a.(taken)) as [Hf Ha].
  { unfold mappings in *. destruct (ports req) as [ms|].
    - by apply mapped_ports_spec in Em.
    - apply (inj Ok) in Em. simplify_eq. split; [constructor|]. apply accounted_nil. }
  apply (exposed_ports_spec _ _ _ _ ∅) in Ep as (added & t' & -> & (Hn & Hok & _) & Hp & He & Had); [|done..|].
  2: { rewrite (follows_published _ _ Hf), <- list_fmap_compose.
       rewrite list_fmap_compose. by apply NoDup_fmap_2; [apply _|]. }
  split_and!; [done|done|done| |by exists cfgs, added].
  apply Forall_forall. intros p Hin Esctp.
  assert (published p ∈ wire <$> ((container_port <$> mappings req) ++ expose_ports req)) as Hw.
  { rewrite fmap_app, <- (follows_published _ _ Hf). apply elem_of_app in Hin as [Hin|Hin]; apply elem_of_app.
    - left. by apply list_elem_of_fmap_2.
    - right. by apply Had. }
  apply list_elem_of_fmap in Hw as (c & [= _ E] & Hc'). rewrite Forall_forall in Hs. apply Hs in Hc'.
  rewrite E in Esctp. by destruct c.
Qed.

(** The system giving ports one after another. *)
Definition ephemeral : FreePorts := {| bind_zero := fun n _ => Ok (49152 + Z.of_nat n mod 16384) |}.

Lemma ephemeral_ok : @system_ports ephemeral.
Proof.
  intros n c p [= <-]. unfold U16_MAX. pose proof (Z.mod_pos_bound (Z.of_nat n) 16384 ltac:(lia)). lia.
Qed.

(** A request with a fixed, a random and an exposed port, a volume and a user. *)
Definition sample_request : ContainerRequest :=
  let i := Image_default (lit "app") (lit "1") [] in
  {| image := mkImage i.(name) i.(tag) [] [] [] [] None [lit "serve"] [Tcp 80; Tcp 443; Tcp 80]
                i.(image_exec_after_start) i.(image_exec_before_ready);
     overridden_cmd := []; image_name := None; image_tag := None;
     container_name := Some (lit "web"); hostname := None; network := None;
     labels := [(lit "a", lit "b")]; req_env_vars := []; hosts := [];
     req_mounts := [volume_mount (lit "db") (lit "/db"); tmpfs_mount (lit "/tmp")];
     health_check := None; req_copy_to_sources := [];
     ports := Some [mkPortMapping 8080 (Tcp 443); mkPortMapping 0 (Udp 53)];
     privileged := false; readonly_rootfs := false; cap_add := None; cap_drop := None;
     shm_size := None; req_ready_conditions := None; startup_timeout := None; working_dir := None;
     user := Some (lit "1000:"); open_stdin := None; log_consumers := []; init := false;
     platform := Some (lit "amd64"); ssh := false; masked_paths := None; readonly_paths := None;
     kernel := None |}.

Definition sample_volumes : list (str * XpcClient.VolumeResolution) :=
  [(lit "db", XpcClient.mkResolution (lit "/vol/db.img") (lit "ext4"))].

Definition sample_build : Result ContainerCfg :=
  @build_config ephemeral (Some 978307201500000000) sample_request (lit "c-1") (lit "{}")
    (mkImageConfig None None) sample_volumes.
Definition sample_cfg : ContainerCfg :=
  @settings (Some 978307201500000000) sample_request (lit "c-1") (lit "{}") sample_volumes (lit "serve") []
    [port_cfg 8080 (Tcp 443); port_cfg 49152 (Udp 53); port_cfg 49153 (Tcp 80)] (Id 1000 0).

Lemma sample_build_ok : sample_build = Ok sample_cfg.
Proof. vm_compute. reflexivity. Qed.

Lemma sample_mappings_ok : Forall (fun m => 0 <= m.(host_port) <= U16_MAX) (mappings sample_request).
Proof. unfold U16_MAX. repeat (apply Forall_cons_2; [cbn; lia|]). constructor. Qed.

(** A second and a half after the reference date. *)
Example sample_date : sample_cfg.(creation_date) = S754_finite false 6755399441055744 (-52).
Proof. vm_compute. reflexivity. Qed.

Lemma build_config_ports_witness :
  sample_build = Ok sample_cfg /\
  NoDup (cfg_host_port <$> sample_cfg.(cfg_ports)) /\ Forall port_ok sample_cfg.(cfg_ports) /\
  wire (Tcp 80) ∈ published <$> sample_cfg.(cfg_ports).
Proof.
  split; [exact sample_build_ok|].
  destruct (@build_config_ports ephemeral _ _ _ _ _ _ _ ephemeral_ok
              sample_mappings_ok sample_build_ok)
    as (Hn & Hok & _ & _ & mapped & added & _ & _ & He & _).
  split; [exact Hn|]. split; [exact Hok|]. apply He. by left.
Defined.

(** C23: The payload of [containerCreate] says what the request says: whatever
    the text of the formatter, it denotes the object read off the request, with
    the command by Docker's rule, the chosen ports and the user, each mount as
    its kind and its access mode, and the raw descriptor as it came. *)
Theorem payload_of_request `{F : JsonFormatter} `{!JsonFormatterLaws F} `{FreePorts}
    (fmt_f64 : spec_float -> str) (f64_json : spec_float -> json) since req id desc_raw ic vr cfg desc :
  build_config since req id desc_raw ic vr = Ok cfg ->
  denotes desc_raw desc -> (forall d, denotes (fmt_f64 d) (f64_json d)) ->
  exists exe args ps u, effective_command ic (entrypoint req) (collect (cmd req)) = Ok (exe, args) /\
    publish_ports req = Ok ps /\ parse_user req.(user) = Ok u /\
    denotes (fmt_ContainerCfg fmt_f64 cfg)
      (request_json vr req id exe args ps u desc (f64_json cfg.(creation_date))).
Proof.
  intros (exe & args & ps & u & Ee & _ & _ & Ep & Eu & ->)%build_config_inv Hd Hf.
  exists exe, args, ps, u. split_and!; [done..|]. by apply settings_denotes.
Qed.

Definition f64_floor (d : spec_float) : Z :=
  match d with
  | S754_finite s m e => let n := Z.shiftl (Zpos m) e in if s then - n else n
  | _ => 0
  end.

Lemma payload_of_request_witness :
  exists exe args ps u,
    read_json (fmt_ContainerCfg (fun d => show_Z (f64_floor d)) sample_cfg) =
      Some (request_json sample_volumes sample_request (lit "c-1") exe args ps u (JObj []) (JNum 1)) /\
    parse_user sample_request.(user) = Ok u.
Proof.
  destruct (@payload_of_request CompactFormatter CompactFormatter_laws ephemeral
              (fun d => show_Z (f64_floor d)) (fun d => JNum (f64_floor d)) _ _ _ _ _ _ _ (JObj [])
              sample_build_ok ltac:(vm_compute; reflexivity) ltac:(intros d; vm_compute; reflexivity))
    as (exe & args & ps & u & _ & _ & Eu & E).
  exists exe, args, ps, u. split; [|exact Eu].
  cbn [denotes CompactFormatter_laws] in E. rewrite E. apply read_json_print.
Defined.

Lemma settings_volume rs m name r :
  m.(mount_type) = Volume -> m.(source) = Some name -> bt_get name rs = Some r ->
  mount_cfg rs m = mkMountCfg r.(XpcClient.volume_source) (default [] m.(target)) (lit "volume") (Some name)
                     (Some r.(XpcClient.volume_format)) [show_AccessMode m.(access_mode)].
Proof.
  intros Ht Hs Hr. unfold mount_cfg, mount_source, tmpfs_opts. rewrite Ht, Hs. cbn. rewrite Hr.
  by destruct (access_mode m).
Qed.

(** A volume reaches the service as the block device it resolves to: when
    the volumes of a request were resolved, every volume mount in the settings
    has the source and the format the service reported for that name in answer
    to a message of the run, and no volume with an invalid name was asked for. *)
Theorem volume_mounts_resolved `{Host} `{JsonLib} debug req sc tr rs tr' m name :
  XpcClient.resolve_volumes debug req sc tr = (Done (Ok rs), tr') ->
  m ∈ mounts req -> m.(mount_type) = Volume -> m.(source) = Some name ->
  exists r, XpcClient.is_valid_volume_name name = true /\ XpcClient.reported tr' name r /\
    mount_cfg rs m = mkMountCfg r.(XpcClient.volume_source) (default [] m.(target)) (lit "volume") (Some name)
                       (Some r.(XpcClient.volume_format)) [show_AccessMode m.(access_mode)].
Proof.
  intros E Hm Ht Hs.
  destruct (XpcClient.resolve_volumes_Ok debug req sc tr rs tr' m name E Hm Ht Hs) as (r & Hr & Hv & Hrep).
  exists r. split_and!; [done|done|]. by apply settings_volume.
Qed.

(** A service that has the volume already. *)
Definition volume_service : Host := Xpc.service_host (fun m =>
  if bool_decide (m.(xpc_route) = lit "volumeCreate") then
    Xpc.error_reply (lit "exists") (lit "volume db already exists")
  else Xpc.data_reply (lit "volume")
         (print (JObj [(lit "source", JStr (lit "/vol/db.img")); (lit "format", JStr (lit "ext4"))]))).

Lemma volume_service_resolves :
  exists tr', @XpcClient.resolve_volumes volume_service DomJson (fun s => s) sample_request None [] =
    (Done (Ok sample_volumes), tr').
Proof. eexists. vm_compute. reflexivity. Qed.

Lemma volume_mounts_resolved_witness :
  exists r, XpcClient.is_valid_volume_name (lit "db") = true /\
    mount_cfg sample_volumes (volume_mount (lit "db") (lit "/db")) =
      mkMountCfg r.(XpcClient.volume_source) (lit "/db") (lit "volume") (Some (lit "db"))
        (Some r.(XpcClient.volume_format)) [lit "rw"].
Proof.
  destruct volume_service_resolves as [tr' E].
  destruct (@volume_mounts_resolved volume_service DomJson _ _ _ _ _ _
              (volume_mount (lit "db") (lit "/db")) (lit "db") E ltac:(by left) eq_refl eq_refl)
    as (r & Hv & _ & Em).
  exists r. split; [exact Hv | exact Em].
Defined.
