(* ===== verification/FdReader.v ===== *)
(** * Log readers over descriptors ([src/src/core/containers/async_container.rs])

    [FdReader], [FollowFdReader] and the delivery task of macOS.  A log file is
    what it holds at each moment; reads, the flag and the exit code are looked at
    at moments of their own, so that a file that grows between two looks is
    modelled.  A loop counts its turns with fuel. *)

From S2P Require Import Prelude Errors LogLine.
From S2P Require LogWait.

(** ** The file *)

(** What is seen at each moment: the file, a read of it ([pread]), the stop flag,
    whether an exit code is recorded, and whether a sleep that was begun is over. *)
Class LogFile := {
  content : nat -> list byte;
  pread : nat -> Z -> Z -> result IoError (list byte);
  stopped : nat -> bool;
  exited : nat -> bool;
  woken : nat -> bool;
}.

(** A log file grows, and a read at a position gives some of what follows it,
    nothing only at the end. *)
Class LogFileLaws `(F : LogFile) := {
  content_grows t : content t `prefix_of` content (S t);
  pread_ok t pos n bytes : 0 <= n -> pread t pos n = Ok bytes ->
    bytes `prefix_of` zdrop pos (content t) /\ len bytes <= n;
  pread_progress t pos n : 0 < n -> 0 <= pos < len (content t) -> pread t pos n <> Ok [];
}.

(** ** [FdReader] *)

Record FdReader := mkFdReader { pos : Z }.

(** [None] when the fuel is used up; the moment after it otherwise. *)
Fixpoint read_at `{LogFile} (fuel : nat) (t : nat) (buf_len : Z) (r : FdReader)
    : option (result IoError (list byte) * FdReader * nat) :=
  match fuel with
  | O => None
  | S f =>
      match pread t r.(pos) buf_len with
      | Ok bytes => Some (Ok bytes, mkFdReader (r.(pos) + len bytes), S t)
      | Err e => if bool_decide (e.(io_kind) = Interrupted) then read_at f (S t) buf_len r
                 else Some (Err e, r, S t)
      end
  end.

(** ** [FollowFdReader] *)

Record FollowFdReader := mkFollow { inner : FdReader; follow : bool; delay : bool }.

Section Follow.
Context `{LogFile}.

Definition should_stop_follow (t : nat) : bool := stopped t || exited t.

(** [Read::read]; the sleep takes a moment. *)
Fixpoint read_loop (fuel : nat) (t : nat) (buf_len : Z) (r : FollowFdReader)
    : option (result IoError (list byte) * FollowFdReader * nat) :=
  match fuel with
  | O => None
  | S f =>
      match read_at fuel t buf_len r.(inner) with
      | None => None
      | Some (Err e, inner, t) => Some (Err e, mkFollow inner r.(follow) r.(delay), t)
      | Some (Ok bytes, inner, t) =>
          let r := mkFollow inner r.(follow) r.(delay) in
          if bool_decide (bytes = []) && (r.(follow) && negb (should_stop_follow t)) then
            read_loop f (S t) buf_len r
          else Some (Ok bytes, r, t)
      end
  end.
Definition read (fuel : nat) (t : nat) (buf_len : Z) (r : FollowFdReader)
    : option (result IoError (list byte) * FollowFdReader * nat) :=
  if buf_len =? 0 then Some (Ok [], r, t) else read_loop fuel t buf_len r.

(** [AsyncRead::poll_read] *)
Inductive Poll (A : Type) := Pending | Ready (a : A).
Arguments Pending {A}.
Arguments Ready {A} a.

Fixpoint poll_loop (fuel : nat) (t : nat) (remaining : Z) (r : FollowFdReader)
    : option (Poll (result IoError (list byte)) * FollowFdReader * nat) :=
  match fuel with
  | O => None
  | S f =>
      match read_at fuel t remaining r.(inner) with
      | None => None
      | Some (Err e, inner, t) => Some (Ready (Err e), mkFollow inner r.(follow) false, t)
      | Some (Ok bytes, inner, t) =>
          if bool_decide (bytes = []) && (r.(follow) && negb (should_stop_follow t)) then
            if woken t then poll_loop f (S t) remaining (mkFollow inner r.(follow) false)
            else Some (Pending, mkFollow inner r.(follow) true, S t)
          else Some (Ready (Ok bytes), mkFollow inner r.(follow) false, t)
      end
  end.
Definition poll_read (fuel : nat) (t : nat) (remaining : Z) (r : FollowFdReader)
    : option (Poll (result IoError (list byte)) * FollowFdReader * nat) :=
  if remaining =? 0 then Some (Ready (Ok []), r, t) else poll_loop fuel t remaining r.

(** [fd_reader_or_empty] and its synchronous twin: a reader of its own, or an
    empty one, without a descriptor or when it could not be duplicated. *)
Definition fd_reader_or_empty (fd : option Z) (dup : Z -> bool) (follow : bool) : option FollowFdReader :=
  match fd with
  | Some fd => if dup fd then Some (mkFollow (mkFdReader 0) follow false) else None
  | None => None
  end.
End Follow.
Arguments Pending {A}.
Arguments Ready {A} a.

(** ** The delivery task *)

(** What the task sees when it has reached the end of the file. *)
Record Check := mkCheck { stop : bool; has_exited : bool; now : Duration }.

(** The anchor after a check, and whether the check ends the task. *)
Definition anchor_after (c : Check) (exit_observed_at : option Duration) : option Duration :=
  if c.(has_exited) then Some (default c.(now) exit_observed_at) else exit_observed_at.
Definition ends (c : Check) (exit_observed_at : option Duration) : bool :=
  c.(stop) || (c.(has_exited) &&
    (LogWait.DRAIN_GRACE <=? c.(now) - default c.(now) exit_observed_at)).

(** [spawn_log_consumer_task] of macOS: [None] when the fuel or the checks are
    used up. *)
Fixpoint deliver_task (fuel : nat) (reader : BufReader) (consumers : list (list LogFrame))
    (to_frame : list byte -> LogFrame) (checks : list Check) (exit_observed_at : option Duration)
    : option (list (list LogFrame)) :=
  match fuel with
  | O => None
  | S f =>
      match deliver_line_to_consumers reader consumers to_frame with
      | None => None
      | Some (Ok true, reader, consumers) => deliver_task f reader consumers to_frame checks exit_observed_at
      | Some (Ok false, reader, consumers) =>
          match checks with
          | [] => None
          | c :: checks =>
              if ends c exit_observed_at then Some consumers
              else deliver_task f reader consumers to_frame checks (anchor_after c exit_observed_at)
          end
      | Some (Err _, _, consumers) => Some consumers
      end
  end.

(** ** What a reader has read *)

Section Reads.
Context `{F : LogFile} `{!LogFileLaws F}.

Lemma content_mono t t' : (t <= t')%nat -> content t `prefix_of` content t'.
Proof. induction 1 as [|t' _ IH]; [done|]. etrans; [exact IH | apply content_grows]. Qed.

(** At [t] the reader has read [got], the file from its start. *)
Definition has_read (t : nat) (got : list byte) (r : FdReader) : Prop :=
  r.(pos) = len got /\ got `prefix_of` content t.

Lemma has_read_later t t' got r : (t <= t')%nat -> has_read t got r -> has_read t' got r.
Proof. intros Ht [Hp Hg]. split; [done|]. etrans; [exact Hg | by apply content_mono]. Qed.

(** One read: nothing is lost, repeated, or taken by another reader. *)
Lemma fd_read_at_spec fuel t n r got res r' t' :
  has_read t got r -> 0 <= n -> read_at fuel t n r = Some (res, r', t') -> (t < t')%nat /\
  match res with
  | Ok bytes => has_read t' (got ++ bytes) r' /\ len bytes <= n /\
      (bytes = [] -> 0 < n -> exists t0, (t <= t0 < t')%nat /\ content t0 = got)
  | Err e => has_read t' got r' /\ e.(io_kind) <> Interrupted
  end.
Proof.
  intros Hr Hn0. revert t Hr. induction fuel as [|f IH]; intros t [Hp Hg]; cbn [read_at]; [done|].
  destruct (pread t (pos r) n) as [bytes|e] eqn:E.
  - intros [= <- <- <-]. split; [lia|]. destruct (pread_ok _ _ _ _ Hn0 E) as [Hb Hn]. split_and!; [|done|].
    + split; [cbn; llia|]. etrans; [|apply content_grows]. destruct Hg as [k Hk].
      rewrite Hk, Hp, zdrop_app_ge, Z.sub_diag, zdrop_le in Hb by done. destruct Hb as [k' ->].
      exists k'. by rewrite Hk, <- app_assoc.
    + intros -> Hn'. exists t. split; [lia|]. destruct Hg as [k Hk].
      destruct (decide (k = [])) as [->|Hk']; [by rewrite app_nil_r in Hk|].
      exfalso. apply (pread_progress t (pos r) n); [done| |done]. rewrite Hk, Hp.
      destruct k; [done|]. llia.
  - case_bool_decide as Hk.
    + intros E'. apply IH in E' as [Ht Hres]; [|by eapply has_read_later, conj; [|done..]; lia].
      split; [lia|]. destruct res; [|done]. destruct Hres as (? & ? & Hat). split_and!; [done..|].
      intros Hb Hn. destruct (Hat Hb Hn) as (t0 & ? & ?). exists t0. split; [lia|done].
    + intros [= <- <- <-]. split; [lia|]. split; [|done]. by eapply has_read_later, conj; [|done..]; lia.
Qed.

(** A read that reports the end of the file: the reader does not follow, or is
    told to stop, at [t'], after it was at the end at [t0]. *)
Definition saw_end (t : nat) (got : list byte) (r : FollowFdReader) (t' : nat) : Prop :=
  (exists t0, (t <= t0 < t')%nat /\ content t0 = got) /\
  (r.(follow) = false \/ should_stop_follow t' = true).

Lemma saw_end_earlier t t1 got r r' t' :
  (t <= t1)%nat -> r'.(follow) = r.(follow) -> saw_end t1 got r' t' -> saw_end t got r t'.
Proof.
  intros Ht Hf [(t0 & ? & ?) Hs]. split; [exists t0; split; [lia|done]|]. by rewrite <- Hf.
Qed.

(** A result of [read], or one that is ready of [poll_read]. *)
Definition read_result (t : nat) (n : Z) (got : list byte) (r : FollowFdReader)
    (res : result IoError (list byte)) (r' : FollowFdReader) (t' : nat) : Prop :=
  match res with
  | Ok bytes => has_read t' (got ++ bytes) r'.(inner) /\ len bytes <= n /\
      (bytes = [] -> n = 0 \/ saw_end t got r t')
  | Err e => has_read t' got r'.(inner) /\ e.(io_kind) <> Interrupted
  end.

Lemma read_result_earlier t t1 n got r r1 res r' t' :
  (t <= t1)%nat -> r1.(follow) = r.(follow) ->
  read_result t1 n got r1 res r' t' -> read_result t n got r res r' t'.
Proof.
  intros Ht Hf. unfold read_result. destruct res as [bytes|e]; [|done]. intros (? & ? & He).
  split_and!; [done..|]. intros Hb. destruct (He Hb); [by left|]. right. by eapply saw_end_earlier.
Qed.

Lemma read_at_result fuel t n (r : FollowFdReader) got bytes fd t1 (r' : FollowFdReader) :
  has_read t got r.(inner) -> 0 < n -> read_at fuel t n r.(inner) = Some (Ok bytes, fd, t1) ->
  r'.(inner) = fd ->
  bool_decide (bytes = []) && (r.(follow) && negb (should_stop_follow t1)) = false ->
  read_result t n got r (Ok bytes) r' t1.
Proof.
  intros Hr Hn E <- Eb. destruct (fd_read_at_spec _ _ _ _ _ _ _ _ Hr (Z.lt_le_incl _ _ Hn) E) as [Ht (Hr' & Hl & He)].
  split_and!; [done..|]. intros ->. right. split; [by apply He|].
  rewrite bool_decide_eq_true_2 in Eb by done. cbn in Eb.
  destruct (follow r); [right | by left]. by destruct (should_stop_follow t1).
Qed.

Lemma read_loop_spec fuel t n r got res r' t' :
  has_read t got r.(inner) -> 0 < n -> read_loop fuel t n r = Some (res, r', t') ->
  (t < t')%nat /\ r'.(follow) = r.(follow) /\ read_result t n got r res r' t'.
Proof.
  revert t r. induction fuel as [|f IH]; intros t r Hr Hn; [done|]. cbn [read_loop].
  destruct (read_at (S f) t n (inner r)) as [[[[bytes|e] fd] t1]|] eqn:E; [| |done].
  - destruct (bool_decide (bytes = []) && _) eqn:Eb.
    + intros E'. destruct (fd_read_at_spec _ _ _ _ _ _ _ _ Hr (Z.lt_le_incl _ _ Hn) E) as [Ht (Hr' & _ & _)].
      apply andb_true_iff in Eb as [->%bool_decide_eq_true _]. rewrite app_nil_r in Hr'.
      apply IH in E' as (Ht' & Hf & Hres); [|by eapply has_read_later; [|exact Hr']; lia|done].
      split; [lia|]. split; [done|]. by eapply read_result_earlier; [| |exact Hres]; [lia|].
    + intros [= <- <- <-]. destruct (fd_read_at_spec _ _ _ _ _ _ _ _ Hr (Z.lt_le_incl _ _ Hn) E) as [Ht _].
      split; [done|]. split; [done|]. by eapply read_at_result.
  - intros [= <- <- <-]. destruct (fd_read_at_spec _ _ _ _ _ _ _ _ Hr (Z.lt_le_incl _ _ Hn) E) as [Ht ?]. by split_and!.
Qed.

Lemma poll_loop_spec fuel t n r got p r' t' :
  has_read t got r.(inner) -> 0 < n -> poll_loop fuel t n r = Some (p, r', t') ->
  (t < t')%nat /\ r'.(follow) = r.(follow) /\
  match p with
  | Pending => has_read t' got r'.(inner) /\ r'.(delay) = true
  | Ready res => read_result t n got r res r' t'
  end.
Proof.
  revert t r. induction fuel as [|f IH]; intros t r Hr Hn; [done|]. cbn [poll_loop].
  destruct (read_at (S f) t n (inner r)) as [[[[bytes|e] fd] t1]|] eqn:E; [| |done].
  - destruct (bool_decide (bytes = []) && _) eqn:Eb.
    + destruct (fd_read_at_spec _ _ _ _ _ _ _ _ Hr (Z.lt_le_incl _ _ Hn) E) as [Ht (Hr' & _ & _)].
      apply andb_true_iff in Eb as [->%bool_decide_eq_true _]. rewrite app_nil_r in Hr'.
      destruct (woken t1).
      * intros E'. apply IH in E' as (Ht' & Hf & Hres); [|by eapply has_read_later; [|exact Hr']; lia|done].
        split; [lia|]. split; [done|]. destruct p; [done|]. by eapply read_result_earlier; [| |exact Hres]; [lia|].
      * intros [= <- <- <-]. split; [lia|]. split; [done|]. split; [|done].
        by eapply has_read_later; [|exact Hr']; lia.
    + intros [= <- <- <-]. destruct (fd_read_at_spec _ _ _ _ _ _ _ _ Hr (Z.lt_le_incl _ _ Hn) E) as [Ht _].
      split; [done|]. split; [done|]. by eapply read_at_result.
  - intros [= <- <- <-]. destruct (fd_read_at_spec _ _ _ _ _ _ _ _ Hr (Z.lt_le_incl _ _ Hn) E) as [Ht ?]. by split_and!.
Qed.

(** A reader that is told to stop from [T] on, over a file whose reads are not
    interrupted, returns. *)
Lemma read_loop_returns fuel t n r T :
  (forall t', (T <= t')%nat -> should_stop_follow t' = true) ->
  (forall t' p m e, pread t' p m = Err e -> e.(io_kind) <> Interrupted) ->
  (T < t + fuel)%nat -> (0 < fuel)%nat -> is_Some (read_loop fuel t n r).
Proof.
  intros Hs Hi. revert t r. induction fuel as [|f IH]; intros t r Ht Hf; [lia|]. cbn [read_loop read_at].
  destruct (pread t (pos (inner r)) n) as [bytes|e] eqn:E.
  - destruct (bool_decide (bytes = []) && _) eqn:Eb; [|by eexists].
    apply andb_true_iff in Eb as [_ [_ Eb%negb_true_iff]%andb_true_iff].
    assert (~ (T <= S t)%nat) as Hlt by (intros ?%Hs; congruence). apply IH; lia.
  - rewrite bool_decide_eq_false_2 by by eapply Hi. by eexists.
Qed.
End Reads.

(** C19: A reader of a log on macOS, synchronous or not, gives the file from its
    start, in order, whatever other readers do and however reads are cut short or
    interrupted: the bytes read so far followed by those of this read are the
    file up to the reader's position.  It reports the end of the file only for an
    empty buffer, or after it was at the end, and then only if it does not follow
    the log, or the log was stopped or the exit code recorded.  A pending read
    leaves the position alone.  And once it is told to stop, a read returns. *)
Theorem follow_reads `{F : LogFile} `{!LogFileLaws F} fuel t n (r : FollowFdReader) got :
  0 <= n -> has_read t got r.(inner) ->
  (forall res r' t', read fuel t n r = Some (res, r', t') ->
     r'.(follow) = r.(follow) /\ read_result t n got r res r' t') /\
  (forall p r' t', poll_read fuel t n r = Some (p, r', t') ->
     r'.(follow) = r.(follow) /\
     match p with
     | Ready res => read_result t n got r res r' t'
     | Pending => has_read t' got r'.(inner) /\ r'.(delay) = true
     end) /\
  (forall T, (forall t', (T <= t')%nat -> should_stop_follow t' = true) ->
     (forall t' p m e, pread t' p m = Err e -> e.(io_kind) <> Interrupted) ->
     (T < t + fuel)%nat -> (0 < fuel)%nat -> is_Some (read fuel t n r)).
Proof.
  intros Hn Hr. unfold read, poll_read. destruct (Z.eqb_spec n 0) as [->|Hn'].
  - assert (read_result t 0 got r (Ok []) r t) as Hz.
    { split_and!; [by rewrite app_nil_r | done | by left]. }
    split_and!; [by intros ??? [= <- <- <-] | by intros ??? [= <- <- <-] | by eexists].
  - split_and!.
    + intros res r' t' E. apply read_loop_spec with (got := got) in E as (_ & ? & ?); [done..|lia].
    + intros p r' t' E. apply poll_loop_spec with (got := got) in E as (_ & ? & ?); [done..|lia].
    + intros T Hs Hi Ht Hf. by eapply read_loop_returns.
Qed.

(** A file that gets its first bytes at moment 1, when the exit is recorded. *)
Definition late_output : list byte := lit "bye".
#[local] Instance late_file : LogFile := {|
  content t := match t with O => [] | S _ => late_output end;
  pread t p n := Ok (ztake n (zdrop p (match t with O => [] | S _ => late_output end)));
  stopped _ := false;
  exited t := match t with O => false | S _ => true end;
  woken _ := false;
|}.
#[local] Instance late_file_laws : LogFileLaws late_file.
Proof.
  split.
  - intros [|t]; [apply prefix_nil | done].
  - intros t p n bytes Hn [= <-]. split; [|llia].
    exists (zdrop n (zdrop p (content t))). by rewrite ztake_zdrop.
  - intros t p n Hn Hp E. apply (inj Ok) in E.
    pose proof (len_ztake n (zdrop p (content t))) as El. rewrite len_zdrop in El.
    change (ztake n (zdrop p (content t))) with (ztake n (zdrop p (match t with O => [] | S _ => late_output end))) in El.
    rewrite E in El. change (len []) with 0 in El. lia.
Qed.

Lemma follow_reads_witness :
  exists res r' t', read 2 1 10 (mkFollow (mkFdReader 0) true false) = Some (res, r', t') /\
    has_read 1 [] (mkFdReader 0) /\
    read_result 1 10 [] (mkFollow (mkFdReader 0) true false) res r' t' /\ res = Ok late_output.
Proof.
  assert (has_read 1 [] (mkFdReader 0)) as Hr by (split; [reflexivity | apply prefix_nil]).
  destruct (follow_reads 2 1 10 (mkFollow (mkFdReader 0) true false) [] ltac:(lia) Hr) as (Hread & _ & _).
  do 3 eexists. split; [vm_compute; reflexivity|]. split; [exact Hr|]. split; [|reflexivity].
  apply Hread. vm_compute. reflexivity.
Defined.

(** A following reader can report the end of a log it has not read: its read
    finds the end, then the container's last output is written and its exit
    recorded, and then the reader looks at the exit code and reports the end;
    the output is in the file, unread. *)
Theorem follow_eof_race : exists (F : LogFile) (laws : LogFileLaws F) r' t',
  read 1 0 10 (mkFollow (mkFdReader 0) true false) = Some (Ok [], r', t') /\
  poll_read 1 0 10 (mkFollow (mkFdReader 0) true false) = Some (Ready (Ok []), r', t') /\
  r'.(inner).(pos) = 0 /\ content t' = late_output.
Proof.
  exists late_file, late_file_laws. do 2 eexists. split; [vm_compute; reflexivity|].
  split; vm_compute; [reflexivity|]. split; reflexivity.
Qed.

(** ** When the delivery task ends *)

(** The first time in [cs] an exit was seen. *)
Definition first_exit (cs : list Check) : option Duration := now <$> List.find has_exited cs.

(** A check that ends the task, given the checks before it: the log was stopped,
    or [DRAIN_GRACE] has passed since the first check that saw the exit. *)
Definition ends_after (pre : list Check) (c : Check) : Prop :=
  c.(stop) = true \/
  (c.(has_exited) = true /\ exists t, first_exit pre = Some t /\ LogWait.DRAIN_GRACE <= c.(now) - t).

Lemma first_exit_snoc pre c : first_exit (pre ++ [c]) = anchor_after c (first_exit pre).
Proof.
  unfold first_exit, anchor_after. induction pre as [|d pre IH]; cbn.
  - by destruct (has_exited c).
  - destruct (has_exited d); [by destruct (has_exited c) | exact IH].
Qed.

Lemma ends_iff pre c : ends c (first_exit pre) = true <-> ends_after pre c.
Proof.
  unfold ends, ends_after. rewrite orb_true_iff, andb_true_iff, Z.leb_le.
  destruct (first_exit pre) as [t|]; cbn [default from_option id].
  - split; (intros [?|[? Hd]]; [by left|right; split; [done|]]); [by exists t|].
    by destruct Hd as (? & [= <-] & ?).
  - rewrite Z.sub_diag. split; (intros [?|[_ Hd]]; [by left|exfalso]); [by cbv in Hd|].
    by destruct Hd as (? & [=] & _).
Qed.

(** What the fills give between two looks at the end of the file: an empty fill is such
    a look, and so is every fill after the last one. *)
Fixpoint texts (fs : list (result IoError (list byte))) : list (list byte) :=
  match fs with
  | Ok [] :: fs => [] :: texts fs
  | Ok b :: fs => match texts fs with x :: xs => (b ++ x) :: xs | [] => [b] end
  | _ => [[]]
  end.
Definition texts_of (r : BufReader) : list (list byte) :=
  match texts r.(fills) with x :: xs => (r.(cur) ++ x) :: xs | [] => [r.(cur)] end.
Definition reads_ok (r : BufReader) : Prop := Forall (fun f => is_ok f = true) r.(fills).

(** A reader up to its next look at the end, and the whole of it. *)
Definition then_more (rest : list (result IoError (list byte))) (r : BufReader) : BufReader :=
  mkBufReader r.(cur) (r.(fills) ++ Ok [] :: rest).

Lemma texts_nonempty fs : texts fs <> [].
Proof. destruct fs as [|[[|x b]|e] fs]; cbn; try done. by destruct (texts fs). Qed.

Lemma texts_good gs : Forall good_fill gs ->
  texts gs = [stream_of (mkBufReader [] gs)] /\
  forall rest, texts (gs ++ Ok [] :: rest) = stream_of (mkBufReader [] gs) :: texts rest.
Proof.
  unfold stream_of. cbn [cur fills app]. induction 1 as [|[[|x b]|e] gs Hf _ [IH IH']]; try done.
  split; [cbn; by rewrite IH|]. intros rest. cbn. by rewrite IH'.
Qed.

(** Every reader without errors is one of the two. *)
Lemma reads_ok_split r : reads_ok r ->
  (good r /\ texts_of r = [stream_of r]) \/
  (exists r0 rest, r = then_more rest r0 /\ good r0 /\ Forall (fun f => is_ok f = true) rest /\
     texts_of r = stream_of r0 :: texts rest).
Proof.
  destruct r as [c fs]. unfold reads_ok, good, texts_of, then_more, stream_of. cbn [cur fills].
  assert (Forall (fun f => is_ok f = true) fs -> Forall good_fill fs \/ exists gs rest,
    fs = gs ++ Ok [] :: rest /\ Forall good_fill gs /\ Forall (fun f => is_ok f = true) rest) as Hsplit.
  { induction 1 as [|[b|e] fs Hf Hfs IH]; [by left| |done]. destruct b as [|x b].
    - right. by exists [], fs.
    - destruct IH as [?|(gs & rest & -> & ? & ?)]; [left; by constructor|].
      right. exists (Ok (x :: b) :: gs), rest. split; [done|]. by split; [constructor|]. }
  intros [Hg|(gs & rest & -> & Hg & Hr)]%Hsplit.
  - left. split; [done|]. by rewrite (proj1 (texts_good fs Hg)).
  - right. exists (mkBufReader c gs), rest. split; [done|]. split; [done|]. split; [done|].
    by rewrite (proj2 (texts_good gs Hg)).
Qed.

(** More to come changes nothing in how a line is read, but that the look at the end is
    used up by a line that ends there. *)
Lemma read_line_then_more rest fuel limit line tr r res r' : good r ->
  read_line_loop fuel limit line tr r = Some (Ok res, r') ->
  (read_line_loop fuel limit line tr (then_more rest r) = Some (Ok res, then_more rest r') /\ res <> Closed) \/
  (read_line_loop fuel limit line tr (then_more rest r) = Some (Ok res, mkBufReader [] rest) /\ r' = mkBufReader [] []).
Proof.
  revert line tr r. induction fuel as [|f IH]; intros line tr r Hg; [done|]. cbn [read_line_loop].
  assert (fill_buf r = (Ok [], mkBufReader [] []) /\ fill_buf (then_more rest r) = (Ok [], mkBufReader [] rest) \/
    exists buf r1, buf <> [] /\ good r1 /\ fill_buf r = (Ok buf, r1) /\
      fill_buf (then_more rest r) = (Ok buf, then_more rest r1)) as [[-> ->]|(buf & r1 & Hb & Hg1 & -> & ->)].
  { destruct r as [[|x c] fs]; unfold fill_buf, then_more, good in *; cbn [cur fills] in *.
    - destruct Hg as [|[b|e] fs Hb Hfs]; [by left| |done]. right. by exists b, (mkBufReader b fs).
    - right. by exists (x :: c), (mkBufReader (x :: c) fs). }
  - rewrite bool_decide_eq_true_2 by done. intros E. right. by repeat case_match; simplify_eq.
  - rewrite bool_decide_eq_false_2 by done.
    repeat match goal with |- context [consume ?n (then_more rest ?x)] =>
      change (consume n (then_more rest x)) with (then_more rest (consume n x)) end.
    repeat case_match; try (intros E; by apply IH in E); intros [= <- <-]; by left.
Qed.

(** What one call of [deliver_line_to_consumers] does to the texts: at the end it takes a
    look, else it gives the next frame of the text it is in. *)
Definition after_look (xs : list (list byte)) : list (list byte) := match xs with [] => [[]] | _ => xs end.

Lemma good_text r : good r -> reads_ok r /\ texts_of r = [stream_of r].
Proof.
  destruct r as [c fs]. unfold reads_ok, texts_of, stream_of, good. cbn [cur fills]. intros Hg. split.
  - eapply Forall_impl; [exact Hg|]. by intros [].
  - by rewrite (proj1 (texts_good fs Hg)).
Qed.

Lemma then_more_text rest r : good r -> Forall (fun f => is_ok f = true) rest ->
  reads_ok (then_more rest r) /\ texts_of (then_more rest r) = stream_of r :: texts rest.
Proof.
  intros Hg Hrest. pose proof (proj1 (good_text r Hg)) as Hok. destruct r as [c fs].
  unfold reads_ok, then_more, texts_of, stream_of, good in *. cbn [cur fills] in *. split.
  - apply Forall_app. by split; [|constructor].
  - by rewrite (proj2 (texts_good fs Hg)).
Qed.

Lemma start_text rest : texts_of (mkBufReader [] rest) = texts rest /\ after_look (texts rest) = texts rest.
Proof. pose proof (texts_nonempty rest). unfold texts_of. cbn [cur fills]. by destruct (texts rest). Qed.

Lemma next_line_closed limit s : (next_line limit s).1 = Closed -> s = [].
Proof.
  unfold next_line. destruct (split_once LF s) as [[a b]|]; [by case_match|].
  case_bool_decide; [done|]. by case_match.
Qed.

Lemma deliver_line_step r cs to_frame : reads_ok r -> exists x xs r', texts_of r = x :: xs /\ reads_ok r' /\
  ((x = [] /\ texts_of r' = after_look xs /\
      deliver_line_to_consumers r cs to_frame = Some (Ok false, r', cs)) \/
   (exists l x', frames_of MAX_LINE_LENGTH x = l :: frames_of MAX_LINE_LENGTH x' /\ (length x' < length x)%nat /\
      (texts_of r' = x' :: xs \/ (x' = [] /\ texts_of r' = after_look xs)) /\
      deliver_line_to_consumers r cs to_frame = Some (Ok true, r', accept_all cs (to_frame l)))).
Proof.
  intros Hok. unfold deliver_line_to_consumers, read_line_limited.
  assert (forall r0 fuel, good r0 -> (length r0.(fills) + 3 <= fuel)%nat -> exists r1,
    read_line_loop fuel MAX_LINE_LENGTH [] None r0 = Some (Ok (next_line MAX_LINE_LENGTH (stream_of r0)).1, r1) /\
    good r1 /\ stream_of r1 = (next_line MAX_LINE_LENGTH (stream_of r0)).2) as Hline.
  { intros r0 fuel Hg Hf. apply (read_line_loop_spec fuel MAX_LINE_LENGTH [] r0); [done|apply not_elem_of_nil|done|].
    destruct (bool_decide _); lia. }
  destruct (reads_ok_split r Hok) as [[Hg Ht]|(r0 & rest & -> & Hg & Hrest & Ht)].
  - destruct (Hline r (length (fills r) + 3)%nat Hg) as (r1 & -> & Hg1 & Hs1); [lia|].
    destruct (good_text r1 Hg1) as [Hok1 Ht1]. exists (stream_of r), [], r1. split; [done|]. split; [done|].
    pose proof (next_line_shrinks MAX_LINE_LENGTH (stream_of r)) as Hsh. rewrite (frames_of_eq _ (stream_of r)), Ht1, Hs1.
    pose proof (next_line_closed MAX_LINE_LENGTH (stream_of r)) as Hclosed.
    destruct (next_line MAX_LINE_LENGTH (stream_of r)) as [[l|l|l|] t] eqn:En; cbn [fst snd] in *.
    1-3: right; exists l, t; split; [done|]; split; [by destruct Hsh|]; split; [by left|done].
    left. rewrite (Hclosed eq_refl) in *. by injection En as <-.
  - destruct (Hline r0 (length (fills (then_more rest r0)) + 3)%nat Hg) as (r1 & E & Hg1 & Hs1).
    { cbn. rewrite length_app. lia. }
    pose proof (next_line_shrinks MAX_LINE_LENGTH (stream_of r0)) as Hsh.
    destruct (start_text rest) as [Hm Ha], (then_more_text rest r1 Hg1 Hrest) as [Hok1 Ht1].
    exists (stream_of r0), (texts rest).
    destruct (read_line_then_more rest _ _ _ _ _ _ _ Hg E) as [[-> Hc]|[-> ->]].
    + exists (then_more rest r1). split; [done|]. split; [done|]. right. rewrite (frames_of_eq _ (stream_of r0)), Ht1, Hs1.
      destruct (next_line MAX_LINE_LENGTH (stream_of r0)) as [[l|l|l|] t]; cbn [fst snd] in *; [..|done];
        (exists l, t; split; [done|]; split; [by destruct Hsh|]; split; [by left|done]).
    + exists (mkBufReader [] rest). split; [done|]. split; [done|]. rewrite Hm, Ha. cbn in Hs1.
      rewrite (frames_of_eq _ (stream_of r0)). pose proof (next_line_closed MAX_LINE_LENGTH (stream_of r0)) as Hclosed.
      destruct (next_line MAX_LINE_LENGTH (stream_of r0)) as [[l|l|l|] t]; cbn [fst snd] in *; subst t.
      1-3: right; exists l, []; split; [done|]; split; [by destruct Hsh|]; split; [by right|done].
      left. by rewrite Hclosed.
Qed.

(** A run that ended: the checks it passed, none of which ends it, the one that ends it, and
    the texts it had read whole when it took that look. *)
Definition no_end (pre seen : list Check) : Prop :=
  forall before d after, seen = before ++ d :: after -> ~ ends_after (pre ++ before) d.
Definition framed (to_frame : list byte -> LogFrame) (read : list (list byte)) : list LogFrame :=
  to_frame <$> mjoin (frames_of MAX_LINE_LENGTH <$> read).

Lemma no_end_cons pre c seen : ends c (first_exit pre) = false -> no_end (pre ++ [c]) seen -> no_end pre (c :: seen).
Proof.
  intros Hc Hs [|d before] e after E.
  - injection E as <- <-. rewrite app_nil_r. intros He%ends_iff. congruence.
  - injection E as <- ->. specialize (Hs before e after eq_refl). by rewrite <- app_assoc in Hs.
Qed.

Lemma deliver_task_ended fuel r cs to_frame pre checks cs' :
  reads_ok r -> deliver_task fuel r cs to_frame checks (first_exit pre) = Some cs' ->
  exists seen c rest read k left, checks = seen ++ c :: rest /\ ends_after (pre ++ seen) c /\ no_end pre seen /\
    texts_of r ++ replicate k [] = read ++ left /\ read <> [] /\
    cs' = (fun acc => acc ++ framed to_frame read) <$> cs.
Proof.
  revert r cs pre checks. induction fuel as [|f IH]; intros r cs pre checks Hok; [done|]. cbn [deliver_task].
  destruct (deliver_line_step r cs to_frame Hok)
    as (x & xs & r' & Ht & Hok' & [(-> & Ht' & ->)|(l & x' & Hl & _ & Hx & ->)]).
  - destruct checks as [|c checks]; [done|]. destruct (ends c (first_exit pre)) eqn:Ee.
    + intros [= <-]. exists [], c, checks, [[]], 0%nat, xs. rewrite app_nil_r. split; [done|].
      split; [by apply ends_iff|]. split; [by intros [] ? ? [=]|]. split; [by rewrite Ht, app_nil_r|]. split; [done|].
      rewrite <- (list_fmap_id cs) at 1. apply list_fmap_ext. intros i acc _. cbn. by rewrite app_nil_r.
    + rewrite <- first_exit_snoc. intros E.
      destruct (IH _ _ _ _ Hok' E) as (seen & d & rest & read & k & left & -> & He & Hn & Hr & Hne & ->).
      exists (c :: seen), d, rest, ([] :: read).
      assert (exists k', xs ++ replicate k' [] = read ++ left) as [k' Hk'].
      { rewrite Ht' in Hr. destruct xs as [|y ys]; [by exists (S k)|by exists k]. }
      exists k', left. split; [done|]. split; [by rewrite <- app_assoc in He|]. split; [by apply no_end_cons|].
      split; [rewrite Ht; cbn; by rewrite Hk'|]. done.
  - intros E. destruct (IH _ _ _ _ Hok' E) as (seen & d & rest & read & k & left & -> & He & Hn & Hr & Hne & ->).
    assert (exists k' read', texts_of r ++ replicate k' [] = read' ++ left /\ read' <> [] /\
      framed to_frame read' = to_frame l :: framed to_frame read) as (k' & read' & Hk' & Hne' & Hf).
    { unfold framed. destruct Hx as [Hx|[-> Hx]]; rewrite Hx in Hr.
      - destruct read as [|y ys]; [done|]. injection Hr as <- Hr. exists k, (x :: ys).
        split; [rewrite Ht; cbn; by rewrite Hr|]. split; [done|]. cbn. by rewrite Hl.
      - assert (exists k', xs ++ replicate k' [] = read ++ left) as [k' Hk'].
        { destruct xs as [|y ys]; [by exists (S k)|by exists k]. }
        exists k', (x :: read). split; [rewrite Ht; cbn; by rewrite Hk'|]. split; [done|]. cbn. by rewrite Hl. }
    exists seen, d, rest, read', k', left. split_and!; try done.
    unfold accept_all. rewrite <- list_fmap_compose. apply list_fmap_ext. intros i acc _. cbn.
    by rewrite Hf, <- app_assoc.
Qed.

Lemma length_texts (x : list byte) xs : length (mjoin (x :: xs)) = (length x + length (mjoin xs))%nat.
Proof. apply length_app. Qed.
Lemma after_look_join (xs : list (list byte)) : mjoin (after_look xs) = mjoin xs.
Proof. by destruct xs. Qed.

(** It ends once a check says so, with as much fuel as there are bytes and checks. *)
Lemma deliver_task_returns fuel r cs to_frame pre checks :
  reads_ok r -> (length (mjoin (texts_of r)) + length checks < fuel)%nat ->
  (exists seen c rest, checks = seen ++ c :: rest /\ ends_after (pre ++ seen) c) ->
  is_Some (deliver_task fuel r cs to_frame checks (first_exit pre)).
Proof.
  revert r cs pre checks. induction fuel as [|f IH]; intros r cs pre checks Hok Hf (seen & c & rest & Ec & He); [lia|].
  cbn [deliver_task].
  destruct (deliver_line_step r cs to_frame Hok)
    as (x & xs & r' & Ht & Hok' & [(-> & Ht' & ->)|(l & x' & Hl & Hs & Hx & ->)]); rewrite Ht, length_texts in Hf; cbn [length] in Hf.
  - destruct checks as [|d checks]; [by destruct seen|]. destruct (ends d (first_exit pre)) eqn:Ed; [by eexists|].
    rewrite <- first_exit_snoc. apply IH; [done| |].
    + rewrite Ht', after_look_join. cbn [length] in Hf. lia.
    + destruct seen as [|d' seen]; cbn in Ec; injection Ec as -> ->.
      * rewrite app_nil_r in He. apply ends_iff in He. congruence.
      * exists seen, c, rest. by rewrite <- app_assoc.
  - apply IH; [done| |by exists seen, c, rest].
    destruct Hx as [->|[-> ->]]; rewrite ?length_texts, ?after_look_join; lia.
Qed.

(** Of looks at the end alone nothing is read. *)
Lemma nothing_read k (read left : list (list byte)) :
  replicate k [] = read ++ left -> mjoin read = [] /\ mjoin (frames_of MAX_LINE_LENGTH <$> read) = [].
Proof.
  revert read. induction k as [|k IH]; intros [|x read] E; try done. injection E as <- E. cbn. by apply IH.
Qed.

Lemma deliver_drained fuel cs to_frame pre checks :
  (length checks < fuel)%nat ->
  (exists seen c rest, checks = seen ++ c :: rest /\ ends_after (pre ++ seen) c) ->
  deliver_task fuel (mkBufReader [] []) cs to_frame checks (first_exit pre) = Some cs.
Proof.
  intros Hf He. assert (reads_ok (mkBufReader [] [])) as Hok by constructor.
  destruct (deliver_task_returns fuel _ cs to_frame pre checks Hok Hf He) as [cs' E]. rewrite E.
  destruct (deliver_task_ended _ _ _ _ _ _ _ Hok E) as (_ & _ & _ & read & k & left & _ & _ & _ & Hr & _ & ->).
  assert (framed to_frame read = []) as ->.
  { unfold framed. by rewrite (proj2 (nothing_read (S k) _ _ Hr)). }
  f_equal. rewrite <- (list_fmap_id cs) at 2. apply list_fmap_ext. intros i acc _. by rewrite app_nil_r.
Qed.

(** ** The task over a file *)

(** From [t] on, the reads of [r], which has read [got], are [fs]; after the last of them
    nothing more is written. *)
Inductive polled `{LogFile} : nat -> list byte -> FdReader -> list (result IoError (list byte)) -> Prop :=
| polled_end t got r : (forall t', (t <= t')%nat -> content t' = got) -> polled t got r []
| polled_fill t fuel n r bytes r' t1 t2 got fs : 0 < n -> read_at fuel t n r = Some (Ok bytes, r', t1) ->
    (t1 <= t2)%nat -> polled t2 (got ++ bytes) r' fs -> polled t got r (Ok bytes :: fs).

Section Polled.
Context `{F : LogFile} `{!LogFileLaws F}.

Lemma polled_ok t got r fs : polled t got r fs -> reads_ok (mkBufReader [] fs).
Proof. unfold reads_ok. cbn. by induction 1; constructor. Qed.

(** What was read between looks at the end is what the file held at the last of them. *)
Lemma polled_texts t got r fs read left k : polled t got r fs -> has_read t got r ->
  texts fs ++ replicate k [] = read ++ left -> read <> [] ->
  exists t0, (t <= t0)%nat /\ content t0 = got ++ mjoin read.
Proof.
  intros Hp. revert read. induction Hp as [t got r Hend|t fuel n r bytes r' t1 t2 got fs Hn E Ht _ IH]; intros read Hr Es Hne.
  - exists t. split; [done|]. by rewrite Hend, (proj1 (nothing_read (S k) _ _ Es)), app_nil_r.
  - destruct (fd_read_at_spec _ _ _ _ _ _ _ _ Hr (Z.lt_le_incl _ _ Hn) E) as [Ht1 (Hr' & _ & He)].
    assert (has_read t2 (got ++ bytes) r') as Hr2 by by eapply has_read_later.
    destruct bytes as [|b bytes].
    + cbn [texts] in Es. destruct read as [|y read]; [done|]. injection Es as <- Es.
      destruct (decide (read = [])) as [->|Hne'].
      * destruct (He eq_refl Hn) as (t0 & ? & Hc). exists t0. split; [lia|]. cbn. by rewrite app_nil_r.
      * destruct (IH read Hr2 Es Hne') as (t0 & ? & Hc). exists t0. split; [lia|]. by rewrite Hc, app_nil_r.
    + cbn [texts] in Es. pose proof (texts_nonempty fs). destruct (texts fs) as [|x xs] eqn:Ex; [done|].
      destruct read as [|y read]; [done|]. injection Es as <- Es.
      destruct (IH (x :: read) Hr2) as (t0 & ? & Hc); [cbn; by rewrite Es|done|]. exists t0. split; [lia|].
      rewrite Hc. cbn. by rewrite <- !app_assoc.
Qed.
End Polled.

(** C20: The delivery task of macOS does not run for ever, and does not stop too early.  Over
    a log whose reads succeed it ends only at a look at the end of the file, when every
    byte the file then held has been delivered, in the frames of the texts between such
    looks; at that look the log was stopped, or [DRAIN_GRACE] had passed since the first
    look that saw the exit, and at no look before.  It returns as soon as there is such a
    look; and once nothing more is written it changes nothing any more. *)
Theorem deliver_task_ends `{F : LogFile} `{!LogFileLaws F} fuel t r fs cs to_frame checks :
  (forall cs', has_read t [] r -> polled t [] r fs ->
     deliver_task fuel (mkBufReader [] fs) cs to_frame checks None = Some cs' ->
     exists seen c rest read k left t0, checks = seen ++ c :: rest /\ ends_after seen c /\ no_end [] seen /\
       texts fs ++ replicate k [] = read ++ left /\ (t <= t0)%nat /\ content t0 = mjoin read /\
       cs' = (fun acc => acc ++ framed to_frame read) <$> cs) /\
  (polled t [] r fs -> (length (mjoin (texts fs)) + length checks < fuel)%nat ->
     (exists seen c rest, checks = seen ++ c :: rest /\ ends_after seen c) ->
     is_Some (deliver_task fuel (mkBufReader [] fs) cs to_frame checks None)) /\
  ((length checks < fuel)%nat ->
     (exists seen c rest, checks = seen ++ c :: rest /\ ends_after seen c) ->
     deliver_task fuel (mkBufReader [] []) cs to_frame checks None = Some cs).
Proof.
  pose proof (proj1 (start_text fs)) as Ht. split_and!.
  - intros cs' Hr Hp E. destruct (deliver_task_ended fuel _ cs to_frame [] checks cs' (polled_ok _ _ _ _ Hp) E)
      as (seen & c & rest & read & k & left & Ec & He & Hn & Hread & Hne & Hcs). rewrite Ht in Hread.
    destruct (polled_texts _ _ _ _ _ _ _ Hp Hr Hread Hne) as (t0 & ? & ?).
    by exists seen, c, rest, read, k, left, t0.
  - intros Hp Hf He. apply (deliver_task_returns fuel _ cs to_frame []); [by eapply polled_ok|by rewrite Ht|done].
  - intros Hf He. by apply (deliver_drained fuel cs to_frame []).
Qed.

Definition sample_checks : list Check :=
  [mkCheck false false 0; mkCheck false true (from_secs 1); mkCheck false true (from_secs 3)].
Definition late_fills : list (result IoError (list byte)) := [Ok late_output; Ok []].
Lemma late_polled : polled (H := late_file) 1 [] (mkFdReader 0) late_fills.
Proof.
  apply (polled_fill (H := late_file)) with 1%nat 10 (mkFdReader 3) 2%nat 2%nat; [lia|vm_compute; reflexivity|lia|].
  apply (polled_fill (H := late_file)) with 1%nat 10 (mkFdReader 3) 3%nat 3%nat; [lia|vm_compute; reflexivity|lia|].
  apply polled_end. by intros [|t'] Ht; [lia|].
Qed.
Lemma deliver_task_ends_witness :
  (exists seen c rest read k left t0, sample_checks = seen ++ c :: rest /\ ends_after seen c /\ no_end [] seen /\
     texts late_fills ++ replicate k [] = read ++ left /\ (1 <= t0)%nat /\ content t0 = mjoin read /\
     [[FrameStdOut late_output]] = (fun acc => acc ++ framed FrameStdOut read) <$> [[]]) /\
  deliver_task 4 (mkBufReader [] []) [[]] FrameStdOut sample_checks None = Some [[]].
Proof.
  destruct (deliver_task_ends (F := late_file) 7 1 (mkFdReader 0) late_fills [[]] FrameStdOut sample_checks)
    as (Hended & Hreturns & _).
  split.
  - apply Hended; [split; [reflexivity | apply prefix_nil] | exact late_polled | vm_compute; reflexivity].
  - apply (deliver_task_ends (F := late_file) 4 1 (mkFdReader 0) late_fills [[]] FrameStdOut sample_checks); [cbn; lia|].
    exists [mkCheck false false 0; mkCheck false true (from_secs 1)], (mkCheck false true (from_secs 3)), [].
    split; [reflexivity|]. right. split; [reflexivity|].
    exists (from_secs 1). split; [reflexivity | vm_compute; discriminate].
Defined.

(** A line that is polled while it is being written reaches the consumers in
    two pieces; written in one go it is one frame. *)
Lemma polled_line_is_split :
  deliver_task 5 (mkBufReader [] [Ok (lit "hel"); Ok []; Ok (lit "lo" ++ [LF])]) [[]] FrameStdOut
    [mkCheck true false 0] None = Some [[FrameStdOut (lit "hel"); FrameStdOut (lit "lo")]] /\
  deliver_task 5 (mkBufReader [] [Ok (lit "hello" ++ [LF])]) [[]] FrameStdOut
    [mkCheck true false 0] None = Some [[FrameStdOut (lit "hello")]].
Proof. split; vm_compute; reflexivity. Qed.
