(* ===== verification/MacContainer.v ===== *)
(** * The container handle on macOS ([src/src/core/containers/async_container.rs])

    The [cfg(target_os = "macos")] half of [ContainerAsync] over [XpcClient]: its
    log source is a pair of descriptors, its log delivery stops by a flag that
    is renewed at every restart, and an exit code that was not observed is asked
    for.  What both halves share is [Container.v]'s. *)

From S2P Require Import Prelude Utf8 Ports Errors Env Http HttpDecode.
From S2P Require Import Json JsonFormat RegistryAuth Effect Wait Request.
From S2P Require Import DockerApi Wire Xpc.
From S2P Require LogWait LogLine WaitState DockerClient Container XpcClient FdReader.

Inductive ContainerLogSource :=
| NoLogs
| Fd (stdout stderr : Z).

(** [log_stop] is the name of the flag in force. *)
Record ContainerAsync := mkContainer {
  id : str;
  request : ContainerRequest;
  dropped : bool;
  wait_state : WaitState.WaitState;
  log_source : ContainerLogSource;
  log_stop : nat;
  log_consumers : option (list nat);
}.

Section Handle.
Context `{Host} `{JsonLib} `{JsonFormatter} `{HttpEncoder} `{Base64} `{XpcClient.ExecPipes}.
Context (env : Environment) (parse_ip : str -> result str str) (is_ipv6 : str -> bool).
(** What [unique_suffix] makes at a moment, the working directory, and [temp_dir()]. *)
Context (unique_suffix : Trace -> str) (cwd : result str str) (temp_dir : str).

Definition get_host : HostName := Container.get_host (fun s => to_ok (parse_ip s)).

(** A flag is named by the moment it was made; the descriptors and the flag of a
    handle are renewed together, so it names what is read from them too. *)
Definition new_stop_flag : M nat := peek (fun tr => length tr).

(** [spawn_log_consumer_task] for both streams: nothing without descriptors. *)
Definition spawn_consumers (consumers : option (list nat)) (source : ContainerLogSource) (flag : nat) : M unit :=
  match consumers, source with
  | Some _, Fd _ _ => note (EvConsumers flag)
  | _, _ => mret tt
  end.

Definition new (id : str) (image : ContainerRequest) (wait_state : WaitState.WaitState)
    (source : ContainerLogSource) : M ContainerAsync :=
  flag ← new_stop_flag;
  let taken := image.(Request.log_consumers) in
  let consumers := if bool_decide (taken = []) then None else Some taken in
  spawn_consumers consumers source flag ;;
  mret (mkContainer id (take_log_consumers image) false wait_state source flag consumers).

(** ** Accessors *)

Definition snapshot_of (c : ContainerAsync) : M ContainerSnapshot := XpcClient.container_state is_ipv6 c.(id).
Definition ports (c : ContainerAsync) : M Ports := XpcClient.ports is_ipv6 c.(id).
Definition get_bridge_ip_address (c : ContainerAsync) : M str := XpcClient.bridge_ip_address parse_ip c.(id).
Definition get_host_port_ipv4 (c : ContainerAsync) (internal_port : ContainerPort) : M Z :=
  ps ← ports c;
  lift (ok_or (map_to_host_port_ipv4 ps internal_port) (PortNotExposed c.(id) internal_port)).
Definition get_host_port_ipv6 (c : ContainerAsync) (internal_port : ContainerPort) : M Z :=
  ps ← ports c;
  lift (ok_or (map_to_host_port_ipv6 ps internal_port) (PortNotExposed c.(id) internal_port)).
Definition container_state (c : ContainerAsync) : M ContainerState :=
  snapshot ← snapshot_of c;
  mret (mkContainerState c.(id) get_host snapshot.(snapshot_ports)).
Definition is_running (c : ContainerAsync) : M bool :=
  snapshot ← snapshot_of c; mret snapshot.(running).
Definition log_source_is_none (c : ContainerAsync) : bool :=
  match c.(log_source) with NoLogs => true | Fd _ _ => false end.

(** [stdout] and [stderr] with their synchronous twins: a reader of its own over
    the descriptor; [dup] is whether one can be duplicated. *)
Definition stdout (c : ContainerAsync) (dup : Z -> bool) (follow : bool) : option FdReader.FollowFdReader :=
  match c.(log_source) with
  | NoLogs => None
  | Fd out _ => FdReader.fd_reader_or_empty (Some out) dup follow
  end.
Definition stderr (c : ContainerAsync) (dup : Z -> bool) (follow : bool) : option FdReader.FollowFdReader :=
  match c.(log_source) with
  | NoLogs => None
  | Fd _ err => FdReader.fd_reader_or_empty (Some err) dup follow
  end.

(** What the background wait recorded; else, for a container that stopped, a
    wait of five seconds, whose answer counts only while its generation lasts. *)
Definition exit_code (c : ContainerAsync) : M (option Z) :=
  hint ← peek exit_code_hint;
  match hint with
  | Some code => mret (Some code)
  | None =>
      snapshot ← snapshot_of c;
      if snapshot.(running) : bool then mret None
      else
        generation ← peek wait_generation;
        result ← attempt (spawn_blocking (XpcClient.wait_blocking c.(id) c.(id) (from_secs 5)));
        match result with
        | Ok code =>
            current ← peek wait_generation;
            if current =? generation then note (EvStore generation code) ;; mret (Some code)
            else mret None
        | Err _ => mret None
        end
  end.

(** ** Waiting *)

(** [logs_terminated] is always [false] here. *)
Definition log_round (c : ContainerAsync) (s : LogWait.LogWaitStrategy) (tr : Trace) : LogWait.Round :=
  LogWait.mkRound
    (match c.(log_source) with
     | NoLogs => (fun _ => Ok []) <$> Container.log_streams s.(LogWait.source)
     | Fd _ _ => log_read tr c.(log_stop) <$> Container.log_streams s.(LogWait.source)
     end)
    (is_some (exit_code_hint tr))
    (clock tr).
Definition log_wait (fuel : nat) (c : ContainerAsync) (s : LogWait.LogWaitStrategy) : M unit :=
  if bool_decide (s.(LogWait.message) = []) then mret tt
  else Container.log_wait_loop fuel (log_round c s) s (LogWait.WaitLoop_new s).

(** The Apple service has no health checks. *)
Definition health_wait (c : ContainerAsync) : M unit := fail (WaitContainer (HealthCheckNotConfigured c.(id))).

(** The verdict after the container was seen stopped. *)
Definition stopped_verdict (c : ContainerAsync) (expected : Z) : M unit :=
  code ← exit_code c;
  match code with
  | Some actual => if actual =? expected then mret tt
                   else fail (WaitContainer (UnexpectedExitCode expected (Some actual)))
  | None => fail (WaitContainer (UnexpectedExitCode expected None))
  end.

Fixpoint exit_wait (fuel : nat) (c : ContainerAsync) (s : ExitWaitStrategy) : M unit :=
  match fuel with
  | O => no_fuel
  | S f =>
      hint ← peek exit_code_hint;
      match hint with
      | Some actual => lift (Container.check_exit_code s.(expected_code) actual)
      | None =>
          state ← snapshot_of c;
          if state.(running) : bool then sleep s.(exit_poll_interval) ;; exit_wait f c s
          else match s.(expected_code) with
               | None => mret tt
               | Some expected => stopped_verdict c expected
               end
      end
  end.

Definition http_host_port (c : ContainerAsync) (container_port : ContainerPort) : M Z :=
  let by_name := r ← attempt (get_host_port_ipv4 c container_port);
                 match r with
                 | Ok p => mret p
                 | Err _ => get_host_port_ipv6 c container_port
                 end in
  match get_host with
  | Addr ip => if contains ":" ip then get_host_port_ipv6 c container_port else by_name
  | Domain _ => by_name
  end.

Definition http_wait (fuel : nat) (c : ContainerAsync) (s : HttpWaitStrategy) : M unit :=
  matcher ← lift (ok_or s.(response_matcher) (Container.http_error NoResponseMatcher));
  container_port ← match s.(port) with
                   | Some p => mret p
                   | None => ps ← ports c;
                             lift (ok_or (first_container_port ps)
                                     (Container.http_error NoExposedPortsForHttpWait))
                   end;
  p ← http_host_port c container_port;
  let host := show_Host get_host in
  bytes ← lift (map_err Container.http_error (build_request_bytes s host p));
  Container.http_wait_loop fuel s matcher host p bytes.

Definition wait_until_ready (fuel : nat) (c : ContainerAsync) (w : WaitFor) : M unit :=
  match w with
  | Log s => log_wait fuel c s
  | WaitDuration length => sleep length
  | Healthcheck _ => health_wait c
  | Http s => http_wait fuel c s
  | Exit s => exit_wait fuel c s
  | Nothing => mret tt
  end.
Definition block_until_ready (fuel : nat) (c : ContainerAsync) (ws : list WaitFor) : M unit :=
  for_each (wait_until_ready fuel c) ws.
Definition ready_within (fuel : nat) (c : ContainerAsync) (d : Duration) (ws : list WaitFor) : M unit :=
  timeout d (WaitContainer (StartupTimeout c.(id) d)) (block_until_ready fuel c ws).

(** ** Exec *)

(** Both back ends give the same three things. *)
Definition raw_result (r : XpcClient.XpcExecResult) : DockerClient.DockerExecResult :=
  DockerClient.mkExecResult r.(XpcClient.xpc_exit_code) r.(XpcClient.xpc_stdout) r.(XpcClient.xpc_stderr).

Definition exec (fuel : nat) (c : ContainerAsync) (cmd : ExecCommand) : M Container.ExecResult :=
  if log_source_is_none c && ready_conditions_require_log cmd.(container_ready_conditions) then
    fail (other (lit "log wait requires a log source, but none is available"))
  else
    let environment := fold_env (env_vars c.(request)) cmd.(exec_env_vars) in
    suffix ← peek unique_suffix;
    raw ← XpcClient.exec c.(id) cmd.(exec_cmd) environment suffix;
    let raw := raw_result raw in
    ready_within fuel c (unwrap_or c.(request).(startup_timeout) DEFAULT_STARTUP_TIMEOUT)
      cmd.(container_ready_conditions) ;;
    Container.exec_completed cmd.(cmd_ready_condition) raw ;;
    mret (Container.mkExecOutput raw.(DockerClient.exec_exit_code) raw.(DockerClient.exec_stdout)
            raw.(DockerClient.exec_stderr)).
Definition exec_all (fuel : nat) (c : ContainerAsync) (cmds : list ExecCommand) : M unit :=
  for_each (fun cmd => _ ← exec fuel c cmd; mret tt) cmds.

(** ** Stop and removal *)

Definition stop_log_delivery (c : ContainerAsync) : M unit := note (EvStopLogs c.(log_stop)).
Definition stop_with_timeout (c : ContainerAsync) (timeout_seconds : option Z) : M unit :=
  stop_log_delivery c ;; XpcClient.stop c.(id) timeout_seconds.
Definition stop (c : ContainerAsync) : M unit := stop_with_timeout c None.

Definition close_fds (s : ContainerLogSource) : M unit :=
  match s with Fd out err => note (EvCloseFd out) ;; note (EvCloseFd err) | NoLogs => mret tt end.

Definition set_dropped (c : ContainerAsync) : ContainerAsync :=
  mkContainer c.(id) c.(request) true c.(wait_state) c.(log_source) c.(log_stop) c.(log_consumers).

Definition drop_remove (c : ContainerAsync) : M unit :=
  if c.(dropped) then mret tt
  else match command env with
       | Remove => _ ← attempt (blocking (XpcClient.remove_blocking c.(id) true)); mret tt
       | Keep => mret tt
       end.
Definition drop (c : ContainerAsync) : M unit :=
  stop_log_delivery c ;; close_fds c.(log_source) ;; drop_remove c.

(** Both removals own the handle, which is dropped with their caller too. *)
Definition rm_with (remove : str -> bool -> M unit) (c : ContainerAsync) : M unit :=
  stop_log_delivery c ;;
  r ← dropping (drop c) (attempt (remove c.(id) true));
  match r with
  | Ok _ => drop (set_dropped c)
  | Err e => drop c ;; fail e
  end.
Definition rm : ContainerAsync -> M unit := rm_with XpcClient.remove.
Definition rm_blocking : ContainerAsync -> M unit :=
  rm_with (fun id force => blocking (XpcClient.remove_blocking id force)).

(** ** Restart *)

(** The thread that [EvWaiter] starts. *)
Definition spawn_exit_code_waiter (id : str) (generation : Z) : M (WaitState.WaitState -> WaitState.WaitState) :=
  WaitState.exit_code_waiter (XpcClient.wait_blocking id id LONG_TIMEOUT) generation.

Definition reset_wait_state_and_respawn (c : ContainerAsync) : M ContainerAsync :=
  let '(g, ws) := WaitState.bump c.(wait_state) in
  note (EvWaiter g) ;;
  mret (mkContainer c.(id) c.(request) c.(dropped) ws c.(log_source) c.(log_stop) c.(log_consumers)).

(** The old delivery ends and the old descriptors are closed only when there are new ones. *)
Definition refresh_log_streams (c : ContainerAsync) : M ContainerAsync :=
  '(new_out, new_err) ← with_err (fun e => other (lit "failed to refresh log fds after restart: " ++ show_Error e))
                          (XpcClient.logs c.(id));
  note (EvStopLogs c.(log_stop)) ;;
  flag ← new_stop_flag;
  close_fds c.(log_source) ;;
  let source := Fd new_out new_err in
  spawn_consumers c.(log_consumers) source flag ;;
  mret (mkContainer c.(id) c.(request) c.(dropped) c.(wait_state) source flag c.(log_consumers)).

(** The handle afterwards, and the error of a refresh that failed. *)
Definition restart (c : ContainerAsync) : M (ContainerAsync * Result unit) :=
  state ← snapshot_of c;
  if state.(running) : bool then mret (c, Ok tt)
  else
    XpcClient.bootstrap_container c.(id) ;;
    XpcClient.start_process c.(id) ;;
    c ← reset_wait_state_and_respawn c;
    r ← attempt (refresh_log_streams c);
    match r with
    | Ok c => mret (c, Ok tt)
    | Err e => _ ← attempt (stop_with_timeout c (Some 0)); mret (c, Err e)
    end.

Definition start (fuel : nat) (c : ContainerAsync) : M (ContainerAsync * Result unit) :=
  '(c, r) ← restart c;
  match r with
  | Err e => mret (c, Err e)
  | Ok _ =>
      r ← attempt (state ← container_state c;
                   cmds ← lift (exec_after_start c.(request) state);
                   exec_all fuel c cmds);
      mret (c, r)
  end.

(** ** Copying out *)

Definition do_file (op : FileOp) : M unit :=
  perform (EvFile op) (fun tr => map_err Io (file_op tr op)).

(** [remove_copy_out_temp] *)
Definition remove_copy_out_temp (path : str) : M unit :=
  r ← attempt (do_file (RemoveFile path));
  match r with
  | Ok _ => mret tt
  | Err _ => _ ← attempt (do_file (RemoveDirAll path)); mret tt
  end.

(** The reading of the file that was copied out; [copy_from_reader] is given
    what a reader of it yields. *)
Definition read_copied {A} (path : str)
    (copy_from_reader : result IoError (list byte) -> result CopyFromContainerError A) : M A :=
  do_file (Metadata path) ;;
  directory ← peek (fun tr => is_dir tr path);
  if directory : bool then fail (Container.copy_from_error IsDirectory)
  else
    do_file (OpenFile path) ;;
    bytes ← perform (EvReadFile path) (fun tr => Ok (read_file tr path));
    lift (map_err Container.copy_from_error (copy_from_reader bytes)).

Definition copy_file_from {A} (c : ContainerAsync) (source : str)
    (copy_from_reader : result IoError (list byte) -> result CopyFromContainerError A) : M A :=
  suffix ← peek unique_suffix;
  let temp_path := path_join temp_dir (lit "container-rs-copy-out-" ++ c.(id) ++ lit "-" ++ suffix) in
  XpcClient.copy_out cwd c.(id) source temp_path ;;
  result ← attempt (read_copied temp_path copy_from_reader);
  remove_copy_out_temp temp_path ;;
  lift result.
End Handle.

(** ** What the handle's operations delete: nothing *)

#[export] Existing Instances XpcClient.wait_blocking_serves XpcClient.wait_blocking_timely
  XpcClient.stop_serves XpcClient.stop_timely XpcClient.copy_out_serves XpcClient.copy_out_timely
  XpcClient.logs_spares XpcClient.logs_timely XpcClient.container_state_serves
  XpcClient.container_state_timely XpcClient.exec_serves XpcClient.exec_timely
  XpcClient.bootstrap_container_serves XpcClient.bootstrap_container_timely
  XpcClient.start_process_serves XpcClient.start_process_timely Container.log_wait_loop_orderly
  Container.log_wait_loop_timely Container.http_wait_loop_orderly Container.http_wait_loop_timely.
#[export] Hint Opaque XpcClient.wait_blocking XpcClient.stop XpcClient.copy_in XpcClient.copy_out
  XpcClient.logs XpcClient.container_state XpcClient.network_address XpcClient.exec
  Container.log_wait_loop Container.http_wait_loop : typeclass_instances.

Section Harmless.
Context `{Host} `{JsonLib} `{JsonFormatter} `{HttpEncoder} `{Base64} `{XpcClient.ExecPipes}.
Context (parse_ip : str -> result str str) (is_ipv6 : str -> bool) (unique_suffix : Trace -> str).

#[export] Instance exit_code_spares c : Spares (exit_code is_ipv6 c).
Proof. unfold exit_code, snapshot_of. apply _. Qed.
#[export] Instance exit_code_timely c : Timely (exit_code is_ipv6 c).
Proof. unfold exit_code, snapshot_of. apply _. Qed.
#[export] Instance exit_wait_spares f c s : Spares (exit_wait is_ipv6 f c s).
Proof. induction f; cbn [exit_wait]; unfold stopped_verdict, snapshot_of; apply _. Qed.
#[export] Instance exit_wait_timely f c s : Timely (exit_wait is_ipv6 f c s).
Proof. induction f; cbn [exit_wait]; unfold stopped_verdict, snapshot_of; apply _. Qed.
#[export] Instance ports_spares c : Spares (ports is_ipv6 c).
Proof. unfold ports, XpcClient.ports. apply _. Qed.
#[export] Instance ports_timely c : Timely (ports is_ipv6 c).
Proof. unfold ports, XpcClient.ports. apply _. Qed.
#[export] Instance http_host_port_spares c p : Spares (http_host_port parse_ip is_ipv6 c p).
Proof. unfold http_host_port, get_host_port_ipv4, get_host_port_ipv6. cbv zeta. apply _. Qed.
#[export] Instance http_host_port_timely c p : Timely (http_host_port parse_ip is_ipv6 c p).
Proof. unfold http_host_port, get_host_port_ipv4, get_host_port_ipv6. cbv zeta. apply _. Qed.
#[export] Instance wait_until_ready_spares f c w : Spares (wait_until_ready parse_ip is_ipv6 f c w).
Proof. unfold wait_until_ready, log_wait, http_wait, health_wait. cbv zeta. apply _. Qed.
#[export] Instance wait_until_ready_timely f c w : Timely (wait_until_ready parse_ip is_ipv6 f c w).
Proof. unfold wait_until_ready, log_wait, http_wait, health_wait. cbv zeta. apply _. Qed.
#[export] Instance ready_within_spares f c d ws : Spares (ready_within parse_ip is_ipv6 f c d ws).
Proof. unfold ready_within, block_until_ready. apply _. Qed.
#[export] Instance ready_within_timely f c d ws : Timely (ready_within parse_ip is_ipv6 f c d ws).
Proof. unfold ready_within. apply _. Qed.
#[export] Instance exec_spares f c cmd : Spares (exec parse_ip is_ipv6 unique_suffix f c cmd).
Proof. unfold exec, Container.exec_completed. cbv zeta. apply _. Qed.
#[export] Instance exec_timely f c cmd : Timely (exec parse_ip is_ipv6 unique_suffix f c cmd).
Proof. unfold exec, Container.exec_completed. cbv zeta. apply _. Qed.
#[export] Instance exec_all_spares f c cmds : Spares (exec_all parse_ip is_ipv6 unique_suffix f c cmds).
Proof. unfold exec_all. apply _. Qed.
#[export] Instance exec_all_timely f c cmds : Timely (exec_all parse_ip is_ipv6 unique_suffix f c cmds).
Proof. unfold exec_all. apply _. Qed.
#[export] Instance handle_state_spares c : Spares (container_state parse_ip is_ipv6 c).
Proof. unfold container_state, snapshot_of. apply _. Qed.
#[export] Instance handle_state_timely c : Timely (container_state parse_ip is_ipv6 c).
Proof. unfold container_state, snapshot_of. apply _. Qed.
#[export] Instance stop_spares c t : Spares (stop_with_timeout c t).
Proof. unfold stop_with_timeout, stop_log_delivery. apply _. Qed.
#[export] Instance is_running_spares c : Spares (is_running is_ipv6 c).
Proof. unfold is_running, snapshot_of. apply _. Qed.
#[export] Instance restart_spares c : Spares (restart is_ipv6 c).
Proof.
  unfold restart, refresh_log_streams, reset_wait_state_and_respawn, spawn_consumers, new_stop_flag, close_fds,
    stop_with_timeout, stop_log_delivery, snapshot_of. apply _.
Qed.
#[export] Instance handle_start_spares f c : Spares (start parse_ip is_ipv6 unique_suffix f c).
Proof. unfold start. apply _. Qed.
#[export] Instance copy_file_from_spares {A} cwd temp c source f :
  Spares (copy_file_from (A := A) unique_suffix cwd temp c source f).
Proof. unfold copy_file_from, read_copied, remove_copy_out_temp, do_file. cbv zeta. apply _. Qed.
#[export] Instance new_spares id req ws source : Spares (new id req ws source).
Proof. unfold new, spawn_consumers, new_stop_flag. apply _. Qed.
#[export] Instance new_timely id req ws source : Timely (new id req ws source).
Proof. unfold new, spawn_consumers, new_stop_flag. apply _. Qed.
End Harmless.

(** ** The descriptors of a handle *)

(** The descriptors that closing [s] closes, what [evs] closes, and the
    descriptors the service gave in [evs], after [tr]. *)
Definition fds (s : ContainerLogSource) : list Z := match s with Fd out err => [out; err] | NoLogs => [] end.
Definition closes (ev : Event) : option Z := match ev with EvCloseFd fd => Some fd | _ => None end.
Definition closed (evs : Trace) : list Z := omap closes evs.
Definition gives `{Host} `{JsonLib} (tr : Trace) (ev : Event) : list Z :=
  match ev with
  | EvXpc m => if bool_decide (m.(xpc_route) = lit "containerLogs") then
                 match reply_of (xpc tr m) with
                 | Ok reply => List.filter (fun fd => 0 <=? fd) (log_fds reply)
                 | Err _ => []
                 end
               else []
  | _ => []
  end.
Fixpoint given `{Host} `{JsonLib} (tr evs : Trace) : list Z :=
  match evs with
  | [] => []
  | ev :: evs => gives tr ev ++ given (tr ++ [ev]) evs
  end.

(** What [evs], of a restart whose caller was dropped, left open for ever: the descriptors
    that were given to the thread it waited for, unless that thread refused and closed them. *)
Definition lost `{Host} `{JsonLib} (tr evs : Trace) : list Z :=
  if bool_decide (closed evs = []) then given tr evs else [].

(** An event that neither closes a descriptor nor gives one. *)
Definition plain (ev : Event) : bool :=
  match ev with
  | EvCloseFd _ => false
  | EvXpc m => negb (bool_decide (m.(xpc_route) = lit "containerLogs"))
  | _ => true
  end.

#[export] Instance serves_plain {A} (m : M A) : Serves m -> Emits plain m.
Proof.
  intros Hm. apply (serves_emits _ _ Hm). intros [] E; try done. by apply andb_true_iff in E as [_ E].
Qed.

Section Descriptors.
Context `{Host} `{JsonLib} `{JsonFormatter}.
Context (env : Environment) (is_ipv6 : str -> bool).

Lemma given_app tr evs evs' : given tr (evs ++ evs') = given tr evs ++ given (tr ++ evs) evs'.
Proof.
  revert tr. induction evs as [|ev evs IH]; intros tr; cbn [given app]; [by rewrite app_nil_r|].
  rewrite IH, <- (app_assoc tr [ev] evs). by rewrite app_assoc.
Qed.
Lemma closed_app evs evs' : closed (evs ++ evs') = closed evs ++ closed evs'.
Proof. apply omap_app. Qed.

Lemma plain_events tr evs :
  Forall (fun ev => plain ev = true) evs -> closed evs = [] /\ given tr evs = [].
Proof.
  intros Hp. revert tr. induction Hp as [|ev evs Hev _ IH]; intros tr; [done|].
  destruct (IH (tr ++ [ev])) as [Hc Hg]. cbn [given]. rewrite Hg, app_nil_r.
  unfold closed in *. cbn [omap list_omap]. rewrite Hc.
  destruct ev; try done. cbn in *. apply negb_true_iff in Hev. by rewrite Hev.
Qed.

(** From [held] at [tr] to [held'] after [evs], every descriptor held before or
    given in between was closed or is still held. *)
Definition balanced (tr : Trace) (held : list Z) (evs : Trace) (held' : list Z) : Prop :=
  closed evs ++ held' ≡ₚ held ++ given tr evs.

#[local] Instance balanced_perm tr : Proper ((≡ₚ) ==> (=) ==> (≡ₚ) ==> iff) (balanced tr).
Proof. intros h1 h2 Eh evs ? <- h1' h2' Eh'. unfold balanced. by rewrite Eh, Eh'. Qed.

Lemma balanced_plain tr held evs : Forall (fun ev => plain ev = true) evs -> balanced tr held evs held.
Proof. intros [Hc Hg]%(plain_events tr). unfold balanced. by rewrite Hc, Hg, app_nil_r. Qed.

Lemma balanced_quiet tr evs : closed evs = [] -> given tr evs = [] -> balanced tr [] evs [].
Proof. unfold balanced. by intros -> ->. Qed.

Lemma balanced_app tr held evs held' evs' held'' :
  balanced tr held evs held' -> balanced (tr ++ evs) held' evs' held'' -> balanced tr held (evs ++ evs') held''.
Proof.
  unfold balanced. intros Hb Hb'. rewrite closed_app, given_app, <- app_assoc, Hb', !app_assoc. by rewrite Hb.
Qed.

Lemma balanced_frame tr held evs held' extra :
  balanced tr held evs held' -> balanced tr (extra ++ held) evs (extra ++ held').
Proof.
  unfold balanced. intros Hb. rewrite <- app_assoc, <- Hb, !app_assoc. by rewrite (Permutation_app_comm extra).
Qed.

Lemma balanced_close tr held : balanced tr held (EvCloseFd <$> held) [].
Proof.
  unfold balanced. rewrite app_nil_r. assert (closed (EvCloseFd <$> held) = held) as ->.
  { induction held as [|fd held IH]; [done|]. cbn. by f_equal. }
  assert (given tr (EvCloseFd <$> held) = []) as ->; [|by rewrite app_nil_r].
  revert tr. by induction held as [|fd held IH]; intros tr; [|apply IH].
Qed.

Lemma emits_plain {A} (m : M A) `{!Emits plain m} held sc tr o tr' :
  m sc tr = (o, tr') -> exists evs, tr' = tr ++ evs /\ balanced tr held evs held.
Proof.
  intros E. destruct (emits (P := plain) (m := m) sc tr) as (evs & E' & Hp). rewrite E in E'.
  exists evs. split; [done|]. by apply balanced_plain.
Qed.

Lemma close_valid_fds_eq l sc tr :
  XpcClient.close_valid_fds l sc tr =
    (Done (Ok tt), tr ++ (EvCloseFd <$> List.filter (fun fd => 0 <=? fd) l)).
Proof.
  unfold XpcClient.close_valid_fds. revert tr. induction l as [|fd l IH]; intros tr; cbn.
  - by rewrite app_nil_r.
  - unfold mbind, M_bind. destruct (0 <=? fd); cbn.
    + rewrite IH. by rewrite <- app_assoc.
    + apply IH.
Qed.

Lemma close_fds_eq s sc tr : close_fds s sc tr = (Done (Ok tt), tr ++ (EvCloseFd <$> fds s)).
Proof.
  destruct s; cbn; [by rewrite app_nil_r|]. unfold mbind, M_bind, note. by rewrite <- app_assoc.
Qed.
Lemma given_logs tr m reply closes :
  m.(xpc_route) = lit "containerLogs" -> reply_of (xpc (tr ++ [EvConnect SERVICE_NAME]) m) = Ok reply ->
  given tr ([EvConnect SERVICE_NAME; EvXpc m] ++ (EvCloseFd <$> closes)) =
    List.filter (fun fd => 0 <=? fd) (log_fds reply).
Proof.
  intros Hr Hm. rewrite given_app. cbn [given gives]. rewrite Hr, bool_decide_eq_true_2, Hm by done.
  cbn [app]. rewrite app_nil_r.
  assert (forall t, given t (EvCloseFd <$> closes) = []) as ->; [|by rewrite app_nil_r].
  clear. induction closes as [|fd closes IH]; intros t; [done | apply IH].
Qed.

Lemma closed_logs m closes :
  closed ([EvConnect SERVICE_NAME; EvXpc m] ++ (EvCloseFd <$> closes)) = closes.
Proof. rewrite closed_app. cbn. induction closes as [|fd closes IH]; [done|]. cbn. by f_equal. Qed.

(** The descriptors of a reply that is refused are closed on the spot. *)
Lemma logs_run id tr : exists r evs, XpcClient.logs id None tr = (Done r, tr ++ evs) /\
  match r with
  | Ok (a, b) => closed evs = [] /\ given tr evs = [a; b]
  | Err _ => balanced tr [] evs []
  end.
Proof.
  unfold XpcClient.logs, call. rewrite spawn_blocking_None.
  unfold mbind at 1, M_bind at 1, connect, invoke at 1.
  destruct (xpc_connect tr SERVICE_NAME); [|eexists (Err _), [_]; split; [done | by apply balanced_quiet]].
  unfold send, send_with_timeout. unfold mbind at 1, M_bind at 1.
  change (contains x00 (lit "containerLogs")) with false. cbv iota.
  destruct (existsb has_nul _); [eexists (Err _), [_]; split; [done | by apply balanced_quiet]|]. unfold invoke.
  set (m := mkXpcMessage _ _ _ _).
  destruct (reply_of _) as [reply|e] eqn:Er.
  - assert (forall e' : Error, exists (r : Result (Z * Z)) evs, (XpcClient.close_valid_fds (log_fds reply) ;; fail e') None
      ((tr ++ [EvConnect SERVICE_NAME]) ++ [EvXpc m]) = (Done r, tr ++ evs) /\
      match r with Ok (a, b) => closed evs = [] /\ given tr evs = [a; b] | Err _ => balanced tr [] evs [] end) as Hc.
    { intros e'. unfold mbind, M_bind. rewrite close_valid_fds_eq. cbn. rewrite <- !app_assoc.
      eexists (Err _), _. split; [done|]. unfold balanced. cbn [app].
      pose proof (given_logs tr m reply) as Hg. cbn [app] in Hg. rewrite Hg by done.
      pose proof (closed_logs m) as Hm. cbn [app] in Hm. by rewrite Hm, app_nil_r. }
    destruct (log_fds reply) as [|a [|b [|]]] eqn:El; [apply Hc..| |apply Hc].
    destruct (Z.ltb_spec a 0), (Z.ltb_spec b 0); cbn [orb]; [apply Hc..|].
    eexists (Ok _), _. rewrite <- app_assoc. split; [done|]. split; [done|].
    pose proof (given_logs tr m reply []) as Hg. cbn [app fmap list_fmap] in Hg.
    cbn [app]. rewrite Hg, El by done. cbn.
    by rewrite (proj2 (Z.leb_le 0 a)), (proj2 (Z.leb_le 0 b)) by done.
  - eexists (Err _), _. rewrite <- app_assoc. split; [done|]. apply balanced_quiet; [done|].
    cbn [app given gives]. by rewrite bool_decide_eq_true_2, Er by done.
Qed.

(** What is kept from a reply that nobody waits for any more: the descriptors of a reply
    in order, which no one closes. *)
Definition pair_or_none (l : list Z) : Prop := l = [] \/ exists out err, l = [out; err].
Definition abandoned (tr : Trace) (held : list Z) (evs : Trace) : Prop :=
  balanced tr held evs (lost tr evs ++ held) /\ pair_or_none (lost tr evs).

Lemma abandoned_even tr held evs : balanced tr held evs held -> abandoned tr held evs.
Proof.
  intros Hb. assert (lost tr evs = []) as Hl; [|by split; [rewrite Hl|left]].
  unfold balanced, lost in *. case_bool_decide as Hc; [|done]. rewrite Hc in Hb. cbn [app] in Hb.
  rewrite <- (app_nil_r held) in Hb at 1. by apply (inj _), symmetry, Permutation_nil_r in Hb.
Qed.
Lemma lost_after tr evs evs' : Forall (fun ev => plain ev = true) evs ->
  lost tr (evs ++ evs') = lost (tr ++ evs) evs'.
Proof. intros [Hc Hg]%(plain_events tr). unfold lost. by rewrite closed_app, given_app, Hc, Hg. Qed.

Lemma logs_balanced id sc tr : exists o evs, XpcClient.logs id sc tr = (o, tr ++ evs) /\
  match o with
  | Done (Ok (a, b)) => balanced tr [] evs [a; b]
  | Done (Err _) => balanced tr [] evs []
  | Cancelled => abandoned tr [] evs
  | OutOfFuel => False
  end.
Proof.
  destruct (logs_run id tr) as (r & evs & E & Hr).
  destruct (spawn_blocking_cases _ sc tr _ _ E) as [Es|[[_ Es]|[_ Es]]].
  - exists (Done r), evs. split; [exact Es|]. destruct r as [[a b]|e]; [|done].
    destruct Hr as [Hc Hg]. unfold balanced. by rewrite Hc, Hg.
  - exists Cancelled, []. rewrite app_nil_r. split; [exact Es|]. by apply abandoned_even, balanced_plain.
  - exists Cancelled, evs. split; [exact Es|]. destruct r as [[a b]|e]; [|by apply abandoned_even].
    destruct Hr as [Hc Hg]. unfold abandoned, balanced, lost. rewrite Hc, Hg, bool_decide_eq_true_2 by done.
    split; [done|]. right. by exists a, b.
Qed.
Lemma mac_spawn_consumers_eq consumers source flag sc tr : exists evs,
  spawn_consumers consumers source flag sc tr = (Done (Ok tt), tr ++ evs) /\
  Forall (fun ev => plain ev = true) evs.
Proof.
  unfold spawn_consumers. destruct consumers, source; cbn;
    first [by exists []; rewrite app_nil_r | by exists [EvConsumers flag]; repeat constructor].
Qed.

(** A program over a handle that held [held] accounts for the descriptors: they are those of
    the handle that [g] finds in its result, or as before, with what a dropped caller left
    open. *)
Definition accounted {A} (g : A -> ContainerAsync) (tr : Trace) (held : list Z) (evs : Trace) (o : Out A) : Prop :=
  match o with
  | Done (Ok a) => balanced tr held evs (fds (g a).(log_source))
  | Cancelled => abandoned tr held evs
  | _ => balanced tr held evs held
  end.
Definition accounts {A} (m : M A) (held : list Z) (g : A -> ContainerAsync) : Prop := forall sc tr, exists o evs,
  m sc tr = (o, tr ++ evs) /\ accounted g tr held evs o.

(** Events that leave the descriptors as they were, before a program and as a whole. *)
Lemma accounted_even {A} g tr held evs (o : Out A) : balanced tr held evs held ->
  (forall a, o = Done (Ok a) -> fds (g a).(log_source) = held) -> accounted g tr held evs o.
Proof.
  intros Hb Hg. destruct o as [[a|e]| |]; cbn; [by rewrite (Hg a)|done|by apply abandoned_even|done].
Qed.
Lemma accounted_after {A} g tr held evs evs' (o : Out A) : Forall (fun ev => plain ev = true) evs ->
  accounted g (tr ++ evs) held evs' o -> accounted g tr held (evs ++ evs') o.
Proof.
  intros Hp. pose proof (balanced_plain tr held evs Hp) as Hb.
  destruct o as [[a|e]| |]; cbn; [by apply balanced_app|by apply balanced_app| |by apply balanced_app].
  unfold abandoned. rewrite lost_after by done. intros [Hb' Hl]. split; [by eapply balanced_app | done].
Qed.

Lemma refresh_accounts c : accounts (refresh_log_streams c) (fds c.(log_source)) (fun c' => c').
Proof.
  intros sc tr. unfold refresh_log_streams. destruct (logs_balanced c.(id) sc tr) as (o & evs & E & Hb).
  assert (forall l, balanced tr [] evs l -> balanced tr (fds c.(log_source)) evs (l ++ fds c.(log_source))) as Hf.
  { intros l Hl. rewrite (Permutation_app_comm l). rewrite <- (app_nil_r (fds _)) at 1. by apply balanced_frame. }
  unfold mbind at 1, M_bind at 1, with_err. rewrite E.
  destruct o as [[[new_out new_err]|e]| |]; [|eexists _, evs; split; [done|]..|done].
  - cbn [map_err]. unfold new_stop_flag, mbind, M_bind, note, peek. cbv beta iota zeta. rewrite close_fds_eq.
    destruct (mac_spawn_consumers_eq c.(log_consumers) (Fd new_out new_err)
      (length ((tr ++ evs) ++ [EvStopLogs (log_stop c)])) sc
      (((tr ++ evs) ++ [EvStopLogs (log_stop c)]) ++ (EvCloseFd <$> fds (log_source c)))) as (more & -> & Hm).
    eexists _, (evs ++ [EvStopLogs c.(log_stop)] ++ (EvCloseFd <$> fds c.(log_source)) ++ more).
    split; [by rewrite <- !app_assoc|]. cbn [accounted log_source fds].
    apply balanced_app with (held' := [new_out; new_err] ++ fds c.(log_source)); [by apply Hf|].
    apply balanced_app with (held' := [new_out; new_err] ++ fds c.(log_source)).
    { by apply balanced_plain; repeat constructor. }
    apply balanced_app with (held' := [new_out; new_err]); [|by apply balanced_plain].
    rewrite <- (app_nil_r [new_out; new_err]) at 2. apply balanced_frame, balanced_close.
  - by apply (Hf []).
  - destruct Hb as [Hb Hl]. rewrite app_nil_r in Hb. by split; [apply Hf|].
Qed.

Lemma accounts_ret {A} (a : A) held g : held = fds (g a).(log_source) -> accounts (mret a) held g.
Proof. intros -> sc tr. eexists _, []. rewrite app_nil_r. split; [done | by apply balanced_plain]. Qed.

(** A program that does nothing to descriptors, and what follows it. *)
Lemma accounts_plain {A} (m : M A) held g `{!Emits plain m} :
  (forall sc tr a tr', m sc tr = (Done (Ok a), tr') -> fds (g a).(log_source) = held) -> accounts m held g.
Proof.
  intros Hg sc tr. destruct (emits (P := plain) (m := m) sc tr) as (evs & E & Hp). specialize (Hg sc tr).
  destruct (m sc tr) as [o tr1]. cbn in E. subst tr1. exists o, evs. split; [done|].
  apply accounted_even; [by apply balanced_plain|]. intros a ->. by apply (Hg a _ eq_refl).
Qed.
Lemma accounts_bind {A B} (m : M A) `{!Emits plain m} (f : A -> M B) held g :
  (forall a, accounts (f a) held g) -> accounts (m ≫= f) held g.
Proof.
  intros Hf sc tr. unfold mbind, M_bind. destruct (emits (P := plain) (m := m) sc tr) as (evs & E & Hp).
  destruct (m sc tr) as [[[a|e]| |] tr1]; cbn in E; subst tr1;
    [|by eexists _, evs; split; [done | apply accounted_even; [by apply balanced_plain|]]..].
  destruct (Hf a sc (tr ++ evs)) as (o & evs' & -> & Hb'). exists o, (evs ++ evs').
  rewrite app_assoc. split; [done|]. by apply accounted_after.
Qed.

Lemma accounts_step {A B} (m : M A) (f : A -> M B) a evs held g :
  (forall sc tr, m sc tr = (Done (Ok a), tr ++ evs)) -> Forall (fun ev => plain ev = true) evs ->
  accounts (f a) held g -> accounts (m ≫= f) held g.
Proof.
  intros Hm Hp Hf sc tr. rewrite (bind_step _ _ _ _ _ _ (Hm sc tr)).
  destruct (Hf sc (tr ++ evs)) as (o & evs' & -> & Hb). exists o, (evs ++ evs'). rewrite app_assoc.
  split; [done|]. by apply accounted_after.
Qed.

(** A refresh, and what follows when it fails, which does nothing to descriptors. *)
Lemma refresh_then_accounts c (f : Result ContainerAsync -> M (ContainerAsync * Result unit)) :
  (forall c', f (Ok c') = mret (c', Ok tt)) ->
  (forall e, Emits plain (f (Err e))) ->
  (forall e sc tr a tr', f (Err e) sc tr = (Done (Ok a), tr') -> fds a.1.(log_source) = fds c.(log_source)) ->
  accounts (attempt (refresh_log_streams c) ≫= f) (fds c.(log_source)) fst.
Proof.
  intros Hok Herr Hsame sc tr. destruct (refresh_accounts c sc tr) as (o & evs & E & Hb).
  destruct o as [[c'|e]| |].
  - rewrite (bind_step _ _ _ _ _ _ (attempt_run _ _ _ _ _ E)), Hok. by eexists _, evs.
  - rewrite (bind_step _ _ _ _ _ _ (attempt_run _ _ _ _ _ E)). specialize (Hsame e sc (tr ++ evs)).
    destruct (emits (P := plain) (m := f (Err e)) sc (tr ++ evs)) as (evs' & E' & Hp).
    destruct (f (Err e) sc (tr ++ evs)) as [o tr1]. cbn in E'. subst tr1. exists o, (evs ++ evs').
    rewrite app_assoc. split; [done|]. apply accounted_even.
    + eapply balanced_app; [exact Hb | by apply balanced_plain].
    + intros a ->. by apply (Hsame a _ eq_refl).
  - unfold mbind, M_bind, attempt. rewrite E. by eexists _, evs.
  - unfold mbind, M_bind, attempt. rewrite E. by eexists _, evs.
Qed.

Lemma restart_accounts c : accounts (restart is_ipv6 c) (fds c.(log_source)) fst.
Proof.
  unfold restart, snapshot_of. apply accounts_bind; [apply _|]. intros state.
  destruct (running state); [by apply accounts_ret|].
  apply accounts_bind; [apply _|]. intros _. apply accounts_bind; [apply _|]. intros _.
  unfold reset_wait_state_and_respawn. destruct (WaitState.bump (wait_state c)) as [g ws].
  set (c1 := mkContainer _ _ _ _ _ _ _). eapply accounts_step with (evs := [EvWaiter g]); [by intros sc tr | by repeat constructor|].
  change (log_source c) with (log_source c1). apply refresh_then_accounts; [done|unfold stop_with_timeout, stop_log_delivery; apply _|].
  intros e sc tr a tr' E. apply bind_ok in E as (? & ? & _ & E). by apply mret_ok in E as [<- _].
Qed.

Lemma drop_accounts c sc tr : exists evs, (drop env c sc tr).2 = tr ++ evs /\
  balanced tr (fds c.(log_source)) evs [].
Proof.
  unfold drop, stop_log_delivery. unfold mbind, M_bind at 1, note. unfold M_bind. rewrite close_fds_eq.
  assert (Emits plain (drop_remove env c)) as He.
  { unfold drop_remove, XpcClient.remove_blocking, XpcClient.ignore_not_found. apply _. }
  destruct (He sc ((tr ++ [EvStopLogs c.(log_stop)]) ++ (EvCloseFd <$> fds c.(log_source)))) as (evs & -> & Hp).
  exists ([EvStopLogs c.(log_stop)] ++ (EvCloseFd <$> fds c.(log_source)) ++ evs). rewrite <- !app_assoc.
  split; [done|]. eapply balanced_app; [apply balanced_plain; repeat constructor|].
  eapply balanced_app; [apply balanced_close | by apply balanced_plain].
Qed.
Lemma remove_run id tr : exists r evs, XpcClient.remove id true None tr = (Done r, tr ++ evs) /\
  Forall (fun ev => plain ev = true) evs.
Proof.
  assert (Emits plain (XpcClient.remove id true)) as He.
  { unfold XpcClient.remove, XpcClient.remove_blocking, XpcClient.ignore_not_found. apply _. }
  assert (exists r, (XpcClient.remove id true None tr).1 = Done r) as [r Hr].
  { unfold XpcClient.remove. rewrite spawn_blocking_None. unfold XpcClient.remove_blocking, connect.
    unfold mbind at 1, M_bind at 1, invoke at 1.
    destruct (xpc_connect tr SERVICE_NAME); [|by eexists].
    unfold XpcClient.ignore_not_found, send, send_with_timeout. unfold mbind, M_bind, attempt.
    change (contains x00 (lit "containerDelete")) with false.
    destruct (existsb has_nul _); cbn; [by eexists|].
    destruct (reply_of _) as [?|e]; cbn; [by eexists|]. by destruct (XpcClient.is_not_found_error e); eexists. }
  destruct (He None tr) as (evs & E & Hp). exists r, evs. split; [|done]. by rewrite <- Hr, <- E, <- surjective_pairing.
Qed.
Lemma remove_ends id sc tr : exists o evs, XpcClient.remove id true sc tr = (o, tr ++ evs) /\ o <> OutOfFuel /\
  Forall (fun ev => plain ev = true) evs.
Proof.
  destruct (remove_run id tr) as (r & evs & E & Hp).
  destruct (spawn_blocking_cases _ sc tr _ _ E) as [Es|[[_ Es]|[_ Es]]].
  - exists (Done r), evs. split; [exact Es|]. by split.
  - exists Cancelled, []. rewrite app_nil_r. split; [exact Es|]. by split; [|constructor].
  - exists Cancelled, evs. split; [exact Es|]. by split.
Qed.

Lemma rm_accounts c sc tr : exists evs, (rm env c sc tr).2 = tr ++ evs /\ balanced tr (fds c.(log_source)) evs [].
Proof.
  unfold rm, rm_with, stop_log_delivery. unfold mbind at 1, M_bind at 1, note.
  destruct (remove_ends c.(id) sc (tr ++ [EvStopLogs c.(log_stop)])) as (o & evs & E & Ho & Hp).
  assert (forall c' sc', log_source c' = log_source c -> exists evs',
    (drop env c' sc' ((tr ++ [EvStopLogs (log_stop c)]) ++ evs)).2 = tr ++ evs' /\
    balanced tr (fds (log_source c)) evs' []) as Hd.
  { intros c' sc' Hc. destruct (drop_accounts c' sc' ((tr ++ [EvStopLogs (log_stop c)]) ++ evs)) as (evs' & E' & Hb).
    rewrite Hc in Hb. exists ([EvStopLogs (log_stop c)] ++ evs ++ evs'). rewrite E', <- !app_assoc.
    split; [done|]. eapply balanced_app; [apply balanced_plain; by repeat constructor|].
    eapply balanced_app; [by apply balanced_plain|]. by rewrite <- !app_assoc in Hb |- *. }
  unfold mbind, M_bind, dropping, attempt. rewrite E. destruct o as [[[]|e]| |]; [by apply Hd| |by apply Hd|done].
  destruct (Hd c sc eq_refl) as (evs' & E' & Hb). exists evs'. split; [|done]. rewrite <- E'.
  by destruct (drop env c sc _) as [[[[]|]| |] ?].
Qed.

(** Outside a scope the two removals do the same. *)
Lemma mac_rm_blocking_rm c tr : rm_blocking env c None tr = rm env c None tr.
Proof.
  unfold rm_blocking, rm, rm_with, stop_log_delivery. unfold mbind, M_bind, note, dropping, attempt.
  unfold XpcClient.remove, blocking. by rewrite spawn_blocking_None.
Qed.

(** The life of a handle that began as [c0] at [tr0]: what else the process does, and
    restarts, one after the other, whatever they come to; [left_open] are the descriptors
    that restarts left open whose callers were dropped.  Such a restart may have moved the
    handle to its next run, but not to other descriptors. *)
Inductive lived (c0 : ContainerAsync) (tr0 : Trace) : ContainerAsync -> Trace -> list Z -> Prop :=
| lived_began : lived c0 tr0 c0 [] []
| lived_elsewhere c evs left_open more :
    lived c0 tr0 c evs left_open -> Forall (fun ev => plain ev = true) more ->
    lived c0 tr0 c (evs ++ more) left_open
| lived_restart c evs left_open sc c' r evs' :
    lived c0 tr0 c evs left_open -> restart is_ipv6 c sc (tr0 ++ evs) = (Done (Ok (c', r)), tr0 ++ evs') ->
    lived c0 tr0 c' evs' left_open
| lived_failed c evs left_open sc e evs' :
    lived c0 tr0 c evs left_open -> restart is_ipv6 c sc (tr0 ++ evs) = (Done (Err e), tr0 ++ evs') ->
    lived c0 tr0 c evs' left_open
| lived_cancelled c evs left_open sc more c' :
    lived c0 tr0 c evs left_open -> restart is_ipv6 c sc (tr0 ++ evs) = (Cancelled, (tr0 ++ evs) ++ more) ->
    c'.(id) = c.(id) -> c'.(log_source) = c.(log_source) ->
    lived c0 tr0 c' (evs ++ more) (left_open ++ lost (tr0 ++ evs) more).

Lemma restart_accounted c sc tr o evs : restart is_ipv6 c sc tr = (o, tr ++ evs) ->
  accounted fst tr (fds c.(log_source)) evs o.
Proof.
  destruct (restart_accounts c sc tr) as (o' & evs' & -> & Hb). by intros [= <- <-%app_inv_head].
Qed.

Lemma lived_balanced c0 tr0 c evs left_open : lived c0 tr0 c evs left_open ->
  balanced tr0 (fds c0.(log_source)) evs (left_open ++ fds c.(log_source)).
Proof.
  assert (forall c sc evs o evs', restart is_ipv6 c sc (tr0 ++ evs) = (o, tr0 ++ evs') ->
    exists more, evs' = evs ++ more /\ restart is_ipv6 c sc (tr0 ++ evs) = (o, (tr0 ++ evs) ++ more)) as Hm.
  { intros c1 sc evs1 o evs' E. destruct (restart_accounts c1 sc (tr0 ++ evs1)) as (o' & more & E' & _).
    exists more. rewrite E in E'. injection E' as <- Et. rewrite <- app_assoc in Et.
    apply app_inv_head in Et as ->. split; [done|]. by rewrite E, app_assoc. }
  induction 1 as [|c evs gone more _ IH Hp|c evs gone sc c' r evs' _ IH E|c evs gone sc e evs' _ IH E
                 |c evs gone sc more c' _ IH E _ Hs].
  - by apply balanced_plain.
  - by eapply balanced_app; [|apply balanced_plain].
  - apply Hm in E as (more & -> & E%restart_accounted). eapply balanced_app; [exact IH|]. by apply balanced_frame.
  - apply Hm in E as (more & -> & E%restart_accounted). eapply balanced_app; [exact IH|]. by apply balanced_frame.
  - apply restart_accounted in E as [Hb _]. eapply balanced_app; [exact IH|]. rewrite Hs, <- app_assoc.
    by apply balanced_frame.
Qed.

(** A restart whose caller was dropped left nothing open, or the two descriptors that the
    logs it asked for are read from. *)
Lemma restart_lost c sc tr evs : restart is_ipv6 c sc tr = (Cancelled, tr ++ evs) ->
  pair_or_none (lost tr evs).
Proof. by intros [_ ?]%restart_accounted. Qed.
End Descriptors.

(** C8: Who closes the log descriptors of a handle, on macOS.  However a handle lived (any
    number of restarts, each with any outcome, against any service), when it is dropped or
    removed the descriptors that were closed since it began, with those [left_open], are
    exactly those it began with and those the service gave since, each once.  Nobody closes
    the ones left open: they came to a restart whose caller was dropped while it asked for
    the logs. *)
Theorem descriptors_closed `{Host} `{JsonLib} `{JsonFormatter} env is_ipv6 c0 tr0 c evs left_open sc :
  lived is_ipv6 c0 tr0 c evs left_open ->
  (exists evs', (drop env c sc (tr0 ++ evs)).2 = tr0 ++ evs' /\
     closed evs' ++ left_open ≡ₚ fds c0.(log_source) ++ given tr0 evs') /\
  (exists evs', (rm env c sc (tr0 ++ evs)).2 = tr0 ++ evs' /\
     closed evs' ++ left_open ≡ₚ fds c0.(log_source) ++ given tr0 evs').
Proof.
  intros Hl%lived_balanced.
  assert (forall more, balanced (tr0 ++ evs) (fds c.(log_source)) more [] ->
    closed (evs ++ more) ++ left_open ≡ₚ fds c0.(log_source) ++ given tr0 (evs ++ more)) as Hb.
  { intros more Hm%(balanced_frame _ _ _ _ left_open). rewrite app_nil_r in Hm. by apply (balanced_app _ _ _ _ _ _ Hl). }
  split.
  - destruct (drop_accounts env c sc (tr0 ++ evs)) as (more & -> & Hm). exists (evs ++ more).
    rewrite app_assoc. auto.
  - destruct (rm_accounts env c sc (tr0 ++ evs)) as (more & -> & Hm). exists (evs ++ more).
    rewrite app_assoc. auto.
Qed.

(** ** Removal *)

Section Removal.
Context `{Host} `{JsonLib} (env : Environment).

(** What a drop does before it removes the container. *)
Definition shutdown (c : ContainerAsync) : Trace := EvStopLogs c.(log_stop) :: (EvCloseFd <$> fds c.(log_source)).
Definition drop_removal (tr : Trace) (c : ContainerAsync) : Trace :=
  if c.(dropped) then []
  else match command env with Remove => XpcClient.removal_events tr c.(id) | Keep => [] end.

Lemma mac_drop_eq c sc tr : contains x00 c.(id) = false ->
  drop env c sc tr = (Done (Ok tt), tr ++ shutdown c ++ drop_removal (tr ++ shutdown c) c).
Proof.
  intros Hid. unfold drop, stop_log_delivery. unfold mbind, M_bind at 1, note. unfold M_bind.
  rewrite close_fds_eq, <- app_assoc. change ([EvStopLogs (log_stop c)] ++ _) with (shutdown c).
  unfold drop_remove, drop_removal. destruct (dropped c); [by rewrite app_nil_r|].
  destruct (command env); [|by rewrite app_nil_r]. unfold mbind, M_bind, attempt, blocking.
  by rewrite XpcClient.remove_blocking_eq, <- app_assoc by done.
Qed.

Lemma rm_eq c tr (stopped := tr ++ [EvStopLogs c.(log_stop)])
    (removed := stopped ++ XpcClient.removal_events stopped c.(id)) :
  contains x00 c.(id) = false ->
  rm env c None tr =
    (Done (XpcClient.removal_answer stopped c.(id)),
     removed ++ shutdown c ++
       match XpcClient.removal_answer stopped c.(id) with
       | Ok _ => []
       | Err _ => drop_removal (removed ++ shutdown c) c
       end).
Proof.
  intros Hid. unfold rm, rm_with. rewrite (bind_step _ _ _ _ _ _ (eq_refl (stop_log_delivery c None tr))).
  fold stopped. pose proof (attempt_run _ _ _ _ _ (XpcClient.remove_eq c.(id) stopped Hid)) as Ea.
  rewrite (bind_step _ _ _ _ _ _ (proj2 (dropping_done (drop env c) _ _ _ _ _) Ea)).
  fold removed. destruct (XpcClient.removal_answer stopped c.(id)) as [[]|e].
  - rewrite mac_drop_eq by done. done.
  - unfold mbind, M_bind. rewrite mac_drop_eq by done. done.
Qed.
End Removal.

(** ** Copying out *)

(** A copy out of a container, on macOS: the temporary path is removed
    however the reading of it ends, as a directory when it cannot be removed as
    a file; a directory is refused, unopened; and the result is what the reader
    made of the file.  Only a copy the service refused leaves the path alone. *)
Theorem copy_file_from_cleans `{Host} `{JsonLib} {A} unique_suffix cwd temp_dir (c : ContainerAsync) source
    (reader : result IoError (list byte) -> result CopyFromContainerError A) tr
    (path := path_join temp_dir (lit "container-rs-copy-out-" ++ c.(id) ++ lit "-" ++ unique_suffix tr)) :
  match XpcClient.copy_out cwd c.(id) source path None tr with
  | (Done (Ok _), copied) => exists r reads, 
      copy_file_from unique_suffix cwd temp_dir c source reader None tr =
        (Done r, (copied ++ reads) ++ EvFile (RemoveFile path) ::
           match file_op (copied ++ reads) (RemoveFile path) with
           | Ok _ => []
           | Err _ => [EvFile (RemoveDirAll path)]
           end) /\
      reads `prefix_of` [EvFile (Metadata path); EvFile (OpenFile path); EvReadFile path] /\
      (is_dir (copied ++ [EvFile (Metadata path)]) path = true -> is_ok r = false /\ EvFile (OpenFile path) ∉ reads) /\
      (forall a, r = Ok a -> reader (read_file (copied ++ [EvFile (Metadata path); EvFile (OpenFile path)]) path) = Ok a)
  | (Done (Err e), failed) => copy_file_from unique_suffix cwd temp_dir c source reader None tr = (Done (Err e), failed)
  | _ => True
  end.
Proof.
  destruct (XpcClient.copy_out cwd c.(id) source path None tr) as [[[[]|e]| |] copied] eqn:E; [| |done..].
  2:{ unfold copy_file_from. unfold mbind at 1, M_bind at 1, peek. cbv zeta. fold path. by apply bind_stop. }
  assert (forall reads, (forall r, read_copied path reader None copied = (Done r, copied ++ reads) ->
    copy_file_from unique_suffix cwd temp_dir c source reader None tr =
      (Done r, (copied ++ reads) ++ EvFile (RemoveFile path) ::
         match file_op (copied ++ reads) (RemoveFile path) with
         | Ok _ => []
         | Err _ => [EvFile (RemoveDirAll path)]
         end))) as Hc.
  { intros reads r Hr. unfold copy_file_from. unfold mbind at 1, M_bind at 1, peek. cbv zeta. fold path.
    rewrite (bind_step _ _ _ _ _ _ E), (bind_step _ _ _ _ _ _ (attempt_run _ _ _ _ _ Hr)).
    unfold remove_copy_out_temp, do_file, mbind, M_bind, attempt, perform, lift. cbn [cut overtaken expired orb andb].
    destruct (file_op (copied ++ reads) (RemoveFile path)); cbn [cut overtaken expired orb andb map_err]; [done|].
    by rewrite <- (app_assoc _ [EvFile (RemoveFile path)]). }
  assert (exists r reads, read_copied path reader None copied = (Done r, copied ++ reads) /\
      reads `prefix_of` [EvFile (Metadata path); EvFile (OpenFile path); EvReadFile path] /\
      (is_dir (copied ++ [EvFile (Metadata path)]) path = true -> is_ok r = false /\ EvFile (OpenFile path) ∉ reads) /\
      (forall a, r = Ok a -> reader (read_file (copied ++ [EvFile (Metadata path); EvFile (OpenFile path)]) path) = Ok a))
    as (r & reads & Hr & Hrest); [|by exists r, reads; split; [apply Hc|]].
  unfold read_copied, do_file, mbind, M_bind, perform, peek, fail, lift. cbn [cut overtaken expired orb andb].
  destruct (file_op copied (Metadata path)); cbn [cut overtaken expired orb andb map_err].
  2:{ eexists _, [_]. split; [done|]. split_and!; [by eexists [_; _]|split; [done|] | done].
      by intros ?%list_elem_of_singleton. }
  destruct (is_dir _ path).
  { eexists _, [_]. split; [done|]. split_and!; [by eexists [_; _]|split; [done|] | done].
    by intros ?%list_elem_of_singleton. }
  destruct (file_op _ (OpenFile path)); cbn [cut overtaken expired orb andb map_err].
  2:{ eexists _, [_; _]. rewrite <- app_assoc. split; [done|]. split_and!; [by eexists [_]|done..]. }
  cbn [cut overtaken expired orb andb map_err]. eexists _, [_; _; _]. rewrite <- !app_assoc. split; [reflexivity|]. split_and!; [by eexists []|done|].
  intros v Hv. cbn [app] in *. by destruct (reader _); cbn in Hv; simplify_eq.
Qed.

(** ** The exit code *)

(** C16: An exit code that a macOS handle reports is the one the waiter recorded,
    or the answer to a wait of five seconds that the handle made itself on a
    container it saw stopped; such an answer is recorded, for the generation it
    was asked in, and only if that generation was still current when it came,
    so that it is never the exit code of a run before a restart. *)
Theorem exit_code_current `{Host} `{JsonLib} `{JsonFormatter} is_ipv6 (c : ContainerAsync) sc tr code tr' :
  exit_code is_ipv6 c sc tr = (Done (Ok (Some code)), tr') ->
  (exit_code_hint tr = Some code /\ tr' = tr) \/
  (exit_code_hint tr = None /\ exists snapshot asked answered,
     snapshot_of is_ipv6 c sc tr = (Done (Ok snapshot), asked) /\ snapshot.(running) = false /\
     XpcClient.wait_blocking c.(id) c.(id) (from_secs 5) None asked = (Done (Ok code), answered) /\
     wait_generation answered = wait_generation asked /\
     tr' = answered ++ [EvStore (wait_generation asked) code]).
Proof.
  unfold exit_code. intros E. apply bind_ok in E as (hint & tr1 & [-> ->]%peek_ok & E).
  destruct (exit_code_hint tr) as [actual|] eqn:Eh.
  - left. by apply mret_ok in E as [[= ->] ->].
  - right. split; [done|]. apply bind_ok in E as (snapshot & asked & Es & E).
    destruct (running snapshot) eqn:Er; [by apply mret_ok in E as [? _]|].
    apply bind_ok in E as (g & tr1 & [-> ->]%peek_ok & E).
    apply bind_ok in E as (r & answered & Ew%attempt_inv & E).
    apply spawn_blocking_done in Ew. destruct r as [actual|e]; [|by apply mret_ok in E as [? _]].
    apply bind_ok in E as (current & tr1 & [-> ->]%peek_ok & E).
    destruct (Z.eqb_spec (wait_generation answered) (wait_generation asked)) as [Eg|];
      [|by apply mret_ok in E as [? _]].
    apply bind_ok in E as ([] & tr1 & ->%note_ok & E). apply mret_ok in E as [[= ->] ->].
    by exists snapshot, asked, answered.
Qed.

(** A container that stopped with code 3, which no waiter saw. *)
Definition stopped_service : Host := service_host (fun m =>
  if bool_decide (m.(xpc_route) = lit "containerWait") then
    XpcReply (mkRawReply [] [] [(lit "exitCode", 3)] [])
  else data_reply (lit "containers") (print (JArr [JObj [(lit "status", JStr (lit "stopped"))]]))).

Definition sample_handle : ContainerAsync :=
  mkContainer (lit "web") (ContainerRequest_from (Image_default (lit "app") (lit "1") [])) false
    WaitState.WaitState_default (Fd 7 8) 0 None.

Lemma exit_code_current_witness : exists snapshot asked answered,
  @snapshot_of stopped_service DomJson CompactFormatter (fun _ => false) sample_handle None [] =
    (Done (Ok snapshot), asked) /\
  @XpcClient.wait_blocking stopped_service DomJson (lit "web") (lit "web") (from_secs 5) None asked =
    (Done (Ok 3), answered) /\
  @exit_code stopped_service DomJson CompactFormatter (fun _ => false) sample_handle None [] =
    (Done (Ok (Some 3)), answered ++ [EvStore 0 3]).
Proof.
  assert (exists tr', @exit_code stopped_service DomJson CompactFormatter (fun _ => false) sample_handle None [] =
    (Done (Ok (Some 3)), tr')) as [tr' E] by (eexists; vm_compute; reflexivity).
  destruct (@exit_code_current stopped_service DomJson CompactFormatter (fun _ => false) sample_handle None [] 3 tr' E)
    as [[Hh _]|(_ & snapshot & asked & answered & Es & _ & Ew & _ & Et)]; [discriminate Hh|].
  exists snapshot, asked, answered. split; [exact Es|]. split; [exact Ew|]. rewrite E, Et. reflexivity.
Defined.

Definition restarting_service : Host := service_host (fun m =>
  if bool_decide (m.(xpc_route) = lit "containerLogs") then XpcReply (mkRawReply [] [] [] [9; 10])
  else data_reply (lit "containers") (print (JArr [JObj [(lit "status", JStr (lit "stopped"))]]))).

(** A service whose reply to the first request for the logs comes too late for the caller. *)
Definition late_service : Host := {|
  Effect.send := @Effect.send restarting_service; open_logs := @open_logs restarting_service;
  probe := @probe restarting_service; elapsed := @elapsed restarting_service;
  in_flight tr := bool_decide (omap (fun ev => match ev with EvXpc m => Some m.(xpc_route) | _ => None end) tr =
    [lit "containerList"; lit "containerBootstrap"; lit "containerStartProcess"; lit "containerLogs"]);
  log_read := @log_read restarting_service; logs_terminated := @logs_terminated restarting_service;
  logs_all_done := @logs_all_done restarting_service; exit_code_hint := @exit_code_hint restarting_service;
  clock := @clock restarting_service; xpc_connect := @xpc_connect restarting_service;
  xpc := @xpc restarting_service; read_file := @read_file restarting_service;
  file_op := @file_op restarting_service; Effect.is_dir := @Effect.is_dir restarting_service;
  is_file := @is_file restarting_service; wait_generation := @wait_generation restarting_service;
|}.
(** The caller waits for nothing any more once the logs were asked for. *)
Definition impatient : Scope := Some (fun tr => @in_flight late_service tr).

(** A handle whose first restart was dropped and whose second one worked, dropped at the end:
    the descriptors of the first reply stay open. *)
Lemma descriptors_closed_witness : exists c evs evs' more,
  @restart late_service DomJson CompactFormatter (fun _ => false) sample_handle impatient [] = (Cancelled, evs) /\
  @restart late_service DomJson CompactFormatter (fun _ => false) sample_handle None evs =
    (Done (Ok (c, Ok tt)), evs ++ more) /\
  c.(log_source) = Fd 9 10 /\
  (@drop late_service DomJson (fun _ => None) c None (evs ++ more)).2 = evs' /\
  closed evs' = [7; 8; 9; 10] /\
  closed evs' ++ [9; 10] ≡ₚ fds sample_handle.(log_source) ++ @given late_service DomJson [] evs'.
Proof.
  assert (exists c evs more,
    @restart late_service DomJson CompactFormatter (fun _ => false) sample_handle impatient [] = (Cancelled, evs) /\
    @restart late_service DomJson CompactFormatter (fun _ => false) sample_handle None evs =
      (Done (Ok (c, Ok tt)), evs ++ more) /\ c.(log_source) = Fd 9 10 /\
    @lost late_service DomJson [] evs = [9; 10] /\
    closed (@drop late_service DomJson (fun _ => None) c None (evs ++ more)).2 = [7; 8; 9; 10])
    as (c & evs & more & E1 & E2 & Hs & Hl & Hc).
  { do 3 eexists. split; [vm_compute; reflexivity|]. split; [vm_compute; reflexivity|].
    split; [reflexivity|]. split; vm_compute; reflexivity. }
  destruct (@descriptors_closed late_service DomJson CompactFormatter (fun _ => None) (fun _ => false)
    sample_handle [] c (evs ++ more) [9; 10] None) as [(evs' & Ed & Hp) _].
  { eapply (lived_restart _ _ _ sample_handle evs [9; 10] None); [|exact E2]. rewrite <- Hl.
    refine (lived_cancelled _ sample_handle [] sample_handle [] [] impatient evs sample_handle _ E1 _ _);
      [constructor|done|done]. }
  exists c, evs, evs', more. split; [exact E1|]. split; [exact E2|]. split; [exact Hs|].
  split; [exact Ed|]. split; [|exact Hp]. cbn [app] in Ed. by rewrite Ed in Hc.
Defined.
