(* ===== verification/MacRunner.v ===== *)
(** * Starting a container on macOS ([src/src/runners/async_runner.rs])

    The [cfg(target_os = "macos")] half of [AsyncRunner]: the checks of the
    request, the image and its configuration, the kernel, the volumes, the
    creation, the bootstrap and the start, the copies, which need a running
    container here, the log descriptors, the hosts and the ready sequence, with
    the removal that follows each failure. *)

From S2P Require Import Prelude BTree Utf8 Ports Errors Env Http HttpDecode.
From S2P Require Import Json JsonFormat RegistryAuth Effect Rollback Wait Request.
From S2P Require Import DockerApi Copy ImageConfig Watchdog Xpc ContainerCfg.
From S2P Require WaitState DockerClient Container XpcClient MacContainer.
Import MacContainer(ContainerAsync, mkContainer, ContainerLogSource, NoLogs, Fd).

(** What the system answers a start besides the service: the moment and process
    in [unique_suffix], the working directory, [temp_dir()], the clock, the
    architecture the crate was built for, and the formats of the language. *)
Record Platform := mkPlatform {
  environment : Environment;
  unique_suffix_at : Trace -> str;
  current_dir : result str str;
  temp_dir : str;
  since_epoch : Trace -> option Duration;
  host_arch : str;
  watchdog : bool;
  parse_ip : str -> result str str;
  is_ipv6 : str -> bool;
  fmt_f64 : SpecFloat.spec_float -> str;
  debug : str -> str;
}.

Definition configuration (msg : str) : Error := Client (Configuration msg).

Section Runner.
Context `{Host} `{JsonLib} `{!XpcClient.JsonText} `{JsonFormatter} `{HttpEncoder} `{Base64}.
Context `{XpcClient.ExecPipes} `{FreePorts}.
Context (os : Platform).

#[local] Instance service_content : ContentStore := {| content_get := XpcClient.content_get |}.

(** ** Checks *)

Definition validate_kernel_path (path : str) : M unit :=
  if negb (is_absolute path) then
    fail (configuration (lit "kernel path must be absolute: " ++ from_utf8_lossy path))
  else if negb (is_some (from_utf8 path)) then
    fail (configuration (lit "kernel path is not valid UTF-8: " ++ from_utf8_lossy path))
  else
    file ← peek (fun tr => is_file tr path);
    if file : bool then mret tt
    else fail (configuration (lit "kernel path is not a file: " ++ from_utf8_lossy path)).

Definition invalid_id (id : str) : Error :=
  other (lit "invalid container id " ++ os.(debug) id
         ++ lit ": must match ^[a-zA-Z0-9][a-zA-Z0-9_.-]+$ and be at most 63 characters").

(** The identifier of the container, once the request was checked. *)
Definition checked_id (req : ContainerRequest) : M str :=
  if is_some req.(health_check) then fail (other (lit "with_health_check() is not supported on macOS"))
  else
    suffix ← peek os.(unique_suffix_at);
    let id := default (lit "c-" ++ suffix) req.(container_name) in
    if negb (is_valid_container_id id) then fail (invalid_id id)
    else
      lift (reject_sctp_ports req) ;;
      lift (check_mapped_ports req) ;;
      match req.(kernel) with Some path => validate_kernel_path path | None => mret tt end ;;
      mret id.

(** ** The image *)

Definition resolve_or_pull_macos (descriptor arch : str) (resolve_platform : option str) : M str :=
  if bool_decide (resolve_platform = Some (lit "linux/amd64")) then
    XpcClient.pull_image descriptor (Some arch) ;;
    XpcClient.resolve_image_descriptor descriptor
  else
    r ← attempt (XpcClient.resolve_image_descriptor descriptor);
    match r with
    | Ok d => mret d
    | Err (Client (ImageNotFound _)) =>
        XpcClient.pull_image descriptor ((fun _ => arch) <$> resolve_platform) ;;
        XpcClient.resolve_image_descriptor descriptor
    | Err e => fail e
    end.

Definition pull_image_of (req : ContainerRequest) : M ContainerRequest :=
  let '(arch, _, resolve_platform) := normalize_platform req.(platform) in
  XpcClient.pull_image (descriptor req) ((fun _ => arch) <$> resolve_platform) ;; mret req.

(** ** The plan of a container: all that is fixed before it is created *)

Record Plan := mkPlan { plan_id : str; plan_config : str; plan_kernel : list byte }.

Definition prepare (req : ContainerRequest) : M Plan :=
  id ← checked_id req;
  let '(arch, _, resolve_platform) := normalize_platform req.(platform) in
  desc_raw ← resolve_or_pull_macos (descriptor req) arch resolve_platform;
  image_config ← resolve_image_config os.(host_arch) desc_raw resolve_platform;
  kernel ← match req.(kernel) with
           | Some path => mret (XpcClient.kernel_json path)
           | None => XpcClient.get_default_kernel
           end;
  volume_resolutions ← XpcClient.resolve_volumes os.(debug) req;
  now ← peek os.(since_epoch);
  cfg ← lift (build_config now req id desc_raw image_config volume_resolutions);
  mret (mkPlan id (fmt_ContainerCfg os.(fmt_f64) cfg) kernel).

(** ** Rollback *)

Definition rollback_remove (id : str) : M unit :=
  match command os.(environment) with
  | Remove => _ ← attempt (XpcClient.remove id true); mret tt
  | Keep => mret tt
  end.
Definition or_rollback (id : str) (m : M unit) : M unit :=
  r ← attempt m;
  match r with
  | Ok _ => mret tt
  | Err e => rollback_remove id ;; fail e
  end.

(** As on Linux, the handle that remains is dropped when the function returns. *)
Definition cleanup_on_ready_failure {A} (c : ContainerAsync) (error : Error) : M A :=
  match command os.(environment) with
  | Remove => _ ← attempt (MacContainer.rm os.(environment) c); fail error
  | Keep => MacContainer.drop os.(environment) c ;; fail error
  end.

(** ** Copies *)

Definition chown_after_copy (id path : str) (uid gid : Z) (recursive : bool) : M unit :=
  if (uid =? 0) && (gid =? 0) then mret tt
  else
    suffix ← peek os.(unique_suffix_at);
    let cmd := [lit "chown"] ++ (if recursive then [lit "-R"] else [])
               ++ [show_nat uid ++ lit ":" ++ show_nat gid; path] in
    _ ← attempt (XpcClient.exec id cmd [] suffix); mret tt.

Definition copy_temp_error (what : str) (e : Error) : Error :=
  match e with
  | Io e => other (lit "failed to " ++ what ++ lit " temp file for copy_to: " ++ e.(io_msg))
  | e => e
  end.

(** [write_copy_data_temp] and the guard it gives, alive while [body] runs.  The guard is
    made when the creation was answered: a creation in flight has none. *)
Definition with_copy_data_temp (data : list byte) (body : str -> M unit) : M unit :=
  suffix ← peek os.(unique_suffix_at);
  let path := path_join os.(temp_dir) (lit "shiguredo_container_copy_" ++ suffix ++ lit ".bin") in
  with_err (copy_temp_error (lit "create")) (MacContainer.do_file (CreateNew path)) ;;
  guarded (EvFile (RemoveFile path))
    (with_err (copy_temp_error (lit "write")) (MacContainer.do_file (WriteAll path data)) ;; body path).

Definition copy_source_to (id : str) (src : CopyToContainer) : M unit :=
  let t := src.(copy_target) in
  match src.(copy_source) with
  | File p =>
      XpcClient.copy_in os.(current_dir) id p t.(target_path) t.(target_mode) ;;
      directory ← peek (fun tr => Effect.is_dir tr p);
      chown_after_copy id t.(target_path) t.(target_uid) t.(target_gid) directory
  | Data b =>
      with_copy_data_temp b (fun path =>
        XpcClient.copy_in os.(current_dir) id path t.(target_path) t.(target_mode) ;;
        chown_after_copy id t.(target_path) t.(target_uid) t.(target_gid) false)
  end.
Definition copy_to_sources (id : str) (req : ContainerRequest) : M unit :=
  for_each (copy_source_to id) (Request.copy_to_sources req).

(** ** Logs, hosts and readiness *)

Definition log_fd_required_error (cause : Error) : Error :=
  other (lit "log wait requires log file descriptors, but containerLogs failed: " ++ show_Error cause).

Definition open_logs_of (id : str) (ready_conditions : list WaitFor) : M ContainerLogSource :=
  r ← attempt (XpcClient.logs id);
  match r with
  | Ok (out, err) => mret (Fd out err)
  | Err e => if ready_conditions_require_log ready_conditions then
               rollback_remove id ;; fail (log_fd_required_error e)
             else mret NoLogs
  end.

Definition gateway_ip_address (c : ContainerAsync) : M str :=
  XpcClient.gateway_ip_address os.(parse_ip) c.(MacContainer.id).

Definition append_host : str := lit "printf '%s\t%s\n' " ++ [x22] ++ lit "$1" ++ [x22] ++ lit " " ++ [x22]
  ++ lit "$2" ++ [x22] ++ lit " >> /etc/hosts".

Definition exec_in (fuel : nat) (c : ContainerAsync) (cmd : ExecCommand) : M unit :=
  _ ← MacContainer.exec os.(parse_ip) os.(is_ipv6) os.(unique_suffix_at) fuel c cmd; mret tt.

Definition apply_extra_host (fuel : nat) (c : ContainerAsync) (entry : str * ExtraHost) : M unit :=
  ip ← match entry.2 with
       | HostAddr ip => mret ip
       | HostGateway =>
           with_err (fun e => other (lit "failed to resolve host gateway IP for with_host(..., HostGateway): "
                                     ++ show_Error e)) (gateway_ip_address c)
       end;
  exec_in fuel c (with_cmd_ready_condition
    (ExecCommand_new [lit "sh"; lit "-c"; append_host; lit "_"; ip; entry.1]) (CmdExit (Some 0))).
Definition apply_extra_hosts (fuel : nat) (c : ContainerAsync) (hosts : list (str * ExtraHost)) : M unit :=
  for_each (apply_extra_host fuel c) hosts.

Definition exec_all (fuel : nat) (c : ContainerAsync) (cmds : list ExecCommand) : M unit :=
  for_each (exec_in fuel c) cmds.

Definition ready_sequence (fuel : nat) (c : ContainerAsync) (startup_timeout : Duration)
    (ready_conditions : list WaitFor) : M unit :=
  state ← MacContainer.container_state os.(parse_ip) os.(is_ipv6) c;
  cmds ← lift (c.(MacContainer.request).(image).(image_exec_before_ready) state);
  exec_all fuel c cmds ;;
  MacContainer.ready_within os.(parse_ip) os.(is_ipv6) fuel c startup_timeout ready_conditions ;;
  state ← MacContainer.container_state os.(parse_ip) os.(is_ipv6) c;
  cmds ← lift (exec_after_start c.(MacContainer.request) state);
  exec_all fuel c cmds.

(** [m], and the handle it was about, which is dropped with the caller; a failure is
    cleaned up. *)
Definition or_cleanup (c : ContainerAsync) (m : M unit) : M ContainerAsync :=
  r ← attempt (dropping (MacContainer.drop os.(environment) c) m);
  match r with
  | Ok _ => mret c
  | Err e => cleanup_on_ready_failure c e
  end.
Definition run_ready_sequence (fuel : nat) (c : ContainerAsync) (startup_timeout : Duration)
    (ready_conditions : list WaitFor) : M ContainerAsync :=
  or_cleanup c (ready_sequence fuel c startup_timeout ready_conditions).

(** ** [start] *)

Definition register (id : str) : M unit :=
  if os.(watchdog) then
    match command os.(environment) with Remove => note (EvRegister id) | Keep => mret tt end
  else mret tt.

Definition launch (fuel : nat) (req : ContainerRequest) (plan : Plan) : M ContainerAsync :=
  let id := plan.(plan_id) in
  or_rollback id (XpcClient.create_container plan.(plan_config) plan.(plan_kernel)) ;;
  register id ;;
  or_rollback id (XpcClient.bootstrap_container id) ;;
  or_rollback id (XpcClient.start_process id) ;;
  or_rollback id (copy_to_sources id req) ;;
  let startup_timeout := unwrap_or req.(startup_timeout) DEFAULT_STARTUP_TIMEOUT in
  let ready_conditions := ready_conditions req in
  let wait_state := WaitState.WaitState_default in
  note (EvWaiter wait_state.(WaitState.generation)) ;;
  log_source ← open_logs_of id ready_conditions;
  c ← MacContainer.new id req wait_state log_source;
  c ← or_cleanup c (apply_extra_hosts fuel c req.(hosts));
  run_ready_sequence fuel c startup_timeout ready_conditions.

Definition start (fuel : nat) (req : ContainerRequest) : M ContainerAsync :=
  plan ← prepare req; launch fuel req plan.
End Runner.

(** ** What a start sends *)

#[export] Existing Instances XpcClient.pull_image_serves XpcClient.pull_image_timely
  XpcClient.resolve_image_descriptor_serves XpcClient.resolve_image_descriptor_timely
  XpcClient.get_default_kernel_serves XpcClient.get_default_kernel_timely XpcClient.resolve_names_serves
  XpcClient.resolve_names_timely XpcClient.content_get_serves XpcClient.content_get_timely
  XpcClient.create_container_serves XpcClient.create_container_timely XpcClient.copy_in_serves
  XpcClient.copy_in_timely XpcClient.network_address_serves XpcClient.network_address_timely
  XpcClient.exec_serves XpcClient.exec_timely XpcClient.bootstrap_container_serves
  XpcClient.bootstrap_container_timely XpcClient.start_process_serves XpcClient.start_process_timely
  XpcClient.logs_spares XpcClient.logs_timely MacContainer.exec_spares MacContainer.exec_timely
  MacContainer.handle_state_spares MacContainer.handle_state_timely MacContainer.ready_within_spares
  MacContainer.ready_within_timely MacContainer.new_spares MacContainer.new_timely.
#[export] Hint Opaque XpcClient.pull_image XpcClient.resolve_image_descriptor XpcClient.get_default_kernel
  XpcClient.resolve_names XpcClient.content_get XpcClient.create_container XpcClient.copy_in
  XpcClient.network_address XpcClient.exec XpcClient.bootstrap_container XpcClient.start_process
  XpcClient.logs MacContainer.exec MacContainer.container_state MacContainer.ready_within MacContainer.new
  : typeclass_instances.

Section Sends.
Context `{Host} `{JsonLib} `{!XpcClient.JsonText} `{JsonFormatter} `{HttpEncoder} `{Base64}.
Context `{XpcClient.ExecPipes} `{FreePorts}.
Context (os : Platform).

#[local] Existing Instance service_content.

#[export] Instance checked_id_spares req : Spares (checked_id os req).
Proof. unfold checked_id, validate_kernel_path. cbv zeta. apply _. Qed.
#[export] Instance checked_id_timely req : Timely (checked_id os req).
Proof. unfold checked_id, validate_kernel_path. cbv zeta. apply _. Qed.
#[export] Instance resolve_or_pull_spares d a p : Spares (resolve_or_pull_macos d a p).
Proof. unfold resolve_or_pull_macos. apply _. Qed.
#[export] Instance resolve_or_pull_timely d a p : Timely (resolve_or_pull_macos d a p).
Proof. unfold resolve_or_pull_macos. apply _. Qed.
#[export] Instance resolve_image_config_spares arch d p : Spares (resolve_image_config arch d p).
Proof. unfold resolve_image_config. cbn [ImageConfig.content_get service_content]. apply _. Qed.
#[export] Instance resolve_image_config_timely arch d p : Timely (resolve_image_config arch d p).
Proof. unfold resolve_image_config. cbn [ImageConfig.content_get service_content]. apply _. Qed.
#[export] Instance prepare_spares req : Spares (prepare os req).
Proof. unfold prepare, XpcClient.resolve_volumes. apply _. Qed.
#[export] Instance prepare_timely req : Timely (prepare os req).
Proof. unfold prepare, XpcClient.resolve_volumes. apply _. Qed.
#[export] Instance chown_spares id p u g r : Spares (chown_after_copy os id p u g r).
Proof. unfold chown_after_copy. cbv zeta. apply _. Qed.
#[export] Instance chown_timely id p u g r : Timely (chown_after_copy os id p u g r).
Proof. unfold chown_after_copy. cbv zeta. apply _. Qed.
#[export] Instance copy_to_sources_spares id req : Spares (copy_to_sources os id req).
Proof.
  unfold copy_to_sources, copy_source_to, with_copy_data_temp, MacContainer.do_file. cbv zeta. apply _.
Qed.
#[export] Instance copy_to_sources_steady id req : Steady (copy_to_sources os id req).
Proof.
  unfold copy_to_sources, copy_source_to, with_copy_data_temp, MacContainer.do_file. cbv zeta. apply _.
Qed.
#[export] Instance exec_in_spares f c cmd : Spares (exec_in os f c cmd).
Proof. unfold exec_in. apply _. Qed.
#[export] Instance exec_in_timely f c cmd : Timely (exec_in os f c cmd).
Proof. unfold exec_in. apply _. Qed.
#[export] Instance apply_extra_hosts_spares f c hosts : Spares (apply_extra_hosts os f c hosts).
Proof.
  unfold apply_extra_hosts, apply_extra_host, gateway_ip_address, XpcClient.gateway_ip_address. apply _.
Qed.
#[export] Instance apply_extra_hosts_timely f c hosts : Timely (apply_extra_hosts os f c hosts).
Proof.
  unfold apply_extra_hosts, apply_extra_host, gateway_ip_address, XpcClient.gateway_ip_address. apply _.
Qed.
#[export] Instance ready_sequence_spares f c d ws : Spares (ready_sequence os f c d ws).
Proof. unfold ready_sequence, exec_all. apply _. Qed.
#[export] Instance ready_sequence_timely f c d ws : Timely (ready_sequence os f c d ws).
Proof. unfold ready_sequence, exec_all. apply _. Qed.
#[export] Instance register_spares id : Spares (register os id).
Proof. unfold register. apply _. Qed.
#[export] Instance register_timely id : Timely (register os id).
Proof. unfold register. apply _. Qed.
End Sends.

(** ** Cleaning up *)

Section Cleaning.
Context `{Host} `{JsonLib} `{!XpcClient.JsonText} `{JsonFormatter} `{HttpEncoder} `{Base64}.
Context `{XpcClient.ExecPipes} `{FreePorts}.
Context (os : Platform).

(** [evs] after [tr] send one forced removal of [id], at [tr ++ before], and
    delete nothing else; the service may not be there to be asked. *)
Definition removes_at (tr : Trace) (id : str) (before after : Trace) (evs : Trace) : Prop :=
  evs = before ++ XpcClient.removal_events (tr ++ before) id ++ after /\ deletions before = [].

(** With [Keep] nothing is deleted; with [Remove] the container is removed, and
    once more only when the first removal failed. *)
Definition cleaned (id : str) (tr evs : Trace) : Prop :=
  match command os.(environment) with
  | Keep => deletions evs = []
  | Remove => exists before after, removes_at tr id before after evs /\
      (deletions after = [] \/
       is_ok (XpcClient.removal_answer (tr ++ before) id) = false /\
       exists before' after',
         removes_at (tr ++ before ++ XpcClient.removal_events (tr ++ before) id) id before' after' after /\
         deletions after' = [])
  end.

#[export] Instance cleaned_Cleaning id : Cleaning (cleaned id).
Proof.
  intros tr evs evs' Hs%deletions_spared. unfold cleaned. destruct (command (environment os)).
  - intros (before & after & [-> Hb] & Hrest). exists (evs ++ before), after. unfold removes_at.
    rewrite deletions_app, Hs, Hb, <- !app_assoc. split; [done|].
    by rewrite <- !app_assoc in Hrest.
  - intros Hd. by rewrite deletions_app, Hs, Hd.
Qed.

(** One removal, nothing deleted around it. *)
Lemma cleaned_once id tr before after :
  command os.(environment) = Remove -> deletions before = [] -> deletions after = [] ->
  cleaned id tr (before ++ XpcClient.removal_events (tr ++ before) id ++ after).
Proof. intros Ec Hb Ha. unfold cleaned. rewrite Ec. exists before, after. by split; [|left]. Qed.

Lemma valid_no_nul id : is_valid_container_id id = true -> contains x00 id = false.
Proof.
  intros [_ Hv]%valid_id_bytes. apply bool_decide_eq_false. intros Hc. rewrite Forall_forall in Hv.
  by apply Hv in Hc.
Qed.

(** A program that runs after the service was asked to create [id]. *)
Definition guards_id {A} (id : str) : M A -> (A -> Prop) -> Prop := guards (cleaned id).

Definition rollback_events (id : str) (tr : Trace) : Trace :=
  match command os.(environment) with Remove => XpcClient.removal_events tr id | Keep => [] end.
Lemma mac_rollback_remove_eq id tr : contains x00 id = false ->
  rollback_remove os id None tr = (Done (Ok tt), tr ++ rollback_events id tr).
Proof.
  intros Hid. unfold rollback_remove, rollback_events. destruct (command _); [|by rewrite app_nil_r].
  unfold mbind, M_bind, attempt. by rewrite XpcClient.remove_eq.
Qed.
Lemma cleaned_rollback id tr : cleaned id tr (rollback_events id tr).
Proof.
  unfold rollback_events. destruct (command (environment os)) eqn:Ec; [|unfold cleaned; by rewrite Ec].
  pose proof (cleaned_once id tr [] []) as Hc. rewrite !app_nil_r in Hc. by apply Hc.
Qed.

Context (id : str) (Hid : contains x00 id = false).

Lemma mac_guards_rollback {A} e (Q : A -> Prop) : guards_id id (rollback_remove os id ;; fail e) Q.
Proof.
  apply (guards_fail _ _ _ (rollback_events id)); [by intros; apply mac_rollback_remove_eq | apply cleaned_rollback].
Qed.
Lemma mac_guards_or_rollback m `{!Spares m, !Steady m} : guards_id id (or_rollback os id m) (fun _ => True).
Proof.
  unfold or_rollback. eapply guards_attempt; [apply _..|].
  intros [[]|e]; [by apply guards_ret | apply mac_guards_rollback].
Qed.
Lemma guards_open_logs ws : guards_id id (open_logs_of os id ws) (fun _ => True).
Proof.
  unfold open_logs_of. eapply guards_attempt; [apply _..|]. intros [[out err]|e]; [by apply guards_ret|].
  destruct (ready_conditions_require_log ws); [apply mac_guards_rollback | by apply guards_ret].
Qed.
Lemma guards_run {A} (m : M A) `{!Spares m, !Steady m} (Q : A -> Prop) :
  (forall tr, match (m None tr).1 with Done (Ok a) => Q a | Done (Err _) => False | _ => True end) ->
  guards_id id m Q.
Proof.
  intros HQ tr. specialize (HQ tr). destruct (spares_run m tr) as (o & evs & E & Hs & Ho). rewrite E in HQ |- *.
  destruct o as [[a|e]| |]; [|done..]. split; [done|]. by exists evs.
Qed.

Lemma deletions_shutdown c : deletions (MacContainer.shutdown c) = [].
Proof. unfold MacContainer.shutdown. by destruct (MacContainer.log_source c). Qed.

Lemma mac_guards_cleanup {A} c e (Q : A -> Prop) :
  c.(MacContainer.id) = id -> guards_id id (cleanup_on_ready_failure os c e) Q.
Proof.
  intros Hc tr. unfold cleanup_on_ready_failure. assert (contains x00 c.(MacContainer.id) = false) as Hc' by by rewrite Hc.
  destruct (command (environment os)) eqn:Ec.
  - rewrite (bind_step _ _ _ _ _ _ (attempt_run _ _ _ _ _ (MacContainer.rm_eq (environment os) c tr Hc'))).
    unfold fail, lift. cbv beta iota zeta.
    set (stop := [EvStopLogs (MacContainer.log_stop c)]). rewrite <- !app_assoc. eexists. split; [done|].
    unfold cleaned. rewrite Ec, Hc. exists stop. eexists. split; [by split|].
    destruct (XpcClient.removal_answer (tr ++ stop) id) as [[]|e'] eqn:Ea.
    { left. by rewrite app_nil_r, deletions_shutdown. }
    unfold MacContainer.drop_removal. destruct (MacContainer.dropped c).
    { left. by rewrite app_nil_r, deletions_shutdown. }
    right. split; [done|]. exists (MacContainer.shutdown c), []. unfold removes_at. rewrite Ec, Hc, app_nil_r.
    rewrite <- !app_assoc. split; [split; [done | apply deletions_shutdown] | done].
  - rewrite (bind_step _ _ _ _ _ _ (MacContainer.mac_drop_eq (environment os) c None tr Hc')). unfold fail, lift. cbv beta iota.
    eexists. split; [done|]. unfold cleaned, MacContainer.drop_removal. rewrite Ec, deletions_app, deletions_shutdown.
    by destruct (MacContainer.dropped c).
Qed.

Lemma guards_or_cleanup c m `{!Spares m, !Steady m} :
  c.(MacContainer.id) = id -> guards_id id (or_cleanup os c m) (fun c' => c' = c).
Proof.
  intros Hc. unfold or_cleanup. eapply guards_dropping; [apply _..|].
  intros [[]|e]; [by apply guards_ret | by apply mac_guards_cleanup].
Qed.

Lemma mac_guards_launch fuel req plan :
  plan.(plan_id) = id ->
  guards_id id (launch os fuel req plan) (fun c => c.(MacContainer.id) = id /\ c.(MacContainer.dropped) = false).
Proof.
  intros Hp. unfold launch. rewrite Hp. cbv zeta.
  eapply guards_bind; [apply _|apply mac_guards_or_rollback; apply _ | intros _ _].
  eapply guards_bind; [apply _|apply (guards_run _ (fun _ => True)) | intros _ _].
  { intros tr. unfold register. by destruct (watchdog os), (command (environment os)). }
  do 3 (eapply guards_bind; [apply _|apply mac_guards_or_rollback; apply _ | intros _ _]).
  eapply guards_bind; [apply _|by apply guards_note | intros _ _].
  eapply guards_bind; [apply _|apply guards_open_logs | intros source _].
  eapply guards_bind; [apply _|apply (guards_run _ (fun c => c.(MacContainer.id) = id /\ c.(MacContainer.dropped) = false)) | intros c [Hc Hd]].
  { intros tr. unfold MacContainer.new, MacContainer.new_stop_flag, MacContainer.spawn_consumers.
    cbn. by destruct (bool_decide _), source. }
  eapply guards_bind; [apply _|by apply guards_or_cleanup; [apply _..|] | intros c' ->].
  unfold run_ready_sequence. eapply guards_weaken; [by apply guards_or_cleanup; [apply _..|] | by intros c' ->].
Qed.
End Cleaning.

(** ** The checks *)

Section Checks.
Context `{Host} `{JsonLib} `{!XpcClient.JsonText} `{JsonFormatter} `{HttpEncoder} `{Base64}.
Context `{XpcClient.ExecPipes} `{FreePorts}.
Context (os : Platform).

(** A kernel path the service can open. *)
Definition kernel_ok (tr : Trace) (path : str) : Prop :=
  is_absolute path = true /\ is_some (from_utf8 path) = true /\ is_file tr path = true.

(** The requests a start accepts at [tr], and the identifier it gives them. *)
Record acceptable (tr : Trace) (req : ContainerRequest) (id : str) : Prop := mkAcceptable {
  acceptable_health : req.(health_check) = None;
  acceptable_name : id = default (lit "c-" ++ os.(unique_suffix_at) tr) req.(container_name);
  acceptable_id : is_valid_container_id id = true;
  acceptable_sctp : Forall (fun c => is_sctp c = false) ((container_port <$> mappings req) ++ expose_ports req);
  acceptable_ports : NoDup (container_port <$> mappings req);
  acceptable_kernel : forall path, req.(kernel) = Some path -> kernel_ok tr path;
}.

Lemma validate_kernel_path_eq path sc tr : exists r, validate_kernel_path path sc tr = (Done r, tr) /\
  (r = Ok tt <-> kernel_ok tr path).
Proof.
  unfold validate_kernel_path, kernel_ok. destruct (is_absolute path); cbn [negb].
  2:{ eexists. split; [done|]. split; [done | by intros (? & _)]. }
  destruct (is_some (from_utf8 path)); cbn [negb].
  2:{ eexists. split; [done|]. split; [done | by intros (_ & ? & _)]. }
  unfold mbind, M_bind, peek. destruct (is_file tr path).
  - by eexists.
  - eexists. split; [done|]. split; [done | by intros (_ & _ & ?)].
Qed.

Lemma checked_id_eq req sc tr : exists r, checked_id os req sc tr = (Done r, tr) /\
  forall id, r = Ok id <-> acceptable tr req id.
Proof.
  unfold checked_id. destruct (health_check req) eqn:Eh; cbn [is_some].
  { eexists. split; [done|]. intros id. split; [done|]. intros Ha. apply acceptable_health in Ha. congruence. }
  unfold mbind at 1, M_bind at 1, peek. cbv zeta. set (id0 := default _ _).
  destruct (is_valid_container_id id0) eqn:Ev; cbn [negb].
  2:{ eexists. split; [done|]. intros id. split; [done|]. intros [_ En Hv _ _ _]. fold id0 in En. congruence. }
  unfold mbind, M_bind, lift. destruct (reject_sctp_ports req) as [[]|e] eqn:Es.
  2:{ eexists. split; [done|]. intros id. split; [done|]. intros Ha. apply acceptable_sctp, reject_sctp_ports_iff in Ha. congruence. }
  destruct (check_mapped_ports req) as [[]|e] eqn:Ep.
  2:{ eexists. split; [done|]. intros id. split; [done|]. intros Ha. apply acceptable_ports, check_mapped_ports_iff in Ha. congruence. }
  apply reject_sctp_ports_iff in Es. apply check_mapped_ports_iff in Ep.
  destruct (kernel req) as [path|] eqn:Ek.
  - destruct (validate_kernel_path_eq path sc tr) as (r & -> & Hr). destruct r as [[]|e].
    + eexists. split; [done|]. intros id. split.
      * intros [= <-]. split; [done..|]. rewrite Ek. intros p [= <-]. by apply Hr.
      * intros Ha. apply acceptable_name in Ha. by rewrite Ha.
    + eexists. split; [done|]. intros id. split; [done|]. intros Ha.
      apply acceptable_kernel with (path := path) in Ha; [|done]. by apply Hr in Ha.
  - eexists. split; [done|]. intros id. split.
    + intros [= <-]. split; [done..|]. by rewrite Ek.
    + intros Ha. apply acceptable_name in Ha. by rewrite Ha.
Qed.

Lemma prepare_valid req sc tr plan tr' :
  prepare os req sc tr = (Done (Ok plan), tr') -> is_valid_container_id plan.(plan_id) = true.
Proof.
  unfold prepare. intros (id & tr1 & E & E')%bind_ok.
  destruct (checked_id_eq req sc tr) as (r & Er & Hr). rewrite Er in E. injection E as -> <-.
  assert (is_valid_container_id id = true) as Hv by (by apply acceptable_id with tr req, Hr).
  destruct (normalize_platform _) as [[arch ro] rp].
  repeat match goal with E : _ |- _ => apply bind_ok in E as (? & ? & _ & E) end.
  apply mret_ok in E' as [<- _]. done.
Qed.

(** How a start ends, on every way. *)
Lemma mac_start_ends fuel req tr :
  match start os fuel req None tr with
  | (Done (Ok c), tr') => exists plan planned evs, prepare os req None tr = (Done (Ok plan), planned) /\
      (c.(MacContainer.id) = plan.(plan_id) /\ c.(MacContainer.dropped) = false) /\
      tr' = planned ++ evs /\ deletions evs = []
  | (Done (Err e), tr') =>
      (prepare os req None tr = (Done (Err e), tr') /\ exists evs, tr' = tr ++ evs /\ deletions evs = []) \/
      (exists plan planned evs, prepare os req None tr = (Done (Ok plan), planned) /\
         tr' = planned ++ evs /\ cleaned os plan.(plan_id) planned evs)
  | (Cancelled, _) => False
  | (OutOfFuel, _) => True
  end.
Proof.
  unfold start. apply (guards_start (fun plan => cleaned os plan.(plan_id)) (prepare os req)
    (launch os fuel req) (fun plan => is_valid_container_id plan.(plan_id) = true)
    (fun plan c => c.(MacContainer.id) = plan.(plan_id) /\ c.(MacContainer.dropped) = false)).
  - intros plan tr'. apply prepare_valid.
  - intros plan Hv. apply mac_guards_launch; [by apply valid_no_nul | done].
Qed.

(** A start that succeeds owns the container it planned and has deleted nothing. *)
Lemma mac_start_fresh fuel req tr c tr' : start os fuel req None tr = (Done (Ok c), tr') ->
  exists plan planned evs, prepare os req None tr = (Done (Ok plan), planned) /\
    c.(MacContainer.id) = plan.(plan_id) /\ contains x00 c.(MacContainer.id) = false /\
    tr' = planned ++ evs /\ deletions evs = [] /\ c.(MacContainer.dropped) = false.
Proof.
  intros E. pose proof (mac_start_ends fuel req tr) as Hs. rewrite E in Hs.
  destruct Hs as (plan & planned & evs & Ep & [Hi Hd] & -> & He). exists plan, planned, evs.
  split_and!; try done. rewrite Hi. by apply valid_no_nul, (prepare_valid req None tr plan planned).
Qed.
End Checks.

(** C2: No start leaks a container on macOS, whatever the service answers and
    whenever it fails.  Until it asks the service to create the container
    nothing is deleted.  From then on a start that succeeds has deleted nothing,
    and one that fails returns the error after removing the container, by force
    and by its own name, with nothing else deleted; a second removal follows only
    when the first one failed.  With [TESTCONTAINERS_COMMAND=keep] nothing is
    deleted.  A start is never cancelled from inside. *)
Theorem mac_start_no_leak `{Host} `{JsonLib} `{!XpcClient.JsonText} `{JsonFormatter} `{HttpEncoder} `{Base64}
    `{XpcClient.ExecPipes} `{FreePorts} os fuel (req : ContainerRequest) tr :
  match start os fuel req None tr with
  | (Done (Ok c), tr') => exists plan planned evs, prepare os req None tr = (Done (Ok plan), planned) /\
      c.(MacContainer.id) = plan.(plan_id) /\ tr' = planned ++ evs /\ deletions evs = []
  | (Done (Err e), tr') =>
      (prepare os req None tr = (Done (Err e), tr') /\ exists evs, tr' = tr ++ evs /\ deletions evs = []) \/
      (exists plan planned evs, prepare os req None tr = (Done (Ok plan), planned) /\
         tr' = planned ++ evs /\ cleaned os plan.(plan_id) planned evs)
  | (Cancelled, _) => False
  | (OutOfFuel, _) => True
  end.
Proof.
  pose proof (mac_start_ends os fuel req tr) as Hs.
  destruct (start os fuel req None tr) as [[[c|e]| |] tr']; [|exact Hs|done..].
  destruct Hs as (plan & planned & evs & E & [Hc _] & Hs). by exists plan, planned, evs.
Qed.

(** C17: A start on macOS checks the request before it says anything to the
    service, and refuses exactly the requests with a health check, an
    identifier the service would not take, an SCTP port, a container port
    mapped twice, or a kernel path that is not an absolute UTF-8 path of a file. *)
Theorem start_checks_first `{Host} `{JsonLib} `{!XpcClient.JsonText} `{JsonFormatter} `{HttpEncoder} `{Base64}
    `{XpcClient.ExecPipes} `{FreePorts} os fuel (req : ContainerRequest) sc tr :
  (exists id, acceptable os tr req id /\ checked_id os req sc tr = (Done (Ok id), tr)) \/
  ((forall id, ~ acceptable os tr req id) /\ exists e, start os fuel req sc tr = (Done (Err e), tr)).
Proof.
  destruct (checked_id_eq os req sc tr) as (r & E & Hr). destruct r as [id|e].
  - left. exists id. split; [by apply Hr | done].
  - right. split; [intros id Ha%Hr; done|]. exists e. unfold start, prepare.
    by rewrite (bind_stop _ _ sc tr e tr) by by rewrite (bind_stop _ _ _ _ _ _ E).
Qed.

(** ** A creation that is refused *)

(** C9: When the service refuses to create the container, for whatever reason,
    the start asks it to remove the container of that name by force before it
    returns the refusal: a container that was there before, under the name the
    request asked for, is deleted by the start that found the name taken. *)
Theorem create_refused_removes `{Host} `{JsonLib} `{!XpcClient.JsonText} `{JsonFormatter} `{HttpEncoder} `{Base64}
    `{XpcClient.ExecPipes} `{FreePorts} os fuel (req : ContainerRequest) tr plan planned e refused :
  command os.(environment) = Remove ->
  prepare os req None tr = (Done (Ok plan), planned) ->
  XpcClient.create_container plan.(plan_config) plan.(plan_kernel) None planned = (Done (Err e), refused) ->
  start os fuel req None tr = (Done (Err e), refused ++ XpcClient.removal_events refused plan.(plan_id)).
Proof.
  intros Hc Ep Ec. unfold start. rewrite (bind_step _ _ _ _ _ _ Ep). unfold launch. cbv zeta.
  apply bind_stop. unfold or_rollback. rewrite (bind_step _ _ _ _ _ _ (attempt_run _ _ _ _ _ Ec)).
  rewrite (bind_step _ _ _ _ _ _ (mac_rollback_remove_eq os plan.(plan_id) refused
    (valid_no_nul _ (prepare_valid os req None tr plan planned Ep)))).
  unfold rollback_events. by rewrite Hc.
Qed.

Section Sample.
#[local] Instance SampleText : XpcClient.JsonText := {| XpcClient.text_of := print |}.
#[local] Instance SampleEncoder : HttpEncoder := {|
  method_new _ := Ok tt; request_new _ _ := Ok tt; header_name_new _ := Ok tt; set_header _ _ := Ok tt;
  encode _ := Ok [] |}.
#[local] Instance SampleBase64 : Base64 := {| encode_string s := s; decode_vec s := Some s |}.
#[local] Instance SamplePipes : XpcClient.ExecPipes := {|
  XpcClient.pipe _ := Some (3, 4); XpcClient.set_cloexec _ _ := true; XpcClient.received _ := [] |}.
#[local] Existing Instance ephemeral.

Definition sample_platform : Platform := {|
  environment _ := None; unique_suffix_at _ := lit "1-2-3"; current_dir := Ok (lit "/work");
  temp_dir := lit "/tmp"; since_epoch _ := None; host_arch := lit "aarch64"; watchdog := true;
  parse_ip _ := Err (lit "invalid IP address syntax"); is_ipv6 _ := false; fmt_f64 _ := lit "0";
  debug s := s |}.

Definition image_answer : XpcAnswer := data_reply (lit "imageDescriptions") (print (JArr [JObj
  [(lit "reference", JStr (lit "docker.io/library/app:1"));
   (lit "descriptor", JObj [(lit "mediaType", JStr (lit "application/vnd.oci.image.config.v1+json"));
                            (lit "digest", JStr (lit "sha256:aa"))])]])).

(** A service where the name is taken, or free. *)
Definition service_answer (is_taken : bool) (m : XpcMessage) : XpcAnswer :=
  let routed r := bool_decide (m.(xpc_route) = r) in
  if routed (lit "imageList") then image_answer
  else if routed (lit "contentGet") then XpcReply (mkRawReply [] [(lit "contentPath", lit "/blobs/aa")] [] [])
  else if routed (lit "getDefaultKernel") then data_reply (lit "kernel") (lit "{}")
  else if routed (lit "volumeCreate") then
    data_reply (lit "volume") (print (JObj [(lit "source", JStr (lit "/vol/db.img"));
                                            (lit "format", JStr (lit "ext4"))]))
  else if routed (lit "containerCreate") then
    if is_taken then error_reply (lit "exists") (lit "container web already exists")
    else XpcReply (mkRawReply [] [] [] [])
  else if routed (lit "containerList") then
    data_reply (lit "containers") (print (JArr [JObj [(lit "status", JStr (lit "running"))]]))
  else if routed (lit "containerLogs") then XpcReply (mkRawReply [] [] [] [7; 8])
  else XpcReply (mkRawReply [] [] [] []).

Definition sample_service (is_taken : bool) : Host :=
  let h := service_host (service_answer is_taken) in {|
  Effect.send := @Effect.send h; open_logs := @open_logs h; probe := @probe h; elapsed := @elapsed h;
  in_flight := @in_flight h;
  log_read := @log_read h; logs_terminated := @logs_terminated h; logs_all_done := @logs_all_done h;
  exit_code_hint := @exit_code_hint h; clock := @clock h; xpc_connect := @xpc_connect h; xpc := @xpc h;
  read_file _ _ := Ok (lit "{}"); file_op := @file_op h; Effect.is_dir := @Effect.is_dir h;
  is_file := @is_file h; wait_generation := @wait_generation h |}.

Definition sample_start (is_taken : bool) : Out ContainerAsync * Trace :=
  @start (sample_service is_taken) DomJson SampleText _ SampleEncoder SampleBase64 SamplePipes ephemeral
    sample_platform 3 ContainerCfg.sample_request None [].

(** With the name free the start returns a handle on the descriptors it was given. *)
Example sample_start_free :
  exists c tr', sample_start false = (Done (Ok c), tr') /\ c.(MacContainer.id) = lit "web" /\
    c.(MacContainer.log_source) = Fd 7 8.
Proof. do 2 eexists. vm_compute. split; [reflexivity|]. split; reflexivity. Qed.

Lemma create_refused_removes_witness : exists e refused,
  sample_start true = (Done (Err e), refused ++ [EvConnect SERVICE_NAME; XpcClient.removal (lit "web")]).
Proof.
  assert (exists plan planned e refused,
    @prepare (sample_service true) DomJson SampleText _ ephemeral sample_platform ContainerCfg.sample_request None [] =
      (Done (Ok plan), planned) /\ plan.(plan_id) = lit "web" /\
    @XpcClient.create_container (sample_service true) DomJson _ plan.(plan_config) plan.(plan_kernel) None planned =
      (Done (Err e), refused)) as (plan & planned & e & refused & Ep & Ei & Ec)
    by (do 4 eexists; split; [vm_compute; reflexivity|]; split; vm_compute; reflexivity).
  exists e, refused. unfold sample_start.
  pose proof (@create_refused_removes (sample_service true) DomJson SampleText _ SampleEncoder SampleBase64
    SamplePipes ephemeral sample_platform 3 ContainerCfg.sample_request [] plan planned e refused eq_refl Ep Ec) as E.
  rewrite Ei in E. exact E.
Defined.
End Sample.

(** ** Temporary files *)

(** The temporary files that [evs] create after [tr], and those they remove. *)
Fixpoint created `{Host} (tr evs : Trace) : list str :=
  match evs with
  | [] => []
  | ev :: evs =>
      match ev with
      | EvFile (CreateNew path) => if is_ok (file_op tr (CreateNew path)) then [path] else []
      | _ => []
      end ++ created (tr ++ [ev]) evs
  end.
Definition removes (ev : Effect.Event) : option str := match ev with EvFile (RemoveFile path) => Some path | _ => None end.
Definition removed (evs : Trace) : list str := omap removes evs.

(** An event that neither creates such a file nor removes one. *)
Definition untidy (ev : Effect.Event) : bool :=
  match ev with EvFile (CreateNew _) | EvFile (RemoveFile _) => true | _ => false end.
Definition leaves_files (ev : Effect.Event) : bool := negb (untidy ev).

#[export] Instance serves_leaves_files {A} (m : M A) : Serves m -> Emits leaves_files m.
Proof. intros Hm. apply (serves_emits _ _ Hm). by intros []. Qed.

Section Files.
Context `{Host} `{JsonLib} `{JsonFormatter} `{XpcClient.ExecPipes}.
Context (os : Platform).

Lemma created_app tr evs evs' : created tr (evs ++ evs') = created tr evs ++ created (tr ++ evs) evs'.
Proof.
  revert tr. induction evs as [|ev evs IH]; intros tr; cbn [created app]; [by rewrite app_nil_r|].
  rewrite IH, <- (app_assoc tr [ev] evs). by rewrite app_assoc.
Qed.

Lemma leaves_files_events tr evs :
  Forall (fun ev => leaves_files ev = true) evs -> removed evs = [] /\ created tr evs = [].
Proof.
  intros Hl. revert tr. induction Hl as [|ev evs Hev _ IH]; intros tr; [done|].
  destruct (IH (tr ++ [ev])) as [Hr Hc]. cbn [created]. rewrite Hc, app_nil_r. unfold removed in *. cbn [omap list_omap].
  rewrite Hr. by destruct ev as [| | | | | | | | | | |[]| | | |].
Qed.

(** The last thing that happened was a creation, all files before it were removed. *)
Definition unguarded (tr evs : Trace) : Prop := exists before path,
  evs = before ++ [EvFile (CreateNew path)] /\ removed before = created tr before.
(** However it ends, a program removes the files it created, in order; only a creation
    that was in flight when its caller was dropped has no guard. *)
Definition tidy {A} (m : M A) : Prop := forall sc tr, exists o evs, m sc tr = (o, tr ++ evs) /\
  (removed evs = created tr evs \/ (o = Cancelled /\ overtaken sc (tr ++ evs) = true /\ unguarded tr evs)).

Lemma tidy_leaves {A} (m : M A) : Emits leaves_files m -> tidy m.
Proof.
  intros Hm sc tr. destruct (Hm sc tr) as (evs & E & Hl). exists (m sc tr).1, evs.
  split; [by rewrite <- E, <- surjective_pairing|]. left. by destruct (leaves_files_events tr evs Hl) as [-> ->].
Qed.
Lemma tidy_bind {A B} (m : M A) (f : A -> M B) : tidy m -> (forall a, tidy (f a)) -> tidy (m ≫= f).
Proof.
  intros Hm Hf sc tr. unfold mbind, M_bind. destruct (Hm sc tr) as (o & evs & -> & Hr).
  destruct o as [[a|e]| |];
    [|eexists _, evs; split; [done|]; destruct Hr as [?|[? ?]]; [by left | by right]..].
  destruct Hr as [Hr|[? _]]; [|done]. destruct (Hf a sc (tr ++ evs)) as (o & evs' & -> & Hr').
  exists o, (evs ++ evs'). rewrite app_assoc. split; [done|]. unfold removed in *. rewrite omap_app, Hr, created_app.
  destruct Hr' as [->|(-> & Ho & before & path & -> & Hb)]; [by left|]. right. split; [done|]. split; [done|].
  exists (evs ++ before), path. unfold removed in *. by rewrite app_assoc, omap_app, Hr, Hb, created_app.
Qed.
Lemma tidy_for_each {A} (f : A -> M unit) xs : (forall x, tidy (f x)) -> tidy (for_each f xs).
Proof.
  intros Hf. induction xs as [|x xs IH]; cbn [for_each]; [apply tidy_leaves; apply _|]. by apply tidy_bind.
Qed.

Lemma with_copy_data_temp_tidy data body :
  (forall path, Emits leaves_files (body path)) -> tidy (with_copy_data_temp os data body).
Proof.
  intros Hb sc tr. unfold with_copy_data_temp. unfold mbind at 1, M_bind at 1, peek. cbv zeta.
  set (path := path_join _ _). unfold mbind at 1, M_bind at 1. unfold with_err at 1, MacContainer.do_file at 1, perform.
  destruct (cut sc tr _).
  { unfold cut_at. exists Cancelled. destruct (overtaken sc (tr ++ [EvFile (CreateNew path)])) eqn:Eo.
    - exists [EvFile (CreateNew path)]. split; [done|]. right. split; [done|]. split; [done|]. by exists [], path.
    - exists []. rewrite app_nil_r. split; [done | by left]. }
  destruct (file_op tr (CreateNew path)) as [u|e] eqn:Ec; cbn [map_err].
  2:{ eexists _, [_]. split; [done|]. left. cbn. by rewrite Ec. }
  set (inner := with_err _ _ ;; body path).
  assert (Emits leaves_files inner) as Hi by (unfold inner, MacContainer.do_file; apply _).
  unfold guarded. destruct (Hi sc (tr ++ [EvFile (CreateNew path)])) as (evs & E & Hl).
  destruct (inner sc (tr ++ [EvFile (CreateNew path)])) as [o tr1]. cbn in E. subst tr1.
  exists o, ([EvFile (CreateNew path)] ++ evs ++ [EvFile (RemoveFile path)]). rewrite <- !app_assoc. split; [done|].
  left. destruct (leaves_files_events (tr ++ [EvFile (CreateNew path)]) evs Hl) as [Hr Hc].
  unfold removed in *. rewrite !omap_app, Hr. cbn [app created]. by rewrite Ec, created_app, Hc.
Qed.
End Files.

(** C18: The temporary files of a copy do not outlive it: however the copies of a
    request end (done, refused by the service, failed on the host, or cancelled
    half way), exactly the files they created have been removed.  The one exception is a
    file whose creation was in flight when the start was dropped, which has no guard yet:
    then nothing was done after that creation, and all files before it are gone. *)
Theorem copy_files_removed `{Host} `{JsonLib} `{JsonFormatter} `{XpcClient.ExecPipes} os id (req : ContainerRequest) sc tr :
  exists o evs, copy_to_sources os id req sc tr = (o, tr ++ evs) /\
    (removed evs = created tr evs \/
     (o = Cancelled /\ overtaken sc (tr ++ evs) = true /\ unguarded tr evs)).
Proof.
  revert sc tr. apply tidy_for_each. intros [[p|b] t]; unfold copy_source_to; cbn [copy_source].
  - apply tidy_leaves. unfold chown_after_copy. cbv zeta. apply _.
  - apply with_copy_data_temp_tidy. intros path. unfold chown_after_copy. cbv zeta. apply _.
Qed.
