(* ===== verification/Sync.v ===== *)
(** * The synchronous API ([src/src/core/containers/sync_container.rs],
    [src/src/runners/sync_runner.rs])

    A synchronous handle blocks on the operations of an asynchronous one, on a
    runtime that all handles of the process share.  The runtime lives as long as
    one of them does: the state here is the counted references to it and the
    [Weak] in the static [ASYNC_RUNTIME].  Other threads acquire and release
    references at any time.  What the synchronous handle needs of an asynchronous
    one is the class [AsyncHandle], which the handles of both systems implement. *)

From stdpp Require Import gmultiset.
From S2P Require Import Prelude Utf8 Ports Errors Env Http HttpDecode.
From S2P Require Import Json JsonFormat RegistryAuth Effect Wait Request.
From S2P Require Import DockerApi.
From S2P Require LogLine DockerClient XpcClient FdReader WaitState Container MacContainer Copy Runner.

(** ** The shared runtime *)

(** The runtimes of the process: the shared ones, numbered as they are built, and
    those of the user.  A thread is the runtime its [Handle::try_current()] gives. *)
Inductive RuntimeId := Shared (n : nat) | Foreign (n : nat).

#[export] Instance RuntimeId_eq_dec : EqDecision RuntimeId.
Proof. solve_decision. Defined.

Abbreviation Thread := (option RuntimeId).

(** [refs] holds a shared runtime once per [Arc]; [weak] is the [Weak] in the
    static; [released] are the runtimes whose last [Arc] was dropped, each with
    the thread that dropped it. *)

Record Runtimes := mkRuntimes {
  refs : gmultiset nat;
  weak : option nat;
  built : nat;
  released : list (nat * Thread);
  poisoned : bool;
}.

(** [Weak::upgrade] *)
Definition upgrade (σ : Runtimes) : option nat :=
  match σ.(weak) with Some rt => if bool_decide (rt ∈ σ.(refs)) then Some rt else None | None => None end.

Definition shared_runtime (build : result IoError unit) (σ : Runtimes) : Result nat * Runtimes :=
  if σ.(poisoned) then
    (Err (other (lit "sync-runner runtime mutex poisoned: poisoned lock: another task failed inside")), σ)
  else
    match upgrade σ with
    | Some rt => (Ok rt, mkRuntimes (σ.(refs) ⊎ {[+ rt +]}) σ.(weak) σ.(built) σ.(released) false)
    | None =>
        match build with
        | Err e => (Err (Other (BoxIo e)), σ)
        | Ok _ =>
            let rt := σ.(built) in
            (Ok rt, mkRuntimes (σ.(refs) ⊎ {[+ rt +]}) (Some rt) (S rt) σ.(released) false)
        end
    end.

(** The [Drop] of an [Arc] on a thread. *)
Definition release (thread : Thread) (rt : nat) (σ : Runtimes) : Runtimes :=
  let refs' := σ.(refs) ∖ {[+ rt +]} in
  mkRuntimes refs' σ.(weak) σ.(built)
    (if bool_decide (rt ∈ refs') then σ.(released) else σ.(released) ++ [(rt, thread)]) σ.(poisoned).

(** On a thread that has a handle, the drop is another thread's. *)
Definition drop_shared_runtime (thread : Thread) (rt : nat) (σ : Runtimes) : Runtimes :=
  match thread with
  | Some _ => release None rt σ
  | None => release thread rt σ
  end.

(** Whether a runtime shuts down while that thread waits for it to: its worker
    threads are joined, so it may not where the thread is one of them. *)
Class Tokio := { shutdown_ends : Thread -> nat -> bool }.
Class TokioLaws `(Tokio) := {
  shutdown_ends_outside thread rt : thread <> Some (Shared rt) -> shutdown_ends thread rt = true;
}.

(** [drop_shared_runtime] returns when the drop is over; where it never is, no fuel is enough. *)
Definition await_drop `{Tokio} (thread : Thread) (rt : nat) (σ : Runtimes) : M Runtimes :=
  let σ' := drop_shared_runtime thread rt σ in
  if bool_decide (rt ∈ σ'.(refs)) || shutdown_ends thread rt then mret σ' else no_fuel.

Definition is_reentering_shared_runtime (thread : Thread) (rt : nat) : bool :=
  match thread with Some current => bool_decide (current = Shared rt) | None => false end.

Definition reentry_error : Error := other (lit "cannot call sync API from within the shared runtime context (LogConsumer callback or async context): this would deadlock").

(** A future that has not started: what running it does, and what its drop does
    to what it owns. *)
Record Future (A : Type) := mkFuture { run : M A; discard : M unit }.
Arguments mkFuture {A} run discard.
Arguments run {A} f.
Arguments discard {A} f.

(** A future that owns nothing. *)
Definition borrowing {A} (m : M A) : Future A := mkFuture m (mret tt).

(** The future runs to its end, on a thread of its own where the caller has a
    runtime and here where it has none; both errors of the result are one. *)
Definition block_on_runtime {A} (thread : Thread) (rt : nat) (f : Future A) : M A :=
  if is_reentering_shared_runtime thread rt then f.(discard) ;; fail reentry_error
  else match thread with
       | Some _ => blocking f.(run)
       | None => blocking f.(run)
       end.

(** ** What a handle promises *)

(** The operations of [ContainerAsync] the synchronous handle uses, for either
    system.  Removal and drop are told whether their thread has a runtime. *)
Class AsyncHandle `{Host} (C : Type) := {
  Reader : Type;
  handle_id : C -> str;
  handle_request : C -> ContainerRequest;
  handle_stop_with_timeout : C -> option Z -> M unit;
  handle_is_running : C -> M bool;
  handle_exit_code : C -> M (option Z);
  handle_rm : bool -> C -> M unit;
  handle_rm_blocking : bool -> C -> M unit;
  handle_drop : bool -> C -> M unit;
  handle_ports : C -> M Ports;
  handle_host_port_ipv4 : C -> ContainerPort -> M Z;
  handle_host_port_ipv6 : C -> ContainerPort -> M Z;
  handle_container_state : C -> M ContainerState;
  handle_stdout_sync : C -> bool -> Reader;
  handle_stderr_sync : C -> bool -> Reader;
  handle_start : C -> M (C * Result unit);
  handle_exec : C -> ExecCommand -> M Container.ExecResult;
  handle_bridge_ip : C -> M str;
  handle_host : HostName;
  handle_copy_file_from {A} : C -> str -> (result IoError (list byte) -> result CopyFromContainerError A) -> M A;
}.

(** A drop returns, a removal returns a result, and neither is cancelled or
    starved where no time limit is in force. *)
Class AsyncHandleLaws `{Host} (C : Type) `{!AsyncHandle C} := {
  drop_returns in_runtime (h : C) tr : exists evs, handle_drop in_runtime h None tr = (Done (Ok tt), tr ++ evs);
  rm_returns in_runtime (h : C) tr : exists r evs, handle_rm in_runtime h None tr = (Done r, tr ++ evs);
  rm_blocking_returns in_runtime (h : C) tr :
    exists r evs, handle_rm_blocking in_runtime h None tr = (Done r, tr ++ evs);
}.

(** What other threads do to the shared runtime in the meantime, while [own] is
    ours. *)
Class Others := { others : Trace -> gmultiset nat -> Runtimes -> Runtimes }.

(** ** The synchronous handle *)

(** [runtime] is taken by the drop only; [inner] by the drop and by a removal. *)
Record SyncContainer (C : Type) := mkSync { runtime : option nat; inner : option C }.
Arguments mkSync {C} runtime inner.
Arguments runtime {C} s.
Arguments inner {C} s.

Definition Container_new {C} (rt : nat) (h : C) : SyncContainer C := mkSync (Some rt) (Some h).

(** [ReentryErrorReader]'s error. *)
Definition reentry_io_error : IoError := io_other (lit "cannot read sync log reader from within the shared runtime context (LogConsumer callback or async context): this would deadlock").

Inductive SyncReader (R : Type) := ReentryErrorReader | ReaderOf (r : R).
Arguments ReentryErrorReader {R}.
Arguments ReaderOf {R} r.

(** [read] and [fill_buf] of a reader, from those of the reader it holds. *)
Definition sync_read {R A} (read_inner : R -> result IoError A) (r : SyncReader R) : result IoError A :=
  match r with ReentryErrorReader => Err reentry_io_error | ReaderOf r => read_inner r end.
(** [consume] *)
Definition sync_consume {R} (consume_inner : R -> Z -> R) (r : SyncReader R) (amt : Z) : SyncReader R :=
  match r with ReentryErrorReader => ReentryErrorReader | ReaderOf r => ReaderOf (consume_inner r amt) end.

Section Container.
Context `{Host} {C : Type} `{!AsyncHandle C}.

(** [None] is a panic: the runtime or the handle is no longer there. *)
Definition id (c : SyncContainer C) : option str := handle_id <$> c.(inner).
Definition image (c : SyncContainer C) : option Image := (fun h => (handle_request h).(Request.image)) <$> c.(inner).

(** [block_on_runtime(self.runtime(), f(self.inner()))?] *)
Definition block_on {A} (thread : Thread) (c : SyncContainer C) (f : C -> M A) : option (M A) :=
  rt ← c.(runtime); h ← c.(inner); Some (block_on_runtime thread rt (borrowing (f h))).

Definition stop_with_timeout thread c (timeout_seconds : option Z) : option (M unit) :=
  block_on thread c (fun h => handle_stop_with_timeout h timeout_seconds).
Definition stop thread c : option (M unit) := stop_with_timeout thread c None.
Definition is_running thread c : option (M bool) := block_on thread c handle_is_running.
Definition exit_code thread c : option (M (option Z)) := block_on thread c handle_exit_code.
Definition ports thread c : option (M Ports) := block_on thread c handle_ports.
Definition get_host_port_ipv4 thread c (internal_port : ContainerPort) : option (M Z) :=
  block_on thread c (fun h => handle_host_port_ipv4 h internal_port).
Definition get_host_port_ipv6 thread c (internal_port : ContainerPort) : option (M Z) :=
  block_on thread c (fun h => handle_host_port_ipv6 h internal_port).
Definition container_state thread c : option (M ContainerState) := block_on thread c handle_container_state.
Definition get_bridge_ip_address thread c : option (M str) := block_on thread c handle_bridge_ip.
Definition get_host thread c : option (M HostName) := block_on thread c (fun _ => mret handle_host).
Definition copy_file_from {A} thread c (source : str)
    (copy_from_reader : result IoError (list byte) -> result CopyFromContainerError A) : option (M A) :=
  block_on thread c (fun h => handle_copy_file_from h source copy_from_reader).

(** [start]: the handle behind the reference afterwards, and what the call returns. *)
Definition start thread c : option (M (SyncContainer C * Result unit)) :=
  block_on thread c (fun h => '(h, r) ← handle_start h; mret (mkSync c.(runtime) (Some h), r)).

(** A reader for a thread that may block; on one that may not, a reader that fails. *)
Definition reader_of (thread : Thread) (c : SyncContainer C) (reader : C -> Reader) : option (SyncReader Reader) :=
  rt ← c.(runtime);
  if is_reentering_shared_runtime thread rt then Some ReentryErrorReader
  else ReaderOf <$> (reader <$> c.(inner)).
Definition stdout thread c (follow : bool) : option (SyncReader Reader) :=
  reader_of thread c (fun h => handle_stdout_sync h follow).
Definition stderr thread c (follow : bool) : option (SyncReader Reader) :=
  reader_of thread c (fun h => handle_stderr_sync h follow).
End Container.

(** [SyncExecResult]: what is left of the two outputs. *)
Record SyncExecResult := mkSyncExec {
  sync_exit_code : option Z;
  left_stdout : list byte;
  left_stderr : list byte;
}.

Definition exec `{Host} {C} `{!AsyncHandle C} (thread : Thread) (c : SyncContainer C) (cmd : ExecCommand)
  : option (M SyncExecResult) :=
  block_on thread c (fun h =>
    r ← handle_exec h cmd;
    mret (mkSyncExec r.(Container.result_exit_code) r.(Container.stdout) r.(Container.stderr))).

Definition stdout_to_vec (r : SyncExecResult) : list byte * SyncExecResult :=
  (r.(left_stdout), mkSyncExec r.(sync_exit_code) [] r.(left_stderr)).
Definition stderr_to_vec (r : SyncExecResult) : list byte * SyncExecResult :=
  (r.(left_stderr), mkSyncExec r.(sync_exit_code) r.(left_stdout) []).

(** ** Ending a handle, starting a container *)

Section Lifetime.
Context `{Host} {C : Type} `{!AsyncHandle C} `{!Others} `{!Tokio}.

(** The references of one handle. *)
Definition own_of (rt : option nat) : gmultiset nat := match rt with Some rt => {[+ rt +]} | None => ∅ end.

(** [m], and the shared runtime after it. *)
Definition meanwhile {A} (own : gmultiset nat) (m : M A) (σ : Runtimes) : M (Result A * Runtimes) :=
  r ← attempt m; σ ← peek (fun tr => others tr own σ); mret (r, σ).

(** [Drop::drop] *)
Definition drop (thread : Thread) (c : SyncContainer C) (σ : Runtimes) : M Runtimes :=
  '(_, σ) ← match c.(inner) with
            | Some h => meanwhile (own_of c.(runtime)) (handle_drop (bool_decide (is_Some thread)) h) σ
            | None => mret (Ok tt, σ)
            end;
  match c.(runtime) with Some rt => await_drop thread rt σ | None => mret σ end.

(** [rm] takes the handle inside: it is gone when [rm] returns, whatever the result. *)
Definition rm (thread : Thread) (c : SyncContainer C) (σ : Runtimes) : option (M (Result unit * Runtimes)) :=
  match c.(inner) with
  | Some h =>
      rt ← c.(runtime);
      Some ('(r, σ) ← meanwhile {[+ rt +]} (block_on_runtime thread rt
              (mkFuture (handle_rm true h) (handle_drop (bool_decide (is_Some thread)) h))) σ;
            σ ← drop thread (mkSync c.(runtime) None) σ; mret (r, σ))
  | None => Some (σ ← drop thread c σ; mret (Ok tt, σ))
  end.

(** [rm_blocking] *)
Definition rm_blocking (thread : Thread) (c : SyncContainer C) (σ : Runtimes) : M (Result unit * Runtimes) :=
  '(r, σ) ← match c.(inner) with
            | Some h => meanwhile (own_of c.(runtime)) (handle_rm_blocking (bool_decide (is_Some thread)) h) σ
            | None => mret (Ok tt, σ)
            end;
  σ ← drop thread (mkSync c.(runtime) None) σ; mret (r, σ).

(** Whether a runtime can be built is the system's. *)
Context (build : Trace -> result IoError unit).

(** [SyncRunner::start] over the asynchronous start of the request. *)
Definition runner_start (thread : Thread) (async_start : M C) (σ : Runtimes)
  : M (Result (SyncContainer C) * Runtimes) :=
  '(rt, σ) ← peek (fun tr => shared_runtime (build tr) σ);
  match rt with
  | Err e => mret (Err e, σ)
  | Ok rt =>
      '(r, σ) ← meanwhile {[+ rt +]} (block_on_runtime thread rt (borrowing async_start)) σ;
      match r with
      | Ok h => mret (Ok (Container_new rt h), σ)
      | Err e => σ ← await_drop thread rt σ; mret (Err e, σ)
      end
  end.

(** [SyncRunner::pull_image] *)
Definition runner_pull_image (thread : Thread) (async_pull : M ContainerRequest) (σ : Runtimes)
  : M (Result ContainerRequest * Runtimes) :=
  '(rt, σ) ← peek (fun tr => shared_runtime (build tr) σ);
  match rt with
  | Err e => mret (Err e, σ)
  | Ok rt =>
      '(result, σ) ← meanwhile {[+ rt +]} (block_on_runtime thread rt (borrowing async_pull)) σ;
      σ ← await_drop thread rt σ; mret (result, σ)
  end.
End Lifetime.

(** ** The shared runtime in every interleaving *)

(** What any thread may do at once: acquire a reference, or drop one there is. *)
Inductive step : Runtimes -> Runtimes -> Prop :=
| step_acquire b σ : step σ (shared_runtime b σ).2
| step_drop thread rt σ : rt ∈ σ.(refs) -> step σ (drop_shared_runtime thread rt σ).

Definition Runtimes_initial : Runtimes := mkRuntimes ∅ None 0 [] false.
Definition reachable : Runtimes -> Prop := rtc step Runtimes_initial.

Record runtimes_wf (σ : Runtimes) : Prop := {
  wf_lock : σ.(poisoned) = false;
  wf_shared rt : rt ∈ σ.(refs) -> σ.(weak) = Some rt;
  wf_weak rt : σ.(weak) = Some rt -> (rt < σ.(built))%nat;
  wf_built rt : (rt < σ.(built))%nat <-> rt ∈ σ.(refs) \/ rt ∈ σ.(released).*1;
  wf_apart rt : rt ∈ σ.(refs) -> rt ∉ σ.(released).*1;
  wf_once : NoDup σ.(released).*1;
  wf_outside : Forall (fun e => e.2 = None) σ.(released);
}.

Lemma upgrade_Some σ rt : runtimes_wf σ -> upgrade σ = Some rt <-> rt ∈ σ.(refs).
Proof.
  intros [_ Hs _ _ _ _ _]. unfold upgrade. split.
  - destruct (weak σ); [|done]. by case_bool_decide; intros [= ->].
  - intros Hr. rewrite (Hs rt Hr). by rewrite bool_decide_eq_true_2.
Qed.

Lemma upgrade_None σ : runtimes_wf σ -> upgrade σ = None <-> σ.(refs) = ∅.
Proof.
  intros Hwf. split.
  - intros E. destruct (gmultiset_choose_or_empty σ.(refs)) as [[rt Hr]|?]; [|done].
    apply upgrade_Some in Hr; [congruence|done].
  - intros E. destruct (upgrade σ) as [rt|] eqn:Eu; [|done].
    apply upgrade_Some in Eu; [|done]. rewrite E in Eu. multiset_solver.
Qed.

Lemma initial_wf : runtimes_wf Runtimes_initial.
Proof.
  unfold Runtimes_initial. constructor; cbn [refs weak built released poisoned]; try done.
  - multiset_solver.
  - intros rt. split; [lia|]. intros [?|?%elem_of_nil]; [multiset_solver|done].
  - multiset_solver.
  - constructor.
Qed.

Lemma acquire_wf b σ : runtimes_wf σ -> runtimes_wf (shared_runtime b σ).2.
Proof.
  intros Hwf. pose proof Hwf as [Hl Hs Hw Hb Ha Ho Hout]. unfold shared_runtime. rewrite Hl.
  destruct (upgrade σ) as [rt|] eqn:Eu.
  - apply upgrade_Some in Eu; [|done].
    split; cbn; try done.
    + intros rt' Hr. apply Hs. multiset_solver.
    + intros rt'. rewrite Hb. multiset_solver.
    + intros rt' Hr. apply Ha. multiset_solver.
  - apply upgrade_None in Eu; [|done]. destruct b as [[]|e]; [|done].
    assert (Hfresh : σ.(built) ∉ σ.(released).*1).
    { intros Hin. assert (σ.(built) < σ.(built))%nat by (apply Hb; by right). lia. }
    split; cbn; try done; rewrite ?Eu.
    + intros rt' Hr. f_equal. multiset_solver.
    + intros rt' [= <-]. lia.
    + intros rt'. rewrite Nat.lt_succ_r, Nat.le_lteq, Hb, Eu. multiset_solver.
    + intros rt' Hr. assert (rt' = σ.(built)) as -> by multiset_solver. done.
Qed.

Lemma release_wf rt σ : rt ∈ σ.(refs) -> runtimes_wf σ -> runtimes_wf (release None rt σ).
Proof.
  intros Hr [Hl Hs Hw Hb Ha Ho Hout]. unfold release.
  assert (Hsub : forall rt', rt' ∈ refs σ ∖ {[+ rt +]} -> rt' ∈ refs σ) by multiset_solver.
  case_bool_decide as Hin; split; cbn; try done; eauto.
  - intros rt'. rewrite Hb. split; [|naive_solver]. intros [Hr'|]; [|by right]. left.
    destruct (decide (rt' = rt)) as [->|]; [done|multiset_solver].
  - intros rt'. rewrite fmap_app, elem_of_app, Hb. cbn. rewrite list_elem_of_singleton. split.
    + intros [Hr'|]; [|naive_solver]. destruct (decide (rt' = rt)) as [->|]; [naive_solver|].
      left. multiset_solver.
    + intros [?|[?| ->]]; [naive_solver|naive_solver|by left].
  - intros rt' Hr'. rewrite fmap_app, elem_of_app. cbn. rewrite list_elem_of_singleton.
    intros [Hr2| ->]; [apply (Ha rt'); [by apply Hsub | done] | by apply Hin].
  - rewrite fmap_app. apply NoDup_app. split_and!; [done| |apply NoDup_singleton].
    cbn. intros x Hx ->%list_elem_of_singleton. by apply (Ha rt).
  - apply Forall_app. split; [done|]. by constructor.
Qed.

Lemma drop_shared_release thread rt σ : drop_shared_runtime thread rt σ = release None rt σ.
Proof. by destruct thread. Qed.

Lemma step_wf σ σ' : step σ σ' -> runtimes_wf σ -> runtimes_wf σ'.
Proof.
  destruct 1; [apply acquire_wf|]. rewrite drop_shared_release. by apply release_wf.
Qed.

Lemma reachable_wf σ : reachable σ -> runtimes_wf σ.
Proof.
  intros Hr. pose proof initial_wf as Hwf. revert Hwf. unfold reachable in Hr.
  induction Hr; eauto using step_wf.
Qed.

Lemma reachable_acquire b σ : reachable σ -> reachable (shared_runtime b σ).2.
Proof. intros Hr. eapply rtc_r; [exact Hr | constructor]. Qed.

Lemma reachable_drop thread rt σ :
  reachable σ -> bool_decide (rt ∈ σ.(refs)) = true -> reachable (drop_shared_runtime thread rt σ).
Proof. intros Hr Hin%bool_decide_eq_true_1. eapply rtc_r; [exact Hr | by constructor]. Qed.

(** ** Runs with interference *)

(** A step of another thread, which leaves us what we own. *)
Definition shared_step (own : gmultiset nat) (σ σ' : Runtimes) : Prop := step σ σ' /\ own ⊆ σ'.(refs).

Class OthersLaws `(Others) := {
  others_steps tr own σ : own ⊆ σ.(refs) -> rtc (shared_step own) σ (others tr own σ);
}.

(** From [σ] on one reference to [rt] was ours; it is ours in [σ']. *)
Definition keeps (rt : nat) : Runtimes -> Runtimes -> Prop := rtc (shared_step {[+ rt +]}).
(** A run that gives it back, outside of every runtime, and returns then, unless it
    waits in a thread of a runtime whose last reference that was. *)
Definition gives_back {A} (thread : Thread) (rt : nat) (σ : Runtimes) (returns : Runtimes -> A)
    (run : Out A * Trace) (tr : Trace) : Prop :=
  exists σ1, keeps rt σ σ1 /\ let σ' := release None rt σ1 in
    run = (Done (Ok (returns σ')), tr) \/
    (run = (OutOfFuel, tr) /\ thread = Some (Shared rt) /\ rt ∉ σ'.(refs)).

Lemma owned rt σ : {[+ rt +]} ⊆ σ.(refs) <-> rt ∈ σ.(refs).
Proof. multiset_solver. Qed.

Lemma keeps_owned rt σ σ' : rt ∈ σ.(refs) -> keeps rt σ σ' -> rt ∈ σ'.(refs).
Proof. intros Hin Hk. induction Hk as [|σ σ1 σ' [_ Ho] _ IH]; [done|]. by apply IH, owned. Qed.

Lemma keeps_reachable rt σ σ' : keeps rt σ σ' -> reachable σ -> reachable σ'.
Proof. induction 1 as [|σ σ1 σ' [Hs _] _ IH]; [done|]. intros Hr. apply IH. by eapply rtc_r. Qed.

Section Runs.
Context `{Host} {C : Type} `{!AsyncHandle C} `{!AsyncHandleLaws C} `{O : Others} `{!OthersLaws O}.
Context `{T : Tokio} `{!TokioLaws T}.

Lemma meanwhile_eq {A} own (m : M A) σ tr r tr' :
  m None tr = (Done r, tr') -> meanwhile own m σ None tr = (Done (Ok (r, others tr' own σ)), tr').
Proof. intros E. unfold meanwhile, mbind, M_bind, attempt. by rewrite E. Qed.

Lemma others_keeps rt tr σ : rt ∈ σ.(refs) -> keeps rt σ (others tr {[+ rt +]} σ).
Proof. intros Hin. apply others_steps. by apply owned. Qed.

Lemma block_on_runtime_eq {A} thread rt (f : Future A) tr :
  block_on_runtime thread rt f None tr =
    if is_reentering_shared_runtime thread rt then (f.(discard) ;; fail reentry_error) None tr
    else f.(run) None tr.
Proof. unfold block_on_runtime, blocking. by destruct (is_reentering_shared_runtime _ _), thread. Qed.

Lemma await_drop_run {A} thread rt σ σ1 (k : Runtimes -> A) tr :
  keeps rt σ σ1 -> gives_back thread rt σ k ((σ ← await_drop thread rt σ1; mret (k σ)) None tr) tr.
Proof.
  intros Hk. exists σ1. split; [done|]. unfold await_drop. rewrite drop_shared_release.
  case_bool_decide as Hr; [by left|]. destruct (shutdown_ends thread rt) eqn:Es; [by left|]. right.
  split_and!; [done| |done]. destruct (decide (thread = Some (Shared rt))) as [|Hne]; [done|].
  by rewrite shutdown_ends_outside in Es.
Qed.

(** A program, then the drop of the reference that was ours all along. *)
Lemma gives_back_run {A B} (m : M A) thread rt σ (k : Result A -> Runtimes -> B) tr r tr' :
  rt ∈ σ.(refs) -> m None tr = (Done r, tr') ->
  gives_back thread rt σ (k r)
    (('(r, σ) ← meanwhile {[+ rt +]} m σ; σ ← await_drop thread rt σ; mret (k r σ)) None tr) tr'.
Proof.
  intros Hin E. rewrite (bind_step _ _ _ _ _ _ (meanwhile_eq _ _ σ _ _ _ E)).
  by apply await_drop_run, others_keeps.
Qed.

(** A call on a handle that was not ended: never a panic, in a thread of the
    runtime a refusal before anything is done, else the asynchronous call. *)
Theorem block_on_spec {A} thread rt (h : C) (f : C -> M A) : exists m,
  block_on thread (Container_new rt h) f = Some m /\
  forall tr, m None tr = if decide (thread = Some (Shared rt)) then (Done (Err reentry_error), tr) else f h None tr.
Proof.
  eexists. split; [done|]. intros tr. rewrite block_on_runtime_eq. cbn [discard borrowing run].
  destruct thread as [t|]; cbn; [|by rewrite decide_False].
  destruct (decide (t = Shared rt)) as [->|Hne].
  - by rewrite bool_decide_eq_true_2, decide_True.
  - rewrite bool_decide_eq_false_2, decide_False; congruence.
Qed.

(** [drop], up to the result that [m] has no use for. *)
Lemma sync_drop_eq thread rt (h : C) σ tr : drop thread (Container_new rt h) σ None tr =
  ('(_, σ) ← meanwhile {[+ rt +]} (handle_drop (bool_decide (is_Some thread)) h) σ;
   σ ← await_drop thread rt σ; mret σ) None tr.
Proof.
  unfold drop, mbind, M_bind. cbn [inner runtime Container_new own_of].
  destruct (meanwhile _ _ _ _ _) as [[[[r σ1]|e]| |] tr1]; try done.
  unfold await_drop. by case_match.
Qed.

(** Both removals end with the drop of a handle that is taken. *)
Definition removing (thread : Thread) (rt : nat) (σ : Runtimes) (m : M unit) : M (Result unit * Runtimes) :=
  '(r, σ) ← meanwhile {[+ rt +]} m σ; σ ← drop thread (@mkSync C (Some rt) None) σ; mret (r, σ).

Lemma removing_run (m : M unit) thread rt σ tr r tr' : rt ∈ σ.(refs) -> m None tr = (Done r, tr') ->
  gives_back thread rt σ (pair r) (removing thread rt σ m None tr) tr'.
Proof. apply (gives_back_run m thread rt σ pair). Qed.

Lemma rm_future thread rt (h : C) tr : exists r tr',
  block_on_runtime thread rt (mkFuture (handle_rm true h) (handle_drop (bool_decide (is_Some thread)) h)) None tr
    = (Done r, tr') /\
  (thread = Some (Shared rt) -> r = Err reentry_error /\ handle_drop true h None tr = (Done (Ok tt), tr')) /\
  (thread <> Some (Shared rt) -> handle_rm true h None tr = (Done r, tr')).
Proof.
  rewrite block_on_runtime_eq. cbn [discard run].
  destruct (decide (thread = Some (Shared rt))) as [->|Hne]; cbn.
  - rewrite !bool_decide_eq_true_2 by done. destruct (drop_returns true h tr) as (evs & E).
    exists (Err reentry_error), (tr ++ evs). split; [|done]. unfold mbind, M_bind. by rewrite E.
  - destruct (rm_returns true h tr) as (r & evs & E). exists r, (tr ++ evs). split; [|done].
    destruct thread as [t|]; cbn; [|done]. by rewrite bool_decide_eq_false_2 by congruence.
Qed.
End Runs.

(** C10: The end of a synchronous handle, in any thread and with other threads at
    the shared runtime meanwhile.  A drop is the drop of the asynchronous handle;
    [rm] is its removal, or, in a thread of the shared runtime itself, a refusal
    after which the handle is dropped all the same, which is where the container
    goes; [rm_blocking] works in every thread.  Each gives back the one reference of
    the handle, outside of every runtime, and returns, unless it was called in a
    thread of the runtime and that was the last one. *)
Theorem sync_removal `{Host} {C} `{!AsyncHandle C} `{!AsyncHandleLaws C} `{O : Others} `{!OthersLaws O}
    `{T : Tokio} `{!TokioLaws T} (thread : Thread) rt (h : C) σ tr (c := Container_new rt h) :
  rt ∈ σ.(refs) ->
  (exists tr', gives_back thread rt σ (fun σ' => σ') (drop thread c σ None tr) tr' /\
     handle_drop (bool_decide (is_Some thread)) h None tr = (Done (Ok tt), tr')) /\
  (exists m r tr', rm thread c σ = Some m /\ gives_back thread rt σ (pair r) (m None tr) tr' /\
     (thread = Some (Shared rt) -> r = Err reentry_error /\ handle_drop true h None tr = (Done (Ok tt), tr')) /\
     (thread <> Some (Shared rt) -> handle_rm true h None tr = (Done r, tr'))) /\
  (exists r tr', gives_back thread rt σ (pair r) (rm_blocking thread c σ None tr) tr' /\
     handle_rm_blocking (bool_decide (is_Some thread)) h None tr = (Done r, tr')).
Proof.
  intros Hin. split_and!.
  - destruct (drop_returns (bool_decide (is_Some thread)) h tr) as (evs & E). exists (tr ++ evs).
    split; [|done]. pose proof (gives_back_run _ thread rt σ (fun _ σ' => σ') tr _ _ Hin E) as Hg.
    unfold c. by rewrite sync_drop_eq.
  - destruct (rm_future thread rt h tr) as (r & tr' & E & Hre & Hno).
    by exists (removing thread rt σ (block_on_runtime thread rt (mkFuture (handle_rm true h)
      (handle_drop (bool_decide (is_Some thread)) h)))), r, tr'; split_and!; [|apply removing_run|..].
  - destruct (rm_blocking_returns (bool_decide (is_Some thread)) h tr) as (r & evs & E).
    exists r, (tr ++ evs). split; [by apply removing_run | done].
Qed.

(** ** The two handles *)

(** The reader of a Linux handle: over the session's buffers, or over a fetch of
    its own. *)
Inductive LinuxReader :=
| LinuxEmpty
| SyncSession (session : nat) (s : LogLine.LogSource)
| SyncOneshot (session : nat) (s : LogLine.LogSource).

Definition linux_reader (s : LogLine.LogSource) (c : Container.ContainerAsync) (follow : bool) : LinuxReader :=
  match c.(Container.log_source) with
  | Container.NoLogs => LinuxEmpty
  | Container.DockerStream session => if follow then SyncSession session s else SyncOneshot session s
  end.

Section Linux.
Context `{Host} `{JsonLib} `{HttpEncoder} `{Base64}.
Context (env : Environment) (parse_ip : str -> result str str) (fuel : nat).
Let parse s := to_ok (parse_ip s).

#[local] Instance LinuxHandle : AsyncHandle Container.ContainerAsync := {|
  Reader := LinuxReader;
  handle_id := Container.id;
  handle_request := Container.request;
  handle_stop_with_timeout := Container.stop_with_timeout;
  handle_is_running := Container.is_running;
  handle_exit_code := Container.exit_code;
  handle_rm := Container.rm env;
  handle_rm_blocking := Container.rm_blocking env;
  handle_drop := Container.drop env;
  handle_ports := Container.ports;
  handle_host_port_ipv4 := Container.get_host_port_ipv4;
  handle_host_port_ipv6 := Container.get_host_port_ipv6;
  handle_container_state := Container.container_state parse;
  handle_stdout_sync := linux_reader LogLine.StdOut;
  handle_stderr_sync := linux_reader LogLine.StdErr;
  handle_start := Container.start parse fuel;
  handle_exec := Container.exec parse fuel;
  handle_bridge_ip c := DockerClient.bridge_ip_address parse_ip c.(Container.id);
  handle_host := Container.get_host parse;
  handle_copy_file_from A c source f := Container.copy_file_from c source (fun content => f (Ok content));
|}.

#[local] Instance LinuxHandle_laws : AsyncHandleLaws Container.ContainerAsync.
Proof.
  split; intros in_runtime h tr.
  - destruct (Container.drop_eq env in_runtime h None tr) as (k & _ & E). eexists. exact E.
  - destruct (Container.rm_with_eq env DockerClient.remove in_runtime h None tr) as (k & _ & E);
      [by rewrite DockerClient.remove_one|]. do 2 eexists. unfold handle_rm, LinuxHandle, Container.rm.
    by rewrite E, <- !app_assoc.
  - cbn. rewrite Container.rm_blocking_rm.
    destruct (Container.rm_with_eq env DockerClient.remove in_runtime h None tr) as (k & _ & E);
      [by rewrite DockerClient.remove_one|]. do 2 eexists. unfold Container.rm. by rewrite E, <- !app_assoc.
Qed.
End Linux.

Section Mac.
Context `{Host} `{JsonLib} `{JsonFormatter} `{HttpEncoder} `{Base64} `{XpcClient.ExecPipes}.
Context (env : Environment) (parse_ip : str -> result str str) (is_ipv6 : str -> bool).
Context (unique_suffix : Trace -> str) (cwd : result str str) (temp_dir : str) (dup : Z -> bool) (fuel : nat).

#[local] Instance MacHandle : AsyncHandle MacContainer.ContainerAsync := {|
  Reader := option FdReader.FollowFdReader;
  handle_id := MacContainer.id;
  handle_request := MacContainer.request;
  handle_stop_with_timeout := MacContainer.stop_with_timeout;
  handle_is_running := MacContainer.is_running is_ipv6;
  handle_exit_code := MacContainer.exit_code is_ipv6;
  handle_rm _ := MacContainer.rm env;
  handle_rm_blocking _ := MacContainer.rm_blocking env;
  handle_drop _ := MacContainer.drop env;
  handle_ports := MacContainer.ports is_ipv6;
  handle_host_port_ipv4 := MacContainer.get_host_port_ipv4 is_ipv6;
  handle_host_port_ipv6 := MacContainer.get_host_port_ipv6 is_ipv6;
  handle_container_state := MacContainer.container_state parse_ip is_ipv6;
  handle_stdout_sync c := MacContainer.stdout c dup;
  handle_stderr_sync c := MacContainer.stderr c dup;
  handle_start := MacContainer.start parse_ip is_ipv6 unique_suffix fuel;
  handle_exec := MacContainer.exec parse_ip is_ipv6 unique_suffix fuel;
  handle_bridge_ip c := XpcClient.bridge_ip_address parse_ip c.(MacContainer.id);
  handle_host := MacContainer.get_host parse_ip;
  handle_copy_file_from A c source f := MacContainer.copy_file_from unique_suffix cwd temp_dir c source f;
|}.

Lemma mac_drop_returns c tr : exists evs, MacContainer.drop env c None tr = (Done (Ok tt), tr ++ evs).
Proof.
  unfold MacContainer.drop, MacContainer.stop_log_delivery. unfold mbind, M_bind at 1, note. unfold M_bind.
  rewrite MacContainer.close_fds_eq. unfold MacContainer.drop_remove.
  destruct (MacContainer.dropped c); [eexists; by rewrite <- app_assoc|].
  destruct (command env); [|eexists; by rewrite <- app_assoc].
  destruct (MacContainer.remove_run c.(MacContainer.id) ((tr ++ [EvStopLogs c.(MacContainer.log_stop)]) ++
    (EvCloseFd <$> MacContainer.fds c.(MacContainer.log_source)))) as (r & evs & E & _).
  unfold XpcClient.remove in E. rewrite spawn_blocking_None in E.
  exists ([EvStopLogs c.(MacContainer.log_stop)] ++ (EvCloseFd <$> MacContainer.fds c.(MacContainer.log_source)) ++ evs).
  rewrite (bind_step _ _ _ _ _ _ (attempt_run (blocking _) _ _ _ _ E)). by rewrite <- !app_assoc.
Qed.

Lemma mac_rm_returns c tr : exists r evs, MacContainer.rm env c None tr = (Done r, tr ++ evs).
Proof.
  unfold MacContainer.rm, MacContainer.rm_with, MacContainer.stop_log_delivery. unfold mbind at 1, M_bind at 1, note.
  destruct (MacContainer.remove_run c.(MacContainer.id) (tr ++ [EvStopLogs c.(MacContainer.log_stop)]))
    as (r & evs & E & _).
  apply attempt_run, (dropping_done (MacContainer.drop env c)) in E.
  rewrite (bind_step _ _ _ _ _ _ E). destruct r as [[]|e].
  - destruct (mac_drop_returns (MacContainer.set_dropped c) ((tr ++ [EvStopLogs c.(MacContainer.log_stop)]) ++ evs))
      as (evs' & ->). do 2 eexists. by rewrite <- !app_assoc.
  - destruct (mac_drop_returns c ((tr ++ [EvStopLogs c.(MacContainer.log_stop)]) ++ evs)) as (evs' & Ed).
    rewrite (bind_step _ _ _ _ _ _ Ed). do 2 eexists. by rewrite <- !app_assoc.
Qed.

#[local] Instance MacHandle_laws : AsyncHandleLaws MacContainer.ContainerAsync.
Proof.
  split; intros in_runtime h tr; [apply mac_drop_returns | apply mac_rm_returns | ].
  cbn. rewrite MacContainer.mac_rm_blocking_rm. apply mac_rm_returns.
Qed.
End Mac.

(** C15: What the threads of the process share, in every interleaving of their
    acquisitions and drops.  All references are to one runtime; acquiring gives that
    one as long as there is a reference, a new one only when there is none, and fails
    only as the construction does, changing nothing; every runtime built is either
    referenced or was released, once, and outside of every runtime, where dropping it
    does not panic. *)
Theorem runtime_shared (σ : Runtimes) : reachable σ ->
  (forall rt rt', rt ∈ σ.(refs) -> rt' ∈ σ.(refs) -> rt = rt') /\
  (forall b, match shared_runtime b σ with
             | (Ok rt, σ') => σ'.(refs) = σ.(refs) ⊎ {[+ rt +]} /\
                 if bool_decide (σ.(refs) = ∅) then rt = σ.(built) /\ σ'.(built) = S rt /\ rt ∉ σ.(released).*1
                 else rt ∈ σ.(refs) /\ σ'.(built) = σ.(built)
             | (Err e, σ') => σ' = σ /\ σ.(refs) = ∅ /\ exists io, b = Err io /\ e = Other (BoxIo io)
             end) /\
  (forall rt, (rt < σ.(built))%nat <-> rt ∈ σ.(refs) \/ rt ∈ σ.(released).*1) /\
  (forall rt, rt ∈ σ.(refs) -> rt ∉ σ.(released).*1) /\
  NoDup σ.(released).*1 /\ Forall (fun e => e.2 = None) σ.(released).
Proof.
  intros Hwf%reachable_wf. pose proof Hwf as [Hl Hs Hw Hb Ha Ho Hout]. split_and!; try done.
  - intros rt rt' H1%Hs H2%Hs. congruence.
  - intros b. unfold shared_runtime. rewrite Hl. destruct (upgrade σ) as [rt|] eqn:Eu.
    + apply upgrade_Some in Eu; [|done]. split; [done|]. rewrite bool_decide_eq_false_2; [done|].
      intros E. rewrite E in Eu. multiset_solver.
    + apply upgrade_None in Eu; [|done]. destruct b as [[]|e]; [|by eauto]. split; [done|].
      rewrite bool_decide_eq_true_2 by done. split_and!; [done|done|]. intros Hin.
      assert (σ.(built) < σ.(built))%nat by (apply Hb; by right). lia.
Qed.

(** Two handles, dropped one after the other, the last on a thread of the runtime. *)
Definition two_handles : Runtimes :=
  drop_shared_runtime (Some (Shared 0)) 0 (drop_shared_runtime None 0
    (shared_runtime (Ok tt) (shared_runtime (Ok tt) Runtimes_initial).2).2).

Lemma runtime_shared_witness :
  reachable two_handles /\ two_handles.(released) = [(0%nat, None)] /\
  NoDup two_handles.(released).*1 /\
  match shared_runtime (Ok tt) two_handles with (Ok rt, _) => rt = 1%nat | _ => False end.
Proof.
  assert (Hr : reachable two_handles).
  { apply reachable_drop; [apply reachable_drop|]; [|vm_compute; reflexivity..].
    apply reachable_acquire, reachable_acquire, rtc_refl. }
  split; [exact Hr|]. split; [vm_compute; reflexivity|].
  destruct (runtime_shared two_handles Hr) as (_ & _ & _ & _ & Ho & _).
  split; [exact Ho|]. vm_compute. reflexivity.
Defined.

Section Starts.
Context {C : Type} `{O : Others} `{!OthersLaws O} `{T : Tokio} `{!TokioLaws T}.
Context (build : Trace -> result IoError unit).

Lemma acquire_err b σ e σ' : shared_runtime b σ = (Err e, σ') -> σ' = σ.
Proof. unfold shared_runtime. destruct (poisoned σ), (upgrade σ), b; intros E; by simplify_eq. Qed.

Lemma acquired_in b σ rt σ' : shared_runtime b σ = (Ok rt, σ') -> rt ∈ σ'.(refs).
Proof.
  unfold shared_runtime. destruct (poisoned σ), (upgrade σ), b; intros E; simplify_eq; cbn; multiset_solver.
Qed.

(** A synchronous start once it has the runtime. *)
Lemma runner_start_acquired thread (async_start : M C) σ rt σ1 tr :
  shared_runtime (build tr) σ = (Ok rt, σ1) ->
  runner_start build thread async_start σ None tr =
    ('(r, σ) ← meanwhile {[+ rt +]} (block_on_runtime thread rt (borrowing async_start)) σ1;
     match r with
     | Ok h => mret (Ok (Container_new rt h), σ)
     | Err e => σ ← await_drop thread rt σ; mret (Err e, σ)
     end) None tr.
Proof. intros E. unfold runner_start, mbind at 1, M_bind at 1, peek. by rewrite E. Qed.

Lemma runner_start_failed thread (async_start : M C) σ rt σ1 tr e tr' :
  shared_runtime (build tr) σ = (Ok rt, σ1) ->
  block_on_runtime thread rt (borrowing async_start) None tr = (Done (Err e), tr') ->
  gives_back thread rt σ1 (pair (Err e)) (runner_start build thread async_start σ None tr) tr'.
Proof.
  intros Es E. rewrite (runner_start_acquired _ _ _ _ _ _ Es).
  rewrite (bind_step _ _ _ _ _ _ (meanwhile_eq _ _ σ1 _ _ _ E)).
  by apply await_drop_run, others_keeps, (acquired_in (build tr) σ).
Qed.
(** A synchronous pull keeps no reference, however it ends. *)
Lemma runner_pull_image_run thread async_pull σ rt σ1 tr r tr' :
  shared_runtime (build tr) σ = (Ok rt, σ1) ->
  block_on_runtime thread rt (borrowing async_pull) None tr = (Done r, tr') ->
  gives_back thread rt σ1 (pair r) (runner_pull_image build thread async_pull σ None tr) tr'.
Proof.
  intros Es E. unfold runner_pull_image, mbind at 1, M_bind at 1, peek. rewrite Es.
  apply (gives_back_run _ thread rt σ1 pair); [by eapply acquired_in | exact E].
Qed.
End Starts.

(** C12: Starting through the synchronous API, in any thread and with other threads at
    the shared runtime meanwhile.  When no runtime can be built, nothing is done.  In a
    thread of the shared runtime it refuses before anything is said to the daemon.
    Otherwise it does exactly what the asynchronous start does and ends as that does:
    on success the handle holds a reference to the runtime, on failure the reference is
    given back. *)
Theorem runner_start_spec {C} `{O : Others} `{!OthersLaws O} `{T : Tokio} `{!TokioLaws T}
    build (thread : Thread) (async_start : M C) σ tr
    (run := runner_start build thread async_start σ None tr) :
  match shared_runtime (build tr) σ with
  | (Err e, _) => run = (Done (Ok (Err e, σ)), tr)
  | (Ok rt, σ1) =>
      (thread = Some (Shared rt) -> gives_back thread rt σ1 (pair (Err reentry_error)) run tr) /\
      (thread <> Some (Shared rt) ->
         match async_start None tr with
         | (Done (Ok h), tr') => exists σ', run = (Done (Ok (Ok (Container_new rt h), σ')), tr') /\
             keeps rt σ1 σ' /\ rt ∈ σ'.(refs) /\ (reachable σ -> reachable σ')
         | (Done (Err e), tr') => gives_back thread rt σ1 (pair (Err e)) run tr'
         | (Cancelled, tr') => run = (Cancelled, tr')
         | (OutOfFuel, tr') => run = (OutOfFuel, tr')
         end)
  end.
Proof.
  destruct (shared_runtime (build tr) σ) as [[rt|e] σ1] eqn:Es.
  - pose proof (block_on_runtime_eq thread rt (borrowing async_start) tr) as Eb. split; intros Hth.
    + eapply runner_start_failed; [exact Es|]. rewrite Eb, Hth. cbn. by rewrite bool_decide_eq_true_2.
    + assert (is_reentering_shared_runtime thread rt = false) as Hre.
      { destruct thread; [|done]. apply bool_decide_eq_false_2. congruence. }
      rewrite Hre in Eb. change (Sync.run (borrowing async_start)) with async_start in Eb.
      destruct (async_start None tr) as [[[h|e]| |] tr'].
      * pose proof (others_keeps rt tr' σ1 (acquired_in _ _ _ _ Es)) as Hk. eexists. split_and!; [|exact Hk|..].
        -- unfold run. rewrite (runner_start_acquired _ _ _ _ _ _ _ Es).
           by rewrite (bind_step _ _ _ _ _ _ (meanwhile_eq _ _ σ1 _ _ _ Eb)).
        -- by eapply keeps_owned, Hk; eapply acquired_in.
        -- intros Hr. eapply keeps_reachable; [exact Hk|].
           pose proof (reachable_acquire (build tr) σ Hr) as Hr1. by rewrite Es in Hr1.
      * by eapply runner_start_failed.
      * unfold run. rewrite (runner_start_acquired _ _ _ _ _ _ _ Es). unfold meanwhile, mbind, M_bind, attempt.
        by rewrite Eb.
      * unfold run. rewrite (runner_start_acquired _ _ _ _ _ _ _ Es). unfold meanwhile, mbind, M_bind, attempt.
        by rewrite Eb.
  - unfold run, runner_start, mbind at 1, M_bind at 1, peek. rewrite Es. by rewrite <- (acquire_err _ _ _ _ Es).
Qed.

(** ** Runs *)

(** Another thread that acquires a reference whenever it can, and a runtime that
    shuts down wherever it may. *)
Definition Busy : Others := {| others _ _ σ := (shared_runtime (Ok tt) σ).2 |}.
Definition PlainTokio : Tokio := {|
  shutdown_ends thread rt := negb (is_reentering_shared_runtime thread rt) |}.

Lemma acquire_grows b σ : σ.(refs) ⊆ (shared_runtime b σ).2.(refs).
Proof. unfold shared_runtime. destruct (poisoned σ), (upgrade σ), b; cbn; multiset_solver. Qed.

#[local] Instance Busy_laws : OthersLaws Busy.
Proof.
  split. intros tr own σ Ho. apply rtc_once. split; [constructor|]. etrans; [exact Ho | apply acquire_grows].
Qed.
#[local] Instance PlainTokio_laws : TokioLaws PlainTokio.
Proof.
  split. intros thread rt Hne. unfold shutdown_ends, PlainTokio, is_reentering_shared_runtime.
  destruct thread; [|done]. by rewrite bool_decide_eq_false_2 by congruence.
Qed.

Definition no_env : Environment := fun _ => None.
Definition no_ip (_ : str) : result str str := Err [].
Definition sample_handle : Container.ContainerAsync :=
  Container.mkContainer (lit "c1") (ContainerRequest_from (Image_default (lit "a") (lit "1") []))
    false WaitState.WaitState_default Container.NoLogs None.
Definition one_handle : Runtimes := (shared_runtime (Ok tt) Runtimes_initial).2.

(** [rm] in a log consumer: refused, and the container goes with the handle. *)
Lemma sync_removal_witness :
  let linux := @LinuxHandle (script_host [answer 204 []]) DomJson Runner.SampleEncoder Runner.SampleBase64
                 no_env no_ip 3 in
  exists m tr', @rm _ _ linux Busy PlainTokio (Some (Shared 0)) (Container_new 0 sample_handle) one_handle = Some m /\
    tr' = [EvRequest (DockerClient.remove_request (lit "c1") true) Unlimited] /\
    gives_back (Some (Shared 0)) 0 one_handle (pair (Err reentry_error)) (m None []) tr'.
Proof.
  intros linux.
  destruct (@sync_removal _ _ linux (LinuxHandle_laws no_env no_ip 3) Busy Busy_laws PlainTokio PlainTokio_laws
    (Some (Shared 0)) 0 sample_handle one_handle []) as (_ & (m & r & tr' & Em & Hg & Hre & _) & _).
  { apply (bool_decide_eq_true_1 (_ ∈ _)). vm_compute. reflexivity. }
  destruct (Hre eq_refl) as [-> Ed]. exists m, tr'. split; [exact Em|]. split; [|exact Hg].
  assert (Et : @handle_drop _ _ linux true sample_handle None [] =
    (Done (Ok tt), [EvRequest (DockerClient.remove_request (lit "c1") true) Unlimited])) by (vm_compute; reflexivity).
  rewrite Et in Ed. injection Ed as Ed. symmetry. exact Ed.
Defined.

(** A start of the runner's sample request from a thread without a runtime. *)
Lemma runner_start_spec_witness :
  exists c σ' tr',
    @runner_start _ Busy PlainTokio (fun _ => Ok tt) None
      (@Runner.start Runner.start_host DomJson Runner.SampleEncoder Runner.SampleBase64 Copy.SampleFS no_env
        no_env no_env 3 3 Runner.sample_request) Runtimes_initial None [] =
      (Done (Ok (Ok (Container_new 0 c), σ')), tr') /\
    length tr' = 10%nat /\ 0%nat ∈ σ'.(refs) /\ reachable σ'.
Proof.
  pose proof (@runner_start_spec _ Busy Busy_laws PlainTokio PlainTokio_laws (fun _ => Ok tt) None
    (@Runner.start Runner.start_host DomJson Runner.SampleEncoder Runner.SampleBase64 Copy.SampleFS no_env
        no_env no_env 3 3 Runner.sample_request) Runtimes_initial []) as S.
  change (shared_runtime _ Runtimes_initial) with (Ok (E := Error) 0%nat, one_handle) in S.
  destruct S as [_ S]. specialize (S ltac:(discriminate)).
  assert (exists c tr', @Runner.start Runner.start_host DomJson Runner.SampleEncoder Runner.SampleBase64
    Copy.SampleFS no_env no_env no_env 3 3 Runner.sample_request None [] = (Done (Ok c), tr') /\
    length tr' = 10%nat) as (c & tr' & E & Hl) by (do 2 eexists; split; vm_compute; reflexivity).
  rewrite E in S. destruct S as (σ' & Er & _ & Hin & Hr). exists c, σ', tr'.
  split; [exact Er|]. split; [exact Hl|]. split; [exact Hin | apply Hr, rtc_refl].
Defined.
