(* ===== verification/Lifetime.v ===== *)
(** * The life of a container, from its start to its end

    What the runners, the handles and their removals come to together: a container
    that was started and whose handle was used in any way, by any number of calls
    with any outcome, cancelled ones included, is removed when the handle ends, and
    was not removed before.  The calls are those of [Sync.AsyncHandle], so that the
    argument is made once; what it needs of a handle is the class [LifeLaws], which
    the handles of both systems implement. *)

From S2P Require Import Prelude Utf8 Ports Errors Env Http HttpDecode.
From S2P Require Import Json JsonFormat RegistryAuth Effect Rollback Wait Request.
From S2P Require Import DockerApi Wire Sync.
From S2P Require DockerClient XpcClient ContainerCfg WaitState Container MacContainer Copy Runner MacRunner.

(** ** Calls on a handle *)

(** What ending a handle depends on: whether an explicit removal has succeeded, the
    environment, and the events of one removal.  [Particular] are the calls only one
    system has. *)
Class Removals `{Host} (C : Type) `{!AsyncHandle C} := {
  removed : C -> bool;
  environment_keeps : bool;
  removal_events : Trace -> str -> Trace;
  well_named : str -> Prop;
  Particular : Type;
  particular : Particular -> C -> M unit;
}.

(** The public operations of a handle that leave it to its owner. *)
Inductive Call `{Host} {C : Type} `{!AsyncHandle C} `{!Removals C} :=
| CallPorts
| CallHostPortIpv4 (p : ContainerPort)
| CallHostPortIpv6 (p : ContainerPort)
| CallBridgeIp
| CallContainerState
| CallIsRunning
| CallExitCode
| CallCopyFileFrom (source : str)
    (copy_from_reader : result IoError (list byte) -> result CopyFromContainerError unit)
| CallExec (cmd : ExecCommand)
| CallStopWithTimeout (timeout_seconds : option Z)
| CallStart
| CallParticular (p : Particular (C := C)).
Arguments Call {_} C {_ _}.

Section Life.
Context `{Host} {C : Type} `{!AsyncHandle C} `{!Removals C}.

(** The call, and the handle after it; its result is the caller's. *)
Definition ignoring {A} (h : C) (m : M A) : M C := _ ← attempt m; mret h.
Definition call (u : Call C) (h : C) : M C :=
  match u with
  | CallPorts => ignoring h (handle_ports h)
  | CallHostPortIpv4 p => ignoring h (handle_host_port_ipv4 h p)
  | CallHostPortIpv6 p => ignoring h (handle_host_port_ipv6 h p)
  | CallBridgeIp => ignoring h (handle_bridge_ip h)
  | CallContainerState => ignoring h (handle_container_state h)
  | CallIsRunning => ignoring h (handle_is_running h)
  | CallExitCode => ignoring h (handle_exit_code h)
  | CallCopyFileFrom source f => ignoring h (handle_copy_file_from h source f)
  | CallExec cmd => ignoring h (handle_exec h cmd)
  | CallStopWithTimeout t => ignoring h (handle_stop_with_timeout h t)
  | CallStart => r ← attempt (handle_start h); mret match r with Ok (h', _) => h' | Err _ => h end
  | CallParticular p => ignoring h (particular p h)
  end.

(** The same container, as long as it is: what no call changes. *)
Definition same_owner (h h' : C) : Prop := handle_id h' = handle_id h /\ removed h' = removed h.

(** The life of a handle so far: calls that returned, and calls that were cancelled
    by their caller at some point, after which its log source and wait state may be
    anything. *)
Inductive used : C -> Trace -> C -> Trace -> Prop :=
| used_not h tr : used h tr h tr
| used_call u sc h tr h1 tr1 h' tr' :
    call u h sc tr = (Done (Ok h1), tr1) -> used h1 tr1 h' tr' -> used h tr h' tr'
| used_cancelled u sc h tr h1 tr1 h' tr' :
    call u h sc tr = (Cancelled, tr1) -> same_owner h h1 -> used h1 tr1 h' tr' -> used h tr h' tr'.

(** One removal among [evs], after [tr], and nothing else deleted. *)
Definition removed_once (id : str) (tr evs : Trace) : Prop :=
  exists before after, evs = before ++ removal_events (tr ++ before) id ++ after /\
    deletions before = [] /\ deletions after = [].

(** What dropping a handle removes. *)
Definition gated (h : C) (tr evs : Trace) : Prop :=
  if removed h || environment_keeps then deletions evs = [] else removed_once (handle_id h) tr evs.

(** What an explicit removal sends: one removal, and, when that failed, what the drop
    does. *)
Definition removed_by (h : C) (r : Result unit) (tr evs : Trace) : Prop :=
  exists before after, evs = before ++ removal_events (tr ++ before) (handle_id h) ++ after /\
    deletions before = [] /\
    match r with
    | Ok _ => deletions after = []
    | Err _ => gated h (tr ++ before ++ removal_events (tr ++ before) (handle_id h)) after
    end.

Class LifeLaws := {
  ports_law (h : C) : Spares (handle_ports h);
  port4_law (h : C) p : Spares (handle_host_port_ipv4 h p);
  port6_law (h : C) p : Spares (handle_host_port_ipv6 h p);
  bridge_law (h : C) : Spares (handle_bridge_ip h);
  state_law (h : C) : Spares (handle_container_state h);
  running_law (h : C) : Spares (handle_is_running h);
  exit_code_law (h : C) : Spares (handle_exit_code h);
  copy_law (h : C) A source f : Spares (handle_copy_file_from (A := A) h source f);
  exec_law (h : C) cmd : Spares (handle_exec h cmd);
  stop_law (h : C) t : Spares (handle_stop_with_timeout h t);
  particular_law (h : C) p : Spares (particular p h);
  start_law (h : C) : Spares (handle_start h);
  start_same (h : C) sc tr h' r tr' : handle_start h sc tr = (Done (Ok (h', r)), tr') -> same_owner h h';
  drop_law in_runtime (h : C) tr : well_named (handle_id h) ->
    exists evs, handle_drop in_runtime h None tr = (Done (Ok tt), tr ++ evs) /\ gated h tr evs;
  rm_law in_runtime (h : C) tr : well_named (handle_id h) ->
    exists r evs, handle_rm in_runtime h None tr = (Done r, tr ++ evs) /\ removed_by h r tr evs /\
      handle_rm_blocking in_runtime h None tr = (Done r, tr ++ evs);
}.

#[local] Existing Instances ports_law port4_law port6_law bridge_law state_law running_law exit_code_law
  copy_law exec_law stop_law particular_law start_law.
Context {laws : LifeLaws}.

#[export] Instance call_spares u h : Spares (call u h).
Proof. destruct u; unfold call, ignoring; apply _. Qed.

Lemma call_same u h sc tr h1 tr1 : call u h sc tr = (Done (Ok h1), tr1) -> same_owner h h1.
Proof.
  destruct u; cbn [call]; unfold ignoring; intros E; apply bind_ok in E as (r & tr2 & Er & E);
    apply mret_ok in E as [<- _]; try done.
  apply attempt_inv in Er. destruct r as [[h' r]|]; [by eapply start_same | done].
Qed.

Lemma same_owner_trans h1 h2 h3 : same_owner h1 h2 -> same_owner h2 h3 -> same_owner h1 h3.
Proof. intros [Hi Hr] [Hi' Hr']. split; congruence. Qed.

(** Nothing is deleted while a handle lives. *)
Lemma used_spared h tr h' tr' : used h tr h' tr' ->
  same_owner h h' /\ exists evs, tr' = tr ++ evs /\ deletions evs = [].
Proof.
  assert (forall u sc h tr o tr1, call u h sc tr = (o, tr1) -> exists evs, tr1 = tr ++ evs /\ deletions evs = []) as Hs.
  { intros u sc h0 tr0 o tr1 E. destruct (spares (m := call u h0) sc tr0) as (evs & E' & Hs%deletions_spared).
    exists evs. split; [|done]. by rewrite E in E'. }
  induction 1 as [|u sc h tr h1 tr1 h' tr' E _ [Ho (evs & -> & Hd)]|u sc h tr h1 tr1 h' tr' E Ho1 _ [Ho (evs & -> & Hd)]].
  - split; [done|]. exists []. by rewrite app_nil_r.
  - destruct (Hs _ _ _ _ _ _ E) as (evs1 & -> & Hd1). apply call_same in E.
    split; [by eapply same_owner_trans|]. exists (evs1 ++ evs). by rewrite app_assoc, deletions_app, Hd1.
  - destruct (Hs _ _ _ _ _ _ E) as (evs1 & -> & Hd1).
    split; [by eapply same_owner_trans|]. exists (evs1 ++ evs). by rewrite app_assoc, deletions_app, Hd1.
Qed.

(** How a life ends, of a handle that was not removed and owns the container [id]. *)
Lemma life_ends h0 tr0 h tr : used h0 tr0 h tr -> removed h0 = false -> well_named (handle_id h0) ->
  (exists evs, tr = tr0 ++ evs /\ deletions evs = []) /\
  forall in_runtime,
    (exists evs, handle_drop in_runtime h None tr = (Done (Ok tt), tr ++ evs) /\
       if environment_keeps then deletions evs = [] else removed_once (handle_id h0) tr evs) /\
    (exists r evs, handle_rm in_runtime h None tr = (Done r, tr ++ evs) /\
       handle_rm_blocking in_runtime h None tr = (Done r, tr ++ evs) /\ removed_by h0 r tr evs).
Proof.
  intros Hu Hr Hn. destruct (used_spared _ _ _ _ Hu) as [[Hi Hr'] He]. split; [done|]. intros in_runtime.
  rewrite <- Hi in Hn. split.
  - destruct (drop_law in_runtime h tr Hn) as (evs & E & Hg). exists evs. split; [done|].
    unfold gated in Hg. by rewrite Hr', Hr, Hi in Hg.
  - destruct (rm_law in_runtime h tr Hn) as (r & evs & E & Hg & E'). exists r, evs. split_and!; [done..|].
    unfold removed_by, gated in *. by rewrite Hr', Hi in Hg.
Qed.
End Life.

(** ** Linux *)

Section Linux.
Context `{Host} `{JsonLib} `{HttpEncoder} `{Base64}.
Context (env : Environment) (parse_ip : str -> result str str) (fuel : nat).

#[local] Instance linux_handle : AsyncHandle Container.ContainerAsync := LinuxHandle env parse_ip fuel.

(** The calls of this system only. *)
Inductive PauseCall := Pause | Unpause.

#[local] Instance linux_removals : Removals Container.ContainerAsync := {|
  removed := Container.dropped;
  environment_keeps := if command env is Keep then true else false;
  removal_events _ id := [Runner.removal id];
  well_named _ := True;
  Particular := PauseCall;
  particular p c := match p with Pause => Container.pause c | Unpause => Container.unpause c end;
|}.

Lemma linux_gated c tr before : deletions before = [] ->
  gated c tr (before ++ Container.drop_removal env c).
Proof.
  intros Hb. unfold gated, Container.drop_removal. cbn.
  destruct (Container.dropped c); cbn; [by rewrite app_nil_r|]. destruct (command env); cbn.
  - exists before, []. by split.
  - by rewrite app_nil_r.
Qed.

Lemma linux_start_same c sc tr c' r tr' :
  handle_start c sc tr = (Done (Ok (c', r)), tr') -> same_owner c c'.
Proof.
  cbn. unfold Container.start. intros E. apply bind_ok in E as (c1 & tr1 & Er & E).
  assert (same_owner c c1) as Hs.
  { clear E. unfold Container.restart in Er. apply bind_ok in Er as (st & tr2 & _ & Er).
    destruct (negb _); [|by apply mret_ok in Er as [<- _]].
    apply bind_ok in Er as (c2 & tr3 & Ef & Er). unfold Container.reset_wait_state_and_respawn in Er.
    destruct (WaitState.bump _) as [g ws]. apply bind_ok in Er as ([] & tr4 & _ & Er).
    apply mret_ok in Er as [<- _].
    pose proof (Container.refresh_log_streams_spec c sc tr2) as Hf. cbv zeta in Hf. rewrite Ef in Hf.
    by destruct Hf as (events & source & _ & _ & ->). }
  apply bind_ok in E as (r1 & tr2 & _ & E). by apply mret_ok in E as [[= <- _] _].
Qed.

#[local] Existing Instances Container.ports_orderly Container.exit_code_orderly Container.handle_start_orderly
  Container.copy_file_from_orderly Container.exec_orderly Container.handle_state_orderly
  DockerClient.inspect_json_orderly DockerClient.container_state_orderly DockerClient.stop_orderly
  DockerClient.pause_orderly DockerClient.unpause_orderly.
#[local] Hint Opaque Container.ports Container.exit_code Container.start Container.copy_file_from Container.exec
  Container.container_state DockerClient.inspect_json DockerClient.container_state DockerClient.stop
  DockerClient.pause DockerClient.unpause : typeclass_instances.

#[local] Instance linux_life : LifeLaws (C := Container.ContainerAsync).
Proof.
  split.
  1-12: intros; cbn; unfold Container.get_host_port_ipv4, Container.get_host_port_ipv6,
    DockerClient.bridge_ip_address, DockerClient.body_or, Container.is_running, Container.stop_with_timeout,
    Container.stop_log_delivery, Container.pause, Container.unpause; apply _.
  - apply linux_start_same.
  - intros in_runtime c tr _. destruct (Container.drop_eq env in_runtime c None tr) as (k & _ & E).
    eexists. split; [exact E|]. rewrite app_assoc. apply linux_gated.
    by rewrite deletions_app, Runner.deletions_stop_events, Runner.deletions_log_sleeps.
  - intros in_runtime c tr _. destruct (Container.rm_with_eq env DockerClient.remove in_runtime c None tr)
      as (k & _ & E); [by rewrite DockerClient.remove_one|].
    eexists _, _. split; [cbn; unfold Container.rm; rewrite E, <- !app_assoc; reflexivity|].
    split; [|cbn; unfold Container.rm; rewrite Container.rm_blocking_rm; unfold Container.rm; by rewrite E, <- !app_assoc].
    eexists _, _. split; [reflexivity|]. split; [apply Runner.deletions_stop_events|].
    destruct (Container.removal_answer c _) as [[]|e].
    + by rewrite app_nil_r, deletions_app, Runner.deletions_stop_events, Runner.deletions_log_sleeps.
    + rewrite (app_assoc (Container.stop_events c)). apply linux_gated.
      by rewrite deletions_app, Runner.deletions_stop_events, Runner.deletions_log_sleeps.
Qed.
End Linux.

(** ** macOS *)

Section Mac.
Context `{Host} `{JsonLib} `{JsonFormatter} `{HttpEncoder} `{Base64} `{XpcClient.ExecPipes}.
Context (env : Environment) (parse_ip : str -> result str str) (is_ipv6 : str -> bool).
Context (unique_suffix : Trace -> str) (cwd : result str str) (temp_dir : str) (dup : Z -> bool) (fuel : nat).

#[local] Instance mac_handle : AsyncHandle MacContainer.ContainerAsync :=
  MacHandle env parse_ip is_ipv6 unique_suffix cwd temp_dir dup fuel.

#[local] Instance mac_removals : Removals MacContainer.ContainerAsync := {|
  removed := MacContainer.dropped;
  environment_keeps := if command env is Keep then true else false;
  removal_events := XpcClient.removal_events;
  well_named id := contains x00 id = false;
  Particular := Empty_set;
  particular p _ := match p with end;
|}.

Lemma mac_gated c tr before : deletions before = [] ->
  gated c tr (before ++ MacContainer.drop_removal env (tr ++ before) c).
Proof.
  intros Hb. unfold gated, MacContainer.drop_removal. cbn.
  destruct (MacContainer.dropped c); cbn; [by rewrite app_nil_r|]. destruct (command env); cbn.
  - exists before, []. rewrite app_nil_r. by split.
  - by rewrite app_nil_r.
Qed.

Lemma mac_start_same c sc tr c' r tr' :
  handle_start c sc tr = (Done (Ok (c', r)), tr') -> same_owner c c'.
Proof.
  cbn. unfold MacContainer.start. intros E. apply bind_ok in E as ([c1 r1] & tr1 & Er & E).
  assert (same_owner c c1) as Hs.
  { clear E. unfold MacContainer.restart in Er. apply bind_ok in Er as (st & tr2 & _ & Er).
    destruct (running st); [by apply mret_ok in Er as [[= <- _] _]|].
    apply bind_ok in Er as ([] & tr3 & _ & Er). apply bind_ok in Er as ([] & tr4 & _ & Er).
    apply bind_ok in Er as (c2 & tr5 & Eb & Er). unfold MacContainer.reset_wait_state_and_respawn in Eb.
    destruct (WaitState.bump _) as [g ws]. apply bind_ok in Eb as ([] & tr6 & _ & Eb).
    apply mret_ok in Eb as [<- _]. apply bind_ok in Er as (r2 & tr7 & Ef%attempt_inv & Er).
    destruct r2 as [c3|e].
    - apply mret_ok in Er as [[= <- _] _]. unfold MacContainer.refresh_log_streams in Ef.
      apply bind_ok in Ef as ([out err] & ? & _ & Ef). apply bind_ok in Ef as ([] & ? & _ & Ef).
      apply bind_ok in Ef as (flag & ? & _ & Ef). apply bind_ok in Ef as ([] & ? & _ & Ef).
      cbv zeta in Ef. apply bind_ok in Ef as ([] & ? & _ & Ef). by apply mret_ok in Ef as [<- _].
    - apply bind_ok in Er as (? & ? & _ & Er). by apply mret_ok in Er as [[= <- _] _]. }
  destruct r1 as [[]|e]; [apply bind_ok in E as (r2 & tr2 & _ & E)|]; by apply mret_ok in E as [[= <- _] _].
Qed.

#[local] Existing Instances MacContainer.ports_spares MacContainer.exit_code_spares MacContainer.handle_start_spares
  MacContainer.copy_file_from_spares MacContainer.exec_spares MacContainer.handle_state_spares
  MacContainer.stop_spares MacContainer.is_running_spares XpcClient.network_address_serves Xpc.serves_spares.
#[local] Hint Opaque MacContainer.ports MacContainer.exit_code MacContainer.start MacContainer.copy_file_from
  MacContainer.exec MacContainer.container_state MacContainer.stop_with_timeout MacContainer.is_running
  XpcClient.network_address : typeclass_instances.

#[local] Instance mac_life : LifeLaws (C := MacContainer.ContainerAsync).
Proof.
  split.
  1-12: intros; cbn; unfold MacContainer.get_host_port_ipv4, MacContainer.get_host_port_ipv6,
    XpcClient.bridge_ip_address; apply _.
  - apply mac_start_same.
  - intros in_runtime c tr Hn. eexists. split; [by apply (MacContainer.mac_drop_eq env c None tr)|].
    apply mac_gated. apply MacRunner.deletions_shutdown.
  - intros in_runtime c tr Hn. pose proof (MacContainer.rm_eq env c tr Hn) as E. cbv zeta in E.
    rewrite <- !app_assoc in E. eexists _, _. split; [exact E|].
    split; [|cbn; by rewrite MacContainer.mac_rm_blocking_rm].
    exists [EvStopLogs c.(MacContainer.log_stop)]. eexists. split; [reflexivity|]. split; [done|].
    destruct (XpcClient.removal_answer _ _) as [[]|e].
    + rewrite app_nil_r. apply MacRunner.deletions_shutdown.
    + set (stop := [EvStopLogs _]) in *. set (asked := XpcClient.removal_events _ _).
      replace (tr ++ stop ++ asked ++ MacContainer.shutdown c) with ((tr ++ stop ++ asked) ++ MacContainer.shutdown c)
        by by rewrite <- !app_assoc.
      apply (mac_gated c (tr ++ stop ++ asked)), MacRunner.deletions_shutdown.
Qed.
End Mac.

(** ** Containers do not outlive their handles *)

(** C3: The whole life of a container on Linux, whatever the daemon answers.  A
    container that a start created and whose handle was then used in any way, by any
    calls of its interface with any outcome, cancelled ones included, was not deleted by
    any of them.  When the handle is dropped, the container is asked to be removed by
    force, once, and nothing else is, or nothing at all with
    [TESTCONTAINERS_COMMAND=keep]; an explicit removal, asynchronous or blocking, asks
    once in either case, and a second time only when it failed and containers are not
    kept. *)
Theorem linux_container_removed `{Host} `{JsonLib} `{HttpEncoder} `{Base64} `{Copy.FileSystem} env read_to_string
    parse_ip walk_fuel fuel (req : ContainerRequest) tr c0 started c ended
    (handle := LinuxHandle env parse_ip fuel) (ends := linux_removals env parse_ip fuel)
    (dropped_removal := fun id => if command env is Remove then [Runner.removal id] else []) :
  Runner.start env read_to_string (fun s => to_ok (parse_ip s)) walk_fuel fuel req None tr = (Done (Ok c0), started) ->
  used c0 started c ended ->
  let id := c0.(Container.id) in
  exists created life, Runner.create env read_to_string req None tr = (Done (Ok id), created) /\
    ended = created ++ life /\ deletions life = [] /\
    forall in_runtime,
      (exists evs, Container.drop env in_runtime c None ended = (Done (Ok tt), ended ++ evs) /\
         deletions evs = dropped_removal id) /\
      (exists r evs, Container.rm env in_runtime c None ended = (Done r, ended ++ evs) /\
         Container.rm_blocking env in_runtime c None ended = (Done r, ended ++ evs) /\
         deletions evs = Runner.removal id :: match r with Ok _ => [] | Err _ => dropped_removal id end).
Proof.
  intros Es Hu id.
  pose proof (Runner.start_run_fresh _ _ _ _ _ _ _ _ _ Es) as (created & life & Ec & -> & Hl & Hd).
  destruct (life_ends (laws := linux_life env parse_ip fuel) _ _ _ _ Hu Hd I) as [(evs & -> & He) Hend].
  exists created, (life ++ evs). rewrite app_assoc, deletions_app, Hl, He. split_and!; [done..|].
  intros in_runtime. destruct (Hend in_runtime) as [(evs1 & E1 & Hd1) (r & evs2 & E2 & E2' & Hr2)]. split.
  - exists evs1. split; [exact E1|]. unfold dropped_removal. cbn in Hd1. destruct (command env); [|done].
    destruct Hd1 as (before & after & -> & Hb & Ha). by rewrite !deletions_app, Hb, Ha.
  - exists r, evs2. split; [exact E2|]. split; [exact E2'|]. destruct Hr2 as (before & after & -> & Hb & Ha).
    rewrite !deletions_app, Hb. cbn. f_equal. destruct r as [[]|e]; [done|].
    unfold gated, dropped_removal in *. cbn in Ha. rewrite Hd in Ha. destruct (command env); [|done].
    destruct Ha as (before' & after' & -> & Hb' & Ha'). by rewrite !deletions_app, Hb', Ha'.
Qed.

(** C4: The whole life of a container on macOS, whatever the service answers.  A container
    that a start created and whose handle was then used in any way, by any calls of its
    interface with any outcome, cancelled ones included, was not deleted by any of them.
    When the handle is dropped, one removal is tried and nothing else is deleted, or
    nothing is with [TESTCONTAINERS_COMMAND=keep]; an explicit removal, asynchronous or
    blocking, tries once in either case, and the drop that follows it tries a second time
    only when it failed and containers are not kept.  To try is to connect to the service
    and, when that works, to send one forced [containerDelete] with the name of the
    container; a service that cannot be connected to is asked for nothing. *)
Theorem mac_container_removed `{Host} `{JsonLib} `{!XpcClient.JsonText} `{JsonFormatter} `{HttpEncoder} `{Base64}
    `{XpcClient.ExecPipes} `{ContainerCfg.FreePorts} os fuel (req : ContainerRequest) cwd temp_dir dup call_fuel
    tr c0 started c ended (env := os.(MacRunner.environment))
    (handle := MacHandle env os.(MacRunner.parse_ip) os.(MacRunner.is_ipv6) os.(MacRunner.unique_suffix_at)
                 cwd temp_dir dup call_fuel)
    (ends := mac_removals env os.(MacRunner.parse_ip) os.(MacRunner.is_ipv6) os.(MacRunner.unique_suffix_at)
               cwd temp_dir dup call_fuel) :
  MacRunner.start os fuel req None tr = (Done (Ok c0), started) ->
  used c0 started c ended ->
  let id := c0.(MacContainer.id) in
  exists plan planned life, MacRunner.prepare os req None tr = (Done (Ok plan), planned) /\
    id = plan.(MacRunner.plan_id) /\ ended = planned ++ life /\ deletions life = [] /\
    (exists evs, MacContainer.drop env c None ended = (Done (Ok tt), ended ++ evs) /\
       if command env is Remove then removed_once id ended evs else deletions evs = []) /\
    (exists r evs, MacContainer.rm env c None ended = (Done r, ended ++ evs) /\
       MacContainer.rm_blocking env c None ended = (Done r, ended ++ evs) /\ removed_by c0 r ended evs).
Proof.
  intros Es Hu id.
  pose proof (MacRunner.mac_start_fresh _ _ _ _ _ _ Es) as (plan & planned & life & Ep & Hi & Hn & -> & Hl & Hd).
  destruct (life_ends (laws := mac_life env os.(MacRunner.parse_ip) os.(MacRunner.is_ipv6)
    os.(MacRunner.unique_suffix_at) cwd temp_dir dup call_fuel) _ _ _ _ Hu Hd Hn) as [(evs & -> & He) Hend].
  exists plan, planned, (life ++ evs). rewrite app_assoc, deletions_app, Hl, He. split_and!; [done..| |].
  - destruct (Hend true) as [(evs1 & E1 & Hd1) _]. exists evs1. split; [exact E1|].
    cbn in Hd1. by destruct (command env).
  - destruct (Hend true) as [_ (r & evs2 & E2 & E2' & Hr2)]. by exists r, evs2.
Qed.

(** ** Two lives *)

Section Samples.
Definition no_ip (_ : str) : result str str := Err (lit "invalid IP address syntax").

#[local] Existing Instances Runner.start_host Runner.SampleEncoder Runner.SampleBase64 Copy.SampleFS.
#[local] Instance sample_handle : AsyncHandle Container.ContainerAsync := LinuxHandle (fun _ => None) no_ip 3.
#[local] Instance sample_ends : Removals Container.ContainerAsync := linux_removals (fun _ => None) no_ip 3.

Definition linux_started : Out Container.ContainerAsync * Trace :=
  Runner.start (fun _ => None) (fun _ => None) (fun s => to_ok (no_ip s)) 3 3 Runner.sample_request None [].

(** A container on Linux that was to be paused and stopped, by calls that failed. *)
Lemma linux_container_removed_witness : exists c0 started c ended,
  linux_started = (Done (Ok c0), started) /\ used c0 started c ended /\
  length ended = (3 + length started)%nat /\
  exists evs, Container.drop (fun _ => None) true c None ended = (Done (Ok tt), ended ++ evs) /\
    deletions evs = [Runner.removal (lit "c1")].
Proof.
  assert (exists c0 started c ended, linux_started = (Done (Ok c0), started) /\ c0.(Container.id) = lit "c1" /\
    used c0 started c ended /\ length ended = (3 + length started)%nat) as (c0 & started & c & ended & E & Hi & Hu & Hl).
  { do 4 eexists. split; [vm_compute; reflexivity|]. split; [reflexivity|]. split.
    - eapply (used_call (@CallParticular _ _ sample_handle sample_ends Pause) None); [vm_compute; reflexivity|].
      eapply (used_call (CallStopWithTimeout (Some 1)) None); [vm_compute; reflexivity|]. apply used_not.
    - vm_compute. reflexivity. }
  exists c0, started, c, ended. split; [exact E|]. split; [exact Hu|]. split; [exact Hl|].
  destruct (linux_container_removed (fun _ => None) (fun _ => None) no_ip 3 3 Runner.sample_request [] c0 started
    c ended E Hu) as (created & life & _ & _ & _ & Hend).
  destruct (Hend true) as [(evs & Ed & Hd) _]. exists evs. split; [exact Ed|]. rewrite Hi in Hd. exact Hd.
Defined.
End Samples.

Section MacSamples.
#[local] Instance sample_service : Host := MacRunner.sample_service false.
#[local] Existing Instances MacRunner.SampleText MacRunner.SampleEncoder MacRunner.SampleBase64
  MacRunner.SamplePipes ContainerCfg.ephemeral.
#[local] Instance mac_sample_handle : AsyncHandle MacContainer.ContainerAsync :=
  MacHandle (fun _ => None) no_ip (fun _ => false) (fun _ => lit "1-2-3") (Ok (lit "/work")) (lit "/tmp") (fun _ => true) 3.
#[local] Instance mac_sample_ends : Removals MacContainer.ContainerAsync :=
  mac_removals (fun _ => None) no_ip (fun _ => false) (fun _ => lit "1-2-3") (Ok (lit "/work")) (lit "/tmp") (fun _ => true) 3.

(** A container on macOS that was stopped and started again. *)
Lemma mac_container_removed_witness : exists c0 started c ended,
  MacRunner.sample_start false = (Done (Ok c0), started) /\ used c0 started c ended /\
  (length started < length ended)%nat /\
  exists evs, MacContainer.drop (fun _ => None) c None ended = (Done (Ok tt), ended ++ evs) /\
    removed_once (lit "web") ended evs.
Proof.
  assert (exists c0 started c ended, MacRunner.sample_start false = (Done (Ok c0), started) /\
    c0.(MacContainer.id) = lit "web" /\ used c0 started c ended /\ (length started < length ended)%nat)
    as (c0 & started & c & ended & E & Hi & Hu & Hl).
  { do 4 eexists. split; [vm_compute; reflexivity|]. split; [reflexivity|]. split.
    - eapply (used_call (CallStopWithTimeout (Some 1)) None); [vm_compute; reflexivity|].
      eapply (used_call CallStart None); [vm_compute; reflexivity|]. apply used_not.
    - apply Nat.ltb_lt. vm_compute. reflexivity. }
  exists c0, started, c, ended. split; [exact E|]. split; [exact Hu|]. split; [exact Hl|].
  destruct (mac_container_removed MacRunner.sample_platform 3 ContainerCfg.sample_request (Ok (lit "/work"))
    (lit "/tmp") (fun _ => true) 3 [] c0 started c ended E Hu) as (plan & planned & life & _ & _ & _ & _ & (evs & Ed & Hd) & _).
  exists evs. split; [exact Ed|]. rewrite Hi in Hd. exact Hd.
Defined.
End MacSamples.
