(* ===== verification/Requests.v ===== *)
(** * Every request of a life on Linux ([src/src/core/client/docker_client.rs])

    The two encoders in full, over the third-party builder of requests, and that nothing
    the crate ever sends is refused by it: every request of a start, of any use of the
    handle, of its waiters, of its logs and of its end is well formed ([Wire.well_formed]): a
    call of the API with no other segments and parameters than that call has, whatever
    names, paths, answers and credentials went into it.  So the programs of [DockerClient.v] may send
    requests as they are, without the error of their encoding. *)

From S2P Require Import Prelude Errors Env Json RegistryAuth Effect Wait Request DockerApi Wire Sync.
From S2P Require DockerClient LogSession LogReaders Container Copy Runner Lifetime.

(** ** The encoders *)

Section Encode.
Context `{HttpEncoder}.

(** [Request::header], field by field. *)
Fixpoint set_headers (headers : list (str * str)) : result str unit :=
  match headers with
  | [] => Ok tt
  | (name, value) :: headers => _ ← set_header name value; set_headers headers
  end.

Definition set_body (body : option (list byte * str)) : result str unit :=
  match body with
  | Some (b, content_type) =>
      _ ← set_header (lit "Content-Type") content_type; set_header (lit "Content-Length") (show_nat (len b))
  | None => Ok tt
  end.

Definition encode_docker_api_request_with_headers (method path : str) (body : option (list byte * str))
    (extra_headers : list (str * str)) : Result (list byte) :=
  DockerClient.http11_err (
    _ ← method_new method;
    _ ← request_new method path;
    _ ← set_header (lit "Host") (lit "localhost");
    _ ← set_header (lit "Connection") (lit "close");
    _ ← set_headers extra_headers;
    _ ← set_body body;
    encode (DockerClient.encode_docker_api_request_with_headers method path body extra_headers)).

Definition encode_docker_api_request (method path : str) (body : option (list byte * str)) : Result (list byte) :=
  DockerClient.http11_err (
    _ ← method_new method;
    _ ← request_new method path;
    _ ← set_header (lit "Host") (lit "localhost");
    _ ← set_header (lit "Connection") (lit "close");
    _ ← set_body body;
    encode (DockerClient.encode_docker_api_request method path body)).

(** What both do with the request they build. *)
Definition encode_request (r : HttpRequest) : Result (list byte) :=
  DockerClient.http11_err (
    _ ← method_new r.(req_method);
    _ ← request_new r.(req_method) r.(req_path);
    _ ← set_headers r.(req_headers);
    encode r).

Lemma set_headers_app hs hs' : set_headers (hs ++ hs') = (_ ← set_headers hs; set_headers hs').
Proof. induction hs as [|[n v] hs IH]; [done|]. cbn. destruct (set_header n v); [exact IH|done]. Qed.

Ltac next_field := match goal with |- context [set_header ?n ?v] => destruct (set_header n v); [cbn|done] end.

Lemma encode_docker_api_request_with_headers_eq method path body extra_headers :
  encode_docker_api_request_with_headers method path body extra_headers =
    encode_request (DockerClient.encode_docker_api_request_with_headers method path body extra_headers).
Proof.
  unfold encode_docker_api_request_with_headers, encode_request.
  cbn [req_method req_path req_headers DockerClient.encode_docker_api_request_with_headers].
  unfold DockerClient.base_headers. rewrite !set_headers_app. cbn [app set_headers].
  destruct (method_new method); [cbn|done]. destruct (request_new method path); [cbn|done].
  do 2 next_field. destruct (set_headers extra_headers); [cbn|done].
  destruct body as [[b ct]|]; [|done]. cbn. by do 2 next_field.
Qed.
Lemma encode_docker_api_request_eq method path body :
  encode_docker_api_request method path body = encode_request (DockerClient.encode_docker_api_request method path body).
Proof. exact (encode_docker_api_request_with_headers_eq method path body []). Qed.
End Encode.

(** What the builder accepts: the grammar of RFC 9110 and RFC 9112. *)
Class HttpEncoderLaws `(HttpEncoder) := {
  method_accepted m : token_ok m = true -> method_new m = Ok tt;
  request_accepted m path : token_ok m = true -> target_ok path = true -> request_new m path = Ok tt;
  header_accepted name value : token_ok name = true -> forallb visible value = true -> set_header name value = Ok tt;
  well_formed_encoded r : well_formed (forallb visible) r = true -> exists bytes, encode r = Ok bytes;
}.

(** Well formed, and encoded without an error. *)
Definition encodable `{HttpEncoder} (r : HttpRequest) : Prop :=
  well_formed (forallb visible) r = true /\ exists bytes, encode_request r = Ok bytes.

Lemma well_formed_encodable `{HttpEncoderLaws} r : well_formed (forallb visible) r = true -> encodable r.
Proof.
  intros Hr. split; [done|]. destruct (well_formed_encoded r Hr) as [bytes E]. exists bytes.
  apply andb_prop in Hr as [[[Hm Hp]%andb_prop _]%andb_prop Hh]. apply bool_decide_eq_true in Hm.
  assert (token_ok (req_method r) = true) as Ht.
  { repeat apply elem_of_cons in Hm as [->|Hm]; [vm_compute; reflexivity..|by apply elem_of_nil in Hm]. }
  unfold encode_request. rewrite method_accepted, request_accepted by done. cbn.
  replace (set_headers (req_headers r)) with (Ok (E := str) tt); [cbn; by rewrite E|].
  induction (req_headers r) as [|[n v] hs IH]; [done|]. cbn in *. apply andb_prop in Hh as [[Hn Hv]%andb_prop Hh].
  cbn in Hn, Hv. rewrite header_accepted; [by apply IH|done|]. by case_bool_decide.
Qed.

Definition all_encodable `{HttpEncoder} (evs : Trace) : Prop :=
  Forall (fun ev => match ev with EvRequest r _ => encodable r | _ => True end) evs.

Lemma sendable_all `{HttpEncoderLaws} `{Host} {A} (m : M A) `{!Sendable (forallb visible) m} sc tr :
  exists evs, (m sc tr).2 = tr ++ evs /\ all_encodable evs.
Proof.
  destruct (emits (P := sendable (forallb visible)) (m := m) sc tr) as (evs & E & Hs). exists evs. split; [done|].
  eapply Forall_impl; [exact Hs|]. intros [] Hev; try done. by apply well_formed_encodable.
Qed.

(** ** Removals *)

Lemma removal_sendable `{Host} auth id force limit :
  Sendable auth (send_request
    (DockerClient.encode_docker_api_request (lit "DELETE") (DockerClient.remove_path id force) None) limit).
Proof.
  apply perform_emits. unfold sendable, well_formed.
  cbn [req_method req_path req_headers DockerClient.encode_docker_api_request].
  assert (forallb (field_ok auth) (DockerClient.base_headers ++ DockerClient.body_headers None) = true) as ->
    by (vm_compute; reflexivity).
  rewrite DockerClient.addressed_remove. unfold DockerClient.remove_path.
  rewrite target_app; [done|apply DockerClient.target_container_path|visible].
Qed.
#[export] Hint Extern 3 (Emits (sendable _)
    (send_request (DockerClient.encode_docker_api_request (lit "DELETE") _ _) _)) =>
  apply removal_sendable : typeclass_instances.

(** ** A life *)

Section Linux.
Context `{Host} `{JsonLib} `{HttpEncoder} `{Base64} `{Copy.FileSystem}.
Context (env : Environment) (read_to_string : str -> option str) (parse_ip : str -> result str str) (fuel : nat).
Context (auth : str -> bool).

#[local] Instance handle : AsyncHandle Container.ContainerAsync := LinuxHandle env parse_ip fuel.
#[local] Instance ends : Lifetime.Removals Container.ContainerAsync := Lifetime.linux_removals env parse_ip fuel.
#[local] Existing Instances Container.ports_orderly Container.exit_code_orderly Container.handle_start_orderly
  Container.copy_file_from_orderly Container.exec_orderly Container.handle_state_orderly
  DockerClient.inspect_json_orderly DockerClient.container_state_orderly DockerClient.stop_orderly
  DockerClient.pause_orderly DockerClient.unpause_orderly DockerClient.start_container_orderly
  DockerClient.spawn_log_session_orderly Runner.create_orderly Runner.copy_to_sources_orderly
  Runner.ready_sequence_orderly.
#[local] Hint Opaque Container.ports Container.exit_code Container.start Container.copy_file_from Container.exec
  Container.container_state DockerClient.inspect_json DockerClient.container_state DockerClient.stop
  DockerClient.pause DockerClient.unpause : typeclass_instances.

#[export] Instance call_sendable (u : Lifetime.Call Container.ContainerAsync) c : Sendable auth (Lifetime.call u c).
Proof.
  apply orderly_sendable. destruct u; unfold Lifetime.call, Lifetime.ignoring; cbn;
    unfold Container.get_host_port_ipv4, Container.get_host_port_ipv6,
    DockerClient.bridge_ip_address, DockerClient.body_or, Container.is_running, Container.stop_with_timeout,
    Container.stop_log_delivery, Container.pause, Container.unpause; apply _.
Qed.

#[export] Instance remove_sendable id f : Sendable auth (DockerClient.remove id f).
Proof.
  unfold DockerClient.remove, DockerClient.request, DockerClient.request_with_body_limit, DockerClient.client_other.
  apply _.
Qed.
#[export] Instance remove_blocking_sendable id f : Sendable auth (DockerClient.remove_blocking id f).
Proof. unfold DockerClient.remove_blocking, DockerClient.client_other. apply _. Qed.
#[export] Instance drop_sendable in_runtime c : Sendable auth (Container.drop env in_runtime c).
Proof.
  assert (forall n s, Sendable auth (Container.await_logs n s)) as Ha.
  { intros n s. induction n; cbn [Container.await_logs]; apply _. }
  unfold Container.drop, Container.stop_log_delivery, Container.drop_remove. apply _.
Qed.
#[export] Instance rm_sendable in_runtime c : Sendable auth (Container.rm env in_runtime c).
Proof. unfold Container.rm, Container.rm_with, Container.stop_log_delivery. apply _. Qed.
#[export] Instance rm_blocking_sendable in_runtime c : Sendable auth (Container.rm_blocking env in_runtime c).
Proof. unfold Container.rm_blocking, Container.rm_with, Container.stop_log_delivery. apply _. Qed.

#[export] Instance waiter_sendable id generation : Sendable auth (Container.spawn_exit_code_waiter id generation).
Proof.
  assert (Sendable auth (DockerClient.wait_blocking id)) by apply orderly_sendable, DockerClient.wait_blocking_orderly.
  unfold Container.spawn_exit_code_waiter, WaitState.exit_code_waiter. apply _.
Qed.

#[local] Hint Opaque DockerClient.remove DockerClient.remove_blocking Container.drop Container.rm Runner.create
  Runner.ready_sequence Runner.or_rollback Runner.start_linux_log_stream
  Runner.run_ready_sequence Copy.copy_to_sources_linux DockerClient.start_container
  DockerClient.spawn_log_session : typeclass_instances.
#[local] Instance or_rollback_sendable id (m : M unit) : Orderly auth m -> Sendable auth (Runner.or_rollback env id m).
Proof. intros Hm. unfold Runner.or_rollback, Runner.rollback_remove. apply _. Qed.
#[local] Instance log_stream_sendable id consumers required :
  Sendable auth (Runner.start_linux_log_stream env id consumers required).
Proof. unfold Runner.start_linux_log_stream, Runner.rollback_remove. apply _. Qed.
#[local] Instance ready_sendable c d ws :
  Sendable auth (Runner.run_ready_sequence env (fun s => to_ok (parse_ip s)) fuel c d ws).
Proof. unfold Runner.run_ready_sequence, Runner.cleanup_on_ready_failure. apply _. Qed.
#[export] Instance start_sendable `{!Authorizes auth} walk_fuel req :
  Sendable auth (Runner.start env read_to_string (fun s => to_ok (parse_ip s)) walk_fuel fuel req).
Proof. unfold Runner.start. cbv zeta. apply _. Qed.
End Linux.

Lemma sends_trans `{HttpEncoder} (tr tr1 tr2 : Trace) :
  (exists evs, tr1 = tr ++ evs /\ all_encodable evs) -> (exists evs, tr2 = tr1 ++ evs /\ all_encodable evs) ->
  exists evs, tr2 = tr ++ evs /\ all_encodable evs.
Proof.
  intros (evs & -> & Ha) (evs' & -> & Ha'). exists (evs ++ evs'). rewrite app_assoc.
  split; [done|]. by apply Forall_app.
Qed.
Lemma get_well_formed auth path : target_ok path = true -> addressed (lit "GET") path = true ->
  well_formed auth (DockerClient.get_request path) = true.
Proof.
  intros Hp Ha. unfold well_formed, DockerClient.get_request.
  cbn [req_method req_path req_headers DockerClient.encode_docker_api_request].
  rewrite Hp, Ha. vm_compute. reflexivity.
Qed.

(** The logs of a container, of a session and of a one-shot reader. *)
Definition logs_query (follow : bool) : list (str * str) :=
  [(lit "stdout", lit "1"); (lit "stderr", lit "1"); (lit "follow", json_bool follow); (lit "tail", lit "all")].
Definition logs_target (follow : bool) (id : str) : str :=
  if follow then LogSession.logs_path id else LogReaders.oneshot_path id.
Lemma written_logs follow id :
  written (logs_target follow id) (DockerClient.containers id [lit "logs"]) (logs_query follow).
Proof.
  unfold DockerClient.containers, logs_query. destruct follow; unfold logs_target, LogSession.logs_path, LogReaders.oneshot_path; written.
Qed.
Lemma logs_well_formed auth follow id : well_formed auth (DockerClient.get_request (logs_target follow id)) = true.
Proof.
  apply get_well_formed; [destruct follow; unfold logs_target, LogSession.logs_path, LogReaders.oneshot_path; visible|].
  eapply written_addressed; [apply written_logs | by destruct follow].
Qed.

(** C5: Nothing can break out of its place in a request.  Whatever a container, an image or a
    path is called, whatever the daemon answers and whatever the user's credentials are,
    every request of a start, however it ends, of any use of the handle, of its drop or
    removal, of its waiter threads and of its logs is a call of the API ([Wire.endpoints]):
    read by the grammar of RFC 3986, its target has the segments and the query parameters
    of that call and no more, and its header fields hold nothing but visible characters; so
    the encoder accepts it, and no operation fails for want of a request.  And what reads
    back in the places of a target is the text that was put there: the name of the
    container whatever it holds, the name and the platform asked for. *)
Theorem requests_encodable `{Host} `{JsonLib} `{HttpEncoderLaws} `{Base64Text} `{Copy.FileSystem} env read_to_string
    parse_ip walk_fuel fuel (req : ContainerRequest)
    (handle := LinuxHandle env parse_ip fuel) (ends := Lifetime.linux_removals env parse_ip fuel)
    (sends := fun tr tr' : Trace => exists evs, tr' = tr ++ evs /\ all_encodable evs) :
  (forall sc tr,
     sends tr (Runner.start env read_to_string (fun s => to_ok (parse_ip s)) walk_fuel fuel req sc tr).2) /\
  (forall c tr c' tr', Lifetime.used c tr c' tr' -> sends tr tr') /\
  (forall in_runtime c sc tr,
     sends tr (Container.drop env in_runtime c sc tr).2 /\ sends tr (Container.rm env in_runtime c sc tr).2 /\
     sends tr (Container.rm_blocking env in_runtime c sc tr).2) /\
  (forall id generation sc tr, sends tr (Container.spawn_exit_code_waiter id generation sc tr).2) /\
  (forall follow id, encodable (DockerClient.get_request (logs_target follow id))) /\
  (forall id op, forallb unreserved op = true ->
     read_target (DockerClient.container_path id ++ lit "/" ++ op) = Some (mkTarget [lit "containers"; id; op] [])) /\
  (forall id force, read_target (DockerClient.remove_path id force) =
     Some (mkTarget [lit "containers"; id] [(lit "force", json_bool force)])) /\
  (forall config, read_target (DockerClient.create_path config) =
     Some (mkTarget [lit "containers"; lit "create"] (DockerClient.create_query config))).
Proof.
  split; [intros sc tr; apply (sendable_all _)|]. split; [|split; [intros; split_and!; apply (sendable_all _)|]].
  - assert (forall u c sc tr o tr', Lifetime.call u c sc tr = (o, tr') -> sends tr tr') as Hc.
    { intros u c sc tr o tr' E. change tr' with (o, tr').2. rewrite <- E.
      apply (sendable_all _ (Sendable0 := call_sendable env parse_ip fuel (forallb visible) u c)). }
    intros c tr c' tr' Hu. induction Hu as [c tr|u sc c tr c1 tr1 c' tr' E _ IH|u sc c tr c1 tr1 c' tr' E _ _ IH].
    + exists []. rewrite app_nil_r. split; [done|constructor].
    + by eapply sends_trans; [eapply Hc|].
    + by eapply sends_trans; [eapply Hc|].
  - split; [intros; apply (sendable_all _)|]. split; [intros; apply well_formed_encodable, logs_well_formed|].
    split_and!; intros; apply written_read.
    + split; [done|]. unfold DockerClient.container_path, show_path, show_query. cbn [join fmap list_fmap].
      rewrite (percent_unreserved op), app_nil_r, <- !app_assoc by done. reflexivity.
    + apply DockerClient.written_remove.
    + apply DockerClient.written_create.
Qed.

(** ** A hostile daemon *)

Section Samples.
(** An encoder that refuses what it should, and base 16. *)
Definition checked_as (ok : bool) : result str unit := if ok then Ok tt else Err (lit "invalid").
#[local] Instance StrictEncoder : HttpEncoder := {|
  method_new m := checked_as (token_ok m);
  request_new _ path := checked_as (target_ok path);
  header_name_new name := checked_as (token_ok name);
  set_header name value := checked_as (token_ok name && forallb visible value);
  encode r := Ok (r.(req_method) ++ lit " " ++ r.(req_path) ++ lit " HTTP/1.1");
|}.
#[local] Instance StrictEncoder_laws : HttpEncoderLaws StrictEncoder.
Proof.
  split; cbn; unfold checked_as.
  - by intros m ->.
  - by intros m path _ ->.
  - by intros name value -> ->.
  - intros r _. by eexists.
Qed.

Fixpoint from_hex (s : str) : option (list byte) :=
  match s with
  | [] => Some []
  | h :: l :: s => x ← hex_value h; y ← hex_value l; t ← from_hex s; Some (as_u8 (16 * x + y) :: t)
  | _ => None
  end.
#[local] Instance Base16 : Base64 := {|
  encode_string s := concat ((fun b => [hex_upper (u8 b / 16); hex_upper (u8 b mod 16)]) <$> s);
  decode_vec := from_hex;
|}.
#[local] Instance Base16_text : Base64Text Base16.
Proof.
  split. intros s. induction s as [|b s IH]; [constructor|]. cbn [encode_string Base16 fmap list_fmap concat app].
  assert (forall b, is_ascii_alphanumeric (hex_upper (u8 b / 16)) &&
    is_ascii_alphanumeric (hex_upper (u8 b mod 16)) = true) as Hb by (apply byte_forall; vm_compute; reflexivity).
  specialize (Hb b). apply andb_prop in Hb as [? ?]. constructor; [by left|]. constructor; [by left|]. exact IH.
Qed.

(** The image has to be pulled, with credentials, and the id of the container is made to
    look like two more lines of the request. *)
Definition hostile_id : str := lit "c/../x?force=1 HTTP/1.1" ++ [x0d; x0a] ++ lit "Evil: 1".
Definition hostile_host : Host := script_host
  [answer 404 []; answer 200 []; answer 200 []; answer 201 (print (JObj [(lit "Id", JStr hostile_id)])); answer 500 []].
Definition docker_config : Environment := fun name =>
  if bool_decide (name = lit "DOCKER_AUTH_CONFIG") then
    Some (print (JObj [(lit "auths", JObj [(DOCKER_HUB_AUTH_KEY,
      JObj [(lit "auth", JStr (encode_string (lit "user:pass")))])])]))
  else None.

Definition hostile_run : Out Container.ContainerAsync * Trace :=
  @Runner.start hostile_host DomJson StrictEncoder Base16 Copy.SampleFS docker_config (fun _ => None)
    (fun s => to_ok (Lifetime.no_ip s)) 3 3 Runner.sample_request None [].

Definition carries_auth (ev : Event) : bool :=
  match ev with
  | EvRequest r _ => existsb (fun h => bool_decide (h.1 = lit "X-Registry-Auth")) r.(req_headers)
  | _ => false
  end.

Lemma requests_encodable_witness : exists e before,
  hostile_run = (Done (Err e), before ++ [Runner.removal hostile_id]) /\ existsb carries_auth before = true /\
  all_encodable (before ++ [Runner.removal hostile_id]).
Proof.
  destruct (@requests_encodable hostile_host DomJson StrictEncoder StrictEncoder_laws Base16 Base16_text
    Copy.SampleFS docker_config (fun _ => None) Lifetime.no_ip 3 3 Runner.sample_request) as (Hs & _).
  assert (exists e before, hostile_run = (Done (Err e), before ++ [Runner.removal hostile_id]) /\
    existsb carries_auth before = true) as (e & before & E & Hb).
  { let r := eval vm_compute in hostile_run in
    match r with (Done (Err ?e), ?tr) => let b := eval vm_compute in (removelast tr) in exists e, b end.
    split; vm_compute; reflexivity. }
  exists e, before. split; [exact E|]. split; [exact Hb|].
  destruct (Hs None []) as (evs & E' & Ha). change (hostile_run.2 = evs) in E'. rewrite E in E'. cbn [snd] in E'.
  rewrite E'. exact Ha.
Defined.
End Samples.
